(* ===== verification/_CoqProject ===== *)
-Q . S2P
Prelude.v
GoLib.v
Pipeline.v
Types.v
Store.v
Scheduler.v
Protocol.v
Advance.v
Consistency.v
Refinement.v
Logs.v
Ops.v
LogOrder.v
Monitor.v
InvCheck.v
Demo.v
Metrics.v
SchedulerSpec.v
PipelineSpec.v
Submit.v
Migrate.v
Artifact.v
LocalStore.v
LocalSpec.v
DockerFiles.v
Api.v
Router.v
ApiSpec.v
ApiExamples.v
Logship.v
LogshipInv.v
LogshipSpec.v
LogshipServer.v
Client.v
ClientSpec.v
EndToEnd.v
Serving.v
ArtifactTrip.v
SourceTrip.v
Agent.v
AgentSpec.v
Docker.v
DockerSpec.v
DockerHelpers.v
Fake.v
Remote.v
OpenStore.v
RemoteSpec.v
Cli.v
CliSpec.v
CliClient.v
CliClientSpec.v
CliFollow.v
CliServer.v
CliDownload.v
CliBundle.v
Env.v
ServerCmd.v
RunnerCmd.v
Boot.v
Harness.v
HarnessClient.v
