(* ===== verification/Prelude.v ===== *)
(** * Quarry: a verification development

    Quarry is a continuous-integration system in Go.  A control plane accepts pipelines
    over HTTP, keeps runs and jobs in SQLite and hands jobs to runners under leases;
    runners claim jobs, run them in an executor, stream their logs, upload artifacts and
    report results.  Both sides retry over an unreliable network, so nearly every rule of
    the program is about an operation that happens once although it is asked for many
    times, or about a result that must not count because its attempt was superseded.

    ** The program and the files that model it

    - Prelude, GoLib: record update, the state-and-error monad, stable sorting, and what
      the sources use of the Go language and library (int64, durations, strings, decimal
      and hexadecimal text).
    - Pipeline, PipelineSpec (src/internal/pipeline): parsing, validation and the
      topological order of a pipeline document; the YAML decoder is a parameter.
    - Types, Store (src/internal/store): the rows of the tables and one definition per
      statement-carrying method, each statement an update of rows with its WHERE guard;
      the database, the clock, the random source and the metrics are the record World;
      Tx commits or rolls back.
    - Scheduler (src/internal/scheduler): claim, heartbeat, completion, cancellation, DAG
      advancement, log ingestion and the lease monitor's Tick.
    - Protocol: the abstract specification of the scheduler, guarded steps on the job and
      run rows.  Advance, Consistency, Refinement, Logs, Ops: the scheduler refines it.
      InvCheck, Demo: the invariant decided on a concrete database.  SchedulerSpec: the
      theorems.  LogOrder: which tables a call leaves alone outside one attempt, and what
      the stored log of a job looks like when its batches are shipped in order, possibly
      more than once.  Monitor: the loop around Tick.
    - Submit (src/internal/api/submit.go): submission of an accepted pipeline.
    - Artifact (src/internal/artifact): keys, path validation and the contract of a blob
      store as the classes BlobOps and BlobStore.  LocalStore, LocalSpec
      (src/internal/artifact/local): the filesystem store over a file tree with failures,
      an instance of the contract.
    - Api, ApiSpec, ApiExamples (src/internal/api): every handler and the middleware over
      the scheduler's world and any blob store.  Router: the pattern table of api.New and
      how the mux matches the URLs the runner builds.
    - Logship, LogshipInv, LogshipSpec (src/internal/logship): the log shipper, its
      goroutines as the events of a transition function.  LogshipServer: its batches on a
      server that cuts logs at the log cap.
    - Client, ClientSpec (src/internal/agent/client.go): the runner's HTTP client over an
      abstract network, clock and file system.  EndToEnd: the client against the handlers
      of Api through a network that loses messages.
    - Serving, ArtifactTrip, SourceTrip: the server over any history of requests,
      submissions and monitor passes; an uploaded artifact along such a history, up to its
      download; and the way of a submitted source bundle to the runner.
    - Metrics (src/internal/metrics): both metric sets with their registration, and the
      collector over the scheduler's snapshot.
    - Agent, AgentSpec (src/internal/agent/agent.go): the runner, whose attempts carry
      their contexts and their shipper.
    - Docker, DockerFiles, DockerSpec, DockerHelpers (src/internal/executor/docker): the
      executor over an arbitrary daemon, whose every answer may depend on the calls made
      so far; Run with its deferred cleanup, artifact extraction onto the host's file
      tree, Reap, and the pure helpers.
    - Remote, RemoteSpec (src/internal/artifact/remote): the object store over HTTP; what
      its coordinator documents is the record coordinator, with an in-memory instance.
    - Fake (src/internal/executor/fake.go): the scripted executor, its runs interleaved.
    - Migrate (src/internal/store/migrate.go): the schema migrations.  OpenStore
      (src/internal/store/store.go): Open with the name, the pool, the ping and the
      migrations.
    - Cli, CliSpec (src/internal/cli/render.go): the wire types, the order of the jobs and
      the tables with their column writer.  CliClient, CliClientSpec (client.go, cli.go):
      the command-line client and its commands over an abstract network.  CliFollow: logs
      -f against any server that keeps the rules of the class LogService.  CliServer: the
      handlers of Api behind a lossy network keep them.  CliDownload: the downloads over
      the file tree of LocalStore.  CliBundle (bundle.go): the bundle of a workspace and
      quarry run.
    - Env, ServerCmd, RunnerCmd (src/cmd): the environment with time.ParseDuration, the
      configuration of both daemons, and what they start and end.  Boot (with
      src/internal/version): the entry points on a machine, where what fails is what the
      modelled calls answer.
    - Harness, HarnessClient (src/internal/harness): a whole deployment in one process, its
      life cycle as operations on a state with a trace of what is started and ended; the
      failing store as an instance of BlobStore; the client, the waits and LogText.

    ** How the code is modelled

    A method that reads and writes shared state and returns an error is a function from
    the state to a result and the new state.  Goroutines are events of a transition
    function, one per critical section or channel operation, so that a run is a list of
    events and a theorem about every list is a theorem about every interleaving.  Machine
    integers are Z with the wrap-around written where the code can reach it.  Code outside
    the repository is a parameter: the codecs of the standard library are the records
    Codecs and Wire, the network and the clock the class Net, a blob store the class
    BlobStore, file-system failures the record Faults; what a theorem needs of them is a
    named hypothesis or a law of the class, and the witnesses instantiate them.

    ** What the theorems show

    - The scheduler refines the protocol; terminal rows are final; a lost attempt is
      fenced; a result is applied once; attempt numbers are never reused; a run's
      state is the verdict of its jobs and an unfinished run has work; claim,
      heartbeat, completion, cancellation, advancement, monitor and logs do to each
      row what the code's rules prescribe.
    - Parse accepts exactly the valid documents and the order is topological.
    - The API keeps the invariant, asks for the token, answers completions by the
      fence, refuses late uploads and cleans up after a failed submission as far as
      the blob store lets it.  Over a whole history the database stays consistent, an
      uploaded artifact is what a download returns unless it was uploaded again, and a
      submitted source bundle is what the runner downloads.
    - A scrape exports exactly the queued jobs by their labels and the runners by
      state.
    - The filesystem store is a map from keys to bytes that replaces objects
      atomically and stays under its root; ValidatePath accepts exactly the plain
      relative paths.
    - The shipper delivers chunks unaltered and in order, accounts for every dropped
      byte, stays within its bounds, stops when stale, and its final flush ends unless
      the sink keeps failing; when Close returns nil the server holds what was
      shipped, up to the server's log cap.
    - The runner respects its capacity, reports an attempt once, after its last chunk,
      with a verdict the server accepts, and a success only after exit code 0 and the
      confirmed upload of what was collected; its URLs reach the right handlers;
      connection losses are outlasted; and a report over a lossy network is applied at
      most once and does end.
    - The Docker executor removes what it creates on every path, reports what the
      daemon reported, writes only below the artifact directory, delivers those of the
      declared files that the container has, and reaps what a crash left; its script
      echoes every step as written; a memory limit is exact as long as it fits in 64
      bits.
    - The remote store is a map from keys to bytes whatever messages are lost, weaker
      than the filesystem store in one respect: a Put or Delete that fails because a
      reply was lost may have happened.  Its retries end.
    - An interrupted migration is completed by the next start; opening the store is
      all or nothing.
    - The command-line client retries what it should, and a few things more; watch
      exits with the run's verdict; the jobs are listed in the pipeline's own order;
      logs -f against the server prints the stored log without gap or repetition and
      ends; a download stays below its directory and leaves only files with the listed
      sum; the bundle is the workspace.
    - The configuration of a server reaches its scheduler, the lease time cut down to
      milliseconds; a server closes its store last, and serves only when store,
      artifacts and listener are ready; a runner has cleaned up before it claims;
      labels survive printing and parsing.
    - Whatever a test does and wherever it fails, the harness joins every goroutine it
      started, in order; LogText returns the stored log or reports a gap in it; muting
      drops the heartbeats of a runner and nothing else it needs.

    ** Fuel and bounds

    The topological sort and advance loop get one round per job and one more, and a
    theorem shows that is enough.  The loops of the shipper that seal chunks get one round
    per byte.  The retry loops of the client, which may wait for ever for a connection, get
    a number of rounds as a parameter, and the theorems say how many are enough.  The
    final flush is shown to end within six steps per chunk.  The retries of the remote
    store get one round per attempt and one more, its listing one page per stored object
    and one more, and both are shown to end within that.  Following a log takes a round
    per message lost or call awaited and three more; a duration is parsed in as many
    rounds as it has characters.  LogText needs two rounds.

    ** Not modelled

    What SQLite does with a statement (write errors of the database itself are outside the
    model, except when it is opened and migrated), the Docker daemon and its client library,
    flag parsing, the Prometheus exposition format, logging, symbolic links in the tree a
    download writes to.  The benchmark and recording scripts, the early experiment under
    spike and the examples are not part of the system: they drive it from outside, and their
    own logic is floating-point statistics and process control. *)

From Stdlib Require Export ZArith Lia.
From stdpp Require Export sorting base strings tactics gmap fin_maps list.

#[export] Set Default Goal Selector "!".
#[export] Set Warnings "-clear-no-such-hyp".

Declare Scope quarry_scope.
Delimit Scope quarry_scope with quarry.
Open Scope Z_scope.

(** ** Record update *)

(** [Setter f] is the functional update of the record field [f].  Every
    state record of the development gives one instance per field, so that a
    Go assignment [x.F = v] and a SQL [SET f = v] read [x <| F := v |>]. *)
Class Setter {R T : Type} (f : R → T) := setf : T → R → R.
Arguments setf {R T} f {_} v r : simpl nomatch.

Notation "r <| f := v |>" := (setf f v r)
  (at level 1, f at level 8, v at level 60,
   format "r  <|  f  :=  v  |>") : quarry_scope.
Open Scope quarry_scope.

(** ** The state-and-error monad

    A Go method that reads and writes shared state and returns [(T, error)]
    is a function from the state to a result and the new state.  The state is
    kept on an error: rolling back is the job of the transaction wrapper, as
    in the source. *)
Definition M (S E A : Type) : Type := S → (E + A) * S.

Section monad.
Context {S E : Type}.

#[export] Instance M_ret : MRet (M S E) := λ A a s, (inr a, s).
#[export] Instance M_bind : MBind (M S E) := λ A B f m s,
  match m s with
  | (inl e, s') => (inl e, s')
  | (inr a, s') => f a s'
  end.
#[export] Instance M_throw : MThrow E (M S E) := λ A e s, (inl e, s).

Definition mget : M S E S := λ s, (inr s, s).
Definition mput (s : S) : M S E unit := λ _, (inr tt, s).
Definition mmodify (f : S → S) : M S E unit := λ s, (inr tt, f s).

(** [for x := range l { acc = f x acc }] with an error return. *)
Fixpoint mfor {A B} (l : list A) (acc : B) (f : A → B → M S E B) : M S E B :=
  match l with
  | [] => mret acc
  | x :: l => acc' ← f x acc; mfor l acc' f
  end.

Lemma mbind_ret {A B} (a : A) (f : A → M S E B) s : (mret a ≫= f) s = f a s.
Proof. done. Qed.

Lemma mbind_assoc {A B C} (m : M S E A) (f : A → M S E B) (g : B → M S E C) s :
  (m ≫= λ a, f a ≫= g) s = ((m ≫= f) ≫= g) s.
Proof. unfold mbind, M_bind. by destruct (m s) as [[?|?] ?]. Qed.

Lemma mbind_ok {A B} (m : M S E A) (f : A → M S E B) s b s' :
  (m ≫= f) s = (inr b, s') ↔
  ∃ a s1, m s = (inr a, s1) ∧ f a s1 = (inr b, s').
Proof.
  unfold mbind, M_bind. destruct (m s) as [[e|a] s1]; split.
  - done.
  - by intros (? & ? & [= ] & _).
  - intros H. by exists a, s1.
  - by intros (? & ? & [= <- <-] & H).
Qed.

Lemma mbind_step {A B} (m : M S E A) (f : A → M S E B) s a s1 :
  m s = (inr a, s1) → (m ≫= f) s = f a s1.
Proof. unfold mbind, M_bind. by intros ->. Qed.

Lemma mbind_err {A B} (m : M S E A) (f : A → M S E B) s e s1 :
  m s = (inl e, s1) → (m ≫= f) s = (inl e, s1).
Proof. unfold mbind, M_bind. by intros ->. Qed.

(** Invariant rule of [mfor] for successful runs. *)
Lemma mfor_ok_ind {A B} (I : list A → B → S → Prop) (f : A → B → M S E B) l acc s b s' :
  (∀ x l' acc acc' s1 s2, I (x :: l') acc s1 →
     f x acc s1 = (inr acc', s2) → I l' acc' s2) →
  I l acc s → mfor l acc f s = (inr b, s') → I [] b s'.
Proof.
  intros Hstep. revert acc s. induction l as [|x l IH]; intros acc s HI; simpl.
  - by intros [= <- <-].
  - intros (acc' & s1 & H1 & H2)%mbind_ok. eauto.
Qed.

(** Totality rule of [mfor]: every iteration returns and keeps [I]. *)
Lemma mfor_total {A B} (I : list A → B → S → Prop) (f : A → B → M S E B) l acc s :
  (∀ x l' acc s1, I (x :: l') acc s1 →
     ∃ acc' s2, f x acc s1 = (inr acc', s2) ∧ I l' acc' s2) →
  I l acc s → ∃ b s', mfor l acc f s = (inr b, s') ∧ I [] b s'.
Proof.
  intros Hstep. revert acc s. induction l as [|x l IH]; intros acc s HI; simpl.
  - by exists acc, s.
  - destruct (Hstep _ _ _ _ HI) as (acc' & s2 & Hf & HI').
    destruct (IH _ _ HI') as (b & s' & Hm & Hb).
    exists b, s'. split; [|done]. rewrite (mbind_step _ _ _ _ _ Hf). done.
Qed.
End monad.

(** [minv H] decomposes a hypothesis that a chain of binds returned. *)
Ltac minv1 H :=
  lazymatch type of H with
  | (mbind _ _) _ = (inr _, _) =>
      let H1 := fresh "Hm" in
      apply mbind_ok in H; destruct H as (? & ? & H1 & H)
  | mret _ _ = (inr _, _) => unfold mret, M_ret in H; simplify_eq
  end.
Ltac minv H := repeat minv1 H.

(** ** Stable sorting

    [ORDER BY key, rowid] is a stable sort of the table in rowid order, and
    [sort.Strings]/[sort.Slice] on distinct keys is the same function. *)
Section order_by.
Context {A : Type} (leb : A → A → bool).

Fixpoint insert_by (x : A) (l : list A) : list A :=
  match l with
  | [] => [x]
  | y :: l' => if leb x y then x :: l else y :: insert_by x l'
  end.
Definition order_by (l : list A) : list A := foldr insert_by [] l.

Lemma insert_by_perm x l : insert_by x l ≡ₚ x :: l.
Proof.
  induction l as [|y l IH]; simpl; [done|]. destruct (leb x y); [done|].
  rewrite IH. apply Permutation_swap.
Qed.

Lemma order_by_perm l : order_by l ≡ₚ l.
Proof. induction l; simpl; [done|]. rewrite insert_by_perm. by f_equiv. Qed.

Lemma elem_of_order_by x l : x ∈ order_by l ↔ x ∈ l.
Proof. by rewrite order_by_perm. Qed.

Lemma length_order_by l : length (order_by l) = length l.
Proof. by rewrite order_by_perm. Qed.

Context (leb_total : ∀ x y, leb x y = true ∨ leb y x = true)
        (leb_trans : ∀ x y z, leb x y = true → leb y z = true → leb x z = true).

Let R (x y : A) : Prop := leb x y = true.

Lemma insert_by_sorted x l : StronglySorted R l → StronglySorted R (insert_by x l).
Proof.
  induction 1 as [|y l Hs IH Hf]; simpl; [by repeat constructor|].
  destruct (leb x y) eqn:E.
  - constructor; [by constructor|]. constructor; [done|].
    eapply Forall_impl; [exact Hf|]. intros z Hz. by eapply leb_trans.
  - constructor; [done|]. rewrite insert_by_perm. constructor; [|done].
    unfold R. destruct (leb_total x y); congruence.
Qed.

Lemma order_by_sorted l : StronglySorted R (order_by l).
Proof. induction l; simpl; [constructor|]. by apply insert_by_sorted. Qed.

Lemma order_by_id l : StronglySorted R l → order_by l = l.
Proof.
  induction 1 as [|y l Hs IH Hf]; simpl; [done|]. rewrite IH.
  destruct l as [|z l]; simpl; [done|]. inversion Hf; subst.
  unfold R in *. by destruct (leb y z).
Qed.

(** Stability: rows the order does not separate keep their table order. *)
Lemma order_by_stable (P : A → bool) l :
  (∀ x y, P x = true → P y = true → leb x y = true) →
  List.filter P (order_by l) = List.filter P l.
Proof.
  intros HP. induction l as [|x l IH]; simpl; [done|].
  assert (∀ k, List.filter P (insert_by x k) = List.filter P (x :: k)) as Hi.
  { induction k as [|y k IHk]; simpl; [done|]. destruct (leb x y) eqn:E; [done|].
    simpl. rewrite IHk. simpl. destruct (P x) eqn:Px, (P y) eqn:Py; try done.
    by rewrite HP in E. }
  rewrite Hi. simpl. by rewrite IH.
Qed.
End order_by.

Lemma filter_ext_in {A} (P Q : A → Prop) `{!∀ x, Decision (P x), !∀ x, Decision (Q x)} (l : list A) :
  (∀ x, x ∈ l → P x ↔ Q x) → filter P l = filter Q l.
Proof.
  induction l as [|x l IH]; intros Hl; [done|]. rewrite !filter_cons, IH by (intros; apply Hl; by right).
  pose proof (Hl x ltac:(by left)). repeat case_decide; naive_solver.
Qed.

(** Building a map by successive insertion, for any key and value functions. *)
Section fold_insert.
Context {A V : Type} (k : A → string) (v : A → V).

Lemma fold_insert_other l (m : gmap string V) id :
  id ∉ k <$> l → foldl (λ m x, <[k x := v x]> m) m l !! id = m !! id.
Proof.
  revert m. induction l as [|x l IH]; intros m Hn; [done|]. simpl.
  rewrite fmap_cons, not_elem_of_cons in Hn. destruct Hn as [Hx Hn].
  rewrite IH by done. by rewrite lookup_insert_ne.
Qed.

Lemma fold_insert_in l (m : gmap string V) x :
  NoDup (k <$> l) → x ∈ l → foldl (λ m x, <[k x := v x]> m) m l !! k x = Some (v x).
Proof.
  revert m. induction l as [|y l IH]; intros m Hnd Hx; [by apply elem_of_nil in Hx|]. simpl.
  rewrite fmap_cons in Hnd. apply NoDup_cons in Hnd as [Hy Hnd].
  apply elem_of_cons in Hx as [->|Hx]; [|by apply IH].
  rewrite fold_insert_other by done. by rewrite lookup_insert_eq.
Qed.
End fold_insert.

(** ** Tables

    A table is the list of its rows in rowid order.  The three statement
    shapes the store issues against one: SELECT … WHERE, UPDATE … SET … WHERE
    (all matching rows) and the affected-row count. *)
Definition sql_select {R} (P : R → bool) (t : list R) : list R := List.filter P t.
Definition sql_row {R} (P : R → bool) (t : list R) : option R := List.find P t.
Definition sql_update {R} (P : R → bool) (f : R → R) (t : list R) : list R :=
  (λ r, if P r then f r else r) <$> t.
Definition sql_count {R} (P : R → bool) (t : list R) : nat := length (sql_select P t).

Lemma elem_of_sql_select {R} (P : R → bool) (t : list R) r :
  r ∈ sql_select P t ↔ r ∈ t ∧ P r = true.
Proof. unfold sql_select. rewrite !list_elem_of_In. apply filter_In. Qed.

Lemma sql_row_Some {R} (P : R → bool) (t : list R) r :
  sql_row P t = Some r → r ∈ t ∧ P r = true.
Proof. intros H%find_some. by rewrite list_elem_of_In. Qed.

Lemma sql_row_None {R} (P : R → bool) (t : list R) :
  sql_row P t = None → ∀ r, r ∈ t → P r = false.
Proof. intros H r Hr. eapply find_none; [done|]. by apply list_elem_of_In. Qed.

Section keyed.
Context {R K : Type} `{EqDecision K} (key : R → K).
Implicit Types (t : list R) (k : K).

Definition by_key k : R → bool := λ r, bool_decide (key r = k).
Definition keys_unique t : Prop := NoDup (key <$> t).

Lemma by_key_row t k r :
  keys_unique t → r ∈ t → key r = k → sql_row (by_key k) t = Some r.
Proof.
  unfold keys_unique, by_key. intros Hnd Hr Hk.
  induction t as [|x t IH]; [by apply elem_of_nil in Hr|]. simpl.
  rewrite fmap_cons in Hnd. apply NoDup_cons in Hnd as [Hx Hnd].
  case_bool_decide as Hxk.
  - apply elem_of_cons in Hr as [->|Hr]; [done|].
    destruct Hx. rewrite Hxk, <-Hk. by apply list_elem_of_fmap_2.
  - apply elem_of_cons in Hr as [->|Hr]; [done|]. by apply IH.
Qed.

Lemma sql_row_key t k r : sql_row (by_key k) t = Some r → r ∈ t ∧ key r = k.
Proof. intros [? ?%bool_decide_eq_true]%sql_row_Some. done. Qed.

Lemma sql_row_iff t k r :
  keys_unique t → sql_row (by_key k) t = Some r ↔ r ∈ t ∧ key r = k.
Proof. intros Hu. split; [apply sql_row_key|]. intros []. by apply by_key_row. Qed.

Lemma sql_update_keys (P : R → bool) (f : R → R) t :
  (∀ r, P r = true → key (f r) = key r) → key <$> sql_update P f t = key <$> t.
Proof.
  intros Hf. unfold sql_update. rewrite <-list_fmap_compose.
  apply list_fmap_ext. intros i r _. simpl. destruct (P r) eqn:E; auto.
Qed.

Lemma sql_update_row (P : R → bool) (f : R → R) t k :
  (∀ r, P r = true → key (f r) = key r) →
  sql_row (by_key k) (sql_update P f t) =
  (λ r, if P r then f r else r) <$> sql_row (by_key k) t.
Proof.
  intros Hf. induction t as [|x t IH]; [done|]. unfold by_key in *. simpl.
  assert (key (if P x then f x else x) = key x) as ->.
  { destruct (P x) eqn:E; auto. }
  case_bool_decide; [done|]. apply IH.
Qed.

(** With a primary key, a statement guarded by [id = k AND Q] touches the row
    of [k] exactly when that row satisfies [Q]. *)
Lemma sql_count_key (Q : R → bool) t k :
  keys_unique t →
  sql_count (λ r, by_key k r && Q r) t =
  match sql_row (by_key k) t with
  | Some r => if Q r then 1%nat else 0%nat
  | None => 0%nat
  end.
Proof.
  unfold keys_unique, sql_count, sql_select, by_key. intros Hnd.
  induction t as [|x t IH]; [done|].
  rewrite fmap_cons in Hnd. apply NoDup_cons in Hnd as [Hx Hnd]. simpl.
  case_bool_decide as Hk; simpl; [|by apply IH].
  assert (List.filter (λ r, bool_decide (key r = k) && Q r) t = []) as Hnil.
  { destruct (List.filter _ t) as [|y l] eqn:E; [done|].
    assert (y ∈ sql_select (λ r, bool_decide (key r = k) && Q r) t) as Hy.
    { unfold sql_select. rewrite E. left. }
    apply elem_of_sql_select in Hy as [Hy [Hyk%bool_decide_eq_true _]%andb_true_iff].
    destruct Hx. rewrite Hk, <-Hyk. by apply list_elem_of_fmap_2. }
  destruct (Q x); simpl; by rewrite Hnil.
Qed.

Lemma sql_update_key (Q : R → bool) (f : R → R) t k r :
  keys_unique t → sql_row (by_key k) t = Some r → Q r = true →
  sql_update (λ x, by_key k x && Q x) f t = sql_update (by_key k) (λ _, f r) t.
Proof.
  intros Hu Hr HQ. unfold sql_update. apply list_fmap_ext. intros i x Hx%list_elem_of_lookup_2.
  unfold by_key in *. case_bool_decide as Hk; [|done]. simpl.
  assert (Some x = Some r) as [= ->] by (rewrite <-Hr; symmetry; by apply by_key_row).
  by rewrite HQ.
Qed.
End keyed.
Arguments by_key {R K _} key k r /.

Lemma elem_of_sql_update {R} (P : R → bool) (f : R → R) t r :
  r ∈ sql_update P f t ↔ ∃ r0, r0 ∈ t ∧ r = (if P r0 then f r0 else r0).
Proof.
  unfold sql_update. rewrite list_elem_of_fmap.
  split; intros (r0 & ? & ?); by exists r0.
Qed.

Lemma sql_update_select_none {R} (P : R → bool) (f : R → R) t :
  sql_count P t = 0%nat → sql_update P f t = t.
Proof.
  unfold sql_count, sql_select, sql_update.
  induction t as [|x t IH]; simpl; [done|]. destruct (P x) eqn:E; simpl; [done|].
  intros H. f_equal. by apply IH.
Qed.

Lemma sql_select_keys {R} (key : R → string) (P : R → bool) t :
  keys_unique key t → keys_unique key (sql_select P t).
Proof.
  unfold keys_unique, sql_select. induction t as [|x t IH]; intros Hnd; [done|].
  rewrite fmap_cons in Hnd. apply NoDup_cons in Hnd as [Hx Hnd]. simpl.
  destruct (P x); [|by apply IH]. rewrite fmap_cons. constructor; [|by apply IH].
  intros (y & E & Hy)%list_elem_of_fmap. destruct Hx.
  apply (elem_of_sql_select P) in Hy as [Hy _]. rewrite E. by apply list_elem_of_fmap_2.
Qed.
