(* ===== verification/GoLib.v ===== *)
(** * The parts of Go and of its standard library the sources use

    Go strings are byte sequences: [string] is the byte string (one [ascii]
    per byte).  [int] and [int64] are 64-bit two's complement; they are kept in
    [Z] and wrapped with [int64] where the source can overflow.  Durations are
    [Z] nanoseconds, timestamps [Z] Unix milliseconds. *)

From stdpp Require Import pretty.
From S2P Require Import Prelude.
From Stdlib Require Import Ascii String.

Local Open Scope Z_scope.

(** ** Machine integers and durations *)

Definition int64 (z : Z) : Z := (z + 2 ^ 63) mod 2 ^ 64 - 2 ^ 63.
Definition int64_min : Z := - 2 ^ 63.
Definition int64_max : Z := 2 ^ 63 - 1.
Definition in_int64 (z : Z) : Prop := int64_min ≤ z ≤ int64_max.

Lemma int64_id z : in_int64 z → int64 z = z.
Proof.
  unfold in_int64, int64, int64_min, int64_max. intros H.
  rewrite Z.mod_small; lia.
Qed.

Lemma int64_range z : in_int64 (int64 z).
Proof.
  unfold in_int64, int64, int64_min, int64_max.
  pose proof (Z.mod_pos_bound (z + 2 ^ 63) (2 ^ 64)). lia.
Qed.

Definition Millisecond : Z := 1000000.
Definition Second : Z := 1000 * Millisecond.
Definition Minute : Z := 60 * Second.

(** [time.Duration.Milliseconds]: integer division truncating toward zero. *)
Definition Milliseconds (d : Z) : Z := Z.quot d Millisecond.

(** ** Strings *)

Definition chr (n : N) : ascii := ascii_of_N n.
Definition byte_of (c : ascii) : N := N_of_ascii c.

Fixpoint HasPrefix (s p : string) : bool :=
  match p, s with
  | EmptyString, _ => true
  | String a p', String b s' => bool_decide (a = b) && HasPrefix s' p'
  | String _ _, EmptyString => false
  end.

(** [strings.Contains] for a one-byte separator, as the sources call it. *)
Fixpoint ContainsByte (s : string) (c : ascii) : bool :=
  match s with
  | EmptyString => false
  | String a s' => bool_decide (a = c) || ContainsByte s' c
  end.

(** [strings.Contains] for any needle. *)
Fixpoint Contains (s sub : string) : bool :=
  HasPrefix s sub ||
  match s with
  | EmptyString => false
  | String _ s' => Contains s' sub
  end.

(** [strings.CutPrefix]: the rest after the prefix, and whether it was there. *)
Fixpoint CutPrefix (s p : string) : option string :=
  match p, s with
  | EmptyString, _ => Some s
  | String a p', String b s' => if bool_decide (a = b) then CutPrefix s' p' else None
  | String _ _, EmptyString => None
  end.

Definition TrimPrefix (s p : string) : string := default s (CutPrefix s p).

(** [strings.CutSuffix], [strings.HasSuffix] and [strings.TrimSuffix]. *)
Fixpoint CutSuffix (s suf : string) : option string :=
  if bool_decide (s = suf) then Some EmptyString
  else match s with
       | EmptyString => None
       | String c s' => String c <$> CutSuffix s' suf
       end.
Definition HasSuffix (s suf : string) : bool := match CutSuffix s suf with Some _ => true | None => false end.
Definition TrimSuffix (s suf : string) : string := default s (CutSuffix s suf).

(** [strings.Split(s, sep)] for a one-byte [sep]: always non-empty. *)
Fixpoint Split (s : string) (sep : ascii) : list string :=
  match s with
  | EmptyString => [EmptyString]
  | String c s' =>
      if bool_decide (c = sep) then EmptyString :: Split s' sep
      else match Split s' sep with
           | [] => [String c EmptyString]
           | x :: l => String c x :: l
           end
  end.

Fixpoint Join (l : list string) (sep : string) : string :=
  match l with
  | [] => EmptyString
  | [x] => x
  | x :: l' => x +:+ sep +:+ Join l' sep
  end.

(** [strings.Cut(s, sep)] for a one-byte [sep]. *)
Fixpoint Cut (s : string) (sep : ascii) : string * string * bool :=
  match s with
  | EmptyString => (EmptyString, EmptyString, false)
  | String c s' =>
      if bool_decide (c = sep) then (EmptyString, s', true)
      else let '(a, b, ok) := Cut s' sep in (String c a, b, ok)
  end.

(** [strings.TrimSpace].  The bytes of the UTF-8 encoding of every code point
    with Unicode's White_Space property; the scan reads one rune at a time from
    each end, so matching these encodings at either end is what it does. *)
Definition space_encodings : list string :=
  let b := λ l, fold_right (λ n s, String (chr n) s) EmptyString l in
  [ b [9%N]; b [10%N]; b [11%N]; b [12%N]; b [13%N]; b [32%N];
    b [194; 133]%N; b [194; 160]%N; b [225; 154; 128]%N;
    b [226; 128; 128]%N; b [226; 128; 129]%N; b [226; 128; 130]%N; b [226; 128; 131]%N;
    b [226; 128; 132]%N; b [226; 128; 133]%N; b [226; 128; 134]%N; b [226; 128; 135]%N;
    b [226; 128; 136]%N; b [226; 128; 137]%N; b [226; 128; 138]%N;
    b [226; 128; 168]%N; b [226; 128; 169]%N; b [226; 128; 175]%N;
    b [226; 129; 159]%N; b [227; 128; 128]%N ].

Definition strip_one (encs : list string) (s : string) : option string :=
  foldr (λ e acc, match CutPrefix s e with Some r => Some r | None => acc end) None encs.

Fixpoint trim_left (fuel : nat) (encs : list string) (s : string) : string :=
  match fuel with
  | O => s
  | S fuel' => match strip_one encs s with Some r => trim_left fuel' encs r | None => s end
  end.

Definition TrimSpace (s : string) : string :=
  let l := trim_left (String.length s) space_encodings s in
  let r := trim_left (String.length l) (String.rev <$> space_encodings) (String.rev l) in
  String.rev r.

(** ** Numbers as text *)

(** [strconv.Itoa] / [strconv.FormatInt(_, 10)]. *)
Definition Itoa (z : Z) : string := pretty z.

Definition digit_of (c : ascii) : option Z :=
  let n := byte_of c in
  if bool_decide (48 ≤ n ≤ 57)%N then Some (Z.of_N n - 48) else None.

Fixpoint digits (acc : Z) (s : string) : option Z :=
  match s with
  | EmptyString => Some acc
  | String c s' => match digit_of c with
                   | Some d => digits (acc * 10 + d) s'
                   | None => None
                   end
  end.

(** [strconv.ParseInt(s, 10, 64)] and, on a 64-bit platform, [strconv.Atoi]:
    an optional sign, at least one digit, and the int64 range. *)
Definition ParseInt (s : string) : option Z :=
  let '(neg, rest) :=
    match s with
    | String c r =>
        if bool_decide (c = "-"%char) then (true, r)
        else if bool_decide (c = "+"%char) then (false, r) else (false, s)
    | EmptyString => (false, s)
    end in
  match rest with
  | EmptyString => None
  | _ => match digits 0 rest with
         | Some n => let z := if neg : bool then - n else n in
                     if bool_decide (in_int64 z) then Some z else None
         | None => None
         end
  end.

(** [encoding/hex.EncodeToString]. *)
Definition hex_digit (n : N) : ascii := if bool_decide (n < 10)%N then chr (48 + n)%N else chr (87 + n)%N.
Fixpoint hex_encode (b : list N) : string :=
  match b with
  | [] => EmptyString
  | x :: b' => String (hex_digit (x / 16)) (String (hex_digit (x mod 16)) (hex_encode b'))
  end.
