(* ===== verification/Pipeline.v ===== *)
(** * internal/pipeline: parsing, validation and the job DAG

    [Parse] decodes with the YAML library (a parameter: [yaml_decode]), applies
    defaults, validates and builds the indexes; [topo] is Kahn's algorithm.
    Pointers into [Pipeline.Jobs] are indices into the list. *)

From S2P Require Import Prelude GoLib.
From Stdlib Require Import SpecFloat.

Local Open Scope Z_scope.

(** DefaultTimeout applies to any job whose spec omits [timeout]. *)
Definition DefaultTimeout : Z := 30 * Minute.

(** [CPU] is a float64 (IEEE binary64 as in SpecFloat). *)
Record Resources := mkResources { rs_CPU : spec_float; rs_Memory : string }.

Record PJob := mkPJob {
  pj_Name : string;
  pj_Image : string;
  pj_Steps : list string;
  pj_Needs : list string;
  pj_Env : gmap string string;
  pj_Labels : gmap string string;
  pj_Artifacts : list string;
  pj_Timeout : Z;
  pj_Resources : Resources
}.

#[export] Instance set_pj_Timeout : Setter pj_Timeout := λ v j,
  mkPJob (pj_Name j) (pj_Image j) (pj_Steps j) (pj_Needs j) (pj_Env j) (pj_Labels j)
         (pj_Artifacts j) v (pj_Resources j).

(** [p_byName] maps a name to the position of its job, [p_deps] holds the
    reverse edges (job -> jobs that need it). *)
Record Pipeline := mkPipeline {
  p_Name : string;
  p_Jobs : list PJob;
  p_byName : gmap string nat;
  p_deps : gmap string (list string)
}.

(** The validation messages, one constructor per format string. *)
Inductive Problem :=
  | PEmptyDocument
  | PNoJobs
  | PNameRequired (i : nat)
  | PDuplicateName (n : string)
  | PImageRequired (n : string)
  | PNoSteps (n : string)
  | PEmptyStep (n : string) (k : nat)
  | PNegativeTimeout (n : string)
  | PNegativeCPU (n : string)
  | PNeedsItself (n : string)
  | PNeedsTwice (n need : string)
  | PNeedsUnknown (n need : string)
  | PCycle (stuck : list string).

Inductive ParseError :=
  | ValidationError (problems : list Problem)
  | YAMLError (msg : string).

(** What [yaml.Decoder.Decode] returns into a zero [Pipeline]. *)
Inductive YamlResult :=
  | YamlEOF
  | YamlFail (msg : string)
  | YamlDoc (name : string) (jobs : list PJob).

(** ** finalize, first loop: names, required fields, defaults *)

Definition float_zero : spec_float := S754_zero false.

Definition step_problems (n : string) (steps : list string) : list Problem :=
  mjoin (imap (λ k s, if bool_decide (TrimSpace s = "") then [PEmptyStep n (S k)] else []) steps).

Record NameState := mkNameState {
  ns_byName : gmap string nat;
  ns_problems : list Problem;
  ns_jobs : list PJob
}.

Definition check_job (ns : NameState) (i : nat) (j : PJob) : NameState :=
  let '(mkNameState byName probs jobs) := ns in
  if bool_decide (pj_Name j = "") then
    mkNameState byName (probs ++ [PNameRequired (S i)]) (jobs ++ [j])
  else match byName !! pj_Name j with
  | Some _ => mkNameState byName (probs ++ [PDuplicateName (pj_Name j)]) (jobs ++ [j])
  | None =>
      let n := pj_Name j in
      let p1 := if bool_decide (pj_Image j = "") then [PImageRequired n] else [] in
      let p2 := if bool_decide (pj_Steps j = []) then [PNoSteps n] else [] in
      let p3 := step_problems n (pj_Steps j) in
      let p4 := if bool_decide (pj_Timeout j < 0) then [PNegativeTimeout n] else [] in
      let j' := if bool_decide (pj_Timeout j = 0) then j <| pj_Timeout := DefaultTimeout |> else j in
      let p5 := if SFltb (rs_CPU (pj_Resources j)) float_zero then [PNegativeCPU n] else [] in
      mkNameState (<[n := i]> byName) (probs ++ p1 ++ p2 ++ p3 ++ p4 ++ p5) (jobs ++ [j'])
  end.

Fixpoint check_names (ns : NameState) (i : nat) (jobs : list PJob) : NameState :=
  match jobs with
  | [] => ns
  | j :: l => check_names (check_job ns i j) (S i) l
  end.

(** ** finalize, second loop: edges *)

Record EdgeState := mkEdgeState {
  es_deps : gmap string (list string);
  es_problems : list Problem;
  es_seen : gset string
}.

Definition check_need (byName : gmap string nat) (n : string) (es : EdgeState) (need : string) : EdgeState :=
  let '(mkEdgeState deps probs seen) := es in
  let '(deps', probs') :=
    if bool_decide (need = n) then (deps, probs ++ [PNeedsItself n])
    else if bool_decide (need ∈ seen) then (deps, probs ++ [PNeedsTwice n need])
    else match byName !! need with
         | None => (deps, probs ++ [PNeedsUnknown n need])
         | Some _ => (<[need := default [] (deps !! need) ++ [n]]> deps, probs)
         end in
  mkEdgeState deps' probs' ({[need]} ∪ seen).

Fixpoint check_edges (byName : gmap string nat) (i : nat) (jobs : list PJob)
    (deps : gmap string (list string)) (probs : list Problem)
    : gmap string (list string) * list Problem :=
  match jobs with
  | [] => (deps, probs)
  | j :: l =>
      if bool_decide (byName !! pj_Name j = Some i) then
        let es := foldl (check_need byName (pj_Name j)) (mkEdgeState deps probs ∅) (pj_Needs j) in
        check_edges byName (S i) l (es_deps es) (es_problems es)
      else check_edges byName (S i) l deps probs
  end.

(** ** topo: Kahn's algorithm *)

Section topo.
Variable jobs : list PJob.
Variable deps : gmap string (list string).

(** [indeg[j.Name] = len(j.Needs)]; a later job of the same name overwrites. *)
Definition init_indeg : gmap string Z :=
  foldl (λ m j, <[pj_Name j := Z.of_nat (length (pj_Needs j))]> m) ∅ jobs.

(** [order[j.Name] = i]. *)
Definition decl_order : gmap string nat :=
  foldl (λ m '(i, j), <[pj_Name j := i]> m) ∅ (imap pair jobs).

(** Go's map read: the zero value for a missing key. *)
Definition deg (m : gmap string Z) (n : string) : Z := default 0 (m !! n).
Definition pos (n : string) : nat := default 0%nat (decl_order !! n).

Definition ready_leb (a b : string) : bool := bool_decide (pos a ≤ pos b)%nat.

(** [for _, d := range p.deps[n] { indeg[d]--; if indeg[d] == 0 {...} }] *)
Fixpoint release (ds : list string) (indeg : gmap string Z) (ready : list string)
    : gmap string Z * list string :=
  match ds with
  | [] => (indeg, ready)
  | d :: ds' =>
      let indeg' := <[d := deg indeg d - 1]> indeg in
      let ready' := if bool_decide (deg indeg' d = 0) then ready ++ [d] else ready in
      release ds' indeg' ready'
  end.

(** The main loop; [None] is running out of fuel. *)
Fixpoint topo_loop (fuel : nat) (indeg : gmap string Z) (ready out : list string)
    : option (list string * gmap string Z) :=
  match order_by ready_leb ready with
  | [] => Some (out, indeg)
  | n :: ready' =>
      match fuel with
      | O => None
      | S fuel' =>
          let '(indeg', ready'') := release (default [] (deps !! n)) indeg ready' in
          topo_loop fuel' indeg' ready'' (out ++ [n])
      end
  end.

Inductive TopoResult :=
  | TopoOk (out : list string)
  | TopoCycle (stuck : list string)
  | TopoFuel.

Definition topo : TopoResult :=
  let indeg := init_indeg in
  let ready := pj_Name <$> List.filter (λ j, bool_decide (deg indeg (pj_Name j) = 0)) jobs in
  match topo_loop (length jobs) indeg ready [] with
  | None => TopoFuel
  | Some (out, indeg') =>
      if bool_decide (length out = length jobs) then TopoOk out
      else TopoCycle (pj_Name <$> List.filter (λ j, bool_decide (deg indeg' (pj_Name j) > 0)) jobs)
  end.
End topo.
Arguments TopoOk out : clear implicits.
Arguments TopoCycle stuck : clear implicits.

(** [finalize] applies defaults, validates and builds the indexes. *)
Definition finalize (name : string) (jobs : list PJob) : ParseError + Pipeline :=
  let p0 := if bool_decide (length jobs = 0%nat) then [PNoJobs] else [] in
  let ns := check_names (mkNameState ∅ p0 []) 0 jobs in
  let '(deps, probs) := check_edges (ns_byName ns) 0 (ns_jobs ns) ∅ (ns_problems ns) in
  let probs' :=
    if bool_decide (length probs = 0%nat) then
      match topo (ns_jobs ns) deps with
      | TopoOk _ => probs
      | TopoCycle stuck => probs ++ [PCycle stuck]
      | TopoFuel => probs ++ [PCycle []]
      end
    else probs in
  if bool_decide (length probs' = 0%nat)
  then inr (mkPipeline name (ns_jobs ns) (ns_byName ns) deps)
  else inl (ValidationError probs').

Definition Parse (yaml_decode : string → YamlResult) (src : string) : ParseError + Pipeline :=
  match yaml_decode src with
  | YamlEOF => inl (ValidationError [PEmptyDocument])
  | YamlFail msg => inl (YAMLError msg)
  | YamlDoc name jobs => finalize name jobs
  end.

(** ** Queries *)

Definition JobByName (p : Pipeline) (name : string) : option PJob :=
  match p_byName p !! name with
  | Some i => p_Jobs p !! i
  | None => None
  end.

(** [None] is the panic. *)
Definition TopoOrder (p : Pipeline) : option (list string) :=
  match topo (p_Jobs p) (p_deps p) with TopoOk out => Some out | _ => None end.

Definition Roots (p : Pipeline) : list string :=
  pj_Name <$> List.filter (λ j, bool_decide (length (pj_Needs j) = 0%nat)) (p_Jobs p).

Definition Dependents (p : Pipeline) (name : string) : list string :=
  default [] (p_deps p !! name).
