(* ===== verification/Types.v ===== *)
(** * internal/store/types.go and the schema of internal/store/migrations

    The state constants are enumerations; the values the store reads back into
    a Go struct are the [Run], [Job], ... records, and the rows of the tables are
    the [..Row] records, whose nullable columns are options.  [SpecJSON] and
    [DetailJSON] hold the value the JSON text encodes: [None] is a text that
    does not decode. *)

From S2P Require Import Prelude GoLib Pipeline.

Local Open Scope Z_scope.

Inductive RunState := RunPending | RunRunning | RunSucceeded | RunFailed | RunCancelled.

Inductive JobState :=
  JobPending | JobQueued | JobRunning | JobSucceeded | JobFailed | JobCancelled | JobSkipped.

Inductive RunnerState := RunnerOnline | RunnerOffline.

#[export] Instance RunState_eq_dec : EqDecision RunState.
Proof. solve_decision. Defined.
#[export] Instance JobState_eq_dec : EqDecision JobState.
Proof. solve_decision. Defined.
#[export] Instance RunnerState_eq_dec : EqDecision RunnerState.
Proof. solve_decision. Defined.

(** The text of each constant, which is what the columns and the API carry. *)
Definition run_state_str (s : RunState) : string :=
  match s with
  | RunPending => "pending" | RunRunning => "running" | RunSucceeded => "succeeded"
  | RunFailed => "failed" | RunCancelled => "cancelled"
  end.
Definition job_state_str (s : JobState) : string :=
  match s with
  | JobPending => "pending" | JobQueued => "queued" | JobRunning => "running"
  | JobSucceeded => "succeeded" | JobFailed => "failed" | JobCancelled => "cancelled"
  | JobSkipped => "skipped"
  end.
Definition runner_state_str (s : RunnerState) : string :=
  match s with RunnerOnline => "online" | RunnerOffline => "offline" end.

Definition job_state_of_str (s : string) : option JobState :=
  if bool_decide (s = "pending") then Some JobPending
  else if bool_decide (s = "queued") then Some JobQueued
  else if bool_decide (s = "running") then Some JobRunning
  else if bool_decide (s = "succeeded") then Some JobSucceeded
  else if bool_decide (s = "failed") then Some JobFailed
  else if bool_decide (s = "cancelled") then Some JobCancelled
  else if bool_decide (s = "skipped") then Some JobSkipped
  else None.

#[export] Instance JobState_countable : Countable JobState.
Proof.
  refine (inj_countable job_state_str job_state_of_str _). by intros [].
Defined.

(** Failure kinds, recorded in jobs.failure_kind when an attempt fails. *)
Definition FailureExitCode : string := "exit_code".
Definition FailureTimeout : string := "timeout".
Definition FailureInfra : string := "infra".
Definition FailureLostRunner : string := "lost_runner".
Definition FailureCancelled : string := "cancelled".

Definition CancelReasonUser : string := "user".
Definition CancelReasonTimeout : string := "timeout".

(** One JSON value of an event's detail object. *)
Inductive DetailVal :=
  | DInt (z : Z)
  | DStr (s : string)
  | DOptInt (z : option Z)
  | DStrs (l : list string).
Definition Detail : Type := list (string * DetailVal).

(** ** The Go structs *)

Record Run := mkRun {
  r_ID : string;
  r_SourceKey : string;
  r_PipelineYAML : string;
  r_CommitSHA : string;
  r_Ref : string;
  r_Trigger : string;
  r_State : RunState;
  r_CreatedAt : Z;
  r_StartedAt : Z;
  r_FinishedAt : Z
}.

Record Job := mkJob {
  j_ID : string;
  j_RunID : string;
  j_Name : string;
  j_SpecJSON : option PJob;
  j_State : JobState;
  j_Attempt : Z;
  j_MaxAttempts : Z;
  j_RunnerID : string;
  j_LeaseExpiresAt : Z;
  j_FailureKind : string;
  j_ExitCode : option Z;
  j_Error : string;
  j_QueuedAt : Z;
  j_StartedAt : Z;
  j_FinishedAt : Z;
  j_CancelRequestedAt : Z;
  j_CancelReason : string
}.

Record JobDep := mkJobDep {
  d_JobID : string;
  d_NeedsJobID : string
}.

Record Runner := mkRunner {
  rn_ID : string;
  rn_Name : string;
  rn_Labels : gmap string string;
  rn_Capacity : Z;
  rn_State : RunnerState;
  rn_Version : string;
  rn_LastSeenAt : Z;
  rn_RegisteredAt : Z
}.

Record Event := mkEvent {
  e_ID : Z;
  e_RunID : string;
  e_JobID : string;
  e_Type : string;
  e_DetailJSON : Detail;
  e_CreatedAt : Z
}.

Record LogChunk := mkLogChunk {
  c_Seq : Z;
  c_Data : list N
}.

Record Artifact := mkArtifact {
  a_JobID : string;
  a_Attempt : Z;
  a_Path : string;
  a_SizeBytes : Z;
  a_SHA256 : string;
  a_ContentType : string;
  a_CreatedAt : Z
}.

(** ** The tables *)

Record RunRow := mkRunRow {
  rr_id : string;
  rr_source_key : string;
  rr_pipeline_yaml : string;
  rr_commit_sha : option string;
  rr_ref : option string;
  rr_trigger : string;
  rr_state : RunState;
  rr_created_at : Z;
  rr_started_at : option Z;
  rr_finished_at : option Z
}.

Record JobRow := mkJobRow {
  jr_id : string;
  jr_run_id : string;
  jr_name : string;
  jr_spec_json : option PJob;
  jr_state : JobState;
  jr_attempt : Z;
  jr_max_attempts : Z;
  jr_runner_id : option string;
  jr_lease_expires_at : option Z;
  jr_failure_kind : option string;
  jr_exit_code : option Z;
  jr_error : option string;
  jr_queued_at : Z;
  jr_started_at : option Z;
  jr_finished_at : option Z;
  jr_cancel_requested_at : option Z;
  jr_cancel_reason : option string
}.

Record RunnerRow := mkRunnerRow {
  nr_id : string;
  nr_name : string;
  nr_labels : gmap string string;
  nr_capacity : Z;
  nr_state : RunnerState;
  nr_version : string;
  nr_last_seen_at : Z;
  nr_registered_at : Z
}.

Record EventRow := mkEventRow {
  er_id : Z;
  er_run_id : string;
  er_job_id : option string;
  er_type : string;
  er_detail_json : Detail;
  er_created_at : Z
}.

Record LogRow := mkLogRow {
  lr_job_id : string;
  lr_attempt : Z;
  lr_seq : Z;
  lr_data : list N
}.

(** The database; [db_event_seq] is the AUTOINCREMENT counter of [events], which
    never goes back.  The artifacts table has no nullable column. *)
Record DB := mkDB {
  db_runs : list RunRow;
  db_jobs : list JobRow;
  db_job_deps : list JobDep;
  db_runners : list RunnerRow;
  db_events : list EventRow;
  db_log_chunks : list LogRow;
  db_artifacts : list Artifact;
  db_event_seq : Z
}.

Definition empty_db : DB := mkDB [] [] [] [] [] [] [] 0.


#[export] Instance set_rr_state : Setter rr_state := λ v r, mkRunRow (rr_id r) (rr_source_key r) (rr_pipeline_yaml r) (rr_commit_sha r) (rr_ref r) (rr_trigger r) v (rr_created_at r) (rr_started_at r) (rr_finished_at r).
#[export] Instance set_rr_started_at : Setter rr_started_at := λ v r, mkRunRow (rr_id r) (rr_source_key r) (rr_pipeline_yaml r) (rr_commit_sha r) (rr_ref r) (rr_trigger r) (rr_state r) (rr_created_at r) v (rr_finished_at r).
#[export] Instance set_rr_finished_at : Setter rr_finished_at := λ v r, mkRunRow (rr_id r) (rr_source_key r) (rr_pipeline_yaml r) (rr_commit_sha r) (rr_ref r) (rr_trigger r) (rr_state r) (rr_created_at r) (rr_started_at r) v.
#[export] Instance set_jr_state : Setter jr_state := λ v r, mkJobRow (jr_id r) (jr_run_id r) (jr_name r) (jr_spec_json r) v (jr_attempt r) (jr_max_attempts r) (jr_runner_id r) (jr_lease_expires_at r) (jr_failure_kind r) (jr_exit_code r) (jr_error r) (jr_queued_at r) (jr_started_at r) (jr_finished_at r) (jr_cancel_requested_at r) (jr_cancel_reason r).
#[export] Instance set_jr_attempt : Setter jr_attempt := λ v r, mkJobRow (jr_id r) (jr_run_id r) (jr_name r) (jr_spec_json r) (jr_state r) v (jr_max_attempts r) (jr_runner_id r) (jr_lease_expires_at r) (jr_failure_kind r) (jr_exit_code r) (jr_error r) (jr_queued_at r) (jr_started_at r) (jr_finished_at r) (jr_cancel_requested_at r) (jr_cancel_reason r).
#[export] Instance set_jr_runner_id : Setter jr_runner_id := λ v r, mkJobRow (jr_id r) (jr_run_id r) (jr_name r) (jr_spec_json r) (jr_state r) (jr_attempt r) (jr_max_attempts r) v (jr_lease_expires_at r) (jr_failure_kind r) (jr_exit_code r) (jr_error r) (jr_queued_at r) (jr_started_at r) (jr_finished_at r) (jr_cancel_requested_at r) (jr_cancel_reason r).
#[export] Instance set_jr_lease_expires_at : Setter jr_lease_expires_at := λ v r, mkJobRow (jr_id r) (jr_run_id r) (jr_name r) (jr_spec_json r) (jr_state r) (jr_attempt r) (jr_max_attempts r) (jr_runner_id r) v (jr_failure_kind r) (jr_exit_code r) (jr_error r) (jr_queued_at r) (jr_started_at r) (jr_finished_at r) (jr_cancel_requested_at r) (jr_cancel_reason r).
#[export] Instance set_jr_failure_kind : Setter jr_failure_kind := λ v r, mkJobRow (jr_id r) (jr_run_id r) (jr_name r) (jr_spec_json r) (jr_state r) (jr_attempt r) (jr_max_attempts r) (jr_runner_id r) (jr_lease_expires_at r) v (jr_exit_code r) (jr_error r) (jr_queued_at r) (jr_started_at r) (jr_finished_at r) (jr_cancel_requested_at r) (jr_cancel_reason r).
#[export] Instance set_jr_exit_code : Setter jr_exit_code := λ v r, mkJobRow (jr_id r) (jr_run_id r) (jr_name r) (jr_spec_json r) (jr_state r) (jr_attempt r) (jr_max_attempts r) (jr_runner_id r) (jr_lease_expires_at r) (jr_failure_kind r) v (jr_error r) (jr_queued_at r) (jr_started_at r) (jr_finished_at r) (jr_cancel_requested_at r) (jr_cancel_reason r).
#[export] Instance set_jr_error : Setter jr_error := λ v r, mkJobRow (jr_id r) (jr_run_id r) (jr_name r) (jr_spec_json r) (jr_state r) (jr_attempt r) (jr_max_attempts r) (jr_runner_id r) (jr_lease_expires_at r) (jr_failure_kind r) (jr_exit_code r) v (jr_queued_at r) (jr_started_at r) (jr_finished_at r) (jr_cancel_requested_at r) (jr_cancel_reason r).
#[export] Instance set_jr_queued_at : Setter jr_queued_at := λ v r, mkJobRow (jr_id r) (jr_run_id r) (jr_name r) (jr_spec_json r) (jr_state r) (jr_attempt r) (jr_max_attempts r) (jr_runner_id r) (jr_lease_expires_at r) (jr_failure_kind r) (jr_exit_code r) (jr_error r) v (jr_started_at r) (jr_finished_at r) (jr_cancel_requested_at r) (jr_cancel_reason r).
#[export] Instance set_jr_started_at : Setter jr_started_at := λ v r, mkJobRow (jr_id r) (jr_run_id r) (jr_name r) (jr_spec_json r) (jr_state r) (jr_attempt r) (jr_max_attempts r) (jr_runner_id r) (jr_lease_expires_at r) (jr_failure_kind r) (jr_exit_code r) (jr_error r) (jr_queued_at r) v (jr_finished_at r) (jr_cancel_requested_at r) (jr_cancel_reason r).
#[export] Instance set_jr_finished_at : Setter jr_finished_at := λ v r, mkJobRow (jr_id r) (jr_run_id r) (jr_name r) (jr_spec_json r) (jr_state r) (jr_attempt r) (jr_max_attempts r) (jr_runner_id r) (jr_lease_expires_at r) (jr_failure_kind r) (jr_exit_code r) (jr_error r) (jr_queued_at r) (jr_started_at r) v (jr_cancel_requested_at r) (jr_cancel_reason r).
#[export] Instance set_jr_cancel_requested_at : Setter jr_cancel_requested_at := λ v r, mkJobRow (jr_id r) (jr_run_id r) (jr_name r) (jr_spec_json r) (jr_state r) (jr_attempt r) (jr_max_attempts r) (jr_runner_id r) (jr_lease_expires_at r) (jr_failure_kind r) (jr_exit_code r) (jr_error r) (jr_queued_at r) (jr_started_at r) (jr_finished_at r) v (jr_cancel_reason r).
#[export] Instance set_jr_cancel_reason : Setter jr_cancel_reason := λ v r, mkJobRow (jr_id r) (jr_run_id r) (jr_name r) (jr_spec_json r) (jr_state r) (jr_attempt r) (jr_max_attempts r) (jr_runner_id r) (jr_lease_expires_at r) (jr_failure_kind r) (jr_exit_code r) (jr_error r) (jr_queued_at r) (jr_started_at r) (jr_finished_at r) (jr_cancel_requested_at r) v.
#[export] Instance set_nr_state : Setter nr_state := λ v r, mkRunnerRow (nr_id r) (nr_name r) (nr_labels r) (nr_capacity r) v (nr_version r) (nr_last_seen_at r) (nr_registered_at r).
#[export] Instance set_nr_last_seen_at : Setter nr_last_seen_at := λ v r, mkRunnerRow (nr_id r) (nr_name r) (nr_labels r) (nr_capacity r) (nr_state r) (nr_version r) v (nr_registered_at r).
#[export] Instance set_db_runs : Setter db_runs := λ v d, mkDB v (db_jobs d) (db_job_deps d) (db_runners d) (db_events d) (db_log_chunks d) (db_artifacts d) (db_event_seq d).
#[export] Instance set_db_jobs : Setter db_jobs := λ v d, mkDB (db_runs d) v (db_job_deps d) (db_runners d) (db_events d) (db_log_chunks d) (db_artifacts d) (db_event_seq d).
#[export] Instance set_db_job_deps : Setter db_job_deps := λ v d, mkDB (db_runs d) (db_jobs d) v (db_runners d) (db_events d) (db_log_chunks d) (db_artifacts d) (db_event_seq d).
#[export] Instance set_db_runners : Setter db_runners := λ v d, mkDB (db_runs d) (db_jobs d) (db_job_deps d) v (db_events d) (db_log_chunks d) (db_artifacts d) (db_event_seq d).
#[export] Instance set_db_events : Setter db_events := λ v d, mkDB (db_runs d) (db_jobs d) (db_job_deps d) (db_runners d) v (db_log_chunks d) (db_artifacts d) (db_event_seq d).
#[export] Instance set_db_log_chunks : Setter db_log_chunks := λ v d, mkDB (db_runs d) (db_jobs d) (db_job_deps d) (db_runners d) (db_events d) v (db_artifacts d) (db_event_seq d).
#[export] Instance set_db_artifacts : Setter db_artifacts := λ v d, mkDB (db_runs d) (db_jobs d) (db_job_deps d) (db_runners d) (db_events d) (db_log_chunks d) v (db_event_seq d).
#[export] Instance set_db_event_seq : Setter db_event_seq := λ v d, mkDB (db_runs d) (db_jobs d) (db_job_deps d) (db_runners d) (db_events d) (db_log_chunks d) (db_artifacts d) v.

(** A Go [string] column value and its NULL encoding. *)
Definition nullStr (v : string) : option string := if bool_decide (v = "") then None else Some v.
Definition nullMillis (v : Z) : option Z := if bool_decide (v = 0) then None else Some v.

(** [sql.NullString.String] and [sql.NullInt64.Int64]: the zero value on NULL. *)
Definition str_of (o : option string) : string := default "" o.
Definition int_of (o : option Z) : Z := default 0 o.

Definition scanRun (r : RunRow) : Run :=
  mkRun (rr_id r) (rr_source_key r) (rr_pipeline_yaml r) (str_of (rr_commit_sha r)) (str_of (rr_ref r))
        (rr_trigger r) (rr_state r) (rr_created_at r) (int_of (rr_started_at r)) (int_of (rr_finished_at r)).

Definition scanJob (r : JobRow) : Job :=
  mkJob (jr_id r) (jr_run_id r) (jr_name r) (jr_spec_json r) (jr_state r) (jr_attempt r) (jr_max_attempts r)
        (str_of (jr_runner_id r)) (int_of (jr_lease_expires_at r)) (str_of (jr_failure_kind r)) (jr_exit_code r)
        (str_of (jr_error r)) (jr_queued_at r) (int_of (jr_started_at r)) (int_of (jr_finished_at r))
        (int_of (jr_cancel_requested_at r)) (str_of (jr_cancel_reason r)).

Definition scanRunner (r : RunnerRow) : Runner :=
  mkRunner (nr_id r) (nr_name r) (nr_labels r) (nr_capacity r) (nr_state r) (nr_version r)
           (nr_last_seen_at r) (nr_registered_at r).

Definition scanEvent (r : EventRow) : Event :=
  mkEvent (er_id r) (er_run_id r) (str_of (er_job_id r)) (er_type r) (er_detail_json r) (er_created_at r).

Lemma str_of_nullStr s : str_of (nullStr s) = s.
Proof. unfold nullStr. by case_bool_decide; subst. Qed.
Lemma int_of_nullMillis z : int_of (nullMillis z) = z.
Proof. unfold nullMillis. by case_bool_decide; subst. Qed.
