(* ===== verification/Store.v ===== *)
(** * internal/store: the control plane's SQLite layer

    One definition per store method.  A statement is its effect on the table
    (rows in rowid order); the guards are the WHERE clauses, and [ok] is
    [RowsAffected = 1].  The world of a server process is its database, its
    injected clock (a stream: every [s.now()] takes the next reading), its
    source of random bytes and its metrics. *)

From S2P Require Import Prelude GoLib Pipeline Types.

Local Open Scope Z_scope.

(** ** World and errors *)

(** What the two counters, two histograms and the counter vector of
    internal/metrics.Server have accumulated (histogram observations are kept in
    milliseconds, as the scheduler computes them before [seconds]). *)
Record ServerMetrics := mkServerMetrics {
  m_JobsTotal : gmap JobState Z;
  m_JobDuration : list Z;
  m_ClaimLatency : list Z;
  m_LeaseExpirations : Z;
  m_LogBytes : Z
}.
#[export] Instance set_m_JobsTotal : Setter m_JobsTotal := λ v m,
  mkServerMetrics v (m_JobDuration m) (m_ClaimLatency m) (m_LeaseExpirations m) (m_LogBytes m).
#[export] Instance set_m_JobDuration : Setter m_JobDuration := λ v m,
  mkServerMetrics (m_JobsTotal m) v (m_ClaimLatency m) (m_LeaseExpirations m) (m_LogBytes m).
#[export] Instance set_m_ClaimLatency : Setter m_ClaimLatency := λ v m,
  mkServerMetrics (m_JobsTotal m) (m_JobDuration m) v (m_LeaseExpirations m) (m_LogBytes m).
#[export] Instance set_m_LeaseExpirations : Setter m_LeaseExpirations := λ v m,
  mkServerMetrics (m_JobsTotal m) (m_JobDuration m) (m_ClaimLatency m) v (m_LogBytes m).
#[export] Instance set_m_LogBytes : Setter m_LogBytes := λ v m,
  mkServerMetrics (m_JobsTotal m) (m_JobDuration m) (m_ClaimLatency m) (m_LeaseExpirations m) v.

Definition no_metrics : ServerMetrics := mkServerMetrics ∅ [] [] 0 0.

Record World := mkWorld {
  w_db : DB;
  w_clock : nat → Z;      (* the injected Clock *)
  w_reads : nat;          (* how many times it has been read *)
  w_rand : nat → N;       (* the bytes crypto/rand returns *)
  w_rands : nat;          (* how many have been read *)
  w_metrics : ServerMetrics
}.
#[export] Instance set_w_db : Setter w_db := λ v w,
  mkWorld v (w_clock w) (w_reads w) (w_rand w) (w_rands w) (w_metrics w).
#[export] Instance set_w_reads : Setter w_reads := λ v w,
  mkWorld (w_db w) (w_clock w) v (w_rand w) (w_rands w) (w_metrics w).
#[export] Instance set_w_rands : Setter w_rands := λ v w,
  mkWorld (w_db w) (w_clock w) (w_reads w) (w_rand w) v (w_metrics w).
#[export] Instance set_w_metrics : Setter w_metrics := λ v w,
  mkWorld (w_db w) (w_clock w) (w_reads w) (w_rand w) (w_rands w) v.

(** The errors the control plane distinguishes with [errors.Is]/[errors.As], and
    the others with what they report. *)
Inductive Err :=
  | ErrNotFound
  | ErrFenced
  | ErrRunFinished
  | InvalidStatus (status : string)
  | InvalidFailureKind (kind : string)
  | InvalidSeq (seq : Z)
  | ErrRequired (what : string)
  | ErrConstraint (what : string)
  | ErrDecodeSpec (job : string)
  | ErrUnsupportedTarget (job : string) (to : JobState)
  | ErrLeftPending (job : string)
  | ErrDepOutsideRun (job need : string)
  | ErrEncodeSpec (job : string)
  | ErrFuel.
#[export] Instance Err_eq_dec : EqDecision Err.
Proof. solve_decision. Defined.

Abbreviation W := (M World Err).

Definition get_db : W DB := λ w, (inr (w_db w), w).
Definition put_db (d : DB) : W unit := λ w, (inr tt, w <| w_db := d |>).
Definition with_metrics (f : ServerMetrics → ServerMetrics) : W unit :=
  λ w, (inr tt, w <| w_metrics := f (w_metrics w) |>).
Definition fail {A} (e : Err) : W A := λ w, (inl e, w).

(** [Store.Now]. *)
Definition Now : W Z := λ w, (inr (w_clock w (w_reads w)), w <| w_reads := S (w_reads w) |>).

(** [Store.Tx]: commit on nil, roll back on an error.  The clock and the random
    source are outside the database and are not rolled back. *)
Definition Tx {A} (fn : W A) : W A := λ w,
  match fn w with
  | (inl e, w') => (inl e, w' <| w_db := w_db w |>)
  | (inr a, w') => (inr a, w')
  end.

(** ** jobs.go *)

Definition modify_jobs (P : JobRow → bool) (f : JobRow → JobRow) : W bool := λ w,
  let d := w_db w in
  (inr (bool_decide (sql_count P (db_jobs d) = 1%nat)),
   w <| w_db := d <| db_jobs := sql_update P f (db_jobs d) |> |>).

Definition is_id (id : string) : JobRow → bool := by_key jr_id id.
Definition is_state (s : JobState) (r : JobRow) : bool := bool_decide (jr_state r = s).
Definition is_attempt (a : Z) (r : JobRow) : bool := bool_decide (jr_attempt r = a).

Definition queued_leb (a b : JobRow) : bool := bool_decide (jr_queued_at a ≤ jr_queued_at b).
Definition ListQueuedJobs : W (list Job) :=
  d ← get_db;
  mret (scanJob <$> order_by queued_leb (sql_select (is_state JobQueued) (db_jobs d))).

Definition ClaimJob (jobID runnerID : string) (leaseExpiresAt : Z) : W (option Z) :=
  now ← Now;
  ok ← modify_jobs (λ r, is_id jobID r && is_state JobQueued r)
         (λ r, r <| jr_state := JobRunning |> <| jr_runner_id := Some runnerID |>
                 <| jr_attempt := jr_attempt r + 1 |> <| jr_lease_expires_at := Some leaseExpiresAt |>
                 <| jr_started_at := Some now |>);
  if ok : bool then
    d ← get_db;
    match sql_row (is_id jobID) (db_jobs d) with
    | Some r => mret (Some (jr_attempt r))
    | None => fail ErrNotFound
    end
  else mret None.

Definition ExtendLease (jobID : string) (attempt : Z) (runnerID : string) (leaseExpiresAt : Z) : W bool :=
  modify_jobs (λ r, is_id jobID r && (is_state JobRunning r && is_attempt attempt r &&
                    bool_decide (jr_runner_id r = Some runnerID)))
    (λ r, r <| jr_lease_expires_at := Some leaseExpiresAt |>).

Definition FinishJob (jobID : string) (attempt : Z) (state : JobState) (failureKind : string)
    (exitCode : option Z) (errMsg : string) : W bool :=
  now ← Now;
  modify_jobs (λ r, is_id jobID r && (is_state JobRunning r && is_attempt attempt r))
    (λ r, r <| jr_state := state |> <| jr_failure_kind := nullStr failureKind |>
            <| jr_exit_code := exitCode |> <| jr_error := nullStr errMsg |>
            <| jr_lease_expires_at := None |> <| jr_finished_at := Some now |>).

Definition RequeueJob (jobID : string) (attempt : Z) (errMsg : string) : W bool :=
  now ← Now;
  modify_jobs (λ r, is_id jobID r && (is_state JobRunning r && is_attempt attempt r))
    (λ r, r <| jr_state := JobQueued |> <| jr_runner_id := None |> <| jr_lease_expires_at := None |>
            <| jr_started_at := None |> <| jr_error := nullStr errMsg |> <| jr_queued_at := now |>).

Definition TransitionPendingJob (jobID : string) (to : JobState) : W bool :=
  now ← Now;
  match to with
  | JobQueued => modify_jobs (λ r, is_id jobID r && is_state JobPending r)
                   (λ r, r <| jr_state := JobQueued |> <| jr_queued_at := now |>)
  | JobSkipped => modify_jobs (λ r, is_id jobID r && is_state JobPending r)
                    (λ r, r <| jr_state := JobSkipped |> <| jr_finished_at := Some now |>)
  | _ => fail (ErrUnsupportedTarget jobID to)
  end.

(** [COALESCE(?, col)]. *)
Definition coalesce {A} (a b : option A) : option A := match a with Some _ => a | None => b end.

Definition SetRunState (runID : string) (from to : RunState) : W bool :=
  now ← Now;
  let started := if bool_decide (to = RunRunning) then Some now else None in
  let finished := if bool_decide (to ≠ RunRunning ∧ to ≠ RunPending) then Some now else None in
  d ← get_db;
  let P := λ r, bool_decide (rr_id r = runID) && bool_decide (rr_state r = from) in
  put_db (d <| db_runs := sql_update P (λ r, r <| rr_state := to |>
             <| rr_started_at := coalesce started (rr_started_at r) |>
             <| rr_finished_at := coalesce finished (rr_finished_at r) |>) (db_runs d) |>);;
  mret (bool_decide (sql_count P (db_runs d) = 1%nat)).

Definition lease_leb (a b : JobRow) : bool :=
  bool_decide (int_of (jr_lease_expires_at a) ≤ int_of (jr_lease_expires_at b)).
Definition ListExpiredLeases (now : Z) : W (list Job) :=
  d ← get_db;
  mret (scanJob <$> order_by lease_leb
    (sql_select (λ r, is_state JobRunning r &&
       match jr_lease_expires_at r with Some l => bool_decide (l < now) | None => false end) (db_jobs d))).

Definition CancelJob (jobID errMsg : string) : W bool :=
  now ← Now;
  modify_jobs (λ r, is_id jobID r && (is_state JobPending r || is_state JobQueued r))
    (λ r, r <| jr_state := JobCancelled |> <| jr_failure_kind := Some FailureCancelled |>
            <| jr_error := nullStr errMsg |> <| jr_finished_at := Some now |>).

Definition RequestJobCancel (jobID reason : string) : W bool :=
  now ← Now;
  modify_jobs (λ r, is_id jobID r && (is_state JobRunning r && bool_decide (jr_cancel_requested_at r = None)))
    (λ r, r <| jr_cancel_requested_at := Some now |> <| jr_cancel_reason := Some reason |>).

(** NULL sorts before every number. *)
Definition started_leb (a b : JobRow) : bool :=
  match jr_started_at a, jr_started_at b with
  | None, _ => true
  | Some _, None => false
  | Some x, Some y => bool_decide (x ≤ y)
  end.
Definition ListRunningJobs : W (list Job) :=
  d ← get_db;
  mret (scanJob <$> order_by started_leb
    (sql_select (λ r, is_state JobRunning r && bool_decide (jr_cancel_requested_at r = None)) (db_jobs d))).

(** ** runs.go *)

Definition GetRun (id : string) : W Run :=
  d ← get_db;
  match sql_row (by_key rr_id id) (db_runs d) with
  | Some r => mret (scanRun r)
  | None => fail ErrNotFound
  end.

Definition GetJob (id : string) : W Job :=
  d ← get_db;
  match sql_row (is_id id) (db_jobs d) with
  | Some r => mret (scanJob r)
  | None => fail ErrNotFound
  end.

Definition ListJobs (runID : string) : W (list Job) :=
  d ← get_db;
  mret (scanJob <$> sql_select (λ r, bool_decide (jr_run_id r = runID)) (db_jobs d)).

Definition dep_leb (a b : JobDep) : bool :=
  if bool_decide (d_JobID a = d_JobID b) then String.leb (d_NeedsJobID a) (d_NeedsJobID b)
  else String.leb (d_JobID a) (d_JobID b).
Definition ListJobDeps (runID : string) : W (list JobDep) :=
  d ← get_db;
  mret (order_by dep_leb (sql_select (λ e,
    match sql_row (is_id (d_JobID e)) (db_jobs d) with
    | Some j => bool_decide (jr_run_id j = runID)
    | None => false
    end) (db_job_deps d))).

(** [LIMIT ?] with a negative limit meaning all. *)
Definition limit_rows {A} (limit : Z) (l : list A) : list A :=
  if bool_decide (limit <= 0) then l else take (Z.to_nat limit) l.

Definition runs_leb (a b : RunRow) : bool :=
  bool_decide (rr_created_at b < rr_created_at a) ||
  (bool_decide (rr_created_at a = rr_created_at b) && String.leb (rr_id b) (rr_id a)).
Definition ListRuns (limit : Z) : W (list Run) :=
  d ← get_db; mret (scanRun <$> limit_rows limit (order_by runs_leb (db_runs d))).

(** A Go struct's [State] may be the zero string: it travels beside the record as
    an option, [None] being the empty string.  [CreateRun] also writes the
    defaults back into the caller's structs, which is what it returns. *)
Definition insert_run (run : Run) : W unit :=
  d ← get_db;
  match sql_row (by_key rr_id (r_ID run)) (db_runs d) with
  | Some _ => fail (ErrConstraint "runs.id")
  | None =>
      put_db (d <| db_runs := db_runs d ++ [mkRunRow (r_ID run) (r_SourceKey run) (r_PipelineYAML run)
        (nullStr (r_CommitSHA run)) (nullStr (r_Ref run)) (r_Trigger run) (r_State run) (r_CreatedAt run)
        (nullMillis (r_StartedAt run)) (nullMillis (r_FinishedAt run))] |>)
  end.

Definition insert_job (j : Job) : W unit :=
  d ← get_db;
  if bool_decide (sql_row (is_id (j_ID j)) (db_jobs d) = None) then
    if List.existsb (λ r, bool_decide (jr_run_id r = j_RunID j) && bool_decide (jr_name r = j_Name j)) (db_jobs d)
    then fail (ErrConstraint "jobs.run_id, jobs.name")
    else match sql_row (by_key rr_id (j_RunID j)) (db_runs d) with
    | None => fail (ErrConstraint "jobs.run_id REFERENCES runs")
    | Some _ =>
      put_db (d <| db_jobs := db_jobs d ++ [mkJobRow (j_ID j) (j_RunID j) (j_Name j) (j_SpecJSON j) (j_State j)
        (j_Attempt j) (j_MaxAttempts j) (nullStr (j_RunnerID j)) (nullMillis (j_LeaseExpiresAt j))
        (nullStr (j_FailureKind j)) (j_ExitCode j) (nullStr (j_Error j)) (j_QueuedAt j)
        (nullMillis (j_StartedAt j)) (nullMillis (j_FinishedAt j)) None None] |>)
    end
  else fail (ErrConstraint "jobs.id").

#[export] Instance JobDep_eq_dec : EqDecision JobDep.
Proof. solve_decision. Defined.

Definition insert_dep (e : JobDep) : W unit :=
  d ← get_db;
  if bool_decide (e ∈ db_job_deps d) then fail (ErrConstraint "job_deps")
  else match sql_row (is_id (d_JobID e)) (db_jobs d), sql_row (is_id (d_NeedsJobID e)) (db_jobs d) with
       | Some _, Some _ => put_db (d <| db_job_deps := db_job_deps d ++ [e] |>)
       | _, _ => fail (ErrConstraint "job_deps REFERENCES jobs")
       end.

(** One iteration of the jobs loop: defaults, then the insert. *)
Definition create_job (runID : string) (now : Z) (sj : option JobState * Job) (acc : list Job) : W (list Job) :=
  let '(st, j) := sj in
  if bool_decide (j_ID j = "") || bool_decide (j_Name j = "") then fail (ErrRequired "job ID and Name")
  else
    let j' := mkJob (j_ID j) runID (j_Name j) (j_SpecJSON j) (default JobPending st) (j_Attempt j)
                (if bool_decide (j_MaxAttempts j <= 0) then 1 else j_MaxAttempts j)
                (j_RunnerID j) (j_LeaseExpiresAt j) (j_FailureKind j) (j_ExitCode j) (j_Error j)
                (if bool_decide (j_QueuedAt j = 0) then now else j_QueuedAt j)
                (j_StartedAt j) (j_FinishedAt j) (j_CancelRequestedAt j) (j_CancelReason j) in
    insert_job j';; mret (acc ++ [j']).

Definition create_dep (ids : list string) (e : JobDep) (_ : unit) : W unit :=
  if bool_decide (d_JobID e ∈ ids) && bool_decide (d_NeedsJobID e ∈ ids) then insert_dep e
  else fail (ErrDepOutsideRun (d_JobID e) (d_NeedsJobID e)).

Definition CreateRun (run_state : option RunState) (run : Run) (jobs : list (option JobState * Job))
    (deps : list JobDep) : W (Run * list Job) :=
  if bool_decide (r_ID run = "") then fail (ErrRequired "run.ID")
  else if bool_decide (r_PipelineYAML run = "") then fail (ErrRequired "PipelineYAML")
  else
    now ← Now;
    let run' := mkRun (r_ID run) (r_SourceKey run) (r_PipelineYAML run) (r_CommitSHA run) (r_Ref run)
                  (r_Trigger run) (default RunPending run_state)
                  (if bool_decide (r_CreatedAt run = 0) then now else r_CreatedAt run)
                  (r_StartedAt run) (r_FinishedAt run) in
    insert_run run';;
    jobs' ← mfor jobs [] (create_job (r_ID run) now);
    mfor deps tt (create_dep (j_ID <$> jobs'));;
    mret (run', jobs').

(** ** events.go *)

Definition AppendEvent (runID jobID typ : string) (detail : Detail) : W Event :=
  if bool_decide (runID = "") || bool_decide (typ = "") then fail (ErrRequired "RunID and Type")
  else
    now ← Now;
    d ← get_db;
    let id := db_event_seq d + 1 in
    put_db (d <| db_events := db_events d ++ [mkEventRow id runID (nullStr jobID) typ detail now] |>
              <| db_event_seq := id |>);;
    mret (mkEvent id runID jobID typ detail now).

Definition ListEvents (runID : string) (afterID limit : Z) : W (list Event) :=
  d ← get_db;
  mret (scanEvent <$> limit_rows limit
    (order_by (λ a b, bool_decide (er_id a ≤ er_id b))
      (sql_select (λ e, bool_decide (er_run_id e = runID) && bool_decide (afterID < er_id e)) (db_events d)))).

(** Decoding a detail object into [struct{ Attempt int `json:"attempt"` }]: a
    missing or null member leaves 0, a member of another type is an error. *)
Definition detail_attempt (dt : Detail) : option Z :=
  match List.find (λ kv, bool_decide (kv.1 = "attempt")) dt with
  | None => Some 0
  | Some (_, DInt z) => Some z
  | Some (_, DOptInt (Some z)) => Some z
  | Some (_, DOptInt None) => Some 0
  | Some (_, _) => None
  end.

Definition HasJobEvent (runID jobID typ : string) (attempt : Z) : W bool :=
  d ← get_db;
  mret (List.existsb (λ e, bool_decide (detail_attempt (er_detail_json e) = Some attempt))
    (sql_select (λ e, bool_decide (er_run_id e = runID) && bool_decide (er_job_id e = Some jobID) &&
                      bool_decide (er_type e = typ)) (db_events d))).

(** ** logs.go *)

Definition is_chunk (jobID : string) (attempt : Z) (r : LogRow) : bool :=
  bool_decide (lr_job_id r = jobID) && bool_decide (lr_attempt r = attempt).

Definition InsertLogChunk (jobID : string) (attempt seq : Z) (data : list N) : W bool :=
  d ← get_db;
  if List.existsb (λ r, is_chunk jobID attempt r && bool_decide (lr_seq r = seq)) (db_log_chunks d) then mret false
  else match sql_row (is_id jobID) (db_jobs d) with
       | None => fail (ErrConstraint "log_chunks.job_id REFERENCES jobs")
       | Some _ =>
           put_db (d <| db_log_chunks := db_log_chunks d ++ [mkLogRow jobID attempt seq data] |>);;
           mret true
       end.

Definition sum_len (l : list LogRow) : Z := foldr (λ r acc, Z.of_nat (length (lr_data r)) + acc) 0 l.

Definition LogBytes (jobID : string) (attempt : Z) : W Z :=
  d ← get_db; mret (sum_len (sql_select (is_chunk jobID attempt) (db_log_chunks d))).

Definition seq_leb (a b : LogRow) : bool := bool_decide (lr_seq a ≤ lr_seq b).
Definition ListLogChunks (jobID : string) (attempt afterSeq : Z) : W (list LogChunk) :=
  d ← get_db;
  mret ((λ r, mkLogChunk (lr_seq r) (lr_data r)) <$>
    order_by seq_leb (sql_select (λ r, is_chunk jobID attempt r && bool_decide (afterSeq < lr_seq r)) (db_log_chunks d))).

(** ** artifacts.go *)

Definition is_artifact (jobID : string) (attempt : Z) (path : string) (a : Artifact) : bool :=
  bool_decide (a_JobID a = jobID) && bool_decide (a_Attempt a = attempt) && bool_decide (a_Path a = path).

Definition UpsertArtifact (jobID : string) (attempt : Z) (path : string) (size : Z) (sha ct : string) : W Artifact :=
  now ← Now;
  d ← get_db;
  let a := mkArtifact jobID attempt path size sha ct now in
  match sql_row (is_artifact jobID attempt path) (db_artifacts d) with
  | Some _ =>
      put_db (d <| db_artifacts := sql_update (is_artifact jobID attempt path) (λ _, a) (db_artifacts d) |>);;
      mret a
  | None =>
      match sql_row (is_id jobID) (db_jobs d) with
      | None => fail (ErrConstraint "artifacts.job_id REFERENCES jobs")
      | Some _ => put_db (d <| db_artifacts := db_artifacts d ++ [a] |>);; mret a
      end
  end.

Definition GetArtifact (jobID : string) (attempt : Z) (path : string) : W Artifact :=
  d ← get_db;
  match sql_row (is_artifact jobID attempt path) (db_artifacts d) with
  | Some a => mret a
  | None => fail ErrNotFound
  end.

Definition ListArtifacts (jobID : string) (attempt : Z) : W (list Artifact) :=
  d ← get_db;
  mret (order_by (λ a b, String.leb (a_Path a) (a_Path b))
    (sql_select (λ a, bool_decide (a_JobID a = jobID) && bool_decide (a_Attempt a = attempt)) (db_artifacts d))).

(** ** runners.go *)

Definition UpsertRunner (id name : string) (labels : gmap string string) (capacity : Z)
    (state : option RunnerState) (version : string) : W Runner :=
  if bool_decide (id = "") then fail (ErrRequired "runner.ID")
  else
    let capacity := if bool_decide (capacity <= 0) then 1 else capacity in
    let state := default RunnerOnline state in
    now ← Now;
    d ← get_db;
    if List.existsb (λ r, bool_decide (nr_name r = name) && bool_decide (nr_id r ≠ id)) (db_runners d)
    then fail (ErrConstraint "runners.name")
    else match sql_row (by_key nr_id id) (db_runners d) with
    | Some r =>
        put_db (d <| db_runners := sql_update (by_key nr_id id)
          (λ r, mkRunnerRow id name labels capacity state version now (nr_registered_at r)) (db_runners d) |>);;
        mret (mkRunner id name labels capacity state version now (nr_registered_at r))
    | None =>
        put_db (d <| db_runners := db_runners d ++ [mkRunnerRow id name labels capacity state version now now] |>);;
        mret (mkRunner id name labels capacity state version now now)
    end.

Definition TouchRunner (runnerID : string) : W unit :=
  now ← Now;
  d ← get_db;
  put_db (d <| db_runners := sql_update (by_key nr_id runnerID)
            (λ r, r <| nr_last_seen_at := now |> <| nr_state := RunnerOnline |>) (db_runners d) |>);;
  if bool_decide (sql_count (by_key nr_id runnerID) (db_runners d) = 1%nat) then mret tt
  else UpsertRunner runnerID runnerID ∅ 0 None "";; mret tt.

Definition GetRunner (id : string) : W Runner :=
  d ← get_db;
  match sql_row (by_key nr_id id) (db_runners d) with
  | Some r => mret (scanRunner r)
  | None => fail ErrNotFound
  end.

Definition runner_leb (a b : RunnerRow) : bool := String.leb (nr_id a) (nr_id b).
Definition ListRunners : W (list Runner) :=
  d ← get_db; mret (scanRunner <$> order_by runner_leb (db_runners d)).

Definition GetRunnerByName (name : string) : W Runner :=
  d ← get_db;
  match sql_row (by_key nr_name name) (db_runners d) with
  | Some r => mret (scanRunner r)
  | None => fail ErrNotFound
  end.

Definition mark_offline (id : string) (_ : unit) : W unit :=
  d ← get_db;
  put_db (d <| db_runners := sql_update (λ r, by_key nr_id id r && bool_decide (nr_state r = RunnerOnline))
            (λ r, r <| nr_state := RunnerOffline |>) (db_runners d) |>).

Definition MarkRunnersOffline (before : Z) : W (list string) :=
  d ← get_db;
  let ids := nr_id <$> order_by runner_leb
    (sql_select (λ r, bool_decide (nr_state r = RunnerOnline) && bool_decide (nr_last_seen_at r < before)) (db_runners d)) in
  mfor ids tt mark_offline;;
  mret ids.

(** ** counts.go *)

(** [GROUP BY state, COUNT] for one table. *)
Definition count_states {R} (state : R → string) (t : list R) : gmap string Z :=
  foldl (λ m r, <[state r := default 0 (m !! state r) + 1]> m) ∅ t.

Definition StateCounts : W (gmap string (gmap string Z)) :=
  d ← get_db;
  mret (<["runs" := count_states (λ r, run_state_str (rr_state r)) (db_runs d)]>
       (<["jobs" := count_states (λ r, job_state_str (jr_state r)) (db_jobs d)]>
       (<["runners" := count_states (λ r, runner_state_str (nr_state r)) (db_runners d)]> ∅))).
