(* ===== verification/Scheduler.v ===== *)
(** * internal/scheduler: the runner protocol and the lease monitor

    One definition per method of [Scheduler]: [Claim], [Heartbeat], [Complete],
    [CancelRun], [AppendLogs] and [Tick], each one store transaction followed by
    the metric updates of a committed transaction, and [advance], the DAG
    advancement they share. *)

From S2P Require Import Prelude GoLib Pipeline Types Store.

Local Open Scope Z_scope.

Definition DefaultLeaseTTL : Z := 30 * Second.
Definition DefaultLogCapBytes : Z := Z.shiftl 10 20.
Definition DefaultMaxAttempts : Z := 3.
Definition DefaultMonitorInterval : Z := 5 * Second.
Definition DefaultRunnerOfflineAfter : Z := 30 * Second.
Definition DefaultTimeoutGrace : Z := 30 * Second.

Record Config := mkConfig {
  cfg_LeaseTTL : Z;
  cfg_LogCapBytes : Z;
  cfg_MaxAttempts : Z;
  cfg_MonitorInterval : Z;
  cfg_RunnerOfflineAfter : Z;
  cfg_TimeoutGrace : Z
}.

Record Scheduler := mkScheduler {
  s_ttl : Z;
  s_logCap : Z;
  s_maxAttempts : Z;
  s_monitorEach : Z;
  s_offlineMS : Z;
  s_graceMS : Z;
  s_leaseGraceUntil : Z
}.

Definition or_default (v dflt : Z) : Z := if bool_decide (v <= 0) then dflt else v.

Definition New (cfg : Config) : W Scheduler :=
  let ttl := or_default (cfg_LeaseTTL cfg) DefaultLeaseTTL in
  now ← Now;
  mret (mkScheduler (Milliseconds ttl)
          (or_default (cfg_LogCapBytes cfg) DefaultLogCapBytes)
          (or_default (cfg_MaxAttempts cfg) DefaultMaxAttempts)
          (or_default (cfg_MonitorInterval cfg) DefaultMonitorInterval)
          (Milliseconds (or_default (cfg_RunnerOfflineAfter cfg) DefaultRunnerOfflineAfter))
          (Milliseconds (or_default (cfg_TimeoutGrace cfg) DefaultTimeoutGrace))
          (now + Milliseconds ttl)).

(** ** transitions: what one transaction changed *)

Record transitions := mkTransitions {
  tr_entered : gmap JobState Z;
  tr_durationMS : list Z
}.
Definition no_transitions : transitions := mkTransitions ∅ [].

Definition tr_enter (tr : transitions) (state : JobState) : transitions :=
  mkTransitions (<[state := default 0 (tr_entered tr !! state) + 1]> (tr_entered tr)) (tr_durationMS tr).

Definition tr_finished (tr : transitions) (state : JobState) (startedAt finishedAt : Z) : transitions :=
  let tr := tr_enter tr state in
  if bool_decide (startedAt > 0) && bool_decide (finishedAt >= startedAt)
  then mkTransitions (tr_entered tr) (tr_durationMS tr ++ [finishedAt - startedAt])
  else tr.

Definition add_counts (m1 m2 : gmap JobState Z) : gmap JobState Z :=
  union_with (λ a b, Some (a + b)) m1 m2.

Definition tr_apply (tr : transitions) : W unit :=
  with_metrics (λ m, m <| m_JobsTotal := add_counts (tr_entered tr) (m_JobsTotal m) |>
                       <| m_JobDuration := m_JobDuration m ++ tr_durationMS tr |>).

(** ** Helpers *)

Definition retryable (kind : string) : bool :=
  bool_decide (kind = FailureInfra) || bool_decide (kind = FailureLostRunner).

Definition isTerminal (state : JobState) : bool :=
  match state with
  | JobSucceeded | JobFailed | JobCancelled | JobSkipped => true
  | _ => false
  end.

Definition jobSpec (j : Job) : W PJob :=
  match j_SpecJSON j with
  | Some spec => mret spec
  | None => fail (ErrDecodeSpec (j_ID j))
  end.

Definition specLabels (j : Job) : W (gmap string string) :=
  spec ← jobSpec j; mret (pj_Labels spec).

(** [have[k]] of a missing key is the empty string. *)
Definition labelsSubset (need have : gmap string string) : bool :=
  bool_decide (map_Forall (λ k v, default "" (have !! k) = v) need).

Definition event (runID jobID typ : string) (detail : Detail) : W unit :=
  AppendEvent runID jobID typ detail;; mret tt.

(** ** advance *)

(** The two flags of the inner switch over a job's needs. *)
Definition need_flags (state : gmap string JobState) (needs : list string) : bool * bool :=
  foldl (λ '(blocked, waiting) n,
    match state !! n with
    | Some JobSucceeded => (blocked, waiting)
    | Some JobFailed | Some JobCancelled | Some JobSkipped => (true, waiting)
    | _ => (blocked, true)
    end) (false, false) needs.

Record AdvState := mkAdvState {
  av_state : gmap string JobState;
  av_tr : transitions;
  av_changed : bool
}.

(** One iteration of the inner [for i := range jobs]. *)
Definition advance_job (runID : string) (needs : gmap string (list string)) (j : Job) (av : AdvState) : W AdvState :=
  if bool_decide (av_state av !! j_ID j = Some JobPending) then
    let '(blocked, waiting) := need_flags (av_state av) (default [] (needs !! j_ID j)) in
    if negb blocked && waiting then mret av
    else
      let next := if blocked then JobSkipped else JobQueued in
      ok ← TransitionPendingJob (j_ID j) next;
      if (ok : bool) then
        event runID (j_ID j) (if bool_decide (next = JobSkipped) then "job.skipped" else "job.queued") [];;
        mret (mkAdvState (<[j_ID j := next]> (av_state av)) (tr_enter (av_tr av) next) true)
      else fail (ErrLeftPending (j_ID j))
  else mret av.

(** [for changed := true; changed;]: every pass but the last moves a job out of
    pending, so [length jobs] passes and the final unchanged one are enough. *)
Fixpoint advance_loop (fuel : nat) (runID : string) (jobs : list Job) (needs : gmap string (list string))
    (state : gmap string JobState) (tr : transitions) : W (gmap string JobState * transitions) :=
  match fuel with
  | O => fail ErrFuel
  | S fuel' =>
      av ← mfor jobs (mkAdvState state tr false) (advance_job runID needs);
      if av_changed av then advance_loop fuel' runID jobs needs (av_state av) (av_tr av)
      else mret (av_state av, av_tr av)
  end.

(** The finalization switch over [range state]; [None] is the early return. *)
Fixpoint final_state (l : list JobState) (final : RunState) : option RunState :=
  match l with
  | [] => Some final
  | js :: l' =>
      match js with
      | JobPending | JobQueued | JobRunning => None
      | JobFailed => final_state l' RunFailed
      | JobCancelled => final_state l' (if bool_decide (final ≠ RunFailed) then RunCancelled else final)
      | JobSucceeded | JobSkipped => final_state l' final
      end
  end.

Definition state_map (jobs : list Job) : gmap string JobState :=
  foldl (λ m j, <[j_ID j := j_State j]> m) ∅ jobs.

Definition needs_map (deps : list JobDep) : gmap string (list string) :=
  foldl (λ m d, <[d_JobID d := default [] (m !! d_JobID d) ++ [d_NeedsJobID d]]> m) ∅ deps.

Definition advance (runID : string) (tr : transitions) : W transitions :=
  jobs ← ListJobs runID;
  deps ← ListJobDeps runID;
  res ← advance_loop (S (length jobs)) runID jobs (needs_map deps) (state_map jobs) tr;
  let '(state, tr') := res in
  match final_state (map_to_list state).*2 RunSucceeded with
  | None => mret tr'
  | Some final =>
      run ← GetRun runID;
      if bool_decide (r_State run ≠ RunPending ∧ r_State run ≠ RunRunning) then mret tr'
      else
        SetRunState runID (r_State run) final;;
        event runID "" "run.finished" [("state", DStr (run_state_str final))];;
        mret tr'
  end.

(** ** Claim *)

Record RunnerInfo := mkRunnerInfo {
  ri_ID : string;
  ri_Name : string;
  ri_Labels : gmap string string;
  ri_Capacity : Z;
  ri_Version : string
}.

Fixpoint claim_loop (s : Scheduler) (r : RunnerInfo) (queued : list Job) : W (option Job) :=
  match queued with
  | [] => mret None
  | job :: rest =>
      need ← specLabels job;
      if labelsSubset need (ri_Labels r) then
        now ← Now;
        claimed ← ClaimJob (j_ID job) (ri_ID r) (now + s_ttl s);
        match claimed with
        | None => claim_loop s r rest
        | Some attempt =>
            ok ← SetRunState (j_RunID job) RunPending RunRunning;
            (if (ok : bool) then event (j_RunID job) "" "run.started" [] else mret tt);;
            event (j_RunID job) (j_ID job) "job.claimed" [("runner_id", DStr (ri_ID r)); ("attempt", DInt attempt)];;
            j ← GetJob (j_ID job);
            mret (Some j)
        end
      else claim_loop s r rest
  end.

Definition Claim (s : Scheduler) (r : RunnerInfo) : W (option Job) :=
  if bool_decide (ri_ID r = "") then fail (ErrRequired "runner id")
  else
    let name := if bool_decide (ri_Name r = "") then ri_ID r else ri_Name r in
    claimed ← Tx (
      UpsertRunner (ri_ID r) name (ri_Labels r) (ri_Capacity r) None (ri_Version r);;
      queued ← ListQueuedJobs;
      claim_loop s r queued);
    (match claimed with
     | Some j => with_metrics (λ m,
         m <| m_JobsTotal := add_counts {[JobRunning := 1]} (m_JobsTotal m) |>
           <| m_ClaimLatency := m_ClaimLatency m ++ [j_StartedAt j - j_QueuedAt j] |>)
     | None => mret tt
     end);;
    mret claimed.

(** ** Heartbeat *)

Inductive directive := DirectiveContinue | DirectiveCancel | DirectiveAbort.
#[export] Instance directive_eq_dec : EqDecision directive.
Proof. solve_decision. Defined.
Definition directive_str (d : directive) : string :=
  match d with DirectiveContinue => "continue" | DirectiveCancel => "cancel" | DirectiveAbort => "abort" end.

Record JobRef := mkJobRef { jf_JobID : string; jf_Attempt : Z }.
Record Directive := mkDirective { dv_JobID : string; dv_Attempt : Z; dv_Directive : directive }.

Definition heartbeat_job (s : Scheduler) (runnerID : string) (j : JobRef) (out : list Directive) : W (list Directive) :=
  now ← Now;
  ok ← ExtendLease (jf_JobID j) (jf_Attempt j) runnerID (now + s_ttl s);
  d ← (if (ok : bool) then
         job ← GetJob (jf_JobID j);
         mret (if bool_decide (j_CancelRequestedAt job ≠ 0) then DirectiveCancel else DirectiveContinue)
       else mret DirectiveAbort);
  mret (out ++ [mkDirective (jf_JobID j) (jf_Attempt j) d]).

Definition Heartbeat (s : Scheduler) (runnerID : string) (jobs : list JobRef) : W (list Directive) :=
  if bool_decide (runnerID = "") then fail (ErrRequired "runner id")
  else Tx (TouchRunner runnerID;; mfor jobs [] (heartbeat_job s runnerID)).

(** ** Complete *)

Record Result := mkResult {
  res_Status : string;
  res_FailureKind : string;
  res_ExitCode : option Z;
  res_Error : string
}.

Definition status_succeeded : string := "succeeded".
Definition status_failed : string := "failed".

(** The validation switch before the transaction. *)
Definition valid_result (res : Result) : option Err :=
  if bool_decide (res_Status res = status_succeeded) then None
  else if bool_decide (res_Status res = status_failed) then
    if bool_decide (res_FailureKind res ∈ [FailureExitCode; FailureTimeout; FailureInfra; FailureCancelled])
    then None
    else Some (InvalidFailureKind (res_FailureKind res))
  else Some (InvalidStatus (res_Status res)).

(** The four cases of the terminal-transition switch. *)
Definition complete_succeeded (job : Job) (attempt : Z) (res : Result) : W transitions :=
  FinishJob (j_ID job) attempt JobSucceeded "" (res_ExitCode res) "";;
  now ← Now;
  event (j_RunID job) (j_ID job) "job.succeeded" [("attempt", DInt attempt)];;
  mret (tr_finished no_transitions JobSucceeded (j_StartedAt job) now).

Definition complete_cancelled (job : Job) (attempt : Z) (res : Result) : W transitions :=
  let '(state, kind, msg, typ) :=
    if bool_decide (j_CancelReason job = CancelReasonTimeout)
    then (JobFailed, FailureTimeout, "job timed out (server backstop)", "job.failed")
    else (JobCancelled, FailureCancelled, res_Error res, "job.cancelled") in
  FinishJob (j_ID job) attempt state kind (res_ExitCode res) msg;;
  now ← Now;
  event (j_RunID job) (j_ID job) typ
    [("attempt", DInt attempt); ("failure_kind", DStr kind); ("error", DStr msg)];;
  mret (tr_finished no_transitions state (j_StartedAt job) now).

Definition complete_requeue (job : Job) (attempt : Z) (res : Result) : W transitions :=
  RequeueJob (j_ID job) attempt (res_Error res);;
  event (j_RunID job) (j_ID job) "job.requeued"
    [("attempt", DInt attempt); ("failure_kind", DStr (res_FailureKind res)); ("error", DStr (res_Error res))];;
  mret (tr_enter no_transitions JobQueued).

Definition complete_failed (job : Job) (attempt : Z) (res : Result) : W transitions :=
  FinishJob (j_ID job) attempt JobFailed (res_FailureKind res) (res_ExitCode res) (res_Error res);;
  now ← Now;
  event (j_RunID job) (j_ID job) "job.failed"
    [("attempt", DInt attempt); ("failure_kind", DStr (res_FailureKind res));
     ("exit_code", DOptInt (res_ExitCode res)); ("error", DStr (res_Error res))];;
  mret (tr_finished no_transitions JobFailed (j_StartedAt job) now).

Definition complete_transition (job : Job) (attempt : Z) (res : Result) : W transitions :=
  if bool_decide (res_Status res = status_succeeded) then complete_succeeded job attempt res
  else if bool_decide (res_FailureKind res = FailureCancelled) then complete_cancelled job attempt res
  else if retryable (res_FailureKind res) && bool_decide (attempt < j_MaxAttempts job) &&
          bool_decide (j_CancelRequestedAt job = 0)
  then complete_requeue job attempt res
  else complete_failed job attempt res.

Definition complete_tx (jobID : string) (attempt : Z) (res : Result) : W (Job * transitions) :=
  job ← GetJob jobID;
  if bool_decide (j_State job ≠ JobRunning ∨ j_Attempt job ≠ attempt) then
    if bool_decide (j_Attempt job = attempt) && isTerminal (j_State job)
    then mret (job, no_transitions)
    else fail ErrFenced
  else
    tr ← complete_transition job attempt res;
    tr ← advance (j_RunID job) tr;
    out ← GetJob jobID;
    mret (out, tr).

Definition Complete (jobID : string) (attempt : Z) (res : Result) : W Job :=
  match valid_result res with
  | Some e => fail e
  | None =>
      r ← Tx (complete_tx jobID attempt res);
      let '(out, tr) := r in
      tr_apply tr;;
      mret out
  end.

(** ** CancelRun *)

Definition cancel_job (runID : string) (job : Job) (tr : transitions) : W transitions :=
  match j_State job with
  | JobPending | JobQueued =>
      ok ← CancelJob (j_ID job) "cancelled by user";
      if (ok : bool) then
        event runID (j_ID job) "job.cancelled"
          [("attempt", DInt (j_Attempt job)); ("failure_kind", DStr FailureCancelled)];;
        mret (tr_enter tr JobCancelled)
      else mret tr
  | JobRunning =>
      ok ← RequestJobCancel (j_ID job) CancelReasonUser;
      if (ok : bool) then
        event runID (j_ID job) "job.cancel_requested"
          [("attempt", DInt (j_Attempt job)); ("runner_id", DStr (j_RunnerID job)); ("reason", DStr CancelReasonUser)];;
        mret tr
      else mret tr
  | _ => mret tr
  end.

Definition cancel_tx (runID : string) : W (Run * transitions) :=
  run ← GetRun runID;
  if bool_decide (r_State run ≠ RunPending ∧ r_State run ≠ RunRunning) then fail ErrRunFinished
  else
    events ← ListEvents runID 0 0;
    if List.existsb (λ e, bool_decide (e_Type e = "run.cancel_requested")) events then mret (run, no_transitions)
    else
      jobs ← ListJobs runID;
      tr ← mfor jobs no_transitions (cancel_job runID);
      event runID "" "run.cancel_requested" [];;
      tr ← advance runID tr;
      out ← GetRun runID;
      mret (out, tr).

Definition CancelRun (runID : string) : W Run :=
  r ← Tx (cancel_tx runID);
  let '(out, tr) := r in
  tr_apply tr;;
  mret out.

(** ** AppendLogs (logs.go) *)

Definition EventLogsTruncated : string := "job.logs_truncated".

Fixpoint bad_seq (chunks : list LogChunk) : option Z :=
  match chunks with
  | [] => None
  | c :: l => if bool_decide (c_Seq c < 1) then Some (c_Seq c) else bad_seq l
  end.

(** [room := s.logCap - total; if len(data) > room { ...; data = data[:room] }] *)
Definition fit (room : Z) (data : list N) : list N :=
  if bool_decide (Z.of_nat (length data) > room) then take (Z.to_nat (Z.max 0 room)) data else data.

Record LogAcc := mkLogAcc { la_total : Z; la_stored : Z; la_lost : bool }.

Definition append_chunk (s : Scheduler) (jobID : string) (attempt : Z) (c : LogChunk) (acc : LogAcc) : W LogAcc :=
  let data := fit (s_logCap s - la_total acc) (c_Data c) in
  inserted ← InsertLogChunk jobID attempt (c_Seq c) data;
  if (inserted : bool) then
    let n := Z.of_nat (length data) in
    mret (mkLogAcc (la_total acc + n) (la_stored acc + n)
            (la_lost acc || bool_decide (length data < length (c_Data c))%nat))
  else mret acc.

Definition append_tx (s : Scheduler) (jobID : string) (attempt : Z) (chunks : list LogChunk) : W Z :=
  job ← GetJob jobID;
  if bool_decide (j_State job ≠ JobRunning ∨ j_Attempt job ≠ attempt) then fail ErrFenced
  else
    total ← LogBytes jobID attempt;
    acc ← mfor chunks (mkLogAcc total 0 false) (append_chunk s jobID attempt);
    if la_lost acc then
      has ← HasJobEvent (j_RunID job) jobID EventLogsTruncated attempt;
      if (has : bool) then mret (la_stored acc)
      else
        event (j_RunID job) jobID EventLogsTruncated [("attempt", DInt attempt); ("cap_bytes", DInt (s_logCap s))];;
        mret (la_stored acc)
    else mret (la_stored acc).

Definition AppendLogs (s : Scheduler) (jobID : string) (attempt : Z) (chunks : list LogChunk) : W unit :=
  match bad_seq chunks with
  | Some q => fail (InvalidSeq q)
  | None =>
      stored ← Tx (append_tx s jobID attempt chunks);
      with_metrics (λ m, m <| m_LogBytes := m_LogBytes m + stored |>)
  end.

(** ** Tick (monitor.go) *)

Record TickReport := mkTickReport {
  tk_Requeued : list string;
  tk_Failed : list string;
  tk_TimedOut : list string;
  tk_RunnersOffline : list string
}.
Definition no_report : TickReport := mkTickReport [] [] [] [].

Definition expiry_msg (job : Job) : string :=
  if bool_decide (j_RunnerID job = "") then "lease expired"
  else "lease expired" +:+ " (runner " +:+ j_RunnerID job +:+ ")".

(** One expired lease: requeued below the cap with no cancel pending, else
    failed as lost_runner with its DAG advanced. *)
Definition expire_job (now : Z) (job : Job) (acc : TickReport * transitions * Z) : W (TickReport * transitions * Z) :=
  let '(rep, tr, n) := acc in
  let detail := [("attempt", DInt (j_Attempt job)); ("failure_kind", DStr FailureLostRunner);
                 ("runner_id", DStr (j_RunnerID job)); ("lease_expires_at", DInt (j_LeaseExpiresAt job))] in
  if retryable FailureLostRunner && bool_decide (j_Attempt job < j_MaxAttempts job) &&
     bool_decide (j_CancelRequestedAt job = 0) then
    RequeueJob (j_ID job) (j_Attempt job) (expiry_msg job);;
    event (j_RunID job) (j_ID job) "job.requeued" detail;;
    mret (mkTickReport (tk_Requeued rep ++ [j_ID job]) (tk_Failed rep) (tk_TimedOut rep) (tk_RunnersOffline rep),
          tr_enter tr JobQueued, n + 1)
  else
    FinishJob (j_ID job) (j_Attempt job) JobFailed FailureLostRunner None (expiry_msg job);;
    event (j_RunID job) (j_ID job) "job.failed" detail;;
    tr' ← advance (j_RunID job) (tr_finished tr JobFailed (j_StartedAt job) now);
    mret (mkTickReport (tk_Requeued rep) (tk_Failed rep ++ [j_ID job]) (tk_TimedOut rep) (tk_RunnersOffline rep),
          tr', n + 1).

(** The timeout backstop for one running job. *)
Definition backstop_job (s : Scheduler) (now : Z) (job : Job) (rep : TickReport) : W TickReport :=
  spec ← jobSpec job;
  let timeout := pj_Timeout spec in
  if bool_decide (timeout <= 0) || bool_decide (j_StartedAt job = 0) ||
     bool_decide (j_StartedAt job + Milliseconds timeout + s_graceMS s >= now)
  then mret rep
  else
    ok ← RequestJobCancel (j_ID job) CancelReasonTimeout;
    if (ok : bool) then
      event (j_RunID job) (j_ID job) "job.cancel_requested"
        [("attempt", DInt (j_Attempt job)); ("runner_id", DStr (j_RunnerID job)); ("reason", DStr CancelReasonTimeout);
         ("timeout_ms", DInt (Milliseconds timeout)); ("started_at", DInt (j_StartedAt job))];;
      mret (mkTickReport (tk_Requeued rep) (tk_Failed rep) (tk_TimedOut rep ++ [j_ID job]) (tk_RunnersOffline rep))
    else mret rep.

Definition tick_tx (s : Scheduler) : W (TickReport * transitions * Z) :=
  now ← Now;
  expired ← (if bool_decide (now >= s_leaseGraceUntil s) then ListExpiredLeases now else mret []);
  acc ← mfor expired (no_report, no_transitions, 0) (expire_job now);
  let '(rep, tr, n) := acc in
  running ← ListRunningJobs;
  rep ← mfor running rep (backstop_job s now);
  ids ← MarkRunnersOffline (now - s_offlineMS s);
  mret (mkTickReport (tk_Requeued rep) (tk_Failed rep) (tk_TimedOut rep) ids, tr, n).

Definition Tick (s : Scheduler) : W TickReport :=
  r ← Tx (tick_tx s);
  let '(rep, tr, n) := r in
  tr_apply tr;;
  with_metrics (λ m, m <| m_LeaseExpirations := m_LeaseExpirations m + n |>);;
  mret rep.

(** ** Snapshot and metrics.LabelKey *)

Definition LabelKey (labels : gmap string string) : string :=
  let keys := order_by String.leb (map_to_list labels).*1 in
  Join ((λ k, k +:+ "=" +:+ default "" (labels !! k)) <$> keys) ",".

Definition incr (m : gmap string Z) (k : string) : gmap string Z := <[k := default 0 (m !! k) + 1]> m.

Record Snapshot := mkSnapshot { sn_QueueDepth : gmap string Z; sn_Runners : gmap string Z }.

Definition snapshot_job (j : Job) (m : gmap string Z) : W (gmap string Z) :=
  need ← specLabels j; mret (incr m (LabelKey need)).

Definition TakeSnapshot : W Snapshot :=
  queued ← ListQueuedJobs;
  depth ← mfor queued ∅ snapshot_job;
  runners ← ListRunners;
  mret (mkSnapshot depth (foldl incr ∅ ((λ r, runner_state_str (rn_State r)) <$> runners))).
