(* ===== verification/Protocol.v ===== *)
(** * The abstract protocol of docs/protocol.md

    A labelled state machine over the database: the edges of the job diagram with
    the guards the document gives them, the two run transitions, the audit log,
    and the writes that move no job.  The operations of Scheduler.v are shown to
    be sequences of these steps (Refinement.v), and the safety properties are
    proved here once, by induction on the steps. *)

From S2P Require Import Prelude GoLib Pipeline Types Store Scheduler.
From stdpp Require Import relations.

Local Open Scope Z_scope.

(** ** Reading the database *)

Definition job_at (d : DB) (id : string) : option JobRow := sql_row (is_id id) (db_jobs d).
Definition run_at (d : DB) (id : string) : option RunRow := sql_row (by_key rr_id id) (db_runs d).
Definition job_state_at (d : DB) (id : string) : option JobState := jr_state <$> job_at d id.

(** [n] is a need of [id]. *)
Definition needs (d : DB) (id n : string) : Prop := mkJobDep id n ∈ db_job_deps d.

(** No dependency cycle: the needs of a job have a smaller rank. *)
Definition Acyclic (d : DB) : Prop := ∃ rank : string → nat, ∀ id n, needs d id n → (rank n < rank id)%nat.

Definition bad_state (s : JobState) : Prop := s = JobFailed ∨ s = JobCancelled ∨ s = JobSkipped.
Definition terminal (s : JobState) : Prop := isTerminal s = true.
#[export] Instance terminal_dec s : Decision (terminal s).
Proof. unfold terminal. apply _. Defined.
Definition run_terminal (s : RunState) : Prop := s ≠ RunPending ∧ s ≠ RunRunning.
#[export] Instance run_terminal_dec s : Decision (run_terminal s).
Proof. unfold run_terminal. apply _. Defined.

(** The jobs of a run, and the verdict [advance] computes from their states. *)
Definition run_jobs (d : DB) (runID : string) : list JobRow :=
  sql_select (λ r, bool_decide (jr_run_id r = runID)) (db_jobs d).
Definition run_verdict (d : DB) (runID : string) : option RunState :=
  final_state (jr_state <$> run_jobs d runID) RunSucceeded.

(** ** The schema's constraints, and that every stored spec decodes *)
Record WF (d : DB) : Prop := {
  wf_jobs : keys_unique jr_id (db_jobs d);
  wf_runs : keys_unique rr_id (db_runs d);
  wf_job_run : ∀ r, r ∈ db_jobs d → is_Some (run_at d (jr_run_id r));
  wf_deps : ∀ id n, needs d id n → ∃ a b, job_at d id = Some a ∧ job_at d n = Some b ∧ jr_run_id a = jr_run_id b;
  wf_job_ne : ∀ r, r ∈ db_jobs d → jr_id r ≠ "";
  wf_run_ne : ∀ r, r ∈ db_runs d → rr_id r ≠ "";
  wf_specs : ∀ r, r ∈ db_jobs d → is_Some (jr_spec_json r)
}.

(** ** Job edges *)

(** The failure kind each verdict of a running attempt is stored with. *)
Definition verdict_kind (st : JobState) (kind : option string) : Prop :=
  (st = JobSucceeded ∧ kind = None) ∨
  (st = JobCancelled ∧ kind = Some FailureCancelled) ∨
  (st = JobFailed ∧ ∃ k, kind = Some k ∧
     k ∈ [FailureExitCode; FailureTimeout; FailureInfra; FailureLostRunner]).

Inductive JobEdge (d : DB) (r : JobRow) : JobRow → Prop :=
  | JE_claim runner lease now :
      jr_state r = JobQueued →
      JobEdge d r (r <| jr_state := JobRunning |> <| jr_runner_id := Some runner |>
                     <| jr_attempt := jr_attempt r + 1 |> <| jr_lease_expires_at := Some lease |>
                     <| jr_started_at := Some now |>)
  | JE_extend lease :
      jr_state r = JobRunning →
      JobEdge d r (r <| jr_lease_expires_at := Some lease |>)
  | JE_finish st kind code msg now :
      jr_state r = JobRunning → verdict_kind st kind →
      JobEdge d r (r <| jr_state := st |> <| jr_failure_kind := kind |> <| jr_exit_code := code |>
                     <| jr_error := msg |> <| jr_lease_expires_at := None |> <| jr_finished_at := Some now |>)
  | JE_requeue msg now :
      jr_state r = JobRunning → jr_attempt r < jr_max_attempts r →
      int_of (jr_cancel_requested_at r) = 0 →
      JobEdge d r (r <| jr_state := JobQueued |> <| jr_runner_id := None |> <| jr_lease_expires_at := None |>
                     <| jr_started_at := None |> <| jr_error := msg |> <| jr_queued_at := now |>)
  | JE_queue now :
      jr_state r = JobPending →
      (∀ n, needs d (jr_id r) n → job_state_at d n = Some JobSucceeded) →
      JobEdge d r (r <| jr_state := JobQueued |> <| jr_queued_at := now |>)
  | JE_skip n s now :
      jr_state r = JobPending → needs d (jr_id r) n → job_state_at d n = Some s → bad_state s →
      JobEdge d r (r <| jr_state := JobSkipped |> <| jr_finished_at := Some now |>)
  | JE_cancel msg now :
      jr_state r = JobPending ∨ jr_state r = JobQueued →
      JobEdge d r (r <| jr_state := JobCancelled |> <| jr_failure_kind := Some FailureCancelled |>
                     <| jr_error := msg |> <| jr_finished_at := Some now |>)
  | JE_request reason now :
      jr_state r = JobRunning → jr_cancel_requested_at r = None → now ≠ 0 →
      JobEdge d r (r <| jr_cancel_requested_at := Some now |> <| jr_cancel_reason := Some reason |>).

Definition set_job (id : string) (r : JobRow) (d : DB) : DB :=
  d <| db_jobs := sql_update (is_id id) (λ _, r) (db_jobs d) |>.
Definition set_run (id : string) (r : RunRow) (d : DB) : DB :=
  d <| db_runs := sql_update (by_key rr_id id) (λ _, r) (db_runs d) |>.

(** ** Steps *)

Inductive PStep (d : DB) : DB → Prop :=
  | P_job id r r' :
      job_at d id = Some r → JobEdge d r r' → PStep d (set_job id r' d)
  | P_run_start id r now :
      run_at d id = Some r → rr_state r = RunPending →
      (∃ j, j ∈ run_jobs d id ∧ jr_state j = JobRunning) →
      PStep d (set_run id (r <| rr_state := RunRunning |> <| rr_started_at := Some now |>) d)
  | P_run_finish id r final now :
      run_at d id = Some r → ¬ run_terminal (rr_state r) → run_verdict d id = Some final →
      PStep d (set_run id (r <| rr_state := final |> <| rr_finished_at := Some now |>) d)
  | P_event runID jobID typ detail now :
      PStep d (d <| db_events := db_events d ++ [mkEventRow (db_event_seq d + 1) runID jobID typ detail now] |>
                 <| db_event_seq := db_event_seq d + 1 |>)
  | P_runners t : PStep d (d <| db_runners := t |>)
  | P_log id r seq data :
      job_at d id = Some r → jr_state r = JobRunning →
      (∀ c, c ∈ db_log_chunks d → lr_job_id c = id → lr_attempt c = jr_attempt r → lr_seq c ≠ seq) →
      PStep d (d <| db_log_chunks := db_log_chunks d ++ [mkLogRow id (jr_attempt r) seq data] |>)
  | P_artifact id r t :
      job_at d id = Some r → jr_state r = JobRunning →
      (∀ a, a ∉ db_artifacts d → a ∈ t → a_JobID a = id ∧ a_Attempt a = jr_attempt r) →
      PStep d (d <| db_artifacts := t |>).

Abbreviation PSteps := (rtc PStep).

(** ** Elementary facts *)

Lemma is_id_true id r : is_id id r = true ↔ jr_id r = id.
Proof. unfold is_id, by_key. apply bool_decide_eq_true. Qed.

Lemma job_at_Some d id r : job_at d id = Some r → r ∈ db_jobs d ∧ jr_id r = id.
Proof. apply sql_row_key. Qed.

Lemma job_at_iff d id r : WF d → job_at d id = Some r ↔ r ∈ db_jobs d ∧ jr_id r = id.
Proof. intros [Hu]. by apply sql_row_iff. Qed.

Lemma run_at_Some d id r : run_at d id = Some r → r ∈ db_runs d ∧ rr_id r = id.
Proof. apply sql_row_key. Qed.

Lemma JobEdge_id d r r' : JobEdge d r r' → jr_id r' = jr_id r.
Proof. by destruct 1. Qed.
Lemma JobEdge_spec d r r' : JobEdge d r r' → jr_spec_json r' = jr_spec_json r.
Proof. by destruct 1. Qed.
Lemma JobEdge_run d r r' : JobEdge d r r' → jr_run_id r' = jr_run_id r.
Proof. by destruct 1. Qed.

Lemma job_at_set_job d id r k :
  jr_id r = id →
  job_at (set_job id r d) k = if decide (k = id) then (λ _, r) <$> job_at d id else job_at d k.
Proof.
  intros Hid. unfold job_at, set_job, is_id. simpl.
  rewrite (sql_update_row jr_id).
  - destruct (decide (k = id)) as [->|Hne].
    + destruct (sql_row (by_key jr_id id) (db_jobs d)) as [x|] eqn:E; [|done]. simpl.
      apply sql_row_key in E as [_ ->]. by rewrite bool_decide_true.
    + destruct (sql_row (by_key jr_id k) (db_jobs d)) as [x|] eqn:E; [|done]. simpl.
      apply sql_row_key in E as [_ ->]. by rewrite bool_decide_false.
  - intros x Hx%is_id_true. congruence.
Qed.

Lemma run_at_set_run d id r k :
  rr_id r = id →
  run_at (set_run id r d) k = if decide (k = id) then (λ _, r) <$> run_at d id else run_at d k.
Proof.
  intros Hid. unfold run_at, set_run. simpl.
  rewrite (sql_update_row rr_id).
  - destruct (decide (k = id)) as [->|Hne].
    + destruct (sql_row (by_key rr_id id) (db_runs d)) as [x|] eqn:E; [|done]. simpl.
      apply sql_row_key in E as [_ ->]. by rewrite bool_decide_true.
    + destruct (sql_row (by_key rr_id k) (db_runs d)) as [x|] eqn:E; [|done]. simpl.
      apply sql_row_key in E as [_ ->]. by rewrite bool_decide_false.
  - intros x Hx%bool_decide_eq_true. congruence.
Qed.

(** Steps never add or remove a job, a run or an edge. *)
Lemma PStep_static d d' : PStep d d' →
  jr_id <$> db_jobs d' = jr_id <$> db_jobs d ∧
  rr_id <$> db_runs d' = rr_id <$> db_runs d ∧
  db_job_deps d' = db_job_deps d.
Proof.
  destruct 1 as [id r r' Hr He|id r now Hr _ _|id r f now Hr _ _|?????|?|?????|???]; simpl; try done;
    split_and!; try done.
  - apply sql_update_keys. intros x Hx%is_id_true. apply job_at_Some in Hr as [_ Hr].
    rewrite (JobEdge_id _ _ _ He). congruence.
  - apply (sql_update_keys rr_id). intros x Hx%bool_decide_eq_true.
    apply run_at_Some in Hr as [_ Hr]. simpl. congruence.
  - apply (sql_update_keys rr_id). intros x Hx%bool_decide_eq_true.
    apply run_at_Some in Hr as [_ Hr]. simpl. congruence.
Qed.

(** Every job of [d] is a job of [d'], either untouched or moved along one edge. *)
Lemma PStep_job d d' id : PStep d d' →
  job_at d' id = job_at d id ∨
  ∃ r r', job_at d id = Some r ∧ job_at d' id = Some r' ∧ JobEdge d r r'.
Proof.
  destruct 1 as [k r r' Hr He| | | | | |]; try by left.
  assert (jr_id r' = k) as Hk.
  { rewrite (JobEdge_id _ _ _ He). by apply job_at_Some in Hr as [_ ->]. }
  rewrite job_at_set_job by done. destruct (decide (id = k)) as [->|]; [|by left].
  right. rewrite Hr. simpl. eauto.
Qed.

Lemma PStep_run d d' id : PStep d d' →
  run_at d' id = run_at d id ∨
  ∃ r r', run_at d id = Some r ∧ run_at d' id = Some r' ∧ rr_id r' = rr_id r ∧
    ((rr_state r = RunPending ∧ rr_state r' = RunRunning ∧
      ∃ j, j ∈ run_jobs d id ∧ jr_state j = JobRunning) ∨
     (¬ run_terminal (rr_state r) ∧ run_verdict d id = Some (rr_state r'))).
Proof.
  destruct 1 as [|k r now Hr Hp Hj|k r f now Hr Hn Hv| | | |]; try by left.
  - destruct (run_at_Some _ _ _ Hr) as [_ Hk].
    rewrite run_at_set_run by done. destruct (decide (id = k)) as [->|]; [|by left].
    right. rewrite Hr. simpl. eexists _, _. split_and!; eauto 6.
  - destruct (run_at_Some _ _ _ Hr) as [_ Hk].
    rewrite run_at_set_run by done. destruct (decide (id = k)) as [->|]; [|by left].
    right. rewrite Hr. simpl. eexists _, _. split_and!; eauto.
Qed.

Lemma job_at_exists d id : is_Some (job_at d id) ↔ id ∈ jr_id <$> db_jobs d.
Proof.
  rewrite list_elem_of_fmap. split.
  - intros [r [Hr <-]%job_at_Some]. by exists r.
  - intros (r & -> & Hr). unfold job_at. destruct (sql_row _ _) as [x|] eqn:E; [done|].
    eapply sql_row_None in E; [|done]. apply not_true_iff_false in E. destruct E. by apply is_id_true.
Qed.

Lemma run_at_exists d id : is_Some (run_at d id) ↔ id ∈ rr_id <$> db_runs d.
Proof.
  rewrite list_elem_of_fmap. split.
  - intros [r [Hr <-]%run_at_Some]. by exists r.
  - intros (r & -> & Hr). unfold run_at. destruct (sql_row _ _) as [x|] eqn:E; [done|].
    eapply sql_row_None in E; [|done]. by apply bool_decide_eq_false in E.
Qed.

(** A row of the new table is a row of the old one, or the end of an edge from one. *)
Lemma PStep_row d d' r : PStep d d' → WF d → r ∈ db_jobs d' →
  ∃ r0, r0 ∈ db_jobs d ∧ jr_id r = jr_id r0 ∧ jr_run_id r = jr_run_id r0 ∧ jr_spec_json r = jr_spec_json r0.
Proof.
  intros Hstep Hwf Hin. destruct (PStep_static _ _ Hstep) as (Hj & _ & _).
  assert (job_at d' (jr_id r) = Some r) as Hr.
  { unfold job_at. apply by_key_row; try done. unfold keys_unique. rewrite Hj. apply Hwf. }
  destruct (PStep_job _ _ (jr_id r) Hstep) as [E|(r0 & r1 & H0 & H1 & He)].
  - exists r. rewrite E in Hr. by apply job_at_Some in Hr as [? _].
  - assert (r1 = r) as -> by congruence. exists r0.
    rewrite (JobEdge_run _ _ _ He), (JobEdge_id _ _ _ He), (JobEdge_spec _ _ _ He).
    by apply job_at_Some in H0 as [H0 _].
Qed.

Lemma PStep_WF d d' : PStep d d' → WF d → WF d'.
Proof.
  intros Hstep Hwf. destruct (PStep_static _ _ Hstep) as (Hj & Hr & Hd).
  pose proof (λ r, PStep_row _ _ r Hstep Hwf) as Hrow.
  assert (Hex : ∀ id, is_Some (run_at d id) → is_Some (run_at d' id)).
  { intros id. by rewrite !run_at_exists, Hr. }
  destruct Hwf as [W1 W2 W3 W4 W5 W6 W7]. unfold keys_unique in *. split.
  - unfold keys_unique. by rewrite Hj.
  - unfold keys_unique. by rewrite Hr.
  - intros r (r0 & H0 & _ & -> & _)%Hrow. by apply Hex, W3.
  - unfold needs. rewrite Hd. intros id n (a & b & Ha & Hb & Hab)%W4.
    assert (Hmv : ∀ k x, job_at d k = Some x → ∃ y, job_at d' k = Some y ∧ jr_run_id y = jr_run_id x).
    { intros k x Hx. destruct (PStep_job _ _ k Hstep) as [E|(r0 & r1 & H0 & H1 & He)].
      - exists x. by rewrite E.
      - exists r1. split; [done|]. rewrite (JobEdge_run _ _ _ He). congruence. }
    destruct (Hmv _ _ Ha) as (a' & ? & ?), (Hmv _ _ Hb) as (b' & ? & ?).
    exists a', b'. split_and!; congruence.
  - intros r (r0 & H0 & -> & _)%Hrow. by apply W5.
  - intros r Hin. assert (rr_id r ∈ rr_id <$> db_runs d) as (x & -> & Hx)%list_elem_of_fmap.
    { rewrite <-Hr. by apply list_elem_of_fmap_2. }
    by apply W6.
  - intros r (r0 & H0 & _ & _ & ->)%Hrow. by apply W7.
Qed.

Lemma PSteps_WF d d' : PSteps d d' → WF d → WF d'.
Proof. induction 1; eauto using PStep_WF. Qed.

(** ** What a job may do over any number of steps *)

Record evolves (r r' : JobRow) : Prop := {
  ev_id : jr_id r' = jr_id r;
  ev_run : jr_run_id r' = jr_run_id r;
  ev_name : jr_name r' = jr_name r;
  ev_spec : jr_spec_json r' = jr_spec_json r;
  ev_max : jr_max_attempts r' = jr_max_attempts r;
  ev_attempt : jr_attempt r ≤ jr_attempt r';
  ev_terminal : terminal (jr_state r) → r' = r;
  ev_pending : jr_state r' = JobPending → jr_state r = JobPending;
  ev_cancel : ∀ t, jr_cancel_requested_at r = Some t →
                jr_cancel_requested_at r' = Some t ∧ jr_cancel_reason r' = jr_cancel_reason r;
  (* an attempt number is held once: leaving running loses it for good *)
  ev_lost : jr_state r ≠ JobRunning → jr_attempt r' = jr_attempt r → jr_state r' ≠ JobRunning;
  ev_holder : jr_state r' = JobRunning → jr_attempt r' = jr_attempt r →
                jr_runner_id r' = jr_runner_id r ∧ jr_started_at r' = jr_started_at r
}.

#[export] Instance evolves_refl : Reflexive evolves.
Proof. intros r. by split. Qed.

#[export] Instance evolves_trans : Transitive evolves.
Proof.
  intros a b c [] []. split; try congruence; try lia.
  - intros Ht. assert (b = a) as -> by auto. auto.
  - auto.
  - intros t Ht. destruct (ev_cancel0 _ Ht) as [H1 H2]. destruct (ev_cancel1 _ H1). split; congruence.
  - intros Hs Ha. apply ev_lost1; [|lia]. apply ev_lost0; [done|lia].
  - intros Hs Ha. destruct (decide (jr_state b = JobRunning)) as [Hb|Hb].
    + destruct ev_holder1 as [? ?]; [done|lia|]. destruct ev_holder0 as [? ?]; [done|lia|]. split; congruence.
    + destruct (ev_lost1 Hb); [lia|done].
Qed.

Lemma verdict_kind_terminal st kind :
  verdict_kind st kind → terminal st ∧ st ≠ JobPending ∧ st ≠ JobRunning.
Proof. by intros [[-> _]|[[-> _]|[-> _]]]. Qed.

Lemma JobEdge_evolves d r r' : JobEdge d r r' → evolves r r'.
Proof.
  destruct 1; split; simpl; try done; try congruence; try lia;
    unfold terminal; repeat match goal with
    | H : jr_state r = _ |- _ => rewrite H
    | H : _ ∨ _ |- _ => destruct H
    end; try done; try lia; intros; simpl in *; try congruence.
  all: by destruct (verdict_kind_terminal _ _ H0) as (? & ? & ?).
Qed.

Lemma PStep_evolves d d' id r :
  PStep d d' → job_at d id = Some r → ∃ r', job_at d' id = Some r' ∧ evolves r r'.
Proof.
  intros Hs Hr. destruct (PStep_job _ _ id Hs) as [->|(r0 & r1 & H0 & H1 & He)].
  - by exists r.
  - exists r1. split; [done|]. assert (r0 = r) as -> by congruence. by eapply JobEdge_evolves.
Qed.

Lemma PSteps_evolves d d' id r :
  PSteps d d' → job_at d id = Some r → ∃ r', job_at d' id = Some r' ∧ evolves r r'.
Proof.
  intros Hs. revert r. induction Hs as [|x y z Hxy _ IH]; intros r Hr; [by exists r|].
  destruct (PStep_evolves _ _ _ _ Hxy Hr) as (r1 & H1 & E1).
  destruct (IH _ H1) as (r2 & H2 & E2). exists r2. split; [done|]. by etrans.
Qed.

(** ** The invariant of one job row *)

Record RowInv (r : JobRow) : Prop := {
  ri_attempt : 0 ≤ jr_attempt r ≤ jr_max_attempts r;
  ri_pending : jr_state r = JobPending → jr_attempt r = 0;
  ri_waiting : jr_state r = JobPending ∨ jr_state r = JobQueued → jr_attempt r < jr_max_attempts r;
  ri_running : jr_state r = JobRunning →
    1 ≤ jr_attempt r ∧ is_Some (jr_runner_id r) ∧ is_Some (jr_lease_expires_at r) ∧ is_Some (jr_started_at r);
  ri_lease : jr_state r ≠ JobRunning → jr_lease_expires_at r = None;
  ri_finished : is_Some (jr_finished_at r) ↔ terminal (jr_state r);
  ri_cancel : is_Some (jr_cancel_requested_at r) → jr_state r = JobRunning ∨ terminal (jr_state r);
  ri_cancel_nz : jr_cancel_requested_at r ≠ Some 0;
  ri_kind : ∀ k, jr_failure_kind r = Some k → jr_state r = JobFailed ∨ jr_state r = JobCancelled;
  ri_failed : jr_state r = JobFailed → verdict_kind JobFailed (jr_failure_kind r)
}.

Lemma JobEdge_RowInv d r r' : JobEdge d r r' → RowInv r → RowInv r'.
Proof.
  intros He [Ra Rp Rw Rr Rl Rf Rc Rz Rk Rd].
  destruct He as [??? Hs|? Hs|????? Hs Hv|?? Hs Ha Hc|? Hs Hn|??? Hs ???|?? Hs|?? Hs Hc Hz];
    try (destruct Hs as [Hs|Hs]); split; simpl; unfold terminal in *; rewrite ?Hs in *; simpl in *;
    try done; try lia; intros;
    try (destruct (verdict_kind_terminal _ _ Hv) as (?&?&?));
    try solve [intuition (try congruence; try lia; eauto)];
    try match goal with H : jr_failure_kind r = Some ?k |- _ => destruct (Rk k H); congruence end.
  - match goal with H : _ ∨ _ |- _ => destruct H; subst end; done.
  - destruct Hv as [[-> ->]|[[-> _]|[-> _]]]; naive_solver.
  - destruct (jr_cancel_requested_at r) as [t|]; [|by destruct H]. simpl in Hc. by subst.
Qed.

Definition RowsInv (d : DB) : Prop := ∀ id r, job_at d id = Some r → RowInv r.

Lemma PStep_RowsInv d d' : PStep d d' → RowsInv d → RowsInv d'.
Proof.
  intros Hs HI id r Hr. destruct (PStep_job _ _ id Hs) as [E|(r0 & r1 & H0 & H1 & He)].
  - rewrite E in Hr. eauto.
  - assert (r1 = r) as -> by congruence. eapply JobEdge_RowInv; eauto.
Qed.

Lemma PSteps_RowsInv d d' : PSteps d d' → RowsInv d → RowsInv d'.
Proof. induction 1; eauto using PStep_RowsInv. Qed.
