(* ===== verification/Advance.v ===== *)
(** * Store primitives as protocol steps, and [advance]

    What each guarded primitive does to a well-formed database, and the total
    correctness of the DAG advancement: it returns within its fuel, its effect is
    a sequence of protocol steps, no pending job it leaves can be decided, and the
    run is finalized with the verdict of its jobs' states. *)

From S2P Require Import Prelude GoLib Pipeline Types Store Scheduler Protocol.
From stdpp Require Import relations.

Local Open Scope Z_scope.

(** ** Worlds *)

Definition tick (w : World) : World := w <| w_reads := S (w_reads w) |>.
Definition now_of (w : World) : Z := w_clock w (w_reads w).
Definition upd (d : DB) (w : World) : World := w <| w_db := d |>.

(** [w ⇝ w']: the same environment, and the database moved by protocol steps. *)
Record evo (w w' : World) : Prop := {
  evo_clock : w_clock w' = w_clock w;
  evo_rand : w_rand w' = w_rand w;
  evo_rands : w_rands w' = w_rands w;
  evo_metrics : w_metrics w' = w_metrics w;
  evo_steps : PSteps (w_db w) (w_db w')
}.
Infix "⇝" := evo (at level 70) : quarry_scope.

#[export] Instance evo_refl : Reflexive evo.
Proof. intros w. by split. Qed.
#[export] Instance evo_trans : Transitive evo.
Proof. intros a b c [] []. split; try congruence. by etrans. Qed.

Lemma evo_WF w w' : w ⇝ w' → WF (w_db w) → WF (w_db w').
Proof. intros []. by apply PSteps_WF. Qed.

Lemma evo_tick_upd d w : PStep (w_db w) d → w ⇝ upd d (tick w).
Proof. intros. split; try done. by apply rtc_once. Qed.
Lemma evo_upd d w : PStep (w_db w) d → w ⇝ upd d w.
Proof. intros. split; try done. by apply rtc_once. Qed.
Lemma evo_tick w : w ⇝ tick w.
Proof. by split. Qed.

Definition clock_pos (w : World) : Prop := ∀ n, 0 < w_clock w n.
Lemma evo_clock_pos w w' : w ⇝ w' → clock_pos w → clock_pos w'.
Proof. intros [E _ _ _ _]. unfold clock_pos. by rewrite E. Qed.

Lemma world_eta w : upd (w_db w) w = w.
Proof. by destruct w. Qed.
Lemma db_jobs_eta d : d <| db_jobs := db_jobs d |> = d.
Proof. by destruct d. Qed.

Create HintDb quarry.
#[export] Hint Resolve evo_tick_upd evo_upd evo_tick evo_WF evo_clock_pos : quarry.

(** ** A guarded UPDATE of one job *)

Lemma modify_job_spec w id (Q : JobRow → bool) f :
  WF (w_db w) →
  modify_jobs (λ r, is_id id r && Q r) f w =
  match job_at (w_db w) id with
  | Some r => if Q r then (inr true, upd (set_job id (f r) (w_db w)) w) else (inr false, w)
  | None => (inr false, w)
  end.
Proof.
  intros Hwf. unfold modify_jobs. unfold is_id.
  rewrite (sql_count_key jr_id Q _ id (wf_jobs _ Hwf)).
  fold (is_id id). fold (job_at (w_db w) id).
  destruct (job_at (w_db w) id) as [r|] eqn:Hr; [destruct (Q r) eqn:HQ|].
  - rewrite bool_decide_true by done. unfold upd, set_job. do 3 f_equal.
    by apply (sql_update_key jr_id Q); [apply Hwf| |].
  - rewrite bool_decide_false by done. f_equal.
    rewrite sql_update_select_none; [by rewrite db_jobs_eta, world_eta|].
    unfold is_id. rewrite (sql_count_key jr_id Q _ id (wf_jobs _ Hwf)).
    fold (is_id id). fold (job_at (w_db w) id). by rewrite Hr, HQ.
  - rewrite bool_decide_false by done. f_equal.
    rewrite sql_update_select_none; [by rewrite db_jobs_eta, world_eta|].
    unfold is_id. rewrite (sql_count_key jr_id Q _ id (wf_jobs _ Hwf)).
    fold (is_id id). fold (job_at (w_db w) id). by rewrite Hr.
Qed.

Lemma event_spec w runID jobID typ detail :
  runID ≠ "" → typ ≠ "" →
  event runID jobID typ detail w =
  (inr tt, upd ((w_db w) <| db_events := db_events (w_db w) ++
                  [mkEventRow (db_event_seq (w_db w) + 1) runID (nullStr jobID) typ detail (now_of w)] |>
                       <| db_event_seq := db_event_seq (w_db w) + 1 |>) (tick w)).
Proof.
  intros H1 H2. unfold event, AppendEvent.
  by rewrite (bool_decide_false _ H1), (bool_decide_false _ H2).
Qed.

Lemma GetRun_ok w id r : run_at (w_db w) id = Some r → GetRun id w = (inr (scanRun r), w).
Proof. unfold run_at, GetRun, mbind, M_bind, get_db. by intros ->. Qed.
Lemma GetJob_ok w id r : job_at (w_db w) id = Some r → GetJob id w = (inr (scanJob r), w).
Proof. unfold job_at, GetJob, mbind, M_bind, get_db. by intros ->. Qed.
Lemma GetJob_none w id : job_at (w_db w) id = None → GetJob id w = (inl ErrNotFound, w).
Proof. unfold job_at, GetJob, mbind, M_bind, get_db. by intros ->. Qed.
Lemma GetRun_none w id : run_at (w_db w) id = None → GetRun id w = (inl ErrNotFound, w).
Proof. unfold run_at, GetRun, mbind, M_bind, get_db. by intros ->. Qed.

(** An event changes only the audit log. *)
Lemma event_ok w runID jobID typ detail :
  runID ≠ "" → typ ≠ "" →
  ∃ w', event runID jobID typ detail w = (inr tt, w') ∧ w ⇝ w' ∧
    db_jobs (w_db w') = db_jobs (w_db w) ∧ db_runs (w_db w') = db_runs (w_db w) ∧
    db_job_deps (w_db w') = db_job_deps (w_db w).
Proof.
  intros H1 H2. eexists. split; [by apply event_spec|]. split; [|done].
  apply evo_tick_upd. apply P_event.
Qed.

Lemma run_id_ne d r : WF d → r ∈ db_jobs d → jr_run_id r ≠ "".
Proof.
  intros Hwf Hr. destruct (wf_job_run _ Hwf _ Hr) as [x Hx].
  apply run_at_Some in Hx as [Hx <-]. by eapply wf_run_ne.
Qed.

(** ** The maps [advance] builds *)

Definition run_state_of (d : DB) (runID id : string) : option JobState :=
  match job_at d id with
  | Some r => if decide (jr_run_id r = runID) then Some (jr_state r) else None
  | None => None
  end.

(** The in-memory map agrees with the table. *)
Definition synced (d : DB) (runID : string) (st : gmap string JobState) : Prop :=
  ∀ id, st !! id = run_state_of d runID id.

Lemma elem_of_run_jobs d runID r : r ∈ run_jobs d runID ↔ r ∈ db_jobs d ∧ jr_run_id r = runID.
Proof. unfold run_jobs. rewrite elem_of_sql_select, bool_decide_eq_true. done. Qed.

Lemma run_jobs_ids d runID : j_ID <$> (scanJob <$> run_jobs d runID) = jr_id <$> run_jobs d runID.
Proof. rewrite <-list_fmap_compose. by apply list_fmap_ext. Qed.

Lemma run_state_of_iff d runID id r :
  WF d → r ∈ run_jobs d runID → jr_id r = id → run_state_of d runID id = Some (jr_state r).
Proof.
  intros Hwf [Hr Hrun]%elem_of_run_jobs Hid. unfold run_state_of.
  rewrite (proj2 (job_at_iff d id r Hwf)) by done. by rewrite decide_True.
Qed.

Lemma run_state_of_Some d runID id s :
  run_state_of d runID id = Some s →
  ∃ r, job_at d id = Some r ∧ r ∈ run_jobs d runID ∧ jr_id r = id ∧ jr_state r = s.
Proof.
  unfold run_state_of. destruct (job_at d id) as [r|] eqn:E; [|done].
  case_decide; [|done]. intros [= <-]. exists r.
  destruct (job_at_Some _ _ _ E). rewrite elem_of_run_jobs. done.
Qed.

Lemma state_map_synced d runID : WF d → synced d runID (state_map (scanJob <$> run_jobs d runID)).
Proof.
  intros Hwf id. unfold state_map.
  destruct (run_state_of d runID id) as [s|] eqn:E.
  - apply run_state_of_Some in E as (r & _ & Hr & <- & <-).
    apply (fold_insert_in j_ID j_State _ ∅ (scanJob r)).
    + rewrite run_jobs_ids. apply sql_select_keys, Hwf.
    + by apply list_elem_of_fmap_2.
  - rewrite (fold_insert_other j_ID j_State); [done|]. rewrite run_jobs_ids.
    intros (r & -> & Hr)%list_elem_of_fmap. by rewrite (run_state_of_iff _ _ _ r) in E.
Qed.

Lemma needs_map_spec deps id n : n ∈ default [] (needs_map deps !! id) ↔ mkJobDep id n ∈ deps.
Proof.
  unfold needs_map.
  assert (∀ (m : gmap string (list string)),
    n ∈ default [] (foldl (λ m d, <[d_JobID d := default [] (m !! d_JobID d) ++ [d_NeedsJobID d]]> m) m deps !! id)
    ↔ n ∈ default [] (m !! id) ∨ mkJobDep id n ∈ deps) as H.
  { induction deps as [|[a b] deps IH]; intros m; simpl.
    - rewrite elem_of_nil. tauto.
    - rewrite IH, elem_of_cons. destruct (decide (a = id)) as [->|Hne].
      + rewrite lookup_insert_eq. simpl. rewrite elem_of_app, list_elem_of_singleton. naive_solver.
      + rewrite lookup_insert_ne by done. naive_solver. }
  rewrite H, lookup_empty. simpl. rewrite elem_of_nil. tauto.
Qed.

(** ** The two flags *)

Definition waits (s : option JobState) : Prop :=
  s ≠ Some JobSucceeded ∧ ∀ b, s = Some b → ¬ bad_state b.

Lemma blocks_iff (o : option JobState) :
  (∃ b, o = Some b ∧ bad_state b) ↔
  match o with Some JobFailed | Some JobCancelled | Some JobSkipped => true | _ => false end = true.
Proof. unfold bad_state. destruct o as [[]|]; naive_solver. Qed.

Lemma waits_iff (o : option JobState) :
  waits o ↔
  match o with
  | Some JobSucceeded | Some JobFailed | Some JobCancelled | Some JobSkipped => false
  | _ => true
  end = true.
Proof. unfold waits, bad_state. destruct o as [[]|]; naive_solver. Qed.

Lemma need_flags_spec st l :
  let '(blocked, waiting) := need_flags st l in
  (blocked = true ↔ ∃ n b, n ∈ l ∧ st !! n = Some b ∧ bad_state b) ∧
  (waiting = true ↔ ∃ n, n ∈ l ∧ waits (st !! n)).
Proof.
  unfold need_flags.
  assert (∀ b0 w0, let '(b, w) := foldl (λ '(blocked, waiting) n,
      match st !! n with
      | Some JobSucceeded => (blocked, waiting)
      | Some JobFailed | Some JobCancelled | Some JobSkipped => (true, waiting)
      | _ => (blocked, true)
      end) (b0, w0) l in
    (b = true ↔ b0 = true ∨ ∃ n b, n ∈ l ∧ st !! n = Some b ∧ bad_state b) ∧
    (w = true ↔ w0 = true ∨ ∃ n, n ∈ l ∧ waits (st !! n))) as H.
  { induction l as [|x l IH]; intros b0 w0; simpl.
    - split; (split; [by left|intros [?|H]; [done|]]); destruct H as [n H];
        [destruct H as (? & []%elem_of_nil & _)|destruct H as ([]%elem_of_nil & _)].
    - assert (Hb : (∃ n b, n ∈ x :: l ∧ st !! n = Some b ∧ bad_state b) ↔
                   (∃ b, st !! x = Some b ∧ bad_state b) ∨ ∃ n b, n ∈ l ∧ st !! n = Some b ∧ bad_state b).
      { setoid_rewrite elem_of_cons. naive_solver. }
      assert (Hw : (∃ n, n ∈ x :: l ∧ waits (st !! n)) ↔ waits (st !! x) ∨ ∃ n, n ∈ l ∧ waits (st !! n)).
      { setoid_rewrite elem_of_cons. naive_solver. }
      destruct (st !! x) as [[]|] eqn:E;
        match goal with |- let '(_, _) := foldl _ (?b1, ?w1) l in _ => specialize (IH b1 w1) end;
        destruct (foldl _ _ l) as [b w]; destruct IH as [IHb IHw];
        rewrite IHb, IHw, Hb, Hw, blocks_iff, waits_iff; simpl; clear; intuition congruence. }
  specialize (H false false). destruct (foldl _ _ l). naive_solver.
Qed.

(** ** Finalization *)

Definition verdict_of (l : list JobState) : option RunState :=
  if bool_decide (Exists (λ s, isTerminal s = false) l) then None
  else Some (if bool_decide (JobFailed ∈ l) then RunFailed
             else if bool_decide (JobCancelled ∈ l) then RunCancelled else RunSucceeded).

Lemma final_state_spec l : final_state l RunSucceeded = verdict_of l.
Proof.
  assert (∀ f, f ∈ [RunSucceeded; RunFailed; RunCancelled] →
    final_state l f =
    if bool_decide (Exists (λ s, isTerminal s = false) l) then None
    else Some (if bool_decide (JobFailed ∈ l) then RunFailed
               else if bool_decide (f = RunFailed) then RunFailed
               else if bool_decide (JobCancelled ∈ l) then RunCancelled else f)) as H.
  { induction l as [|s l IH]; intros f Hf.
    - simpl. by case_bool_decide; subst.
    - assert (Hex : bool_decide (Exists (λ s, isTerminal s = false) (s :: l)) =
                    negb (isTerminal s) || bool_decide (Exists (λ s, isTerminal s = false) l)).
      { apply eq_true_iff_eq. rewrite orb_true_iff, !bool_decide_eq_true, Exists_cons.
        by destruct (isTerminal s); naive_solver. }
      rewrite Hex.
      assert (Hin : ∀ x, bool_decide (x ∈ s :: l) = bool_decide (x = s) || bool_decide (x ∈ l)).
      { intros x. apply eq_true_iff_eq. by rewrite orb_true_iff, !bool_decide_eq_true, elem_of_cons. }
      rewrite !Hin.
      destruct s; simpl; try done;
        rewrite IH by (try case_bool_decide; set_solver);
        destruct (bool_decide (Exists _ l)), (bool_decide (JobFailed ∈ l)); try done;
        destruct (bool_decide (JobCancelled ∈ l)); simpl; try done;
        repeat case_bool_decide; subst; set_solver. }
  rewrite H by set_solver. unfold verdict_of. by rewrite (bool_decide_false (RunSucceeded = RunFailed)).
Qed.

(** The verdict depends on which states occur, not on their order or number. *)
Lemma verdict_of_ext l1 l2 : (∀ s, s ∈ l1 ↔ s ∈ l2) → verdict_of l1 = verdict_of l2.
Proof.
  intros Hp. unfold verdict_of.
  rewrite (bool_decide_ext _ _ (Hp JobFailed)), (bool_decide_ext _ _ (Hp JobCancelled)).
  erewrite bool_decide_ext; [done|]. rewrite !Exists_exists. by setoid_rewrite Hp.
Qed.

(** ** What the DAG advancement should do

    [Blocked]: some need, directly or through pending needs, can no longer
    succeed.  [Ready]: every need has succeeded. *)
Inductive Blocked (d : DB) : string → Prop :=
  | Blocked_now id n s :
      job_state_at d id = Some JobPending → needs d id n → job_state_at d n = Some s → bad_state s → Blocked d id
  | Blocked_later id n :
      job_state_at d id = Some JobPending → needs d id n → Blocked d n → Blocked d id.

Definition Ready (d : DB) (id : string) : Prop :=
  job_state_at d id = Some JobPending ∧ ∀ n, needs d id n → job_state_at d n = Some JobSucceeded.

(** No pending job of the run can be decided. *)
Definition Settled (d : DB) (runID : string) : Prop :=
  ∀ r, r ∈ run_jobs d runID → jr_state r = JobPending →
    (∀ n s, needs d (jr_id r) n → job_state_at d n = Some s → ¬ bad_state s) ∧
    ∃ n, needs d (jr_id r) n ∧ job_state_at d n ≠ Some JobSucceeded.

Lemma Blocked_pending d id : Blocked d id → job_state_at d id = Some JobPending.
Proof. by destruct 1. Qed.

Lemma Blocked_not_Ready d id : Blocked d id → ¬ Ready d id.
Proof.
  intros HB [_ HR]. destruct HB as [id n s _ Hn Hs Hb|id n _ Hn HB%Blocked_pending];
    rewrite (HR n Hn) in *; simplify_eq. destruct Hb as [|[|]]; done.
Qed.

(** [moved d0 runID r0 r]: the row [advance] may leave in place of [r0]. *)
Definition moved (d0 : DB) (runID : string) (r0 r : JobRow) : Prop :=
  r = r0 ∨
  (jr_run_id r0 = runID ∧ Blocked d0 (jr_id r0) ∧
   ∃ now, r = r0 <| jr_state := JobSkipped |> <| jr_finished_at := Some now |>) ∨
  (jr_run_id r0 = runID ∧ Ready d0 (jr_id r0) ∧
   ∃ now, r = r0 <| jr_state := JobQueued |> <| jr_queued_at := now |>).

Definition adv_rel (d0 d : DB) (runID : string) : Prop :=
  ∀ id r, job_at d id = Some r → ∃ r0, job_at d0 id = Some r0 ∧ moved d0 runID r0 r.

Lemma PSteps_static d d' : PSteps d d' →
  jr_id <$> db_jobs d' = jr_id <$> db_jobs d ∧
  rr_id <$> db_runs d' = rr_id <$> db_runs d ∧
  db_job_deps d' = db_job_deps d.
Proof.
  induction 1 as [|x y z Hs _ (IH1 & IH2 & IH3)]; [done|].
  destruct (PStep_static _ _ Hs) as (E1 & E2 & E3). split_and!; congruence.
Qed.

Lemma evo_needs w w' id n : w ⇝ w' → needs (w_db w') id n ↔ needs (w_db w) id n.
Proof. intros [_ _ _ _ H]. destruct (PSteps_static _ _ H) as (_ & _ & E). unfold needs. by rewrite E. Qed.

(** The state of a row left in place says how it got there. *)
Lemma moved_state d0 runID r0 r :
  moved d0 runID r0 r → jr_state r ≠ JobSkipped → jr_state r ≠ JobQueued → r = r0.
Proof. intros [->|[(_ & _ & now & ->)|(_ & _ & now & ->)]]; done. Qed.

Lemma adv_rel_bad d0 d runID n s :
  adv_rel d0 d runID → job_state_at d n = Some s → bad_state s →
  (∃ s0, job_state_at d0 n = Some s0 ∧ bad_state s0) ∨ Blocked d0 n.
Proof.
  unfold job_state_at. intros Hrel Hs Hb. destruct (job_at d n) as [r|] eqn:Hr; [|done].
  simpl in Hs. injection Hs as <-. destruct (Hrel _ _ Hr) as (r0 & H0 & Hm). rewrite H0. simpl.
  destruct (job_at_Some _ _ _ H0) as [_ Hid].
  destruct Hm as [->|[(_ & HB & now & ->)|(_ & _ & now & ->)]].
  - left. eauto.
  - right. by rewrite <-Hid.
  - by destruct Hb as [|[|]].
Qed.

Lemma adv_rel_pending d0 d runID n :
  adv_rel d0 d runID → job_state_at d n = Some JobPending → job_state_at d0 n = Some JobPending.
Proof.
  unfold job_state_at. intros Hrel Hs. destruct (job_at d n) as [r|] eqn:Hr; [|done].
  simpl in Hs. injection Hs as Hs. destruct (Hrel _ _ Hr) as (r0 & H0 & Hm). rewrite H0. simpl.
  by rewrite <-Hs, (moved_state _ _ _ _ Hm) by (rewrite Hs; done).
Qed.

Lemma adv_rel_succeeded d0 d runID n :
  adv_rel d0 d runID → job_state_at d n = Some JobSucceeded → job_state_at d0 n = Some JobSucceeded.
Proof.
  unfold job_state_at. intros Hrel Hs. destruct (job_at d n) as [r|] eqn:Hr; [|done].
  simpl in Hs. injection Hs as Hs. destruct (Hrel _ _ Hr) as (r0 & H0 & Hm). rewrite H0. simpl.
  by rewrite <-Hs, (moved_state _ _ _ _ Hm) by (rewrite Hs; done).
Qed.

(** ** One iteration *)

(** The loop invariant, from the world [w0] the transaction called [advance] in. *)
Record adv_inv (w0 : World) (runID : string) (st : gmap string JobState) (w : World) : Prop := {
  ai_evo : w0 ⇝ w;
  ai_sync : synced (w_db w) runID st;
  ai_rel : adv_rel (w_db w0) (w_db w) runID;
  ai_runs : db_runs (w_db w) = db_runs (w_db w0)
}.

(** The needs map lists the edges of the run's jobs. *)
Definition deps_ok (d : DB) (runID : string) (nm : gmap string (list string)) : Prop :=
  ∀ id n, is_Some (run_state_of d runID id) → n ∈ default [] (nm !! id) ↔ needs d id n.

Lemma synced_pending d runID st id :
  synced d runID st → st !! id = Some JobPending →
  ∃ r, job_at d id = Some r ∧ jr_run_id r = runID ∧ jr_id r = id ∧ jr_state r = JobPending.
Proof.
  intros Hs. rewrite (Hs id). intros (r & Hr & [_ ?]%elem_of_run_jobs & ? & ?)%run_state_of_Some. eauto.
Qed.

(** A need belongs to the run of the job that has it. *)
Lemma synced_need d runID st id r n :
  WF d → synced d runID st → job_at d id = Some r → jr_run_id r = runID → needs d id n →
  st !! n = job_state_at d n.
Proof.
  intros Hwf Hs Hr Hrun Hn. destruct (wf_deps _ Hwf _ _ Hn) as (a & b & Ha & Hb & Hab).
  rewrite (Hs n). unfold run_state_of, job_state_at. rewrite Hb. simpl.
  rewrite decide_True; [done|]. congruence.
Qed.

Lemma synced_set d runID st id r :
  synced d runID st → jr_id r = id → jr_run_id r = runID → is_Some (job_at d id) →
  synced (set_job id r d) runID (<[id := jr_state r]> st).
Proof.
  intros Hs Hid Hrun [x Hx] k. unfold run_state_of. rewrite job_at_set_job by done.
  destruct (decide (k = id)) as [->|Hne].
  - rewrite lookup_insert_eq, Hx. simpl. by rewrite decide_True.
  - rewrite lookup_insert_ne by done. apply Hs.
Qed.

(** Appending an event keeps every fact about jobs. *)
Lemma job_at_jobs d d' id : db_jobs d' = db_jobs d → job_at d' id = job_at d id.
Proof. unfold job_at. by intros ->. Qed.
Lemma synced_jobs d d' runID st : db_jobs d' = db_jobs d → synced d runID st → synced d' runID st.
Proof. intros E H id. unfold run_state_of. by rewrite (job_at_jobs _ _ _ E). Qed.

Lemma TransitionPendingJob_spec w id next r :
  WF (w_db w) → job_at (w_db w) id = Some r → jr_state r = JobPending →
  next = JobQueued ∨ next = JobSkipped →
  TransitionPendingJob id next w =
  (inr true, upd (set_job id (if bool_decide (next = JobSkipped)
                              then r <| jr_state := JobSkipped |> <| jr_finished_at := Some (now_of w) |>
                              else r <| jr_state := JobQueued |> <| jr_queued_at := now_of w |>) (w_db w)) (tick w)).
Proof.
  intros Hwf Hr Hs Hn. unfold TransitionPendingJob.
  rewrite (mbind_step _ _ _ _ _ (eq_refl : Now w = (inr (now_of w), tick w))).
  destruct Hn as [-> | ->];
    rewrite (modify_job_spec (tick w) id (is_state JobPending)) by done; simpl; rewrite Hr;
    unfold is_state; by rewrite bool_decide_true.
Qed.

Lemma adv_inv_move w0 runID st w id r r' s w' :
  adv_inv w0 runID st w → WF (w_db w) → job_at (w_db w) id = Some r → jr_run_id r = runID →
  JobEdge (w_db w) r r' → moved (w_db w0) runID r r' →
  job_at (w_db w0) id = Some r →
  upd (set_job id r' (w_db w)) (tick w) ⇝ w' →
  db_jobs (w_db w') = db_jobs (set_job id r' (w_db w)) → db_runs (w_db w') = db_runs (w_db w) → jr_state r' = s →
  adv_inv w0 runID (<[id := s]> st) w'.
Proof.
  intros [Hevo Hs Hrel Hruns] Hwf Hr Hrun He Hm H0 Hev Hj Hrs <-.
  assert (jr_id r' = id) as Hid.
  { rewrite (JobEdge_id _ _ _ He). by apply job_at_Some in Hr as [_ ->]. }
  split.
  - etrans; [exact Hevo|]. etrans; [|exact Hev]. apply evo_tick_upd. by eapply P_job.
  - eapply synced_jobs; [exact Hj|]. apply synced_set; try done.
    by rewrite (JobEdge_run _ _ _ He).
  - intros k x. rewrite (job_at_jobs _ _ _ Hj), job_at_set_job by done.
    destruct (decide (k = id)) as [->|Hne]; [|apply Hrel].
    rewrite Hr. simpl. intros [= <-]. eauto.
  - congruence.
Qed.

(** What one iteration does: nothing (a job that is not pending, or that has to
    wait), or one move that takes the job out of pending. *)
Lemma advance_job_ok w0 runID nm j av w :
  WF (w_db w0) → adv_inv w0 runID (av_state av) w → deps_ok (w_db w0) runID nm →
  runID ≠ "" → is_Some (run_state_of (w_db w0) runID (j_ID j)) →
  ∃ av' w', advance_job runID nm j av w = (inr av', w') ∧ adv_inv w0 runID (av_state av') w' ∧
    ((av' = av ∧ w' = w ∧
      (av_state av !! j_ID j = Some JobPending →
       need_flags (av_state av) (default [] (nm !! j_ID j)) = (false, true))) ∨
     (av_changed av' = true ∧ av_state av !! j_ID j = Some JobPending ∧
      ∃ s, s ≠ JobPending ∧ av_state av' = <[j_ID j := s]> (av_state av))).
Proof.
  intros Hwf0 Hinv Hdeps Hne Hex. pose proof Hinv as [Hevo Hs Hrel Hruns].
  assert (WF (w_db w)) as Hwf by eauto with quarry.
  unfold advance_job. case_bool_decide as Hp; [|exists av, w; split_and!; auto; by left].
  pose proof (need_flags_spec (av_state av) (default [] (nm !! j_ID j))) as Hf.
  destruct (need_flags _ _) as [b wt] eqn:Ef. destruct Hf as [Hb Hw].
  destruct (synced_pending _ _ _ _ Hs Hp) as (r & Hr & Hrun & Hid & Hst).
  assert (Hneed : ∀ n, n ∈ default [] (nm !! j_ID j) ↔ needs (w_db w) (j_ID j) n).
  { intros n. rewrite (evo_needs _ _ _ _ Hevo). by apply Hdeps. }
  assert (job_state_at (w_db w) (j_ID j) = Some JobPending) as Hpend.
  { unfold job_state_at. rewrite Hr. simpl. by rewrite Hst. }
  pose proof (adv_rel_pending _ _ _ _ Hrel Hpend) as Hpend0.
  assert (job_at (w_db w0) (j_ID j) = Some r) as Hr0.
  { destruct (Hrel _ _ Hr) as (r0 & H0 & Hm). by rewrite (moved_state _ _ _ _ Hm) by (rewrite Hst; done). }
  destruct b; simpl.
  - destruct (proj1 Hb eq_refl) as (n & s & Hn%Hneed & Hns & Hbad).
    rewrite (synced_need _ _ _ _ _ _ Hwf Hs Hr Hrun Hn) in Hns.
    rewrite (mbind_step _ _ _ _ _ (TransitionPendingJob_spec _ _ JobSkipped _ Hwf Hr Hst (or_intror eq_refl))).
    simpl. set (w1 := upd _ (tick w)).
    destruct (event_ok w1 runID (j_ID j) "job.skipped" [] Hne) as (w2 & He & Hev & Ej & Er & _); [done|].
    rewrite (mbind_step _ _ _ _ _ He). eexists _, _. split; [done|]. simpl. split.
    + eapply (adv_inv_move w0 runID _ w _ r
        (r <| jr_state := JobSkipped |> <| jr_finished_at := Some (now_of w) |>) JobSkipped w2 Hinv Hwf Hr Hrun); try done.
      * eapply JE_skip; rewrite ?Hid; eauto.
      * right. left. rewrite Hid. split_and!; eauto. rewrite (evo_needs _ _ _ _ Hevo) in Hn.
        destruct (adv_rel_bad _ _ _ _ _ Hrel Hns Hbad) as [(s0 & ? & ?)|?];
          [by eapply Blocked_now|by eapply Blocked_later].
    + right. split_and!; [done|done|]. by exists JobSkipped.
  - destruct wt; simpl; [exists av, w; split_and!; auto; by left|].
    assert (Hall : ∀ n, needs (w_db w) (j_ID j) n → job_state_at (w_db w) n = Some JobSucceeded).
    { intros n Hn. rewrite <-(synced_need _ _ _ _ _ _ Hwf Hs Hr Hrun Hn).
      apply dec_stable. intros Hns. assert (false = true); [|done]. apply Hw. exists n.
      rewrite Hneed. do 2 (split; [done|]). intros s Hss Hbad.
      assert (false = true); [|done]. apply Hb. exists n, s. by rewrite Hneed. }
    rewrite (mbind_step _ _ _ _ _ (TransitionPendingJob_spec _ _ JobQueued _ Hwf Hr Hst (or_introl eq_refl))).
    simpl. set (w1 := upd _ (tick w)).
    destruct (event_ok w1 runID (j_ID j) "job.queued" [] Hne) as (w2 & He & Hev & Ej & Er & _); [done|].
    rewrite (mbind_step _ _ _ _ _ He). eexists _, _. split; [done|]. simpl. split.
    + eapply (adv_inv_move w0 runID _ w _ r
        (r <| jr_state := JobQueued |> <| jr_queued_at := now_of w |>) JobQueued w2 Hinv Hwf Hr Hrun); try done.
      * eapply JE_queue; by rewrite ?Hid.
      * right. right. rewrite Hid. split_and!; eauto. split; [done|]. intros n Hn.
        rewrite <-(evo_needs _ _ _ _ Hevo) in Hn. eauto using adv_rel_succeeded.
    + right. split_and!; [done|done|]. by exists JobQueued.
Qed.

(** ** Passes and the loop *)

Definition npending (st : gmap string JobState) (jobs : list Job) : nat :=
  sql_count (λ j, bool_decide (st !! j_ID j = Some JobPending)) jobs.

Lemma npending_insert st jobs j s :
  j ∈ jobs → st !! j_ID j = Some JobPending → s ≠ JobPending →
  (npending (<[j_ID j := s]> st) jobs < npending st jobs)%nat.
Proof.
  intros Hj Hp Hs. unfold npending, sql_count, sql_select.
  assert (Hle : ∀ l, (length (List.filter (λ x, bool_decide (<[j_ID j := s]> st !! j_ID x = Some JobPending)) l)
                  ≤ length (List.filter (λ x, bool_decide (st !! j_ID x = Some JobPending)) l))%nat).
  { induction l as [|x l IH]; simpl; [done|]. destruct (decide (j_ID x = j_ID j)) as [E|E].
    - rewrite E, lookup_insert_eq, Hp, (bool_decide_false (Some s = _)) by congruence.
      rewrite bool_decide_true by done. simpl. lia.
    - rewrite lookup_insert_ne by done. case_bool_decide; simpl; lia. }
  induction jobs as [|x l IH]; [by apply elem_of_nil in Hj|]. simpl.
  apply elem_of_cons in Hj as [<-|Hj].
  - rewrite lookup_insert_eq, Hp, (bool_decide_false (Some s = _)) by congruence.
    rewrite bool_decide_true by done. simpl. specialize (Hle l). lia.
  - specialize (IH Hj). destruct (decide (j_ID x = j_ID j)) as [E|E].
    + rewrite E, lookup_insert_eq, Hp, (bool_decide_false (Some s = _)) by congruence.
      rewrite bool_decide_true by done. simpl. lia.
    + rewrite lookup_insert_ne by done. case_bool_decide; simpl; lia.
Qed.

Section loop.
Context (w0 : World) (runID : string) (nm : gmap string (list string)) (jobs : list Job).
Context (Hwf : WF (w_db w0)) (Hdeps : deps_ok (w_db w0) runID nm) (Hne : runID ≠ "").
Context (Hjobs : ∀ j, j ∈ jobs → is_Some (run_state_of (w_db w0) runID (j_ID j))).

(** Every pending job of the list has to wait. *)
Definition undecided (st : gmap string JobState) (l : list Job) : Prop :=
  ∀ j, j ∈ l → st !! j_ID j = Some JobPending → need_flags st (default [] (nm !! j_ID j)) = (false, true).

Lemma advance_pass_ok st tr w :
  adv_inv w0 runID st w →
  ∃ av w', mfor jobs (mkAdvState st tr false) (advance_job runID nm) w = (inr av, w') ∧
    adv_inv w0 runID (av_state av) w' ∧
    if av_changed av then (npending (av_state av) jobs < npending st jobs)%nat
    else av_state av = st ∧ w' = w ∧ undecided st jobs.
Proof.
  intros Hinv.
  set (I := λ (l : list Job) (av : AdvState) (w1 : World), ∃ pre, jobs = pre ++ l ∧
    adv_inv w0 runID (av_state av) w1 ∧
    if av_changed av then (npending (av_state av) jobs < npending st jobs)%nat
    else av_state av = st ∧ w1 = w ∧ undecided st pre).
  destruct (mfor_total I (advance_job runID nm) jobs (mkAdvState st tr false) w) as (av & w' & Hm & HI).
  - intros j l av w1 (pre & Hpre & Hi & Hc).
    assert (j ∈ jobs) as Hj by (rewrite Hpre; set_solver).
    destruct (advance_job_ok w0 runID nm j av w1) as (av' & w2 & Ha & Hi' & Hcase); auto.
    exists av', w2. split; [done|]. exists (pre ++ [j]). rewrite <-app_assoc. do 2 (split; [done|]).
    destruct Hcase as [(-> & -> & Hu)|(Hch & Hp & s & Hs & Est)].
    + destruct (av_changed av); [done|]. destruct Hc as (Est & -> & Hpre'). split_and!; try done.
      intros x [Hx|Hx%list_elem_of_singleton]%elem_of_app; [by apply Hpre'|]. subst x. by rewrite <-Est.
    + rewrite Hch, Est. pose proof (npending_insert _ _ _ _ Hj Hp Hs).
      destruct (av_changed av); [lia|]. by destruct Hc as (<- & _).
  - exists []. do 2 (split; [done|]). simpl. do 2 (split; [done|]). intros j Hj. by apply elem_of_nil in Hj.
  - exists av, w'. split; [exact Hm|]. destruct HI as (pre & Hpre & Hi & Hc).
    rewrite app_nil_r in Hpre. by subst pre.
Qed.

(** The loop stops within its fuel, at a state no pass can change. *)
Lemma advance_loop_ok fuel st tr w :
  adv_inv w0 runID st w → (npending st jobs < fuel)%nat →
  ∃ st' tr' w', advance_loop fuel runID jobs nm st tr w = (inr (st', tr'), w') ∧
    adv_inv w0 runID st' w' ∧ undecided st' jobs.
Proof.
  revert st tr w. induction fuel as [|fuel IH]; intros st tr w Hinv Hf; [lia|]. simpl.
  destruct (advance_pass_ok st tr w Hinv) as (av & w1 & Hm & Hi & Hc).
  rewrite (mbind_step _ _ _ _ _ Hm). destruct (av_changed av).
  - apply IH; [done|lia].
  - destruct Hc as (-> & -> & Hu). by eexists _, _, _.
Qed.
End loop.

Lemma undecided_Settled w0 runID nm st w :
  WF (w_db w0) → deps_ok (w_db w0) runID nm → adv_inv w0 runID st w →
  undecided nm st (scanJob <$> run_jobs (w_db w0) runID) → Settled (w_db w) runID.
Proof.
  intros Hwf0 Hdeps [Hevo Hs Hrel Hruns] Hu r Hr Hst.
  assert (WF (w_db w)) as Hwf by eauto with quarry.
  destruct (proj1 (elem_of_run_jobs _ _ _) Hr) as [Hin Hrun].
  assert (job_at (w_db w) (jr_id r) = Some r) as Hat by (by apply job_at_iff).
  destruct (Hrel _ _ Hat) as (r0 & H0 & Hm).
  rewrite <-(moved_state _ _ _ _ Hm) in H0 by (rewrite Hst; done).
  assert (r ∈ run_jobs (w_db w0) runID) as Hr0.
  { rewrite elem_of_run_jobs. apply job_at_Some in H0 as []. done. }
  assert (st !! jr_id r = Some JobPending) as Hp.
  { rewrite (Hs _), (run_state_of_iff _ _ _ r) by done. by rewrite Hst. }
  pose proof (Hu (scanJob r) (list_elem_of_fmap_2 _ _ _ Hr0) Hp) as Hf. simpl in Hf.
  pose proof (need_flags_spec st (default [] (nm !! jr_id r))) as Hspec. rewrite Hf in Hspec.
  destruct Hspec as [Hb Hw].
  assert (Hneed : ∀ n, n ∈ default [] (nm !! jr_id r) ↔ needs (w_db w) (jr_id r) n).
  { intros n. rewrite (evo_needs _ _ _ _ Hevo). apply Hdeps. by rewrite (run_state_of_iff _ _ _ r). }
  split.
  - intros n s Hn Hns Hbad. assert (false = true); [|done]. apply Hb. exists n, s.
    rewrite Hneed, (synced_need _ _ _ _ _ _ Hwf Hs Hat Hrun Hn). done.
  - destruct (proj1 Hw eq_refl) as (n & Hn%Hneed & [Hns _]). exists n.
    rewrite <-(synced_need _ _ _ _ _ _ Hwf Hs Hat Hrun Hn). done.
Qed.

(** ** advance *)

Lemma dep_select_ok d runID (P : JobDep → bool) (leb : JobDep → JobDep → bool) :
  (∀ e, P e = match job_at d (d_JobID e) with Some j => bool_decide (jr_run_id j = runID) | None => false end) →
  deps_ok d runID (needs_map (order_by leb (sql_select P (db_job_deps d)))).
Proof.
  intros HP id n [s Hs]. rewrite needs_map_spec, elem_of_order_by, elem_of_sql_select, HP. simpl.
  apply run_state_of_Some in Hs as (r & -> & [_ Hrun]%elem_of_run_jobs & _).
  rewrite bool_decide_true by done. unfold needs. tauto.
Qed.

Lemma ListJobDeps_ok w runID :
  ∃ deps, ListJobDeps runID w = (inr deps, w) ∧ deps_ok (w_db w) runID (needs_map deps).
Proof. eexists. split; [done|]. by apply dep_select_ok. Qed.

Lemma synced_verdict d runID st :
  WF d → synced d runID st → final_state (map_to_list st).*2 RunSucceeded = run_verdict d runID.
Proof.
  intros Hwf Hs. unfold run_verdict. rewrite !final_state_spec. apply verdict_of_ext. intros s.
  rewrite !list_elem_of_fmap. split.
  - intros ([id x] & -> & Hx%elem_of_map_to_list). rewrite (Hs id) in Hx.
    apply run_state_of_Some in Hx as (r & _ & Hr & _ & <-). by exists r.
  - intros (r & -> & Hr). exists (jr_id r, jr_state r). split; [done|].
    apply elem_of_map_to_list. rewrite (Hs _). by apply run_state_of_iff.
Qed.

Lemma verdict_terminal d runID f : run_verdict d runID = Some f → run_terminal f.
Proof.
  unfold run_verdict. rewrite final_state_spec. unfold verdict_of, run_terminal.
  repeat case_bool_decide; intros [= <-]; done.
Qed.

Lemma SetRunState_spec w id from to r :
  WF (w_db w) → run_at (w_db w) id = Some r →
  SetRunState id from to w =
  if bool_decide (rr_state r = from)
  then (inr true, upd (set_run id (r <| rr_state := to |>
          <| rr_started_at := coalesce (if bool_decide (to = RunRunning) then Some (now_of w) else None) (rr_started_at r) |>
          <| rr_finished_at := coalesce (if bool_decide (run_terminal to) then Some (now_of w) else None) (rr_finished_at r) |>)
          (w_db w)) (tick w))
  else (inr false, tick w).
Proof.
  intros Hwf Hr. unfold SetRunState.
  rewrite (mbind_step _ _ _ _ _ (eq_refl : Now w = (inr (now_of w), tick w))). cbn -[sql_count sql_update].
  pose proof (sql_count_key rr_id (λ r, bool_decide (rr_state r = from)) _ id (wf_runs _ Hwf)) as Hc.
  unfold by_key in Hc at 1. unfold mbind, M_bind, get_db, put_db, mret, M_ret. cbn -[sql_count sql_update].
  rewrite Hc. fold (run_at (w_db w) id). rewrite Hr.
  destruct (decide (rr_state r = from)) as [Hs|Hs].
  - rewrite !(bool_decide_true (rr_state r = from)), (bool_decide_true (1%nat = 1%nat)) by done. unfold upd, set_run. do 3 f_equal.
    rewrite <-(sql_update_key rr_id (λ r, bool_decide (rr_state r = from))
      (λ r, (r <| rr_state := to |>
        <| rr_started_at := coalesce (if bool_decide (to = RunRunning) then Some (now_of w) else None) (rr_started_at r) |>
        <| rr_finished_at := coalesce (if bool_decide (run_terminal to) then Some (now_of w) else None) (rr_finished_at r) |>)) _ id r);
      [|apply Hwf|done|by rewrite bool_decide_true].
    unfold run_terminal. f_equal. by destruct to.
  - rewrite !(bool_decide_false (rr_state r = from)), (bool_decide_false (0%nat = 1%nat)) by done. rewrite sql_update_select_none.
    + destruct w as [d]; by destruct d.
    + rewrite Hc. fold (run_at (w_db w) id). by rewrite Hr, bool_decide_false.
Qed.

(** The contract of [advance]. *)
Record advanced (w w' : World) (runID : string) : Prop := {
  ad_evo : w ⇝ w';
  ad_settled : Settled (w_db w') runID;
  ad_moved : adv_rel (w_db w) (w_db w') runID;
  ad_other : ∀ k, k ≠ runID → run_at (w_db w') k = run_at (w_db w) k;
  ad_run : ∀ run, run_at (w_db w) runID = Some run →
    ∃ run', run_at (w_db w') runID = Some run' ∧
      rr_state run' = if bool_decide (run_terminal (rr_state run)) then rr_state run
                      else default (rr_state run) (run_verdict (w_db w') runID)
}.

Lemma Settled_jobs d d' runID :
  db_jobs d' = db_jobs d → db_job_deps d' = db_job_deps d → Settled d runID → Settled d' runID.
Proof.
  intros Ej Ed. unfold Settled, run_jobs, needs, job_state_at, job_at. by rewrite Ej, Ed.
Qed.

Lemma run_verdict_jobs d d' runID : db_jobs d' = db_jobs d → run_verdict d' runID = run_verdict d runID.
Proof. unfold run_verdict, run_jobs. by intros ->. Qed.

Lemma adv_inv_start w runID :
  WF (w_db w) → adv_inv w runID (state_map (scanJob <$> run_jobs (w_db w) runID)) w.
Proof.
  intros Hwf. split; [done|by apply state_map_synced| |done].
  intros id r Hr. exists r. split; [done|]. by left.
Qed.

Lemma npending_le st jobs : (npending st jobs ≤ length jobs)%nat.
Proof. unfold npending, sql_count, sql_select. apply filter_length_le. Qed.

(** The transition of a run that is not finished to its verdict. *)
Lemma finish_run_ok w runID run final :
  WF (w_db w) → run_at (w_db w) runID = Some run → ¬ run_terminal (rr_state run) →
  run_verdict (w_db w) runID = Some final →
  ∃ w' run', (SetRunState runID (rr_state run) final;;
       event runID "" "run.finished" [("state", DStr (run_state_str final))]) w = (inr tt, w') ∧
    w ⇝ w' ∧ db_jobs (w_db w') = db_jobs (w_db w) ∧ db_job_deps (w_db w') = db_job_deps (w_db w) ∧
    run_at (w_db w') runID = Some run' ∧ rr_state run' = final ∧
    (∀ k, k ≠ runID → run_at (w_db w') k = run_at (w_db w) k).
Proof.
  intros Hwf Hr Hnt Hv. destruct (run_at_Some _ _ _ Hr) as [Hin Hid].
  assert (runID ≠ "") as Hne by (rewrite <-Hid; by eapply wf_run_ne).
  set (run' := run <| rr_state := final |> <| rr_finished_at := Some (now_of w) |>).
  assert (SetRunState runID (rr_state run) final w = (inr true, upd (set_run runID run' (w_db w)) (tick w))) as Hset.
  { rewrite (SetRunState_spec _ _ _ _ _ Hwf Hr), bool_decide_true by done.
    rewrite (bool_decide_false (final = RunRunning)) by (intros ->; by apply verdict_terminal in Hv as []).
    rewrite (bool_decide_true (run_terminal final)) by (by eapply verdict_terminal). by destruct run. }
  rewrite (mbind_step _ _ _ _ _ Hset). set (w1 := upd _ (tick w)).
  destruct (event_ok w1 runID "" "run.finished" [("state", DStr (run_state_str final))] Hne)
    as (w2 & He & Hev & Ej & Er & Ed); [done|].
  assert (∀ k, run_at (w_db w2) k = run_at (set_run runID run' (w_db w)) k) as Hat.
  { intros k. unfold run_at. by rewrite Er. }
  exists w2, run'. split_and!; try done.
  - etrans; [|exact Hev]. apply evo_tick_upd. by eapply P_run_finish.
  - rewrite Hat, run_at_set_run by done. by rewrite decide_True, Hr.
  - intros k Hk. rewrite Hat, run_at_set_run by done. by rewrite decide_False.
Qed.

Lemma advance_ok w runID tr :
  WF (w_db w) → is_Some (run_at (w_db w) runID) →
  ∃ tr' w', advance runID tr w = (inr tr', w') ∧ advanced w w' runID.
Proof.
  intros Hwf [run Hrun].
  assert (runID ≠ "") as Hne.
  { destruct (run_at_Some _ _ _ Hrun) as [? <-]. by eapply wf_run_ne. }
  unfold advance.
  rewrite (mbind_step _ _ _ _ _ (eq_refl : ListJobs runID w = (inr (scanJob <$> run_jobs (w_db w) runID), w))).
  destruct (ListJobDeps_ok w runID) as (deps & Hd & Hdeps). rewrite (mbind_step _ _ _ _ _ Hd).
  destruct (advance_loop_ok w runID (needs_map deps) (scanJob <$> run_jobs (w_db w) runID) Hwf Hdeps Hne)
    with (fuel := S (length (scanJob <$> run_jobs (w_db w) runID)))
         (st := state_map (scanJob <$> run_jobs (w_db w) runID)) (tr := tr) (w := w)
    as (st & tr' & w1 & Hl & Hinv & Hu).
  { intros j (r & -> & Hr)%list_elem_of_fmap. by rewrite (run_state_of_iff _ _ _ r). }
  { by apply adv_inv_start. }
  { apply Nat.lt_succ_r, npending_le. }
  rewrite (mbind_step _ _ _ _ _ Hl).
  pose proof (undecided_Settled _ _ _ _ _ Hwf Hdeps Hinv Hu) as Hset.
  destruct Hinv as [Hevo Hs Hrel Hruns].
  assert (WF (w_db w1)) as Hwf1 by eauto with quarry.
  rewrite (synced_verdict _ _ _ Hwf1 Hs).
  assert (Hat : ∀ k, run_at (w_db w1) k = run_at (w_db w) k) by (intros k; unfold run_at; by rewrite Hruns).
  destruct (run_verdict (w_db w1) runID) as [final|] eqn:Hv.
  2:{ exists tr', w1. split; [done|]. split; try done. intros x Hx. exists x. rewrite Hat, Hv. simpl.
      split; [done|]. by case_bool_decide. }
  rewrite <-Hat in Hrun. rewrite (mbind_step _ _ _ _ _ (GetRun_ok _ _ _ Hrun)).
  simpl r_State. change (rr_state run ≠ RunPending ∧ rr_state run ≠ RunRunning) with (run_terminal (rr_state run)).
  case_bool_decide as Ht.
  - exists tr', w1. split; [done|]. split; try done. intros x Hx. exists x. rewrite Hat.
    split; [done|]. assert (x = run) as -> by (rewrite Hat in Hrun; congruence). by rewrite bool_decide_true.
  - destruct (finish_run_ok w1 runID run final) as (w2 & run' & Hf & Hev & Ej & Ed & Hr' & Hst & Hoth); try done.
    exists tr', w2. split.
    + revert Hf. unfold mbind, M_bind. destruct (SetRunState _ _ _ _) as [[?|?] ?]; [done|].
      by destruct (event _ _ _ _ _) as [[?|[]] ?]; [|intros [= ->]].
    + split.
      * by etrans.
      * by eapply Settled_jobs.
      * intros id r. rewrite (job_at_jobs _ _ _ Ej). apply Hrel.
      * intros k Hk. by rewrite Hoth, Hat.
      * intros x Hx. exists run'. split; [done|]. assert (x = run) as -> by (rewrite Hat in Hrun; congruence).
        by rewrite bool_decide_false, (run_verdict_jobs _ _ _ Ej), Hv by done.
Qed.

(** A blocked job with a need that ended bad has left pending for skipped. *)
Lemma advanced_blocked w w' runID id r n :
  advanced w w' runID → WF (w_db w) → job_at (w_db w) id = Some r → jr_run_id r = runID →
  Blocked (w_db w) id → needs (w_db w) id n →
  (∃ s, job_state_at (w_db w') n = Some s ∧ bad_state s) →
  job_state_at (w_db w') id = Some JobSkipped.
Proof.
  intros [Hevo Hset Hrel _ _] Hwf Hr Hrun HB Hn (s & Hs & Hbad).
  assert (WF (w_db w')) as Hwf' by eauto with quarry.
  destruct (PSteps_evolves _ _ _ _ (evo_steps _ _ Hevo) Hr) as (r' & Hr' & He).
  destruct (Hrel _ _ Hr') as (x & Hx & Hm). assert (x = r) as -> by congruence. clear Hx.
  unfold job_state_at at 1. rewrite Hr'. simpl. destruct (job_at_Some _ _ _ Hr) as [_ Hid].
  destruct Hm as [->|[(_ & _ & now & ->)|(_ & HR & _)]]; [|done|].
  - pose proof (Blocked_pending _ _ HB) as Hp. unfold job_state_at in Hp. rewrite Hr in Hp.
    simpl in Hp. injection Hp as Hp. destruct (Hset r) as [Hno _]; [|done|].
    + apply elem_of_run_jobs. by apply job_at_Some in Hr' as [].
    + destruct (Hno n s); [|done|done]. rewrite Hid. by apply (evo_needs _ _ _ _ Hevo).
  - rewrite Hid in HR. by destruct (Blocked_not_Ready _ _ HB).
Qed.

Lemma moved_nonpending d0 runID r0 r id :
  job_at d0 id = Some r0 → moved d0 runID r0 r → jr_state r0 ≠ JobPending → r = r0.
Proof.
  intros H0 Hm Hs. destruct (job_at_Some _ _ _ H0) as [_ Hid].
  destruct Hm as [->|[(_ & HB%Blocked_pending & _)|(_ & [HB _] & _)]]; [done| |];
    unfold job_state_at in HB; rewrite Hid, H0 in HB; simpl in HB; congruence.
Qed.

Lemma advanced_row w w' runID id r :
  advanced w w' runID → job_at (w_db w) id = Some r →
  ∃ r', job_at (w_db w') id = Some r' ∧ moved (w_db w) runID r r'.
Proof.
  intros [Hevo _ Hrel _ _] Hr. destruct (PSteps_evolves _ _ _ _ (evo_steps _ _ Hevo) Hr) as (r' & Hr' & _).
  destruct (Hrel _ _ Hr') as (r0 & H0 & Hm). exists r'. split; [done|]. by simplify_eq.
Qed.

(** A state other than pending is kept. *)
Lemma advanced_keep w w' runID id s :
  advanced w w' runID → job_state_at (w_db w) id = Some s → s ≠ JobPending → job_state_at (w_db w') id = Some s.
Proof.
  intros Hadv Hs Hne. unfold job_state_at in *. destruct (job_at (w_db w) id) as [r|] eqn:Hr; [|done].
  simpl in Hs. injection Hs as Hs. destruct (advanced_row _ _ _ _ _ Hadv Hr) as (r' & -> & Hm). simpl.
  by rewrite (moved_nonpending _ _ _ _ _ Hr Hm), Hs by congruence.
Qed.

Lemma advanced_Blocked w w' runID :
  advanced w w' runID → WF (w_db w) → ∀ id, Blocked (w_db w) id →
  ∀ r, job_at (w_db w) id = Some r → jr_run_id r = runID → job_state_at (w_db w') id = Some JobSkipped.
Proof.
  intros Hadv Hwf. induction 1 as [k n s Hp Hn Hs Hbad|k n Hp Hn HB IH]; intros x Hx Hxr.
  - eapply (advanced_blocked _ _ _ _ x n Hadv Hwf Hx Hxr); [by eapply Blocked_now|done|].
    exists s. split; [|done]. eapply advanced_keep; [done..|]. intros ->. by destruct Hbad as [|[|]].
  - eapply (advanced_blocked _ _ _ _ x n Hadv Hwf Hx Hxr); [by eapply Blocked_later|done|].
    exists JobSkipped. destruct (wf_deps _ Hwf _ _ Hn) as (a & b & Ha & Hb & Hab).
    split; [eapply IH; [done|congruence]|]. unfold bad_state. auto.
Qed.

Lemma advanced_Ready w w' runID :
  advanced w w' runID → WF (w_db w) → ∀ id, Ready (w_db w) id →
  ∀ r, job_at (w_db w) id = Some r → jr_run_id r = runID → job_state_at (w_db w') id = Some JobQueued.
Proof.
  intros Hadv Hwf id HR r Hr Hrun. destruct (job_at_Some _ _ _ Hr) as [_ Hid].
  destruct (advanced_row _ _ _ _ _ Hadv Hr) as (r' & Hr' & Hm). unfold job_state_at. rewrite Hr'. simpl.
  destruct Hm as [->|[(_ & HB & _)|(_ & _ & now & ->)]].
  - destruct HR as [Hp HR]. unfold job_state_at in Hp. rewrite Hr in Hp. simpl in Hp. injection Hp as Hp.
    destruct (ad_settled _ _ _ Hadv r) as [_ (n & Hn & Hns)]; [|done|].
    + apply elem_of_run_jobs. by apply job_at_Some in Hr' as [].
    + destruct Hns. eapply advanced_keep; [done| |done]. apply HR. rewrite Hid in Hn.
      by apply (evo_needs _ _ _ _ (ad_evo _ _ _ Hadv)).
  - rewrite Hid in HB. by destruct (Blocked_not_Ready _ _ HB).
  - done.
Qed.

(** [advance] decides every job exactly: a pending job ends skipped when some
    need, directly or through other pending jobs, cannot succeed any more, queued
    when all its needs have succeeded, and otherwise stays as it is; no other job
    moves. *)
Lemma advanced_exact w w' runID id r :
  advanced w w' runID → WF (w_db w) → job_at (w_db w) id = Some r → jr_run_id r = runID →
  (job_state_at (w_db w') id = Some JobSkipped ↔ jr_state r = JobSkipped ∨ Blocked (w_db w) id) ∧
  (job_state_at (w_db w') id = Some JobQueued ↔ jr_state r = JobQueued ∨ Ready (w_db w) id) ∧
  (¬ Blocked (w_db w) id → ¬ Ready (w_db w) id → job_at (w_db w') id = Some r).
Proof.
  intros Hadv Hwf Hr Hrun. destruct (job_at_Some _ _ _ Hr) as [_ Hid].
  destruct (advanced_row _ _ _ _ _ Hadv Hr) as (r' & Hr' & Hm).
  assert (job_state_at (w_db w') id = Some (jr_state r')) as -> by (unfold job_state_at; by rewrite Hr').
  assert (Hp : job_state_at (w_db w) id = Some JobPending → jr_state r = JobPending).
  { unfold job_state_at. rewrite Hr. simpl. congruence. }
  split_and!.
  - split.
    + intros [= E]. destruct Hm as [->|[(_ & HB & _)|(_ & _ & now & ->)]]; [by left| |done].
      right. by rewrite <-Hid.
    + intros [E|HB].
      * by rewrite (moved_nonpending _ _ _ _ _ Hr Hm), E by congruence.
      * pose proof (advanced_Blocked _ _ _ Hadv Hwf _ HB _ Hr Hrun) as Hs.
        unfold job_state_at in Hs. by rewrite Hr' in Hs.
  - split.
    + intros [= E]. destruct Hm as [->|[(_ & _ & now & ->)|(_ & HR & _)]]; [by left|done|].
      right. by rewrite <-Hid.
    + intros [E|HR].
      * by rewrite (moved_nonpending _ _ _ _ _ Hr Hm), E by congruence.
      * pose proof (advanced_Ready _ _ _ Hadv Hwf _ HR _ Hr Hrun) as Hs.
        unfold job_state_at in Hs. by rewrite Hr' in Hs.
  - intros HnB HnR. rewrite Hr'. rewrite <-Hid in HnB, HnR. destruct Hm as [->|[(_ & ? & _)|(_ & ? & _)]]; done.
Qed.
