(* ===== verification/Consistency.v ===== *)
(** * The invariant every transaction keeps

    Between transactions the database is consistent: the schema's constraints and
    the row invariant hold, no pending job of any run can be decided (the DAG is
    settled), and a run carries exactly the verdict of its jobs' states.  Here: the
    invariant, the equivalence of databases it respects (queued and running jobs
    are interchangeable to it), and the two ways a transaction keeps it: by moves
    inside that equivalence, or by ending in [advance]. *)

From S2P Require Import Prelude GoLib Pipeline Types Store Scheduler Protocol Advance.
From stdpp Require Import relations.

Local Open Scope Z_scope.

(** ** The invariant *)

Definition RunOK (d : DB) (k : string) (run : RunRow) : Prop :=
  match run_verdict d k with
  | Some f => rr_state run = f
  | None => ¬ run_terminal (rr_state run)
  end.

Definition Consistent (d : DB) : Prop :=
  ∀ k run, run_at d k = Some run → Settled d k ∧ RunOK d k run.

Record Inv (d : DB) : Prop := {
  inv_wf : WF d;
  inv_rows : RowsInv d;
  inv_runs : Consistent d
}.

(** ** Databases the invariant does not tell apart *)

(** Queued and running are one class: neither decides anything. *)
Definition class_of (s : JobState) : JobState :=
  match s with JobRunning => JobQueued | _ => s end.

Definition run_class (d : DB) (k id : string) : option JobState := class_of <$> run_state_of d k id.

Record run_equiv (k : string) (d d' : DB) : Prop := {
  re_deps : db_job_deps d' = db_job_deps d;
  re_class : ∀ id, run_class d' k id = run_class d k id
}.

#[export] Instance run_equiv_equivalence k : Equivalence (run_equiv k).
Proof.
  split.
  - intros d. by split.
  - intros d d' [H1 H2]. by split.
  - intros a b c [H1 H2] [H3 H4]. split; [congruence|]. intros id. by rewrite H4, H2.
Qed.

Lemma run_class_need d k id r n :
  WF d → job_at d id = Some r → jr_run_id r = k → needs d id n →
  run_class d k n = class_of <$> job_state_at d n.
Proof.
  intros Hwf Hr Hk Hn. destruct (wf_deps _ Hwf _ _ Hn) as (a & b & Ha & Hb & Hab).
  unfold run_class, run_state_of, job_state_at. rewrite Hb. simpl.
  rewrite decide_True; [done|]. congruence.
Qed.

Lemma class_of_bad s : bad_state (class_of s) ↔ bad_state s.
Proof. unfold bad_state. destruct s; simpl; intuition congruence. Qed.
Lemma class_of_succeeded s : class_of s = JobSucceeded ↔ s = JobSucceeded.
Proof. by destruct s; split. Qed.
Lemma class_of_pending s : class_of s = JobPending ↔ s = JobPending.
Proof. by destruct s; split. Qed.

(** [Settled] in terms of classes. *)
Lemma Settled_class d k : WF d →
  Settled d k ↔
  ∀ id, run_class d k id = Some JobPending →
    (∀ n s, needs d id n → run_class d k n = Some s → ¬ bad_state s) ∧
    ∃ n, needs d id n ∧ run_class d k n ≠ Some JobSucceeded.
Proof.
  intros Hwf. split.
  - intros HS id Hp. unfold run_class in Hp. destruct (run_state_of d k id) as [s|] eqn:E; [|done].
    simpl in Hp. injection Hp as Hp. rewrite class_of_pending in Hp. subst s.
    apply run_state_of_Some in E as (r & Hr & Hin & Hid & Hst).
    destruct (proj1 (elem_of_run_jobs _ _ _) Hin) as [_ Hrun].
    destruct (HS r Hin Hst) as [H1 (n & H2 & H3)]. rewrite Hid in *. split.
    + intros m s Hm. rewrite (run_class_need _ _ _ _ _ Hwf Hr Hrun Hm).
      destruct (job_state_at d m) as [x|] eqn:Ex; [|done]. intros [= <-]. rewrite class_of_bad. eauto.
    + exists n. split; [done|]. rewrite (run_class_need _ _ _ _ _ Hwf Hr Hrun H2).
      destruct (job_state_at d n) as [x|]; [|done]. intros [= Hx]. rewrite class_of_succeeded in Hx. congruence.
  - intros HC r Hin Hst. destruct (proj1 (elem_of_run_jobs _ _ _) Hin) as [Hin' Hrun].
    assert (job_at d (jr_id r) = Some r) as Hr by (by apply job_at_iff).
    destruct (HC (jr_id r)) as [H1 (n & H2 & H3)].
    { unfold run_class. rewrite (run_state_of_iff _ _ _ r) by done. simpl. by rewrite Hst. }
    split.
    + intros m s Hm Hs Hbad. destruct (H1 m (class_of s) Hm); [|by rewrite class_of_bad].
      by rewrite (run_class_need _ _ _ _ _ Hwf Hr Hrun Hm), Hs.
    + exists n. split; [done|]. intros Hs. apply H3.
      by rewrite (run_class_need _ _ _ _ _ Hwf Hr Hrun H2), Hs.
Qed.

Lemma Settled_equiv k d d' : WF d → WF d' → run_equiv k d d' → Settled d k → Settled d' k.
Proof.
  intros H1 H2 [Hd Hc]. rewrite !Settled_class by done. unfold needs. intros HS id Hp.
  rewrite Hc in Hp. destruct (HS id Hp) as [Ha (n & Hn & Hs)]. rewrite Hd. split.
  - intros m s. rewrite Hc. apply Ha.
  - exists n. by rewrite Hc.
Qed.

(** The verdict only depends on the classes. *)
Lemma verdict_of_class l : verdict_of (class_of <$> l) = verdict_of l.
Proof.
  unfold verdict_of.
  assert (Hin : ∀ s, s ∈ [JobFailed; JobCancelled] → s ∈ class_of <$> l ↔ s ∈ l).
  { intros s Hs. rewrite list_elem_of_fmap. split.
    - intros (x & Hx & Hl). destruct x; simpl in Hx; subst; try done; set_solver.
    - intros Hl. exists s. split; [|done]. set_unfold in Hs. by destruct Hs as [->|[->|[]]]. }
  pose proof (Hin JobFailed ltac:(set_solver)) as Hf. pose proof (Hin JobCancelled ltac:(set_solver)) as Hc.
  rewrite (bool_decide_ext _ _ Hf), (bool_decide_ext _ _ Hc).
  erewrite (bool_decide_ext (Exists _ (class_of <$> l))); [done|].
  rewrite Exists_fmap, !Exists_exists. split; intros (x & Hx & Ht); exists x; by destruct x.
Qed.

Lemma elem_of_run_class d k s : WF d →
  s ∈ class_of <$> (jr_state <$> run_jobs d k) ↔ ∃ id, run_class d k id = Some s.
Proof.
  intros Hwf. rewrite <-list_fmap_compose, list_elem_of_fmap. split.
  - intros (r & -> & Hr). exists (jr_id r). unfold run_class. by rewrite (run_state_of_iff _ _ _ r).
  - intros (id & Hid). unfold run_class in Hid. destruct (run_state_of d k id) as [x|] eqn:E; [|done].
    simpl in Hid. injection Hid as <-. apply run_state_of_Some in E as (r & _ & Hr & _ & <-). by exists r.
Qed.

Lemma verdict_equiv k d d' : WF d → WF d' → run_equiv k d d' → run_verdict d' k = run_verdict d k.
Proof.
  intros H1 H2 [_ Hc]. unfold run_verdict. rewrite !final_state_spec.
  rewrite <-(verdict_of_class (jr_state <$> run_jobs d k)), <-(verdict_of_class (jr_state <$> run_jobs d' k)).
  apply verdict_of_ext. intros s. rewrite !elem_of_run_class by done. by setoid_rewrite Hc.
Qed.

(** ** Moves inside the equivalence *)

(** [soft w w']: no run's classes change; a run may at most start. *)
Record soft (w w' : World) : Prop := {
  so_evo : w ⇝ w';
  so_equiv : ∀ k, run_equiv k (w_db w) (w_db w');
  so_runs : ∀ k run', run_at (w_db w') k = Some run' → ∃ run, run_at (w_db w) k = Some run ∧
    (rr_state run' = rr_state run ∨ rr_state run = RunPending ∧ rr_state run' = RunRunning)
}.

(** [inrun k w w']: the classes of the other runs and every run row are kept. *)
Record inrun (k : string) (w w' : World) : Prop := {
  ir_evo : w ⇝ w';
  ir_equiv : ∀ k', k' ≠ k → run_equiv k' (w_db w) (w_db w');
  ir_runs : db_runs (w_db w') = db_runs (w_db w)
}.

(** [good w w']: the invariant is kept, by protocol steps. *)
Definition good (w w' : World) : Prop := Inv (w_db w) → w ⇝ w' ∧ Inv (w_db w').

#[export] Instance soft_preorder : PreOrder soft.
Proof.
  split.
  - intros w. split; [done|done|]. intros k run H. exists run. auto.
  - intros a b c [H1 H2 H3] [H4 H5 H6]. split; [by etrans|intros k; etrans; [apply H2|apply H5]|].
    intros k r (r1 & Hr1 & C1)%H6. destruct (H3 _ _ Hr1) as (r2 & Hr2 & C2). exists r2. split; [done|].
    intuition congruence.
Qed.
#[export] Instance inrun_preorder k : PreOrder (inrun k).
Proof.
  split.
  - intros w. by split.
  - intros a b c [H1 H2 H3] [H4 H5 H6]. split; [by etrans| |congruence].
    intros k' Hk. etrans; [by apply H2|by apply H5].
Qed.
#[export] Instance good_preorder : PreOrder good.
Proof.
  split.
  - intros w Hw. by split.
  - intros a b c H1 H2 Ha. destruct (H1 Ha) as [? Hb]. destruct (H2 Hb). split; [by etrans|done].
Qed.

Lemma soft_good w w' : soft w w' → good w w'.
Proof.
  intros [Hevo Heq Hruns] [Hwf Hrows Hc]. split; [done|].
  assert (WF (w_db w')) as Hwf' by eauto with quarry.
  split; [done|by eapply PSteps_RowsInv; [apply Hevo|]|].
  intros k run' Hr'. destruct (Hruns _ _ Hr') as (run & Hr & Hcase). destruct (Hc _ _ Hr) as [HS HR].
  split; [by apply (Settled_equiv k (w_db w))|]. unfold RunOK in *. rewrite (verdict_equiv _ _ _ Hwf Hwf' (Heq k)).
  destruct (run_verdict (w_db w) k) as [f|] eqn:Hv.
  - apply verdict_terminal in Hv as [? ?]. destruct Hcase as [|[]]; congruence.
  - destruct Hcase as [->|[_ ->]]; [done|]. by intros [? ?].
Qed.

Lemma run_class_set_job d id r r' k :
  job_at d id = Some r → jr_id r' = id → jr_run_id r' = jr_run_id r →
  jr_run_id r ≠ k ∨ class_of (jr_state r') = class_of (jr_state r) →
  run_equiv k d (set_job id r' d).
Proof.
  intros Hr Hid Hrun Hc. split; [done|]. intros x. unfold run_class, run_state_of.
  rewrite job_at_set_job by done. destruct (decide (x = id)) as [->|]; [|done].
  rewrite Hr. simpl. rewrite Hrun. case_decide; [|done]. simpl. f_equal. destruct Hc; congruence.
Qed.

Lemma run_equiv_jobs k d d' :
  db_jobs d' = db_jobs d → db_job_deps d' = db_job_deps d → run_equiv k d d'.
Proof. intros Hj Hd. split; [done|]. intros id. unfold run_class, run_state_of, job_at. by rewrite Hj. Qed.

Lemma soft_same w w' :
  w ⇝ w' → db_jobs (w_db w') = db_jobs (w_db w) → db_job_deps (w_db w') = db_job_deps (w_db w) →
  db_runs (w_db w') = db_runs (w_db w) → soft w w'.
Proof.
  intros He Hj Hd Hr. split; [done|intros k; by apply run_equiv_jobs|].
  intros k run. unfold run_at. rewrite Hr. eauto.
Qed.

Lemma inrun_same k w w' :
  w ⇝ w' → db_jobs (w_db w') = db_jobs (w_db w) → db_job_deps (w_db w') = db_job_deps (w_db w) →
  db_runs (w_db w') = db_runs (w_db w) → inrun k w w'.
Proof. intros He Hj Hd Hr. split; [done| |done]. intros k' _. by apply run_equiv_jobs. Qed.

Lemma soft_job w id r r' :
  job_at (w_db w) id = Some r → JobEdge (w_db w) r r' → class_of (jr_state r') = class_of (jr_state r) →
  soft w (upd (set_job id r' (w_db w)) (tick w)).
Proof.
  intros Hr He Hc. assert (jr_id r' = id) as Hid.
  { rewrite (JobEdge_id _ _ _ He). by apply job_at_Some in Hr as [_ ->]. }
  split.
  - apply evo_tick_upd. by eapply P_job.
  - intros k. eapply run_class_set_job; eauto using JobEdge_run.
  - intros k run Hk. exists run. auto.
Qed.

Lemma inrun_job w id r r' k :
  job_at (w_db w) id = Some r → JobEdge (w_db w) r r' → jr_run_id r = k →
  inrun k w (upd (set_job id r' (w_db w)) (tick w)).
Proof.
  intros Hr He Hk. assert (jr_id r' = id) as Hid.
  { rewrite (JobEdge_id _ _ _ He). by apply job_at_Some in Hr as [_ ->]. }
  split; [apply evo_tick_upd; by eapply P_job| |done].
  intros k' Hk'. eapply run_class_set_job; eauto using JobEdge_run. left. congruence.
Qed.

(** ** Ending in [advance] *)

Lemma advanced_equiv w w' k k' :
  WF (w_db w) → advanced w w' k → k' ≠ k → run_equiv k' (w_db w) (w_db w').
Proof.
  intros Hwf Hadv Hk. pose proof (PSteps_static _ _ (evo_steps _ _ (ad_evo _ _ _ Hadv))) as (_ & _ & Hd).
  split; [done|]. intros id. unfold run_class, run_state_of.
  destruct (job_at (w_db w') id) as [r'|] eqn:Hr'.
  - destruct (ad_moved _ _ _ Hadv _ _ Hr') as (r & -> & Hm).
    destruct Hm as [->|[(Hrun & _ & now & ->)|(Hrun & _ & now & ->)]]; [done| |];
      simpl; rewrite !decide_False by congruence; done.
  - destruct (job_at (w_db w) id) as [r|] eqn:Hr; [|done].
    destruct (advanced_row _ _ _ _ _ Hadv Hr) as (? & ? & _). congruence.
Qed.

(** A transaction that moved jobs of one unfinished run and then advanced it. *)
Lemma inrun_advance w w1 w2 k run :
  Inv (w_db w) → run_at (w_db w) k = Some run → ¬ run_terminal (rr_state run) →
  inrun k w w1 → advanced w1 w2 k → w ⇝ w2 ∧ Inv (w_db w2).
Proof.
  intros [Hwf Hrows Hc] Hrun Hnt [He Heq Hruns] Hadv.
  assert (w ⇝ w2) as He2 by (etrans; [exact He|apply Hadv]). split; [done|].
  assert (WF (w_db w1)) as Hwf1 by eauto with quarry.
  assert (WF (w_db w2)) as Hwf2 by eauto with quarry.
  assert (Hat : ∀ x, run_at (w_db w1) x = run_at (w_db w) x) by (intros x; unfold run_at; by rewrite Hruns).
  split; [done|by eapply PSteps_RowsInv; [apply He2|]|]. intros x run' Hr'.
  destruct (decide (x = k)) as [->|Hne].
  - split; [apply Hadv|]. destruct (ad_run _ _ _ Hadv run) as (run2 & Hr2 & Hst); [by rewrite Hat|].
    assert (run2 = run') as -> by congruence. rewrite bool_decide_false in Hst by done.
    unfold RunOK. destruct (run_verdict (w_db w2) k); simpl in Hst; congruence.
  - rewrite (ad_other _ _ _ Hadv) in Hr' by done. rewrite Hat in Hr'. destruct (Hc _ _ Hr') as [HS HR].
    assert (run_equiv x (w_db w) (w_db w2)) as Hx.
    { etrans; [by apply Heq|]. by eapply advanced_equiv. }
    split; [by apply (Settled_equiv x (w_db w))|]. unfold RunOK in *. by rewrite (verdict_equiv _ _ _ Hwf Hwf2 Hx).
Qed.

(** A run with a job that is not finished is not finished. *)
Lemma live_run d id r run :
  Inv d → job_at d id = Some r → ¬ terminal (jr_state r) → run_at d (jr_run_id r) = Some run →
  ¬ run_terminal (rr_state run).
Proof.
  intros [Hwf _ Hc] Hr Hnt Hrun. destruct (Hc _ _ Hrun) as [_ HR]. unfold RunOK in HR.
  assert (run_verdict d (jr_run_id r) = None) as E; [|by rewrite E in HR].
  unfold run_verdict. rewrite final_state_spec. unfold verdict_of. rewrite bool_decide_true; [done|].
  apply Exists_exists. exists (jr_state r). split.
  - apply list_elem_of_fmap_2, elem_of_run_jobs. by apply job_at_Some in Hr as [].
  - by apply not_true_iff_false.
Qed.
