(* ===== verification/Refinement.v ===== *)
(** * The scheduler's transactions

    What each guarded primitive and each transaction of internal/scheduler does to
    a database that satisfies the invariant.  Every operation is a sequence of
    protocol steps that keeps the invariant, on success and on failure. *)

From S2P Require Import Prelude GoLib Pipeline Types Store Scheduler Protocol Advance Consistency.
From stdpp Require Import relations.

Local Open Scope Z_scope.

(** ** Primitives on the job they name *)

Section primitives.
Context (w : World) (id : string) (r : JobRow).
Context (Hwf : WF (w_db w)) (Hr : job_at (w_db w) id = Some r).

Definition claimed_row (runner : string) (lease now : Z) : JobRow :=
  r <| jr_state := JobRunning |> <| jr_runner_id := Some runner |> <| jr_attempt := jr_attempt r + 1 |>
    <| jr_lease_expires_at := Some lease |> <| jr_started_at := Some now |>.
Definition finished_row (st : JobState) (kind : string) (code : option Z) (msg : string) (now : Z) : JobRow :=
  r <| jr_state := st |> <| jr_failure_kind := nullStr kind |> <| jr_exit_code := code |>
    <| jr_error := nullStr msg |> <| jr_lease_expires_at := None |> <| jr_finished_at := Some now |>.
Definition requeued_row (msg : string) (now : Z) : JobRow :=
  r <| jr_state := JobQueued |> <| jr_runner_id := None |> <| jr_lease_expires_at := None |>
    <| jr_started_at := None |> <| jr_error := nullStr msg |> <| jr_queued_at := now |>.
Definition cancelled_row (msg : string) (now : Z) : JobRow :=
  r <| jr_state := JobCancelled |> <| jr_failure_kind := Some FailureCancelled |>
    <| jr_error := nullStr msg |> <| jr_finished_at := Some now |>.
Definition requested_row (reason : string) (now : Z) : JobRow :=
  r <| jr_cancel_requested_at := Some now |> <| jr_cancel_reason := Some reason |>.

Definition put (r' : JobRow) : World := upd (set_job id r' (w_db w)) (tick w).

Lemma ClaimJob_ok runner lease :
  ClaimJob id runner lease w =
  if bool_decide (jr_state r = JobQueued)
  then (inr (Some (jr_attempt r + 1)), put (claimed_row runner lease (now_of w)))
  else (inr None, tick w).
Proof.
  unfold ClaimJob. rewrite (mbind_step _ _ _ _ _ (eq_refl : Now w = (inr (now_of w), tick w))).
  unfold mbind at 1, M_bind at 1. rewrite (modify_job_spec (tick w) id (is_state JobQueued)) by done.
  simpl. rewrite Hr. unfold is_state. case_bool_decide; [|done].
  unfold mbind, M_bind, get_db. cbn -[set_job sql_row].
  match goal with |- context [sql_row _ (db_jobs ?d)] => change (sql_row _ (db_jobs d)) with (job_at d id) end.
  rewrite job_at_set_job by (by apply job_at_Some in Hr as []).
  rewrite decide_True, Hr by done. done.
Qed.

Lemma ExtendLease_ok attempt runner lease :
  ExtendLease id attempt runner lease w =
  if bool_decide (jr_state r = JobRunning ∧ jr_attempt r = attempt ∧ jr_runner_id r = Some runner)
  then (inr true, upd (set_job id (r <| jr_lease_expires_at := Some lease |>) (w_db w)) w)
  else (inr false, w).
Proof.
  unfold ExtendLease. rewrite (modify_job_spec w id (λ r, is_state JobRunning r && is_attempt attempt r && _)) by done.
  rewrite Hr. unfold is_state, is_attempt. repeat case_bool_decide; try done; naive_solver.
Qed.

Lemma FinishJob_ok attempt st kind code msg :
  jr_state r = JobRunning → jr_attempt r = attempt →
  FinishJob id attempt st kind code msg w = (inr true, put (finished_row st kind code msg (now_of w))).
Proof.
  intros Hs Ha. unfold FinishJob. rewrite (mbind_step _ _ _ _ _ (eq_refl : Now w = (inr (now_of w), tick w))).
  rewrite (modify_job_spec (tick w) id (λ r, is_state JobRunning r && is_attempt attempt r)) by done.
  simpl. rewrite Hr. unfold is_state, is_attempt. by rewrite !bool_decide_true by done.
Qed.

Lemma RequeueJob_ok attempt msg :
  jr_state r = JobRunning → jr_attempt r = attempt →
  RequeueJob id attempt msg w = (inr true, put (requeued_row msg (now_of w))).
Proof.
  intros Hs Ha. unfold RequeueJob. rewrite (mbind_step _ _ _ _ _ (eq_refl : Now w = (inr (now_of w), tick w))).
  rewrite (modify_job_spec (tick w) id (λ r, is_state JobRunning r && is_attempt attempt r)) by done.
  simpl. rewrite Hr. unfold is_state, is_attempt. by rewrite !bool_decide_true by done.
Qed.

Lemma CancelJob_ok msg :
  CancelJob id msg w =
  if bool_decide (jr_state r = JobPending ∨ jr_state r = JobQueued)
  then (inr true, put (cancelled_row msg (now_of w))) else (inr false, tick w).
Proof.
  unfold CancelJob. rewrite (mbind_step _ _ _ _ _ (eq_refl : Now w = (inr (now_of w), tick w))).
  rewrite (modify_job_spec (tick w) id (λ r, is_state JobPending r || is_state JobQueued r)) by done.
  simpl. rewrite Hr. unfold is_state. repeat case_bool_decide; try done; naive_solver.
Qed.

Lemma RequestJobCancel_ok reason :
  RequestJobCancel id reason w =
  if bool_decide (jr_state r = JobRunning ∧ jr_cancel_requested_at r = None)
  then (inr true, put (requested_row reason (now_of w))) else (inr false, tick w).
Proof.
  unfold RequestJobCancel. rewrite (mbind_step _ _ _ _ _ (eq_refl : Now w = (inr (now_of w), tick w))).
  rewrite (modify_job_spec (tick w) id (λ r, is_state JobRunning r && bool_decide (jr_cancel_requested_at r = None))) by done.
  simpl. rewrite Hr. unfold is_state. repeat case_bool_decide; try done; naive_solver.
Qed.

Lemma job_at_put r' k : jr_id r' = jr_id r → job_at (w_db (put r')) k = if decide (k = id) then Some r' else job_at (w_db w) k.
Proof.
  intros Hid. unfold put. simpl. rewrite job_at_set_job by (apply job_at_Some in Hr as [_ <-]; done).
  case_decide; [|done]. by rewrite Hr.
Qed.
End primitives.
Arguments claimed_row r / runner lease now.
Arguments finished_row r / st kind code msg now.
Arguments requeued_row r / msg now.
Arguments cancelled_row r / msg now.
Arguments requested_row r / reason now.

(** ** Transactions *)

Lemma Tx_err {A} (m : W A) w e w' : Tx m w = (inl e, w') → w_db w' = w_db w.
Proof. unfold Tx. destruct (m w) as [[?|?] ?]; intros [=]; by subst. Qed.

Lemma Tx_ok {A} (m : W A) w a w' : Tx m w = (inr a, w') ↔ m w = (inr a, w').
Proof. unfold Tx. destruct (m w) as [[?|?] ?]; split; intros [=]; by subst. Qed.

Lemma Tx_step {A} (m : W A) w a w' : m w = (inr a, w') → Tx m w = (inr a, w').
Proof. by rewrite Tx_ok. Qed.

(** What the metrics updates after a commit may change. *)
Lemma with_metrics_ok f w : with_metrics f w = (inr tt, w <| w_metrics := f (w_metrics w) |>).
Proof. done. Qed.

(** An event in a run that exists, as a move of either kind. *)
Lemma event_soft w runID jobID typ detail :
  runID ≠ "" → typ ≠ "" →
  ∃ w', event runID jobID typ detail w = (inr tt, w') ∧ soft w w' ∧ inrun runID w w' ∧
    db_jobs (w_db w') = db_jobs (w_db w) ∧ db_runs (w_db w') = db_runs (w_db w).
Proof.
  intros H1 H2. destruct (event_ok w runID jobID typ detail H1 H2) as (w' & He & Hev & Ej & Er & Ed).
  exists w'. split_and!; auto using soft_same, inrun_same.
Qed.

(** Resolve the next bind of the goal with an equation for its first action. *)
Ltac step_with H := rewrite (mbind_step _ _ _ _ _ H).
Ltac step_now w := step_with (eq_refl : Now w = (inr (now_of w), tick w)).

(** ** UpsertRunner and TouchRunner only touch the runners table *)

Lemma evo_runners t w : w ⇝ upd ((w_db w) <| db_runners := t |>) w.
Proof. apply evo_upd, P_runners. Qed.

Lemma soft_tick w : soft w (tick w).
Proof. apply soft_same; [apply evo_tick|done..]. Qed.

Lemma soft_runners t w : soft w (upd ((w_db w) <| db_runners := t |>) w).
Proof. apply soft_same; [apply evo_runners|done..]. Qed.

Lemma UpsertRunner_soft id name labels cap st ver w res w' :
  UpsertRunner id name labels cap st ver w = (inr res, w') →
  soft w w' ∧ db_jobs (w_db w') = db_jobs (w_db w).
Proof.
  unfold UpsertRunner. case_bool_decide; [done|]. intros Hm. minv Hm.
  unfold Now in Hm0. injection Hm0 as <- <-. unfold get_db in Hm1. injection Hm1 as <- <-.
  destruct (List.existsb _ _); [done|].
  destruct (sql_row _ _); minv Hm; unfold put_db in *; simplify_eq;
    (split; [|done]; etrans; [apply soft_tick|apply (soft_runners _ (tick w))]).
Qed.

Lemma TouchRunner_soft id w res w' :
  TouchRunner id w = (inr res, w') → soft w w' ∧ db_jobs (w_db w') = db_jobs (w_db w).
Proof.
  unfold TouchRunner. intros Hm. apply mbind_ok in Hm as (now & w1 & [= <- <-] & Hm).
  apply mbind_ok in Hm as (d & w2 & [= <- <-] & Hm).
  apply mbind_ok in Hm as (u & w3 & [= <- <-] & Hm).
  assert (∀ t, soft w (upd ((w_db w) <| db_runners := t |>) (tick w))) as Ht.
  { intros t. etrans; [apply soft_tick|apply (soft_runners t (tick w))]. }
  case_bool_decide.
  - minv Hm. split; [apply Ht|done].
  - apply mbind_ok in Hm as (x & w4 & Hu & Hm). minv Hm. apply UpsertRunner_soft in Hu as [Hs Hj].
    split; [|done]. etrans; [apply Ht|exact Hs].
Qed.

(** The runners table is all a runner's touch rewrites. *)
Lemma UpsertRunner_db id name labels cap st ver w res w' :
  UpsertRunner id name labels cap st ver w = (inr res, w') → ∃ t, w_db w' = (w_db w) <| db_runners := t |>.
Proof.
  unfold UpsertRunner. case_bool_decide; [done|]. intros Hm. minv Hm.
  unfold Now in Hm0. injection Hm0 as <- <-. unfold get_db in Hm1. injection Hm1 as <- <-.
  destruct (List.existsb _ _); [done|]. destruct (sql_row _ _); minv Hm; unfold put_db in *; simplify_eq; by eexists.
Qed.

Lemma TouchRunner_db id w res w' :
  TouchRunner id w = (inr res, w') → ∃ t, w_db w' = (w_db w) <| db_runners := t |>.
Proof.
  unfold TouchRunner. intros Hm. apply mbind_ok in Hm as (now & w1 & [= <- <-] & Hm).
  apply mbind_ok in Hm as (d & w2 & [= <- <-] & Hm). apply mbind_ok in Hm as (u & w3 & [= <- <-] & Hm).
  case_bool_decide; [minv Hm; by eexists|].
  apply mbind_ok in Hm as (x & w4 & Hu & Hm). minv Hm. destruct (UpsertRunner_db _ _ _ _ _ _ _ _ _ Hu) as [t ->].
  by eexists.
Qed.

(** ** Claim *)

(** The job [claim_loop] picks: the first of the list whose labels the runner has. *)
Fixpoint first_match (have : gmap string string) (l : list JobRow) : Err + option JobRow :=
  match l with
  | [] => inr None
  | r :: l' =>
      match jr_spec_json r with
      | None => inl (ErrDecodeSpec (jr_id r))
      | Some spec => if labelsSubset (pj_Labels spec) have then inr (Some r) else first_match have l'
      end
  end.

(** What a claim leaves: one queued row has become running, for this runner. *)
Record claims (s : Scheduler) (ri : RunnerInfo) (r : JobRow) (w w' : World) (j : Job) : Prop := {
  cl_queued : job_at (w_db w) (jr_id r) = Some r ∧ jr_state r = JobQueued;
  cl_row : ∃ n1 n2, j = scanJob (claimed_row r (ri_ID ri) (w_clock w n1 + s_ttl s) (w_clock w n2)) ∧
     db_jobs (w_db w') = db_jobs (set_job (jr_id r)
       (claimed_row r (ri_ID ri) (w_clock w n1 + s_ttl s) (w_clock w n2)) (w_db w));
  cl_soft : soft w w'
}.

Lemma soft_run_start w k run n :
  run_at (w_db w) k = Some run → rr_state run = RunPending →
  (∃ j, j ∈ run_jobs (w_db w) k ∧ jr_state j = JobRunning) →
  soft w (upd (set_run k (run <| rr_state := RunRunning |> <| rr_started_at := Some n |>) (w_db w)) (tick w)).
Proof.
  intros Hr Hs Hj. split.
  - apply evo_tick_upd. by eapply P_run_start.
  - intros k'. by apply run_equiv_jobs.
  - intros k' run'. simpl. rewrite run_at_set_run by (by apply run_at_Some in Hr as [_ <-]).
    case_decide; [subst k'|by eauto]. rewrite Hr. intros [= <-]. eauto.
Qed.

(** The second half of a claim: the run starts if it has not yet. *)
Lemma start_run_ok w k j :
  WF (w_db w) → j ∈ run_jobs (w_db w) k → jr_state j = JobRunning →
  ∃ w', (ok ← SetRunState k RunPending RunRunning;
         if (ok : bool) then event k "" "run.started" [] else mret tt) w = (inr tt, w') ∧
    soft w w' ∧ db_jobs (w_db w') = db_jobs (w_db w).
Proof.
  intros Hwf Hj Hs. destruct (proj1 (elem_of_run_jobs _ _ _) Hj) as [Hin Hk].
  destruct (wf_job_run _ Hwf _ Hin) as [run Hrun]. rewrite Hk in Hrun.
  assert (k ≠ "") as Hne by (rewrite <-Hk; by eapply run_id_ne).
  pose proof (SetRunState_spec w k RunPending RunRunning run Hwf Hrun) as E.
  destruct (decide (rr_state run = RunPending)) as [Hp|Hp].
  - rewrite bool_decide_true in E by done. step_with E. simpl.
    set (w1 := upd _ (tick w)).
    destruct (event_soft w1 k "" "run.started" [] Hne) as (w2 & He & Hsoft & _ & Ej & _); [done|].
    exists w2. split_and!; [done| |by rewrite Ej]. etrans; [|exact Hsoft].
    pose proof (soft_run_start w k run (now_of w) Hrun Hp (ex_intro _ j (conj Hj Hs))) as Hstart.
    destruct run; exact Hstart.
  - rewrite bool_decide_false in E by done. step_with E. exists (tick w). split_and!; [done|apply soft_tick|done].
Qed.

Lemma claim_one s ri r w :
  WF (w_db w) → job_at (w_db w) (jr_id r) = Some r → jr_state r = JobQueued →
  ∃ j w', (now ← Now;
     claimed ← ClaimJob (jr_id r) (ri_ID ri) (now + s_ttl s);
     match claimed with
     | None => mret None
     | Some attempt =>
         ok ← SetRunState (jr_run_id r) RunPending RunRunning;
         (if (ok : bool) then event (jr_run_id r) "" "run.started" [] else mret tt);;
         event (jr_run_id r) (jr_id r) "job.claimed" [("runner_id", DStr (ri_ID ri)); ("attempt", DInt attempt)];;
         j ← GetJob (jr_id r);
         mret (Some j)
     end) w = (inr (Some j), w') ∧ claims s ri r w w' j.
Proof.
  intros Hwf Hr Hs. step_now w.
  set (lease := now_of w + s_ttl s). set (row := claimed_row r (ri_ID ri) lease (now_of (tick w))).
  assert (Hc : ClaimJob (jr_id r) (ri_ID ri) lease (tick w) =
               (inr (Some (jr_attempt r + 1)), upd (set_job (jr_id r) row (w_db w)) (tick (tick w)))).
  { rewrite (ClaimJob_ok (tick w) _ r) by done. rewrite (bool_decide_true (jr_state r = JobQueued)) by done. done. }
  step_with Hc. set (w1 := upd _ _).
  assert (soft w w1) as Hs1.
  { etrans; [apply soft_tick|]. eapply (soft_job (tick w)); [done|by apply JE_claim|]. simpl. by rewrite Hs. }
  assert (WF (w_db w1)) as Hwf1 by (destruct Hs1; eauto with quarry).
  assert (job_at (w_db w1) (jr_id r) = Some row) as Hr1.
  { subst w1. simpl. rewrite job_at_set_job by done. by rewrite decide_True, Hr. }
  assert (jr_run_id r ≠ "") as Hne by (apply (run_id_ne (w_db w)); [done|by apply job_at_Some in Hr as []]).
  destruct (start_run_ok w1 (jr_run_id r) row) as (w2 & Hst & Hs2 & Ej2); try done.
  { apply elem_of_run_jobs. by apply job_at_Some in Hr1 as []. }
  rewrite mbind_assoc. step_with Hst.
  destruct (event_soft w2 (jr_run_id r) (jr_id r) "job.claimed"
              [("runner_id", DStr (ri_ID ri)); ("attempt", DInt (jr_attempt r + 1))] Hne)
    as (w3 & He & Hs3 & _ & Ej3 & _); [done|].
  step_with He.
  assert (job_at (w_db w3) (jr_id r) = Some row) as Hr3 by (by rewrite (job_at_jobs _ _ _ Ej3), (job_at_jobs _ _ _ Ej2)).
  step_with (GetJob_ok _ _ _ Hr3). exists (scanJob row), w3. split; [done|]. split; [done| |].
  - exists (w_reads w), (S (w_reads w)). split; [done|]. by rewrite Ej3, Ej2.
  - etrans; [exact Hs1|]. by etrans.
Qed.

Lemma claim_loop_ok s ri l w :
  WF (w_db w) → (∀ r, r ∈ l → r ∈ db_jobs (w_db w) ∧ jr_state r = JobQueued) →
  match first_match (ri_Labels ri) l with
  | inl e => claim_loop s ri (scanJob <$> l) w = (inl e, w)
  | inr None => claim_loop s ri (scanJob <$> l) w = (inr None, w)
  | inr (Some r) => ∃ j w', claim_loop s ri (scanJob <$> l) w = (inr (Some j), w') ∧ claims s ri r w w' j
  end.
Proof.
  intros Hwf. induction l as [|r l IH]; intros Hl; [done|].
  assert (∀ x, x ∈ l → x ∈ db_jobs (w_db w) ∧ jr_state x = JobQueued) as Hl' by (intros; apply Hl; by right).
  specialize (IH Hl'). destruct (Hl r) as [Hin Hs]; [by left|].
  assert (job_at (w_db w) (jr_id r) = Some r) as Hr by (by apply job_at_iff).
  rewrite fmap_cons. simpl. unfold specLabels, jobSpec. simpl.
  destruct (jr_spec_json r) as [spec|]; [|done].
  rewrite (mbind_step _ _ _ (pj_Labels spec) w) by done.
  destruct (labelsSubset (pj_Labels spec) (ri_Labels ri)); [|done].
  destruct (claim_one s ri r w Hwf Hr Hs) as (j & w' & Hc & Hcl). exists j, w'. split; [|done].
  revert Hc. unfold mbind, M_bind. simpl.
  destruct (ClaimJob _ _ _ _) as [[?|[?|]] ?]; done.
Qed.

(** A runner with these labels may run this job. *)
Definition matches (have : gmap string string) (r : JobRow) : Prop :=
  ∃ spec, jr_spec_json r = Some spec ∧ labelsSubset (pj_Labels spec) have = true.

Lemma first_match_Some have (R : JobRow → JobRow → Prop) l r :
  (∀ x, R x x) → StronglySorted R l → first_match have l = inr (Some r) →
  r ∈ l ∧ matches have r ∧ ∀ r2, r2 ∈ l → matches have r2 → R r r2.
Proof.
  intros Hrefl. induction 1 as [|x l Hs IH Hf]; simpl; [done|].
  destruct (jr_spec_json x) as [spec|] eqn:Ex; [|done]. destruct (labelsSubset _ _) eqn:El.
  - intros [= ->]. split_and!; [by left|by exists spec|].
    intros r2 [->|Hr2]%elem_of_cons _; [done|]. rewrite Forall_forall in Hf. auto.
  - intros H. destruct (IH H) as (H1 & H2 & H3). split_and!; [by right|done|].
    intros r2 [->|Hr2]%elem_of_cons Hm; [|auto]. destruct Hm as (sp & ? & ?). congruence.
Qed.

Lemma first_match_None have l :
  first_match have l = inr None → ∀ r, r ∈ l → ¬ matches have r.
Proof.
  induction l as [|x l IH]; simpl; [by intros _ r Hr%elem_of_nil|].
  destruct (jr_spec_json x) as [spec|] eqn:Ex; [|done]. destruct (labelsSubset _ _) eqn:El; [done|].
  intros H r [->|Hr]%elem_of_cons; [|by apply IH]. intros (sp & ? & ?). congruence.
Qed.

Lemma queued_leb_total a b : queued_leb a b = true ∨ queued_leb b a = true.
Proof. unfold queued_leb. rewrite !bool_decide_eq_true. lia. Qed.
Lemma queued_leb_trans a b c : queued_leb a b = true → queued_leb b c = true → queued_leb a c = true.
Proof. unfold queued_leb. rewrite !bool_decide_eq_true. lia. Qed.

(** What [Claim] does when it returns. *)
Record claim_result (s : Scheduler) (ri : RunnerInfo) (d d' : DB) (res : option Job) : Prop := {
  cr_steps : PSteps d d' ∧ Inv d';
  cr_some : ∀ j, res = Some j → ∃ r lease now,
    job_at d (jr_id r) = Some r ∧ jr_state r = JobQueued ∧ matches (ri_Labels ri) r ∧
    (∀ r2, r2 ∈ db_jobs d → jr_state r2 = JobQueued → matches (ri_Labels ri) r2 → jr_queued_at r ≤ jr_queued_at r2) ∧
    j = scanJob (claimed_row r (ri_ID ri) lease now) ∧
    db_jobs d' = db_jobs (set_job (jr_id r) (claimed_row r (ri_ID ri) lease now) d);
  cr_none : res = None → db_jobs d' = db_jobs d ∧
    ∀ r, r ∈ db_jobs d → jr_state r = JobQueued → ¬ matches (ri_Labels ri) r
}.

Lemma Claim_ok s ri w res w' :
  Inv (w_db w) → Claim s ri w = (inr res, w') → claim_result s ri (w_db w) (w_db w') res.
Proof.
  intros Hinv. unfold Claim. case_bool_decide; [done|]. intros Hm.
  apply mbind_ok in Hm as (c & w1 & Htx & Hm). rewrite Tx_ok in Htx.
  apply mbind_ok in Htx as (u & w2 & Hup & Htx). apply UpsertRunner_soft in Hup as [Hs2 Ej2].
  assert (res = c ∧ w_db w' = w_db w1) as [-> ->].
  { by destruct c; injection Hm as <- <-. }
  clear Hm. destruct (soft_good _ _ Hs2 Hinv) as [Hev2 Hinv2].
  apply mbind_ok in Htx as (q & w3 & [= <- <-] & Htx).
  set (l := order_by queued_leb _) in Htx.
  assert (Hl : ∀ r, r ∈ l ↔ r ∈ db_jobs (w_db w) ∧ jr_state r = JobQueued).
  { intros r. subst l. rewrite elem_of_order_by, elem_of_sql_select, Ej2. unfold is_state.
    by rewrite bool_decide_eq_true. }
  assert (Hsorted : StronglySorted (λ a b, queued_leb a b = true) l)
    by (apply order_by_sorted; [apply queued_leb_total|apply queued_leb_trans]).
  assert (Hlo := claim_loop_ok s ri l w2 (inv_wf _ Hinv2)).
  destruct (first_match (ri_Labels ri) l) as [e|[r|]] eqn:Ef;
    (specialize (Hlo ltac:(intros x Hx; rewrite Ej2; by apply Hl))).
  - congruence.
  - destruct Hlo as (j & w'' & Hc & [Hq (n1 & n2 & -> & Ej) Hsoft]). rewrite Htx in Hc. simplify_eq.
    destruct (soft_good _ _ Hsoft Hinv2) as [Hev3 Hinv3]. split; [|intros j [= <-]|done].
    + split; [|done]. etrans; [apply Hev2|apply Hev3].
    + destruct (first_match_Some (ri_Labels ri) (λ a b, queued_leb a b = true) l r) as (Hin & Hma & Hmin); try done.
      { intros x. unfold queued_leb. by apply bool_decide_eq_true. }
      destruct Hq as [Hq1 Hq2]. exists r, (w_clock w2 n1 + s_ttl s), (w_clock w2 n2).
      split_and!; try done.
      * unfold job_at in *. by rewrite <-Ej2.
      * intros r2 H1 H2 H3. assert (queued_leb r r2 = true) as Hle by (apply Hmin; [by apply Hl|done]).
        by apply bool_decide_eq_true in Hle.
      * rewrite Ej. unfold set_job. simpl. by rewrite Ej2.
  - rewrite Htx in Hlo. simplify_eq. split; [|done|intros _].
    + split; [apply Hev2|done].
    + split; [done|]. intros r H1 H2. eapply first_match_None; [exact Ef|by apply Hl].
Qed.

(** ** Heartbeat *)

(** The directive the state of the database calls for. *)
Definition directive_for (d : DB) (runner : string) (j : JobRef) : directive :=
  match job_at d (jf_JobID j) with
  | Some r =>
      if bool_decide (jr_state r = JobRunning ∧ jr_attempt r = jf_Attempt j ∧ jr_runner_id r = Some runner)
      then if bool_decide (int_of (jr_cancel_requested_at r) ≠ 0) then DirectiveCancel else DirectiveContinue
      else DirectiveAbort
  | None => DirectiveAbort
  end.

(** Two databases that differ at most in leases. *)
Definition no_lease (r : JobRow) : JobRow := r <| jr_lease_expires_at := None |>.
Definition same_but_leases (d d' : DB) : Prop := ∀ id, no_lease <$> job_at d' id = no_lease <$> job_at d id.

Lemma directive_for_leases d d' runner j :
  same_but_leases d d' → directive_for d' runner j = directive_for d runner j.
Proof.
  intros H. specialize (H (jf_JobID j)). unfold directive_for.
  destruct (job_at d' _) as [r'|], (job_at d _) as [r|]; try done. simpl in H.
  injection H as H. destruct r, r'. unfold no_lease, setf, set_jr_lease_expires_at in H. simpl in *. by simplify_eq.
Qed.

Lemma heartbeat_job_ok s runner j out w :
  WF (w_db w) →
  ∃ w', heartbeat_job s runner j out w =
      (inr (out ++ [mkDirective (jf_JobID j) (jf_Attempt j) (directive_for (w_db w) runner j)]), w') ∧
    soft w w' ∧ same_but_leases (w_db w) (w_db w') ∧
    (directive_for (w_db w) runner j = DirectiveAbort → w_db w' = w_db w) ∧
    (directive_for (w_db w) runner j ≠ DirectiveAbort →
     jr_lease_expires_at <$> job_at (w_db w') (jf_JobID j) = Some (Some (now_of w + s_ttl s))) ∧
    (∀ k, k ≠ jf_JobID j → job_at (w_db w') k = job_at (w_db w) k).
Proof.
  intros Hwf. unfold heartbeat_job. step_now w. unfold directive_for.
  destruct (job_at (w_db w) (jf_JobID j)) as [r|] eqn:Hr.
  - pose proof (ExtendLease_ok (tick w) _ r Hwf Hr (jf_Attempt j) runner (now_of w + s_ttl s)) as E.
    case_bool_decide as Hc.
    + step_with E. set (w1 := upd _ _). set (row := r <| jr_lease_expires_at := Some (now_of w + s_ttl s) |>) in *.
      destruct (job_at_Some _ _ _ Hr) as [_ Hid].
      assert (∀ k, job_at (w_db w1) k = if decide (k = jf_JobID j) then Some row else job_at (w_db w) k) as Hat.
      { intros k. subst w1. simpl. rewrite job_at_set_job by done. case_decide; [|done]. by rewrite Hr. }
      assert (job_at (w_db w1) (jf_JobID j) = Some row) as Hr1 by (by rewrite Hat, decide_True).
      exists w1. split_and!.
      * rewrite (mbind_step _ _ _ _ _ (mbind_step _ _ _ _ _ (GetJob_ok _ _ _ Hr1))). simpl.
        by case_bool_decide.
      * subst w1. eapply (soft_job w _ r row); [done| |done]. apply JE_extend. by destruct Hc.
      * intros k. rewrite Hat. case_decide; [subst k|done]. by rewrite Hr.
      * by case_bool_decide.
      * intros _. by rewrite Hr1.
      * intros k Hk. by rewrite Hat, decide_False.
    + step_with E. exists (tick w). split_and!; [done|apply soft_tick|by intros k|done..].
  - assert (ExtendLease (jf_JobID j) (jf_Attempt j) runner (now_of w + s_ttl s) (tick w) = (inr false, tick w)) as E.
    { unfold ExtendLease.
      rewrite (modify_job_spec (tick w) (jf_JobID j) (λ r, is_state JobRunning r && is_attempt (jf_Attempt j) r && _)) by done.
      simpl. by rewrite Hr. }
    step_with E. exists (tick w). split_and!; [done|apply soft_tick|by intros k|done..].
Qed.

(** A job none of whose references is honoured keeps its row, and a heartbeat that
    honours none of its references changes nothing. *)
Definition aborted_untouched (runner : string) (js : list JobRef) (d d' : DB) : Prop :=
  (∀ id, (∀ j, j ∈ js → jf_JobID j = id → directive_for d runner j = DirectiveAbort) → job_at d' id = job_at d id) ∧
  ((∀ j, j ∈ js → directive_for d runner j = DirectiveAbort) → d' = d).

Definition held_leases (s : Scheduler) (runner : string) (clock : nat → Z) (js : list JobRef) (d : DB) : Prop :=
  ∀ j, j ∈ js → directive_for d runner j ≠ DirectiveAbort →
    ∃ n, jr_lease_expires_at <$> job_at d (jf_JobID j) = Some (Some (clock n + s_ttl s)).

Lemma heartbeat_jobs_ok s runner js w :
  WF (w_db w) →
  ∃ w', mfor js [] (heartbeat_job s runner) w =
      (inr ((λ j, mkDirective (jf_JobID j) (jf_Attempt j) (directive_for (w_db w) runner j)) <$> js), w') ∧
    soft w w' ∧ same_but_leases (w_db w) (w_db w') ∧ held_leases s runner (w_clock w) js (w_db w') ∧
    aborted_untouched runner js (w_db w) (w_db w').
Proof.
  intros Hwf.
  set (I := λ (l : list JobRef) (out : list Directive) (w1 : World), ∃ pre, js = pre ++ l ∧
    out = (λ j, mkDirective (jf_JobID j) (jf_Attempt j) (directive_for (w_db w) runner j)) <$> pre ∧
    soft w w1 ∧ same_but_leases (w_db w) (w_db w1) ∧ held_leases s runner (w_clock w) pre (w_db w1) ∧
    aborted_untouched runner pre (w_db w) (w_db w1)).
  destruct (mfor_total I (heartbeat_job s runner) js [] w) as (out & w' & Hm & HI).
  - intros j l acc w1 (pre & Hpre & -> & Hs & Hsl & Hh & Hu1 & Hu2).
    assert (WF (w_db w1)) as Hwf1 by (destruct Hs; eauto with quarry).
    destruct (heartbeat_job_ok s runner j ((λ j, mkDirective (jf_JobID j) (jf_Attempt j) (directive_for (w_db w) runner j)) <$> pre) w1 Hwf1)
      as (w2 & Hj & Hs2 & Hsl2 & Habort & Hlease & Hoth).
    eexists _, _. split; [exact Hj|]. exists (pre ++ [j]).
    assert (same_but_leases (w_db w) (w_db w2)) as Hsl3 by (intros k; by rewrite Hsl2).
    split_and!.
    + by rewrite <-app_assoc.
    + rewrite fmap_app. simpl. by rewrite (directive_for_leases _ _ _ _ Hsl).
    + by etrans.
    + done.
    + unfold now_of in Hlease. rewrite (evo_clock _ _ (so_evo _ _ Hs)) in Hlease.
      intros x Hx Hd. rewrite (directive_for_leases _ _ _ _ Hsl2) in Hd.
      destruct (decide (directive_for (w_db w1) runner j = DirectiveAbort)) as [Ha|Ha].
      * rewrite (Habort Ha). apply elem_of_app in Hx as [Hx|Hx%list_elem_of_singleton]; [auto|congruence].
      * destruct (decide (jf_JobID x = jf_JobID j)) as [E|E].
        -- exists (w_reads w1). rewrite E. auto.
        -- rewrite Hoth by done. apply elem_of_app in Hx as [Hx|Hx%list_elem_of_singleton]; [auto|congruence].
    + split.
      { intros id Hid. rewrite <-Hu1 by set_solver. destruct (decide (id = jf_JobID j)) as [->|]; [|by apply Hoth].
        rewrite Habort; [done|]. rewrite (directive_for_leases _ _ _ _ Hsl). apply Hid; set_solver. }
      intros Hid. rewrite <-Hu2 by set_solver. apply Habort. rewrite (directive_for_leases _ _ _ _ Hsl). apply Hid. set_solver.
  - exists []. split_and!; try done. intros j Hj. by apply elem_of_nil in Hj.
  - destruct HI as (pre & Hpre & -> & Hs & Hsl & Hh & Hu). rewrite app_nil_r in Hpre. subst pre.
    exists w'. auto.
Qed.

Lemma Heartbeat_ok s runner js w ds w' :
  Inv (w_db w) → Heartbeat s runner js w = (inr ds, w') →
  w ⇝ w' ∧ Inv (w_db w') ∧
  ds = (λ j, mkDirective (jf_JobID j) (jf_Attempt j) (directive_for (w_db w) runner j)) <$> js ∧
  same_but_leases (w_db w) (w_db w') ∧ held_leases s runner (w_clock w) js (w_db w') ∧
  ∃ t, aborted_untouched runner js ((w_db w) <| db_runners := t |>) (w_db w').
Proof.
  intros Hinv. unfold Heartbeat. case_bool_decide; [done|]. rewrite Tx_ok. intros Hm.
  apply mbind_ok in Hm as (u & w1 & Ht & Hm). destruct (TouchRunner_db _ _ _ _ Ht) as [t Et].
  apply TouchRunner_soft in Ht as [Hs1 Ej].
  destruct (soft_good _ _ Hs1 Hinv) as [He1 Hi1].
  destruct (heartbeat_jobs_ok s runner js w1 (inv_wf _ Hi1)) as (w2 & Hj & Hs2 & Hsl & Hh & Hu).
  rewrite Hj in Hm. simplify_eq. destruct (soft_good _ _ Hs2 Hi1) as [He2 Hi2].
  assert (same_but_leases (w_db w) (w_db w1)) as Hsl1 by (intros k; by rewrite (job_at_jobs _ _ _ Ej)).
  refine (conj _ (conj Hi2 (conj _ (conj _ (conj _ _))))); [by etrans|..].
  - apply list_fmap_ext. intros i x _. by rewrite (directive_for_leases _ _ _ _ Hsl1).
  - intros k. by rewrite Hsl.
  - by rewrite <-(evo_clock _ _ He1).
  - exists t. by rewrite <-Et.
Qed.

(** A registered runner's heartbeat is always answered. *)
Lemma Heartbeat_returns s runner js w :
  Inv (w_db w) → runner ≠ "" → sql_count (by_key nr_id runner) (db_runners (w_db w)) = 1%nat →
  ∃ ds w', Heartbeat s runner js w = (inr ds, w').
Proof.
  intros Hinv Hne Hreg. unfold Heartbeat. rewrite bool_decide_false by done.
  set (w1 := upd ((w_db w) <| db_runners := sql_update (by_key nr_id runner)
    (λ r, r <| nr_last_seen_at := now_of w |> <| nr_state := RunnerOnline |>) (db_runners (w_db w)) |>) (tick w)).
  assert (TouchRunner runner w = (inr tt, w1)) as Ht.
  { unfold TouchRunner. step_now w. unfold mbind, M_bind, get_db, put_db. simpl. by rewrite bool_decide_true. }
  destruct (TouchRunner_soft _ _ _ _ Ht) as [Hs _]. destruct (soft_good _ _ Hs Hinv) as [_ Hi].
  destruct (heartbeat_jobs_ok s runner js w1 (inv_wf _ Hi)) as (w2 & Hj & _).
  eexists _, w2. apply Tx_step. rewrite (mbind_step _ _ _ _ _ Ht). exact Hj.
Qed.

(** ** Complete *)

(** The row a valid result leaves in place of the running row [r]. *)
Definition complete_row (r : JobRow) (res : Result) (now : Z) : JobRow :=
  if bool_decide (res_Status res = status_succeeded) then finished_row r JobSucceeded "" (res_ExitCode res) "" now
  else if bool_decide (res_FailureKind res = FailureCancelled) then
    if bool_decide (str_of (jr_cancel_reason r) = CancelReasonTimeout)
    then finished_row r JobFailed FailureTimeout (res_ExitCode res) "job timed out (server backstop)" now
    else finished_row r JobCancelled FailureCancelled (res_ExitCode res) (res_Error res) now
  else if bool_decide (res_FailureKind res = FailureInfra) && bool_decide (jr_attempt r < jr_max_attempts r) &&
          bool_decide (int_of (jr_cancel_requested_at r) = 0)
  then requeued_row r (res_Error res) now
  else finished_row r JobFailed (res_FailureKind res) (res_ExitCode res) (res_Error res) now.

Lemma valid_kinds res :
  valid_result res = None → res_Status res ≠ status_succeeded →
  res_FailureKind res ∈ [FailureExitCode; FailureTimeout; FailureInfra; FailureCancelled].
Proof.
  unfold valid_result. intros H Hn. rewrite bool_decide_false in H by done.
  repeat case_bool_decide; done.
Qed.

Lemma retryable_valid k :
  k ∈ [FailureExitCode; FailureTimeout; FailureInfra; FailureCancelled] →
  retryable k = bool_decide (k = FailureInfra).
Proof. set_unfold. by intros [-> |[-> |[-> |[-> |[]]]]]. Qed.

Lemma failed_kind k :
  k ∈ [FailureExitCode; FailureTimeout; FailureInfra; FailureLostRunner] → verdict_kind JobFailed (nullStr k).
Proof.
  intros Hk. right. right. split; [done|]. exists k. split; [|done].
  set_unfold. by destruct Hk as [-> |[-> |[-> |[-> |[]]]]].
Qed.

Lemma finish_edge d r st kind code msg now :
  jr_state r = JobRunning → verdict_kind st (nullStr kind) → JobEdge d r (finished_row r st kind code msg now).
Proof. intros. by apply JE_finish. Qed.

Lemma complete_row_edge d r res now :
  jr_state r = JobRunning → valid_result res = None → JobEdge d r (complete_row r res now).
Proof.
  intros Hs Hv. unfold complete_row. case_bool_decide as H1.
  { apply finish_edge; [done|]. by left. }
  pose proof (valid_kinds _ Hv H1) as Hk. case_bool_decide as H2.
  { case_bool_decide; apply finish_edge; try done.
    - apply failed_kind. set_solver.
    - right. by left. }
  destruct (_ && _) eqn:E.
  - rewrite !andb_true_iff, !bool_decide_eq_true in E. apply JE_requeue; naive_solver.
  - apply finish_edge; [done|]. apply failed_kind. set_solver.
Qed.

(** Finish or requeue, then the audit event. *)
Lemma edge_event_ok {A} w id r row typ detail (m : W bool) (a : A) :
  WF (w_db w) → job_at (w_db w) id = Some r → JobEdge (w_db w) r row → typ ≠ "" →
  m w = (inr true, put w id row) →
  ∃ w', (m;; event (jr_run_id r) id typ detail;; mret a) w = (inr a, w') ∧
    inrun (jr_run_id r) w w' ∧ (class_of (jr_state row) = class_of (jr_state r) → soft w w') ∧
    db_jobs (w_db w') = db_jobs (set_job id row (w_db w)).
Proof.
  intros Hwf Hr He Ht Hm. step_with Hm.
  destruct (event_soft (put w id row) (jr_run_id r) id typ detail) as (w2 & Hev & Hs2 & Hi2 & Ej & _); [|done|].
  { apply (run_id_ne (w_db w)); [done|]. by apply job_at_Some in Hr as []. }
  step_with Hev. exists w2. split_and!; [done| | |done].
  - etrans; [|exact Hi2]. by eapply inrun_job.
  - intros Hc. etrans; [|exact Hs2]. by eapply soft_job.
Qed.

Lemma edge_now_event_ok {A} w id r row typ detail (m : W bool) (f : Z → A) :
  WF (w_db w) → job_at (w_db w) id = Some r → JobEdge (w_db w) r row → typ ≠ "" →
  m w = (inr true, put w id row) →
  ∃ w', (m;; now ← Now; event (jr_run_id r) id typ detail;; mret (f now)) w = (inr (f (w_clock w (S (w_reads w)))), w') ∧
    inrun (jr_run_id r) w w' ∧ db_jobs (w_db w') = db_jobs (set_job id row (w_db w)).
Proof.
  intros Hwf Hr He Ht Hm. step_with Hm. step_now (put w id row).
  destruct (event_soft (tick (put w id row)) (jr_run_id r) id typ detail) as (w2 & Hev & Hs2 & Hi2 & Ej & _); [|done|].
  { apply (run_id_ne (w_db w)); [done|]. by apply job_at_Some in Hr as []. }
  step_with Hev. exists w2. split_and!; [done| |done].
  etrans; [|exact Hi2]. etrans; [by eapply inrun_job|]. apply inrun_same; [apply evo_tick|done..].
Qed.

Lemma complete_transition_ok w id r res :
  WF (w_db w) → job_at (w_db w) id = Some r → jr_state r = JobRunning → valid_result res = None →
  ∃ tr w', complete_transition (scanJob r) (jr_attempt r) res w = (inr tr, w') ∧
    inrun (jr_run_id r) w w' ∧
    db_jobs (w_db w') = db_jobs (set_job id (complete_row r res (now_of w)) (w_db w)).
Proof.
  intros Hwf Hr Hs Hv. pose proof (complete_row_edge (w_db w) r res (now_of w) Hs Hv) as He. revert He.
  destruct (job_at_Some _ _ _ Hr) as [_ Hid].
  unfold complete_transition, complete_row. simpl. case_bool_decide as H1; simpl.
  { intros He. unfold complete_succeeded. simpl. rewrite Hid. eexists.
    eapply edge_now_event_ok; [done|done|exact He|done|]. by apply FinishJob_ok. }
  rewrite (retryable_valid _ (valid_kinds _ Hv H1)). case_bool_decide as H2; simpl.
  { unfold complete_cancelled. simpl. case_bool_decide; intros He; rewrite Hid; eexists;
      (eapply edge_now_event_ok; [done|done|exact He|done|]; by apply FinishJob_ok). }
  destruct (_ && _); intros He.
  - unfold complete_requeue. simpl. rewrite Hid.
    edestruct (edge_event_ok (A := transitions)) as (w' & Hx & Hi & _ & Hj);
      [done|done|exact He| |by apply RequeueJob_ok|].
    { instantiate (1 := "job.requeued"). done. }
    eexists _, w'. split; [exact Hx|done].
  - unfold complete_failed. simpl. rewrite Hid. eexists.
    eapply edge_now_event_ok; [done|done|exact He|done|]. by apply FinishJob_ok.
Qed.

(** What [complete_tx] does, case by case. *)
Lemma complete_tx_running w id r res :
  Inv (w_db w) → job_at (w_db w) id = Some r → jr_state r = JobRunning → valid_result res = None →
  ∃ tr w1 w2 out, complete_tx id (jr_attempt r) res w = (inr (out, tr), w2) ∧
    w ⇝ w2 ∧ Inv (w_db w2) ∧ inrun (jr_run_id r) w w1 ∧
    db_jobs (w_db w1) = db_jobs (set_job id (complete_row r res (now_of w)) (w_db w)) ∧
    advanced w1 w2 (jr_run_id r) ∧
    ∃ row, job_at (w_db w2) id = Some row ∧ out = scanJob row.
Proof.
  intros Hinv Hr Hs Hv. pose proof (inv_wf _ Hinv) as Hwf. unfold complete_tx.
  step_with (GetJob_ok _ _ _ Hr). simpl. rewrite bool_decide_false by (intros []; congruence).
  destruct (complete_transition_ok w id r res Hwf Hr Hs Hv) as (tr1 & w1 & Ht & Hi & Hj). step_with Ht.
  destruct (wf_job_run _ Hwf r) as [run Hrun]; [by apply job_at_Some in Hr as []|].
  assert (WF (w_db w1)) as Hwf1 by (destruct Hi; eauto with quarry).
  destruct (advance_ok w1 (jr_run_id r) tr1 Hwf1) as (tr2 & w2 & Ha & Hadv).
  { unfold run_at. rewrite (ir_runs _ _ _ Hi). by exists run. }
  step_with Ha.
  destruct (inrun_advance w w1 w2 (jr_run_id r) run Hinv Hrun) as [He Hinv2]; try done.
  { eapply live_run; [done|exact Hr| |done]. by rewrite Hs. }
  destruct (PSteps_evolves _ _ _ _ (evo_steps _ _ He) Hr) as (row & Hrow & _).
  step_with (GetJob_ok _ _ _ Hrow). eexists _, _, _, _. split; [done|]. eauto 10.
Qed.

Lemma complete_tx_stale w id r attempt res :
  job_at (w_db w) id = Some r → jr_state r ≠ JobRunning ∨ jr_attempt r ≠ attempt →
  complete_tx id attempt res w =
  if bool_decide (jr_attempt r = attempt ∧ terminal (jr_state r))
  then (inr (scanJob r, no_transitions), w) else (inl ErrFenced, w).
Proof.
  intros Hr Hst. unfold complete_tx. step_with (GetJob_ok _ _ _ Hr). simpl.
  rewrite (bool_decide_true (_ ∨ _)) by done.
  destruct (decide (jr_attempt r = attempt)) as [Ha|Ha].
  2:{ rewrite !bool_decide_false; [done|by intros []|done]. }
  rewrite (bool_decide_true (jr_attempt r = attempt)) by done. simpl.
  destruct (decide (terminal (jr_state r))) as [Ht|Ht].
  - rewrite bool_decide_true by done. by rewrite Ht.
  - rewrite bool_decide_false by (by intros []). apply not_true_iff_false in Ht. by rewrite Ht.
Qed.

(** ** CancelRun *)

(** The row the cancel sweep leaves in place of [r]. *)
Definition cancel_outcome (r row : JobRow) : Prop :=
  (jr_state r = JobPending ∨ jr_state r = JobQueued → ∃ now, row = cancelled_row r "cancelled by user" now) ∧
  (jr_state r = JobRunning → jr_cancel_requested_at r = None → ∃ now, now ≠ 0 ∧ row = requested_row r CancelReasonUser now) ∧
  (jr_state r = JobRunning → jr_cancel_requested_at r ≠ None → row = r) ∧
  (terminal (jr_state r) → row = r).

(** One row replaced, every other kept. *)
Definition only_row (w w' : World) (id : string) (row : JobRow) : Prop :=
  ∀ k, job_at (w_db w') k = if decide (k = id) then Some row else job_at (w_db w) k.

Lemma only_row_set w w' id r row :
  job_at (w_db w) id = Some r → jr_id row = jr_id r →
  db_jobs (w_db w') = db_jobs (set_job id row (w_db w)) → only_row w w' id row.
Proof.
  intros Hr Hid Hj k. rewrite (job_at_jobs _ _ _ Hj), job_at_set_job; [by rewrite Hr|].
  destruct (job_at_Some _ _ _ Hr). congruence.
Qed.

Lemma only_row_refl w w' id r :
  job_at (w_db w) id = Some r → db_jobs (w_db w') = db_jobs (w_db w) → only_row w w' id r.
Proof. intros Hr Hj k. rewrite (job_at_jobs _ _ _ Hj). case_decide; congruence. Qed.

Lemma cancel_job_ok w id r tr :
  WF (w_db w) → clock_pos w → job_at (w_db w) id = Some r →
  ∃ tr' w' row, cancel_job (jr_run_id r) (scanJob r) tr w = (inr tr', w') ∧
    inrun (jr_run_id r) w w' ∧ only_row w w' id row ∧ cancel_outcome r row.
Proof.
  intros Hwf Hclk Hr. destruct (job_at_Some _ _ _ Hr) as [_ Hid].
  assert (inrun (jr_run_id r) w w) as Hrefl by done.
  assert (inrun (jr_run_id r) w (tick w)) as Htick by (apply inrun_same; [apply evo_tick|done..]).
  assert (Hnow : now_of w ≠ 0) by (specialize (Hclk (w_reads w)); unfold now_of; lia).
  pose proof (CancelJob_ok w id r Hwf Hr "cancelled by user") as HC.
  pose proof (RequestJobCancel_ok w id r Hwf Hr CancelReasonUser) as HQ.
  assert (HP : jr_state r = JobPending ∨ jr_state r = JobQueued →
    ∃ tr' w' row, (ok ← CancelJob id "cancelled by user";
      if (ok : bool) then
        event (jr_run_id r) id "job.cancelled"
          [("attempt", DInt (jr_attempt r)); ("failure_kind", DStr FailureCancelled)];;
        mret (tr_enter tr JobCancelled)
      else mret tr) w = (inr tr', w') ∧
    inrun (jr_run_id r) w w' ∧ only_row w w' id row ∧ cancel_outcome r row).
  { intros Hs. rewrite bool_decide_true in HC by done.
    destruct (edge_event_ok w id r (cancelled_row r "cancelled by user" (now_of w)) "job.cancelled"
      [("attempt", DInt (jr_attempt r)); ("failure_kind", DStr FailureCancelled)] _ (tr_enter tr JobCancelled) Hwf Hr
      (JE_cancel _ _ _ _ Hs) ltac:(done) HC) as (w' & Hx & Hi & _ & Hj).
    step_with HC. rewrite (mbind_step _ _ _ _ _ HC) in Hx.
    eexists _, w', (cancelled_row r "cancelled by user" (now_of w)). split_and!; [exact Hx|done|by apply (only_row_set w w' id r)|].
    unfold cancel_outcome. split_and!; [by eauto|intros E..]; destruct Hs as [Hs|Hs]; rewrite Hs in E; done. }
  unfold cancel_job. simpl. rewrite Hid. destruct (jr_state r) eqn:Hs; auto.
  - destruct (decide (jr_cancel_requested_at r = None)) as [Hn|Hn].
    + rewrite bool_decide_true in HQ by done.
      destruct (edge_event_ok w id r (requested_row r CancelReasonUser (now_of w)) "job.cancel_requested"
        [("attempt", DInt (jr_attempt r)); ("runner_id", DStr (str_of (jr_runner_id r))); ("reason", DStr CancelReasonUser)]
        _ tr Hwf Hr (JE_request _ _ _ _ Hs Hn Hnow) ltac:(done) HQ) as (w' & Hx & Hi & _ & Hj).
      step_with HQ. rewrite (mbind_step _ _ _ _ _ HQ) in Hx.
      eexists _, w', (requested_row r CancelReasonUser (now_of w)). split_and!; [exact Hx|done|by apply (only_row_set w w' id r)|].
      unfold cancel_outcome. rewrite Hs. split_and!; [naive_solver|eauto|done|done].
    + rewrite bool_decide_false in HQ by (by intros []). step_with HQ.
      exists tr, (tick w), r. split_and!; [done|done|by apply only_row_refl|].
      unfold cancel_outcome. rewrite Hs. naive_solver.
  - exists tr, w, r. split_and!; [done|done|by apply only_row_refl|]. unfold cancel_outcome. rewrite Hs. naive_solver.
  - exists tr, w, r. split_and!; [done|done|by apply only_row_refl|]. unfold cancel_outcome. rewrite Hs. naive_solver.
  - exists tr, w, r. split_and!; [done|done|by apply only_row_refl|]. unfold cancel_outcome. rewrite Hs. naive_solver.
  - exists tr, w, r. split_and!; [done|done|by apply only_row_refl|]. unfold cancel_outcome. rewrite Hs. naive_solver.
Qed.

(** The sweep over the run's jobs. *)
Lemma cancel_sweep_ok w k :
  WF (w_db w) → clock_pos w →
  ∃ tr w', mfor (scanJob <$> run_jobs (w_db w) k) no_transitions (cancel_job k) w = (inr tr, w') ∧
    inrun k w w' ∧
    ∀ r, r ∈ run_jobs (w_db w) k → ∃ row, job_at (w_db w') (jr_id r) = Some row ∧ cancel_outcome r row.
Proof.
  intros Hwf Hclk. set (l := run_jobs (w_db w) k).
  assert (Hnd : NoDup (jr_id <$> l)) by (apply sql_select_keys, Hwf).
  set (I := λ (js : list Job) (_ : transitions) (w1 : World), ∃ pre suf, l = pre ++ suf ∧ js = scanJob <$> suf ∧
    inrun k w w1 ∧
    (∀ r, r ∈ pre → ∃ row, job_at (w_db w1) (jr_id r) = Some row ∧ cancel_outcome r row) ∧
    (∀ r, r ∈ suf → job_at (w_db w1) (jr_id r) = Some r)).
  destruct (mfor_total I (cancel_job k) (scanJob <$> l) no_transitions w) as (tr & w' & Hm & HI).
  - intros x js acc w1 (pre & suf & Hl & Hjs & Hi & Hpre & Hsuf).
    destruct suf as [|r suf]; [done|]. rewrite fmap_cons in Hjs. injection Hjs as -> ->.
    assert (r ∈ l) as Hrl by (rewrite Hl; set_solver).
    destruct (proj1 (elem_of_run_jobs _ _ _) Hrl) as [_ Hrun].
    destruct (cancel_job_ok w1 (jr_id r) r acc) as (tr' & w2 & row & Hc & Hi2 & Honly & Hout).
    { destruct Hi; eauto with quarry. } { destruct Hi; eauto with quarry. } { apply Hsuf; by left. }
    rewrite Hrun in *. eexists _, _. split; [exact Hc|]. exists (pre ++ [r]), suf.
    rewrite Hl, fmap_app, fmap_cons in Hnd. apply NoDup_app in Hnd as (_ & Hdis & Hnd2).
    apply NoDup_cons in Hnd2 as [Hnr _].
    split_and!; [by rewrite <-app_assoc|done|by etrans| |].
    + intros y [Hy|Hy%list_elem_of_singleton]%elem_of_app.
      * destruct (Hpre y Hy) as (row' & Hrow' & Ho). exists row'. split; [|done].
        rewrite (Honly _), decide_False; [done|]. intros E.
        destruct (Hdis (jr_id y)); [by apply list_elem_of_fmap_2|]. rewrite E. by left.
      * subst y. exists row. by rewrite (Honly _), decide_True.
    + intros y Hy. rewrite (Honly _), decide_False; [apply Hsuf; by right|].
      intros E. destruct Hnr. rewrite <-E. by apply list_elem_of_fmap_2.
  - exists [], l. split_and!; try done; [by intros r Hr%elem_of_nil|].
    intros r Hr. apply elem_of_run_jobs in Hr as [Hr _]. by apply job_at_iff.
  - destruct HI as (pre & suf & Hl & Hjs & Hi & Hpre & _).
    destruct suf; [|done]. rewrite app_nil_r in Hl. subst pre. eauto.
Qed.

Definition cancel_requested (d : DB) (k : string) : Prop :=
  ∃ e, e ∈ db_events d ∧ er_run_id e = k ∧ 0 < er_id e ∧ er_type e = "run.cancel_requested".

Lemma ListEvents_requested w k :
  ∃ evs, ListEvents k 0 0 w = (inr evs, w) ∧
    (List.existsb (λ e, bool_decide (e_Type e = "run.cancel_requested")) evs = true ↔ cancel_requested (w_db w) k).
Proof.
  eexists. split; [done|]. unfold limit_rows. rewrite bool_decide_true by done.
  rewrite existsb_exists. unfold cancel_requested. split.
  - intros (e & He & Ht%bool_decide_eq_true). apply list_elem_of_In, list_elem_of_fmap in He as (x & -> & Hx).
    apply elem_of_order_by, elem_of_sql_select in Hx as [Hx [H1 H2]%andb_true_iff].
    apply bool_decide_eq_true in H1, H2. by exists x.
  - intros (x & Hx & H1 & H2 & H3). exists (scanEvent x). split; [|by apply bool_decide_eq_true].
    apply list_elem_of_In, list_elem_of_fmap. exists x. split; [done|].
    apply elem_of_order_by, elem_of_sql_select. split; [done|]. by rewrite !bool_decide_true.
Qed.

Lemma cancel_outcome_state r row : cancel_outcome r row → jr_state row ≠ JobPending ∧ jr_state row ≠ JobQueued.
Proof.
  intros (H1 & H2 & H3 & H4). destruct (jr_state r) eqn:Hs.
  - destruct H1 as (now & ->); [by left|done].
  - destruct H1 as (now & ->); [by right|done].
  - destruct (decide (jr_cancel_requested_at r = None)) as [Hn|Hn].
    + destruct H2 as (now & _ & ->); [done|done|]. simpl. by rewrite Hs.
    + rewrite H3 by done. by rewrite Hs.
  - rewrite H4 by done. by rewrite Hs.
  - rewrite H4 by done. by rewrite Hs.
  - rewrite H4 by done. by rewrite Hs.
  - rewrite H4 by done. by rewrite Hs.
Qed.

Lemma cancel_tx_ok w k run :
  Inv (w_db w) → clock_pos w → run_at (w_db w) k = Some run →
  ¬ run_terminal (rr_state run) → ¬ cancel_requested (w_db w) k →
  ∃ out tr w', cancel_tx k w = (inr (out, tr), w') ∧ w ⇝ w' ∧ Inv (w_db w') ∧
    (∀ r, r ∈ run_jobs (w_db w) k → ∃ row, job_at (w_db w') (jr_id r) = Some row ∧ cancel_outcome r row) ∧
    ∃ run', run_at (w_db w') k = Some run' ∧ out = scanRun run'.
Proof.
  intros Hinv Hclk Hrun Hnt Hnr. pose proof (inv_wf _ Hinv) as Hwf.
  assert (k ≠ "") as Hne by (destruct (run_at_Some _ _ _ Hrun) as [? <-]; by eapply wf_run_ne).
  unfold cancel_tx. step_with (GetRun_ok _ _ _ Hrun). simpl r_State. rewrite bool_decide_false by done.
  destruct (ListEvents_requested w k) as (evs & He & Hiff). step_with He.
  destruct (List.existsb _ evs); [by destruct Hnr; apply Hiff|].
  step_with (eq_refl : ListJobs k w = (inr (scanJob <$> run_jobs (w_db w) k), w)).
  destruct (cancel_sweep_ok w k Hwf Hclk) as (tr1 & w1 & Hm & Hi1 & Hout). step_with Hm.
  destruct (event_soft w1 k "" "run.cancel_requested" [] Hne) as (w2 & Hev & _ & Hi2 & Ej & _); [done|].
  step_with Hev.
  assert (inrun k w w2) as Hi by (by etrans).
  assert (WF (w_db w2)) as Hwf2 by (destruct Hi; eauto with quarry).
  destruct (advance_ok w2 k tr1 Hwf2) as (tr2 & w3 & Ha & Hadv).
  { unfold run_at. rewrite (ir_runs _ _ _ Hi). by exists run. }
  step_with Ha. destruct (inrun_advance w w2 w3 k run Hinv Hrun Hnt Hi Hadv) as [Hev3 Hinv3].
  destruct (ad_run _ _ _ Hadv run) as (run' & Hrun' & _).
  { unfold run_at. by rewrite (ir_runs _ _ _ Hi). }
  step_with (GetRun_ok _ _ _ Hrun'). eexists _, _, w3. split_and!; [done|done|done| |by eauto].
  intros r Hr. destruct (Hout r Hr) as (row & Hrow & Ho). rewrite <-(job_at_jobs _ _ _ Ej) in Hrow.
  destruct (advanced_row _ _ _ _ _ Hadv Hrow) as (row' & Hrow' & Hmv). exists row'. split; [done|].
  by rewrite (moved_nonpending _ _ _ _ _ Hrow Hmv) by (by apply cancel_outcome_state in Ho as []).
Qed.

(** ** Tick *)

(** The row an expired lease leaves in place of the running row [r]. *)
Definition can_retry (r : JobRow) : bool :=
  bool_decide (jr_attempt r < jr_max_attempts r) && bool_decide (int_of (jr_cancel_requested_at r) = 0).
Definition expired_row (r : JobRow) (now : Z) : JobRow :=
  if can_retry r then requeued_row r (expiry_msg (scanJob r)) now
  else finished_row r JobFailed FailureLostRunner None (expiry_msg (scanJob r)) now.

(** The rows of other jobs that are past pending are kept. *)
Definition keeps_others (w w' : World) (id : string) : Prop :=
  ∀ k x, job_at (w_db w) k = Some x → k ≠ id → jr_state x ≠ JobPending → job_at (w_db w') k = Some x.

Lemma expire_job_ok w id r now acc :
  Inv (w_db w) → job_at (w_db w) id = Some r → jr_state r = JobRunning →
  ∃ acc' w', expire_job now (scanJob r) acc w = (inr acc', w') ∧ w ⇝ w' ∧ Inv (w_db w') ∧
    job_at (w_db w') id = Some (expired_row r (now_of w)) ∧ keeps_others w w' id.
Proof.
  intros Hinv Hr Hs. pose proof (inv_wf _ Hinv) as Hwf. destruct acc as [[rep tr] n].
  destruct (job_at_Some _ _ _ Hr) as [Hin Hid]. unfold expire_job, expired_row, can_retry. simpl. rewrite Hid.
  set (detail := [_; _; _; _]). destruct (_ && _) eqn:Hc.
  - rewrite andb_true_iff, !bool_decide_eq_true in Hc. destruct Hc as [Ha Hcr].
    edestruct (edge_event_ok (A := TickReport * transitions * Z) w id r (requeued_row r (expiry_msg (scanJob r)) (now_of w)))
      as (w' & Hx & _ & Hsoft & Hj);
      [done|done|by apply JE_requeue| |by apply RequeueJob_ok|].
    { instantiate (1 := "job.requeued"). done. }
    eexists _, w'. split; [exact Hx|]. destruct (soft_good _ _ (Hsoft ltac:(simpl; by rewrite Hs)) Hinv).
    assert (only_row w w' id (requeued_row r (expiry_msg (scanJob r)) (now_of w))) as Ho by (by apply (only_row_set w w' id r)).
    split_and!; [done|done|by rewrite (Ho _), decide_True|]. intros k x Hk Hne _. by rewrite (Ho _), decide_False.
  - set (row := finished_row r JobFailed FailureLostRunner None (expiry_msg (scanJob r)) (now_of w)).
    assert (JobEdge (w_db w) r row) as He by (apply finish_edge; [done|]; apply failed_kind; set_solver).
    assert (FinishJob id (jr_attempt r) JobFailed FailureLostRunner None (expiry_msg (scanJob r)) w = (inr true, put w id row))
      as Hf by (by apply FinishJob_ok).
    destruct (edge_event_ok w id r row "job.failed" detail _ tt Hwf Hr He ltac:(done) Hf) as (w1 & Hx & Hi & _ & Hj).
    assert (inrun (jr_run_id r) w w1) as Hi1 by done.
    assert (WF (w_db w1)) as Hwf1 by (destruct Hi1; eauto with quarry).
    destruct (wf_job_run _ Hwf r Hin) as [run Hrun].
    destruct (advance_ok w1 (jr_run_id r) (tr_finished tr JobFailed (int_of (jr_started_at r)) now) Hwf1)
      as (tr2 & w2 & Hadv & HA).
    { unfold run_at. rewrite (ir_runs _ _ _ Hi1). by exists run. }
    destruct (inrun_advance w w1 w2 (jr_run_id r) run Hinv Hrun) as [Hev Hinv2]; try done.
    { eapply live_run; [done|exact Hr| |done]. by rewrite Hs. }
    assert (only_row w w1 id row) as Ho by (by apply (only_row_set w w1 id r)).
    assert (Hkeep : ∀ k x, job_at (w_db w1) k = Some x → jr_state x ≠ JobPending → job_at (w_db w2) k = Some x).
    { intros k x Hk Hp. destruct (advanced_row _ _ _ _ _ HA Hk) as (x' & Hx' & Hm).
      by rewrite <-(moved_nonpending _ _ _ _ _ Hk Hm). }
    eexists _, w2. split.
    { step_with Hf. rewrite (mbind_step _ _ _ _ _ Hf) in Hx. apply mbind_ok in Hx as ([] & w3 & He3 & Hx).
      step_with He3. injection Hx as ->. step_with Hadv. done. }
    split_and!; [done|done| |].
    + apply Hkeep; [by rewrite (Ho _), decide_True|done].
    + intros k x Hk Hne Hp. apply Hkeep; [by rewrite (Ho _), decide_False|done].
Qed.

(** The sweep over expired leases. *)
Lemma expire_sweep_ok w l now acc :
  Inv (w_db w) → NoDup (jr_id <$> l) →
  (∀ r, r ∈ l → job_at (w_db w) (jr_id r) = Some r ∧ jr_state r = JobRunning) →
  ∃ acc' w', mfor (scanJob <$> l) acc (expire_job now) w = (inr acc', w') ∧ w ⇝ w' ∧ Inv (w_db w') ∧
    (∀ r, r ∈ l → ∃ n, job_at (w_db w') (jr_id r) = Some (expired_row r (w_clock w n))) ∧
    (∀ k x, job_at (w_db w) k = Some x → k ∉ jr_id <$> l → jr_state x ≠ JobPending → job_at (w_db w') k = Some x).
Proof.
  revert w acc. induction l as [|r l IH]; intros w acc Hinv Hnd Hl.
  { exists acc, w. split_and!; try done. by intros r Hr%elem_of_nil. }
  rewrite fmap_cons in Hnd. apply NoDup_cons in Hnd as [Hnr Hnd].
  destruct (Hl r) as [Hr Hs]; [by left|].
  destruct (expire_job_ok w (jr_id r) r now acc Hinv Hr Hs) as (acc1 & w1 & He & Hev & Hinv1 & Hrow & Hk).
  destruct (IH w1 acc1 Hinv1 Hnd) as (acc2 & w2 & Hm & Hev2 & Hinv2 & Hexp & Hkeep).
  { intros x Hx. destruct (Hl x) as [Hx1 Hx2]; [by right|]. split; [|done]. apply Hk; [done| |by rewrite Hx2].
    intros E. destruct Hnr. rewrite <-E. by apply list_elem_of_fmap_2. }
  exists acc2, w2. rewrite fmap_cons. simpl. split_and!; [by step_with He|by etrans|done| |].
  - intros x [->|Hx]%elem_of_cons.
    + exists (w_reads w). apply Hkeep; [done|done|]. unfold expired_row. by destruct (can_retry r).
    + rewrite <-(evo_clock _ _ Hev). auto.
  - intros k x Hx Hnin Hp. rewrite not_elem_of_cons in Hnin. destruct Hnin. apply Hkeep; auto.
Qed.

(** Past its timeout and the grace. *)
Definition overdue (s : Scheduler) (now : Z) (r : JobRow) : bool :=
  match jr_spec_json r with
  | Some spec =>
      negb (bool_decide (pj_Timeout spec <= 0) || bool_decide (int_of (jr_started_at r) = 0) ||
            bool_decide (int_of (jr_started_at r) + Milliseconds (pj_Timeout spec) + s_graceMS s >= now))
  | None => false
  end.
Definition backstop_row (s : Scheduler) (now : Z) (r : JobRow) (at_ : Z) : JobRow :=
  if overdue s now r then requested_row r CancelReasonTimeout at_ else r.

Lemma backstop_job_ok s now w id r rep :
  WF (w_db w) → clock_pos w → job_at (w_db w) id = Some r → jr_state r = JobRunning → jr_cancel_requested_at r = None →
  ∃ rep' w', backstop_job s now (scanJob r) rep w = (inr rep', w') ∧ soft w w' ∧
    only_row w w' id (backstop_row s now r (now_of w)).
Proof.
  intros Hwf Hclk Hr Hs Hn. destruct (job_at_Some _ _ _ Hr) as [Hin Hid].
  destruct (wf_specs _ Hwf _ Hin) as [spec Hspec].
  unfold backstop_job, backstop_row, overdue, jobSpec. simpl. rewrite Hspec.
  rewrite (mbind_step _ _ _ spec w) by done. rewrite Hid.
  destruct (_ || _); simpl.
  - exists rep, w. split_and!; [done|done|by apply only_row_refl].
  - assert (Hnow : now_of w ≠ 0) by (specialize (Hclk (w_reads w)); unfold now_of; lia).
    pose proof (RequestJobCancel_ok w id r Hwf Hr CancelReasonTimeout) as HQ. rewrite bool_decide_true in HQ by done.
    edestruct (edge_event_ok (A := TickReport) w id r (requested_row r CancelReasonTimeout (now_of w)) "job.cancel_requested") as
      (w' & Hx & _ & Hsoft & Hj); [done|done|by apply JE_request|done|exact HQ|].
    step_with HQ. rewrite (mbind_step _ _ _ _ _ HQ) in Hx. eexists _, w'. split; [exact Hx|].
    split; [by apply Hsoft|by apply (only_row_set w w' id r)].
Qed.

Lemma backstop_sweep_ok s now w l rep :
  Inv (w_db w) → clock_pos w → NoDup (jr_id <$> l) →
  (∀ r, r ∈ l → job_at (w_db w) (jr_id r) = Some r ∧ jr_state r = JobRunning ∧ jr_cancel_requested_at r = None) →
  ∃ rep' w', mfor (scanJob <$> l) rep (backstop_job s now) w = (inr rep', w') ∧ w ⇝ w' ∧ Inv (w_db w') ∧
    (∀ r, r ∈ l → ∃ n, job_at (w_db w') (jr_id r) = Some (backstop_row s now r (w_clock w n))) ∧
    (∀ k, k ∉ jr_id <$> l → job_at (w_db w') k = job_at (w_db w) k).
Proof.
  revert w rep. induction l as [|r l IH]; intros w rep Hinv Hclk Hnd Hl.
  { exists rep, w. split_and!; try done. by intros r Hr%elem_of_nil. }
  rewrite fmap_cons in Hnd. apply NoDup_cons in Hnd as [Hnr Hnd].
  destruct (Hl r) as (Hr & Hs & Hn); [by left|].
  destruct (backstop_job_ok s now w (jr_id r) r rep (inv_wf _ Hinv) Hclk Hr Hs Hn) as (rep1 & w1 & He & Hsoft & Ho).
  destruct (soft_good _ _ Hsoft Hinv) as [Hev Hinv1].
  destruct (IH w1 rep1 Hinv1) as (rep2 & w2 & Hm & Hev2 & Hinv2 & Hexp & Hkeep); [by eauto with quarry|done| |].
  { intros x Hx. destruct (Hl x) as (Hx1 & Hx2); [by right|]. split; [|done].
    rewrite (Ho _), decide_False; [done|]. intros E. destruct Hnr. rewrite <-E. by apply list_elem_of_fmap_2. }
  exists rep2, w2. rewrite fmap_cons. simpl. split_and!; [by step_with He|by etrans|done| |].
  - intros x [->|Hx]%elem_of_cons.
    + exists (w_reads w). by rewrite Hkeep, (Ho _), decide_True.
    + rewrite <-(evo_clock _ _ Hev). auto.
  - intros k Hnin. rewrite not_elem_of_cons in Hnin. destruct Hnin. by rewrite Hkeep, (Ho _), decide_False.
Qed.

Lemma MarkRunnersOffline_soft before w :
  ∃ ids w', MarkRunnersOffline before w = (inr ids, w') ∧ soft w w' ∧ db_jobs (w_db w') = db_jobs (w_db w).
Proof.
  unfold MarkRunnersOffline. step_with (eq_refl : get_db w = (inr (w_db w), w)).
  set (ids := nr_id <$> _).
  destruct (mfor_total (λ _ _ w1, soft w w1 ∧ db_jobs (w_db w1) = db_jobs (w_db w)) mark_offline ids tt w)
    as ([] & w' & Hm & HI); [|done|].
  - intros x l [] w1 [Hs Hj]. eexists _, _. split; [done|]. split; [|done].
    etrans; [exact Hs|]. apply soft_runners.
  - step_with Hm. by exists ids, w'.
Qed.

(** What one monitor pass leaves in place of the running row [r]. *)
Definition tick_expired (s : Scheduler) (now : Z) (r : JobRow) : bool :=
  bool_decide (s_leaseGraceUntil s ≤ now) &&
  match jr_lease_expires_at r with Some l => bool_decide (l < now) | None => false end.

Definition ticked (s : Scheduler) (now : Z) (clock : nat → Z) (r row : JobRow) : Prop :=
  ∃ n, row =
    if tick_expired s now r then expired_row r (clock n)
    else if bool_decide (jr_cancel_requested_at r = None) then backstop_row s now r (clock n) else r.

Lemma tick_tx_ok s w :
  Inv (w_db w) → clock_pos w →
  ∃ rep tr n w', tick_tx s w = (inr (rep, tr, n), w') ∧ w ⇝ w' ∧ Inv (w_db w') ∧
    ∀ r, r ∈ db_jobs (w_db w) → jr_state r = JobRunning →
      ∃ row, job_at (w_db w') (jr_id r) = Some row ∧ ticked s (now_of w) (w_clock w) r row.
Proof.
  intros Hinv Hclk. unfold tick_tx. step_now w. set (now := now_of w).
  set (l := if bool_decide (now >= s_leaseGraceUntil s) then
      order_by lease_leb (sql_select (λ r, is_state JobRunning r &&
        match jr_lease_expires_at r with Some l => bool_decide (l < now) | None => false end) (db_jobs (w_db w)))
      else []).
  assert (HL : (if bool_decide (now >= s_leaseGraceUntil s) then ListExpiredLeases now else mret []) (tick w) =
               (inr (scanJob <$> l), tick w)) by (subst l; by case_bool_decide).
  step_with HL.
  assert (Hl : ∀ r, r ∈ l ↔ r ∈ db_jobs (w_db w) ∧ jr_state r = JobRunning ∧ tick_expired s now r = true).
  { intros r. subst l. unfold tick_expired. case_bool_decide as Hg.
    - rewrite elem_of_order_by, elem_of_sql_select, andb_true_iff. unfold is_state.
      rewrite bool_decide_eq_true, (bool_decide_true (_ ≤ now)) by lia. tauto.
    - rewrite (bool_decide_false (_ ≤ now)) by lia. split; [by intros ?%elem_of_nil|by intros (_ & _ & [=])]. }
  pose proof (inv_wf _ Hinv) as Hwf.
  assert (Hnd : NoDup (jr_id <$> l)).
  { subst l. case_bool_decide; [|constructor]. rewrite order_by_perm. apply sql_select_keys, Hwf. }
  destruct (expire_sweep_ok (tick w) l now (no_report, no_transitions, 0)) as
    ([[rep tr] n] & w1 & Hm & Hev1 & Hinv1 & Hexp & Hkeep1); [done|done| |].
  { intros r (H1 & H2 & _)%Hl. split; [by apply job_at_iff|done]. }
  step_with Hm. simpl.
  set (l2 := order_by started_leb (sql_select (λ r, is_state JobRunning r &&
               bool_decide (jr_cancel_requested_at r = None)) (db_jobs (w_db w1)))).
  step_with (eq_refl : ListRunningJobs w1 = (inr (scanJob <$> l2), w1)).
  assert (Hl2 : ∀ r, r ∈ l2 ↔ r ∈ db_jobs (w_db w1) ∧ jr_state r = JobRunning ∧ jr_cancel_requested_at r = None).
  { intros r. subst l2. rewrite elem_of_order_by, elem_of_sql_select, andb_true_iff. unfold is_state.
    by rewrite !bool_decide_eq_true. }
  assert (Hnd2 : NoDup (jr_id <$> l2)).
  { subst l2. rewrite order_by_perm. apply sql_select_keys, (inv_wf _ Hinv1). }
  destruct (backstop_sweep_ok s now w1 l2 rep) as (rep2 & w2 & Hm2 & Hev2 & Hinv2 & Hbs & Hkeep2);
    [done|by eapply (evo_clock_pos (tick w))|done| |].
  { intros r (H1 & H2)%Hl2. split; [|done]. by apply job_at_iff; [apply Hinv1|]. }
  step_with Hm2.
  destruct (MarkRunnersOffline_soft (now - s_offlineMS s) w2) as (ids & w3 & Hmo & Hs3 & Ej3). step_with Hmo.
  destruct (soft_good _ _ Hs3 Hinv2) as [Hev3 Hinv3].
  eexists _, _, _, w3. split; [done|]. split; [|split; [done|]].
  { etrans; [apply evo_tick|]. etrans; [exact Hev1|]. by etrans. }
  intros r Hr Hs. rewrite (job_at_jobs _ _ _ Ej3).
  assert (job_at (w_db w) (jr_id r) = Some r) as Hat by (by apply job_at_iff).
  destruct (tick_expired s now r) eqn:Ht.
  - destruct (Hexp r) as [n1 Hrow]; [by apply Hl|]. exists (expired_row r (w_clock w n1)). split.
    + rewrite Hkeep2; [done|]. intros (x & E & Hx%Hl2)%list_elem_of_fmap. destruct Hx as (Hx & Hxs & _).
      assert (job_at (w_db w1) (jr_id x) = Some x) as Hx' by (apply job_at_iff; [apply Hinv1|done]).
      rewrite <-E, Hrow in Hx'. injection Hx' as <-. unfold expired_row in Hxs. by destruct (can_retry r).
    + exists n1. by rewrite Ht.
  - assert (job_at (w_db w1) (jr_id r) = Some r) as Hat1.
    { apply Hkeep1; [done| |by rewrite Hs]. intros (x & E & Hx%Hl)%list_elem_of_fmap.
      destruct Hx as (Hx & _ & Hxt). assert (job_at (w_db w) (jr_id x) = Some x) as Hx' by (by apply job_at_iff).
      rewrite <-E, Hat in Hx'. injection Hx' as ->. congruence. }
    assert (r ∈ db_jobs (w_db w1)) as Hr1 by (by apply job_at_Some in Hat1 as []).
    destruct (decide (jr_cancel_requested_at r = None)) as [Hn|Hn].
    + destruct (Hbs r) as [n1 Hrow]; [by apply Hl2|]. eexists. split; [exact Hrow|]. exists n1.
      by rewrite Ht, bool_decide_true, (evo_clock _ _ Hev1) by done.
    + exists r. split; [|exists 0%nat; by rewrite Ht, bool_decide_false].
      rewrite Hkeep2; [done|]. intros (x & E & Hx%Hl2)%list_elem_of_fmap. destruct Hx as (Hx & _ & Hxn).
      assert (job_at (w_db w1) (jr_id x) = Some x) as Hx' by (apply job_at_iff; [apply Hinv1|done]).
      rewrite <-E, Hat1 in Hx'. congruence.
Qed.
