(* ===== verification/Logs.v ===== *)
(** * Log ingestion: what [AppendLogs] stores

    The chunk loop refines a pure function of the chunks, the bytes already stored
    and the sequence numbers already taken; the cap, the redelivery and the prefix
    properties are proved about that function. *)

From S2P Require Import Prelude GoLib Pipeline Types Store Scheduler Protocol Advance Consistency Refinement.
From stdpp Require Import relations.

Local Open Scope Z_scope.

Definition attempt_rows (d : DB) (id : string) (a : Z) : list LogRow := sql_select (is_chunk id a) (db_log_chunks d).
Definition log_total (d : DB) (id : string) (a : Z) : Z := sum_len (attempt_rows d id a).
Definition log_seqs (d : DB) (id : string) (a : Z) : list Z := lr_seq <$> attempt_rows d id a.

(** The rows a batch adds, from [t] bytes stored and the sequence numbers [seen]. *)
Fixpoint append_rows (cap : Z) (id : string) (a : Z) (t : Z) (seen : list Z) (chunks : list LogChunk) : list LogRow :=
  match chunks with
  | [] => []
  | c :: cs =>
      if bool_decide (c_Seq c ∈ seen) then append_rows cap id a t seen cs
      else
        let data := fit (cap - t) (c_Data c) in
        mkLogRow id a (c_Seq c) data ::
          append_rows cap id a (t + Z.of_nat (length data)) (seen ++ [c_Seq c]) cs
  end.

(** Whether some chunk of the batch lost bytes to the cap. *)
Fixpoint append_lost (cap t : Z) (seen : list Z) (chunks : list LogChunk) : bool :=
  match chunks with
  | [] => false
  | c :: cs =>
      if bool_decide (c_Seq c ∈ seen) then append_lost cap t seen cs
      else
        let data := fit (cap - t) (c_Data c) in
        bool_decide (length data < length (c_Data c))%nat ||
          append_lost cap (t + Z.of_nat (length data)) (seen ++ [c_Seq c]) cs
  end.

Lemma sum_len_app l1 l2 : sum_len (l1 ++ l2) = sum_len l1 + sum_len l2.
Proof. induction l1 as [|x l1 IH]; simpl; [done|]. rewrite IH. lia. Qed.
Lemma sum_len_nonneg l : 0 ≤ sum_len l.
Proof. induction l; simpl; lia. Qed.

Lemma attempt_rows_app d id a rows :
  (∀ r, r ∈ rows → lr_job_id r = id ∧ lr_attempt r = a) →
  attempt_rows (d <| db_log_chunks := db_log_chunks d ++ rows |>) id a = attempt_rows d id a ++ rows.
Proof.
  intros H. unfold attempt_rows, sql_select. simpl. rewrite List.filter_app. f_equal.
  induction rows as [|r rows IH]; [done|]. simpl. destruct (H r) as [H1 H2]; [by left|].
  unfold is_chunk at 1. rewrite !bool_decide_true by done. simpl. f_equal. apply IH.
  intros x Hx. apply H. by right.
Qed.

Lemma append_rows_owner cap id a t seen cs r :
  r ∈ append_rows cap id a t seen cs → lr_job_id r = id ∧ lr_attempt r = a.
Proof.
  revert t seen. induction cs as [|c cs IH]; intros t seen; simpl; [by intros ?%elem_of_nil|].
  case_bool_decide; [apply IH|]. intros [->|Hr]%elem_of_cons; [done|]. by eapply IH.
Qed.

(** The loop's database after the rows, with the accumulator it returns. *)
Definition add_rows (w : World) (rows : list LogRow) : World :=
  upd ((w_db w) <| db_log_chunks := db_log_chunks (w_db w) ++ rows |>) w.

Lemma add_rows_nil w : add_rows w [] = w.
Proof. unfold add_rows, upd. rewrite app_nil_r. by destruct w as [[]]. Qed.
Lemma add_rows_app w r1 r2 : add_rows (add_rows w r1) r2 = add_rows w (r1 ++ r2).
Proof. unfold add_rows, upd. simpl. by rewrite <-app_assoc. Qed.

Lemma attempt_rows_add w id a rows :
  (∀ r, r ∈ rows → lr_job_id r = id ∧ lr_attempt r = a) →
  attempt_rows (w_db (add_rows w rows)) id a = attempt_rows (w_db w) id a ++ rows.
Proof. apply attempt_rows_app. Qed.

Lemma log_seqs_add1 w id a q data :
  log_seqs (w_db (add_rows w [mkLogRow id a q data])) id a = log_seqs (w_db w) id a ++ [q].
Proof.
  unfold log_seqs. rewrite attempt_rows_add by (by intros x ->%list_elem_of_singleton). by rewrite fmap_app.
Qed.

Lemma existsb_seq d id a q :
  List.existsb (λ r, is_chunk id a r && bool_decide (lr_seq r = q)) (db_log_chunks d) = bool_decide (q ∈ log_seqs d id a).
Proof.
  apply eq_true_iff_eq. rewrite existsb_exists, bool_decide_eq_true. unfold log_seqs, attempt_rows.
  rewrite list_elem_of_fmap. split.
  - intros (r & Hr & [H1 H2%bool_decide_eq_true]%andb_true_iff). exists r. split; [done|].
    apply elem_of_sql_select. by rewrite list_elem_of_In.
  - intros (r & -> & [Hr H1]%elem_of_sql_select). exists r. rewrite list_elem_of_In in Hr. split; [done|].
    by rewrite H1, bool_decide_true.
Qed.

Lemma append_chunk_ok s id a c acc w r :
  job_at (w_db w) id = Some r →
  let data := fit (s_logCap s - la_total acc) (c_Data c) in
  append_chunk s id a c acc w =
  if bool_decide (c_Seq c ∈ log_seqs (w_db w) id a) then (inr acc, w)
  else (inr (mkLogAcc (la_total acc + Z.of_nat (length data)) (la_stored acc + Z.of_nat (length data))
               (la_lost acc || bool_decide (length data < length (c_Data c))%nat)),
        add_rows w [mkLogRow id a (c_Seq c) data]).
Proof.
  intros Hr. unfold append_chunk, InsertLogChunk, mbind, M_bind, get_db.
  rewrite existsb_seq. case_bool_decide; [done|]. unfold job_at in Hr. by rewrite Hr.
Qed.

Lemma append_loop_ok s id a w acc chunks r :
  job_at (w_db w) id = Some r → la_total acc = log_total (w_db w) id a →
  let rows := append_rows (s_logCap s) id a (la_total acc) (log_seqs (w_db w) id a) chunks in
  mfor chunks acc (append_chunk s id a) w =
  (inr (mkLogAcc (la_total acc + sum_len rows) (la_stored acc + sum_len rows)
          (la_lost acc || append_lost (s_logCap s) (la_total acc) (log_seqs (w_db w) id a) chunks)),
   add_rows w rows).
Proof.
  revert w acc. induction chunks as [|c cs IH]; intros w acc Hr Ht; simpl.
  { rewrite add_rows_nil, orb_false_r, !Z.add_0_r. by destruct acc. }
  pose proof (append_chunk_ok s id a c acc w r Hr) as E. simpl in E.
  destruct (bool_decide (c_Seq c ∈ log_seqs (w_db w) id a)); rewrite (mbind_step _ _ _ _ _ E).
  - by apply IH.
  - set (data := fit _ _). set (row := mkLogRow id a (c_Seq c) data). set (acc' := mkLogAcc _ _ _).
    rewrite (IH (add_rows w [row]) acc').
    + subst row. rewrite log_seqs_add1, add_rows_app. simpl. fold data. by rewrite !Z.add_assoc, orb_assoc.
    + done.
    + unfold log_total. rewrite attempt_rows_add by (by intros x ->%list_elem_of_singleton).
      rewrite sum_len_app. simpl. rewrite Ht. unfold log_total. fold data. lia.
Qed.

(** ** Properties of the pure function *)

Lemma length_fit room data : Z.of_nat (length (fit room data)) = Z.min (Z.of_nat (length data)) (Z.max 0 room).
Proof. unfold fit. case_bool_decide; [rewrite length_take|]; lia. Qed.

Lemma fit_take room data : fit room data = take (Z.to_nat room) data.
Proof.
  unfold fit. case_bool_decide.
  - f_equal. lia.
  - symmetry. apply take_ge. lia.
Qed.

Lemma append_rows_cap cap id a t seen cs : sum_len (append_rows cap id a t seen cs) ≤ Z.max 0 (cap - t).
Proof.
  revert t seen. induction cs as [|c cs IH]; intros t seen; simpl; [lia|].
  case_bool_decide; [apply IH|]. simpl. pose proof (length_fit (cap - t) (c_Data c)).
  specialize (IH (t + Z.of_nat (length (fit (cap - t) (c_Data c)))) (seen ++ [c_Seq c])). lia.
Qed.

(** The chunks of a batch that are new to the attempt: the first of each sequence
    number that is not stored yet. *)
Fixpoint new_chunks (seen : list Z) (chunks : list LogChunk) : list LogChunk :=
  match chunks with
  | [] => []
  | c :: cs => if bool_decide (c_Seq c ∈ seen) then new_chunks seen cs else c :: new_chunks (seen ++ [c_Seq c]) cs
  end.

Lemma new_chunks_seen seen cs : (∀ c, c ∈ cs → c_Seq c ∈ seen) → new_chunks seen cs = [].
Proof.
  induction cs as [|c cs IH]; intros H; simpl; [done|].
  rewrite bool_decide_true by (apply H; by left). apply IH. intros x Hx. apply H. by right.
Qed.

Lemma new_chunks_all seen cs : NoDup (c_Seq <$> cs) → (∀ c, c ∈ cs → c_Seq c ∉ seen) → new_chunks seen cs = cs.
Proof.
  revert seen. induction cs as [|c cs IH]; intros seen Hnd Hs; simpl; [done|].
  rewrite fmap_cons in Hnd. apply NoDup_cons in Hnd as [Hc Hnd].
  rewrite bool_decide_false by (apply Hs; by left). rewrite IH; [done|done|].
  intros x Hx. rewrite not_elem_of_app, list_elem_of_singleton. split; [apply Hs; by right|].
  intros E. destruct Hc. rewrite <-E. by apply list_elem_of_fmap_2.
Qed.

Lemma new_chunks_app seen c1 c2 :
  new_chunks seen (c1 ++ c2) = new_chunks seen c1 ++ new_chunks (seen ++ (c_Seq <$> new_chunks seen c1)) c2.
Proof.
  revert seen. induction c1 as [|c c1 IH]; intros seen; simpl; [by rewrite app_nil_r|].
  case_bool_decide; [apply IH|]. rewrite fmap_cons. simpl. by rewrite IH, <-app_assoc.
Qed.

Lemma append_rows_new cap id a t seen cs : lr_seq <$> append_rows cap id a t seen cs = c_Seq <$> new_chunks seen cs.
Proof.
  revert t seen. induction cs as [|c cs IH]; intros t seen; simpl; [done|].
  case_bool_decide; [apply IH|]. rewrite !fmap_cons. simpl. by rewrite IH.
Qed.

(** A batch stores the prefix of its new bytes that fits. *)
Lemma append_rows_prefix cap id a t seen cs :
  mjoin (lr_data <$> append_rows cap id a t seen cs) =
    take (Z.to_nat (cap - t)) (mjoin (c_Data <$> new_chunks seen cs)).
Proof.
  revert t seen. induction cs as [|c cs IH]; intros t seen; simpl; [by rewrite take_nil|].
  case_bool_decide; [apply IH|]. rewrite !fmap_cons. simpl. rewrite IH.
  pose proof (length_fit (cap - t) (c_Data c)) as Hl. rewrite fit_take in *. rewrite take_app.
  f_equal. f_equal. rewrite length_take in *. lia.
Qed.

Lemma append_rows_seqs cap id a t seen cs :
  ∀ c, c ∈ cs → c_Seq c ∈ seen ++ (lr_seq <$> append_rows cap id a t seen cs).
Proof.
  revert t seen. induction cs as [|x cs IH]; intros t seen c; simpl; [by intros ?%elem_of_nil|].
  intros [->|Hc]%elem_of_cons; case_bool_decide as Hin.
  - by apply elem_of_app; left.
  - rewrite fmap_cons. simpl. set_solver.
  - by apply IH.
  - rewrite fmap_cons. simpl. specialize (IH (t + Z.of_nat (length (fit (cap - t) (c_Data x)))) (seen ++ [c_Seq x]) c Hc).
    rewrite <-app_assoc in IH. done.
Qed.

(** A batch already stored adds nothing and loses nothing. *)
Lemma append_rows_seen cap id a t seen cs :
  (∀ c, c ∈ cs → c_Seq c ∈ seen) → append_rows cap id a t seen cs = [] ∧ append_lost cap t seen cs = false.
Proof.
  induction cs as [|c cs IH]; intros H; simpl; [done|].
  rewrite bool_decide_true by (apply H; by left). apply IH. intros x Hx. apply H. by right.
Qed.

(** ** The transaction *)

Lemma evo_add_rows s id a w chunks r t :
  job_at (w_db w) id = Some r → jr_state r = JobRunning → jr_attempt r = a →
  w ⇝ add_rows w (append_rows (s_logCap s) id a t (log_seqs (w_db w) id a) chunks).
Proof.
  revert w t. induction chunks as [|c cs IH]; intros w t Hr Hs Ha; simpl; [by rewrite add_rows_nil|].
  case_bool_decide as Hin; [by apply IH|].
  set (row := mkLogRow id a (c_Seq c) (fit (s_logCap s - t) (c_Data c))).
  change (row :: ?x) with ([row] ++ x). rewrite <-add_rows_app.
  rewrite <-(log_seqs_add1 w id a (c_Seq c) (fit (s_logCap s - t) (c_Data c))). fold row. etrans; [|by apply IH]. unfold add_rows at 1. apply evo_upd. subst a. apply P_log; [done|done|].
  intros x Hx H1 H2 E. apply Hin. unfold log_seqs. apply list_elem_of_fmap. exists x. split; [done|].
  apply elem_of_sql_select. split; [done|]. unfold is_chunk. by rewrite !bool_decide_true.
Qed.

(** The events that mark an attempt truncated. *)
Definition is_trunc (k id : string) (a : Z) (e : EventRow) : bool :=
  bool_decide (er_run_id e = k) && bool_decide (er_job_id e = Some id) &&
  bool_decide (er_type e = EventLogsTruncated) && bool_decide (detail_attempt (er_detail_json e) = Some a).
Definition trunc_count (d : DB) (k id : string) (a : Z) : nat := sql_count (is_trunc k id a) (db_events d).

Lemma HasJobEvent_trunc w k id a :
  HasJobEvent k id EventLogsTruncated a w = (inr (bool_decide (trunc_count (w_db w) k id a ≠ 0%nat)), w).
Proof.
  unfold HasJobEvent, mbind, M_bind, get_db, mret, M_ret. do 2 f_equal. apply eq_true_iff_eq.
  rewrite existsb_exists, bool_decide_eq_true. unfold trunc_count, sql_count. split.
  - intros (e & He & Ha). apply list_elem_of_In in He. apply elem_of_sql_select in He as [He Hp].
    assert (e ∈ sql_select (is_trunc k id a) (db_events (w_db w))) as Hin.
    { apply elem_of_sql_select. split; [done|]. unfold is_trunc. by rewrite Hp, Ha. }
    intros E. apply length_zero_iff_nil in E. rewrite E in Hin. by apply elem_of_nil in Hin.
  - intros Hn. destruct (sql_select (is_trunc k id a) (db_events (w_db w))) as [|e l] eqn:E; [done|].
    assert (e ∈ sql_select (is_trunc k id a) (db_events (w_db w))) as Hin by (rewrite E; by left).
    apply elem_of_sql_select in Hin as [Hin Hp]. unfold is_trunc in Hp. apply andb_true_iff in Hp as [Hp Ha].
    exists e. split; [|done]. apply list_elem_of_In, elem_of_sql_select. done.
Qed.

Lemma sql_count_app {R} (P : R → bool) l1 l2 : sql_count P (l1 ++ l2) = (sql_count P l1 + sql_count P l2)%nat.
Proof. unfold sql_count, sql_select. by rewrite List.filter_app, length_app. Qed.

Lemma is_trunc_event n k id a cap now :
  id ≠ "" →
  is_trunc k id a (mkEventRow n k (nullStr id) EventLogsTruncated [("attempt", DInt a); ("cap_bytes", DInt cap)] now) = true.
Proof.
  intros Hid. unfold is_trunc, nullStr. simpl. rewrite (bool_decide_false (id = "")) by done.
  by rewrite !bool_decide_true.
Qed.

(** What an accepted batch leaves. *)
Record appended (s : Scheduler) (id : string) (r : JobRow) (chunks : list LogChunk) (w w' : World) (stored : Z) : Prop := {
  ap_soft : soft w w';
  ap_jobs : db_jobs (w_db w') = db_jobs (w_db w);
  ap_rows : db_log_chunks (w_db w') = db_log_chunks (w_db w) ++
    append_rows (s_logCap s) id (jr_attempt r) (log_total (w_db w) id (jr_attempt r))
      (log_seqs (w_db w) id (jr_attempt r)) chunks;
  ap_stored : stored = log_total (w_db w') id (jr_attempt r) - log_total (w_db w) id (jr_attempt r);
  ap_trunc : trunc_count (w_db w') (jr_run_id r) id (jr_attempt r) =
    if append_lost (s_logCap s) (log_total (w_db w) id (jr_attempt r)) (log_seqs (w_db w) id (jr_attempt r)) chunks
    then Nat.max 1 (trunc_count (w_db w) (jr_run_id r) id (jr_attempt r))
    else trunc_count (w_db w) (jr_run_id r) id (jr_attempt r);
  ap_events : append_lost (s_logCap s) (log_total (w_db w) id (jr_attempt r)) (log_seqs (w_db w) id (jr_attempt r)) chunks = false →
    db_events (w_db w') = db_events (w_db w) ∧ db_event_seq (w_db w') = db_event_seq (w_db w)
}.

Lemma append_tx_ok s id r chunks w :
  WF (w_db w) → job_at (w_db w) id = Some r → jr_state r = JobRunning →
  ∃ stored w', append_tx s id (jr_attempt r) chunks w = (inr stored, w') ∧ appended s id r chunks w w' stored.
Proof.
  intros Hwf Hr Hs. set (a := jr_attempt r). unfold append_tx. step_with (GetJob_ok _ _ _ Hr). simpl.
  rewrite bool_decide_false by (intros []; done).
  step_with (eq_refl : LogBytes id a w = (inr (log_total (w_db w) id a), w)).
  set (t := log_total (w_db w) id a). set (seen := log_seqs (w_db w) id a).
  set (rows := append_rows (s_logCap s) id a t seen chunks).
  pose proof (append_loop_ok s id a w (mkLogAcc t 0 false) chunks r Hr eq_refl) as Hm. simpl in Hm.
  fold t seen rows in Hm. step_with Hm. cbn [la_lost la_stored]. rewrite Z.add_0_l.
  assert (soft w (add_rows w rows)) as Hsoft by (apply soft_same; [by apply (evo_add_rows s id a w chunks r)|done..]).
  assert (Htot : log_total (w_db (add_rows w rows)) id a = t + sum_len rows).
  { unfold log_total. rewrite attempt_rows_add, sum_len_app; [done|]. apply append_rows_owner. }
  destruct (append_lost (s_logCap s) t seen chunks) eqn:Hlost.
  2:{ exists (sum_len rows), (add_rows w rows). split; [done|].
      split; fold a t seen; rewrite ?Hlost; [done|done|done|rewrite Htot; lia|done|done]. }
  step_with (HasJobEvent_trunc (add_rows w rows) (jr_run_id r) id a).
  change (trunc_count (w_db (add_rows w rows)) (jr_run_id r) id a) with (trunc_count (w_db w) (jr_run_id r) id a).
  case_bool_decide as Htr.
  - exists (sum_len rows), (add_rows w rows). split; [done|].
    split; fold a t seen; rewrite ?Hlost; [done|done|done|rewrite Htot; lia| |done].
    change (trunc_count (w_db (add_rows w rows)) (jr_run_id r) id a) with (trunc_count (w_db w) (jr_run_id r) id a). lia.
  - assert (jr_run_id r ≠ "") as Hne by (apply (run_id_ne (w_db w)); [done|by apply job_at_Some in Hr as []]).
    assert (id ≠ "") as Hide by (destruct (job_at_Some _ _ _ Hr) as [? <-]; by apply (wf_job_ne (w_db w))).
    pose proof (event_spec (add_rows w rows) (jr_run_id r) id EventLogsTruncated
      [("attempt", DInt a); ("cap_bytes", DInt (s_logCap s))] Hne ltac:(done)) as He.
    step_with He. eexists _, _. split; [done|]. split; fold a t seen; rewrite ?Hlost; try done.
    + etrans; [exact Hsoft|]. apply soft_same; [apply evo_tick_upd, P_event|done..].
    + change (log_total (w_db (upd _ _)) id a) with (log_total (w_db (add_rows w rows)) id a). rewrite Htot. lia.
    + unfold trunc_count in *. simpl. rewrite sql_count_app. unfold sql_count at 2, sql_select. cbn [List.filter].
      rewrite is_trunc_event by done. simpl. lia.
Qed.
