(* ===== verification/Ops.v ===== *)
(** * Sequences of scheduler calls

    A server's life between two submissions is a sequence of calls, each one
    transaction.  [exec] runs one call and [run_ops] a sequence; every call keeps
    the invariant and moves the database by protocol steps only, so what the
    protocol guarantees holds across any interleaving of runners, users and the
    monitor. *)

From S2P Require Import Prelude GoLib Pipeline Types Store Scheduler Protocol Advance Consistency Refinement Logs.
From stdpp Require Import relations.

Local Open Scope Z_scope.

Inductive Op :=
  | OpClaim (r : RunnerInfo)
  | OpHeartbeat (runnerID : string) (jobs : list JobRef)
  | OpComplete (jobID : string) (attempt : Z) (res : Result)
  | OpCancelRun (runID : string)
  | OpAppendLogs (jobID : string) (attempt : Z) (chunks : list LogChunk)
  | OpTick.

Definition exec (s : Scheduler) (op : Op) : W unit :=
  match op with
  | OpClaim r => Claim s r;; mret tt
  | OpHeartbeat runnerID jobs => Heartbeat s runnerID jobs;; mret tt
  | OpComplete jobID attempt res => Complete jobID attempt res;; mret tt
  | OpCancelRun runID => CancelRun runID;; mret tt
  | OpAppendLogs jobID attempt chunks => AppendLogs s jobID attempt chunks
  | OpTick => Tick s;; mret tt
  end.

(** The world after a call that returned, whatever it returned. *)
Definition after {A} (m : W A) (w : World) : World := (m w).2.
Definition run_ops (s : Scheduler) (ops : list Op) (w : World) : World :=
  foldl (λ w op, after (exec s op) w) w ops.

(** ** One call *)

(** The clock of the world is not touched by any call. *)
Record sound_step (w w' : World) : Prop := {
  ss_clock : w_clock w' = w_clock w;
  ss_steps : PSteps (w_db w) (w_db w');
  ss_inv : Inv (w_db w')
}.

Lemma evo_sound w w' : w ⇝ w' → Inv (w_db w') → sound_step w w'.
Proof. by intros []. Qed.

Lemma sound_metrics w w' f : sound_step w w' → sound_step w (w' <| w_metrics := f |>).
Proof. by intros []. Qed.

Lemma Complete_returns w id a res j w' :
  Inv (w_db w) → Complete id a res w = (inr j, w') →
  valid_result res = None ∧ ∃ r, job_at (w_db w) id = Some r ∧
    ((jr_state r = JobRunning ∧ jr_attempt r = a ∧
      ∃ w1, inrun (jr_run_id r) w w1 ∧
        db_jobs (w_db w1) = db_jobs (set_job id (complete_row r res (now_of w)) (w_db w)) ∧
        advanced w1 (upd (w_db w') w1) (jr_run_id r) ∧
        w ⇝ upd (w_db w') w1 ∧ Inv (w_db w') ∧
        ∃ row, job_at (w_db w') id = Some row ∧ j = scanJob row) ∨
     (terminal (jr_state r) ∧ jr_attempt r = a ∧ j = scanJob r ∧ w_db w' = w_db w)) ∧ w_clock w' = w_clock w.
Proof.
  intros Hinv. unfold Complete. destruct (valid_result res) eqn:Hv; [done|].
  intros Hm. apply mbind_ok in Hm as ([out tr] & w1 & Htx & Hm). rewrite Tx_ok in Htx.
  minv Hm. unfold tr_apply, with_metrics in Hm0. injection Hm0 as <-. simpl.
  split; [done|]. destruct (job_at (w_db w) id) as [r|] eqn:Hr.
  2:{ unfold complete_tx, mbind, M_bind in Htx. by rewrite (GetJob_none _ _ Hr) in Htx. }
  exists r. split; [done|].
  destruct (decide (jr_state r = JobRunning ∧ jr_attempt r = a)) as [[Hs Ha]|Hn].
  - subst a. destruct (complete_tx_running w id r res Hinv Hr Hs Hv)
      as (tr' & wa & wb & out' & Hc & He & Hi & Hin & Hj & Hadv & row & Hrow & ->).
    rewrite Hc in Htx. simplify_eq. split; [left|by destruct He].
    split_and!; [done|done|]. exists wa. split_and!; try done.
    + destruct Hadv as [Hev ????]. split; try done. destruct Hev; by split.
    + destruct He, Hin as [[]]. split; simpl; congruence.
    + by exists row.
  - rewrite (complete_tx_stale w id r a res Hr) in Htx by (destruct (decide (jr_state r = JobRunning)); naive_solver).
    case_bool_decide as Hd; [|done]. destruct Hd. simplify_eq. by split; [right|].
Qed.

(** ** No call replaces the clock *)

Class ClockSafe {A} (m : W A) : Prop := clock_safe w : w_clock (m w).2 = w_clock w.

#[export] Instance clock_ret {A} (a : A) : ClockSafe (mret a).
Proof. done. Qed.
#[export] Instance clock_fail {A} e : ClockSafe (@fail A e).
Proof. done. Qed.
#[export] Instance clock_Now : ClockSafe Now.
Proof. done. Qed.
#[export] Instance clock_get : ClockSafe get_db.
Proof. done. Qed.
#[export] Instance clock_put d : ClockSafe (put_db d).
Proof. done. Qed.
#[export] Instance clock_modify P f : ClockSafe (modify_jobs P f).
Proof. done. Qed.
#[export] Instance clock_metrics f : ClockSafe (with_metrics f).
Proof. done. Qed.
#[export] Instance clock_bind {A B} (m : W A) (f : A → W B) :
  ClockSafe m → (∀ a, ClockSafe (f a)) → ClockSafe (m ≫= f).
Proof.
  intros Hm Hf w. specialize (Hm w). unfold mbind, M_bind. destruct (m w) as [[e|a] w1]; [done|].
  simpl in *. rewrite (Hf a w1). done.
Qed.
#[export] Instance clock_for {A B} (l : list A) (acc : B) f :
  (∀ x b, ClockSafe (f x b)) → ClockSafe (mfor l acc f).
Proof. intros Hf. revert acc. induction l as [|x l IH]; intros acc; simpl; apply _. Qed.
#[export] Instance clock_Tx {A} (m : W A) : ClockSafe m → ClockSafe (Tx m).
Proof. intros Hm w. specialize (Hm w). unfold Tx. by destruct (m w) as [[?|?] ?]. Qed.

(** Split the matches of a method's body until an instance applies. *)
Ltac clock_solve :=
  repeat first
    [ apply _
    | apply clock_bind; [|intros ?]
    | apply clock_for; intros ??
    | apply clock_Tx
    | case_match
    | progress cbv zeta beta ].

#[export] Instance clock_event k id t d : ClockSafe (event k id t d).
Proof. unfold event, AppendEvent. clock_solve. Qed.
#[export] Instance clock_UpsertRunner a b c d e f : ClockSafe (UpsertRunner a b c d e f).
Proof. unfold UpsertRunner. clock_solve. Qed.
#[export] Instance clock_TouchRunner a : ClockSafe (TouchRunner a).
Proof. unfold TouchRunner. clock_solve. Qed.
#[export] Instance clock_GetJob id : ClockSafe (GetJob id).
Proof. unfold GetJob. clock_solve. Qed.
#[export] Instance clock_GetRun id : ClockSafe (GetRun id).
Proof. unfold GetRun. clock_solve. Qed.
#[export] Instance clock_SetRunState k a b : ClockSafe (SetRunState k a b).
Proof. unfold SetRunState. clock_solve. Qed.
#[export] Instance clock_advance k tr : ClockSafe (advance k tr).
Proof.
  assert (∀ n jobs nm st tr, ClockSafe (advance_loop n k jobs nm st tr)) as Hl.
  { induction n; intros; simpl; [apply _|].
    apply clock_bind; [|intros ?; case_match; apply _]. apply clock_for. intros. unfold advance_job, TransitionPendingJob.
    clock_solve. }
  unfold advance, ListJobs, ListJobDeps. clock_solve.
Qed.
#[export] Instance clock_Claim s r : ClockSafe (Claim s r).
Proof.
  assert (∀ l, ClockSafe (claim_loop s r l)) as Hl.
  { induction l; simpl; [apply _|]. unfold specLabels, jobSpec, ClaimJob. clock_solve. }
  unfold Claim, ListQueuedJobs. clock_solve.
Qed.
#[export] Instance clock_Heartbeat s k js : ClockSafe (Heartbeat s k js).
Proof. unfold Heartbeat, heartbeat_job, ExtendLease. clock_solve. Qed.
#[export] Instance clock_Complete id a res : ClockSafe (Complete id a res).
Proof.
  unfold Complete, complete_tx, complete_transition, complete_succeeded, complete_cancelled, complete_requeue,
    complete_failed, FinishJob, RequeueJob, tr_apply. clock_solve.
Qed.
#[export] Instance clock_CancelRun k : ClockSafe (CancelRun k).
Proof.
  unfold CancelRun, cancel_tx, cancel_job, CancelJob, RequestJobCancel, ListEvents, ListJobs, tr_apply. clock_solve.
Qed.
#[export] Instance clock_AppendLogs s id a cs : ClockSafe (AppendLogs s id a cs).
Proof.
  unfold AppendLogs, append_tx, append_chunk, InsertLogChunk, LogBytes, HasJobEvent. clock_solve.
Qed.
#[export] Instance clock_Tick s : ClockSafe (Tick s).
Proof.
  unfold Tick, tick_tx, expire_job, backstop_job, jobSpec, RequestJobCancel, FinishJob, RequeueJob, ListExpiredLeases,
    ListRunningJobs, MarkRunnersOffline, mark_offline, tr_apply. clock_solve.
Qed.

(** ** Every call, both outcomes *)

(** A failed transaction followed by updates that cannot fail changed nothing. *)
Lemma Tx_bind_err {A B} (m : W A) (f : A → W B) w e w' :
  (∀ a w1, ∃ b w2, f a w1 = (inr b, w2)) → (Tx m ≫= f) w = (inl e, w') → w_db w' = w_db w.
Proof.
  intros Hf. unfold mbind, M_bind. destruct (Tx m w) as [[e1|a] w1] eqn:E.
  - intros [= <- <-]. by eapply Tx_err.
  - destruct (Hf a w1) as (b & w2 & ->). done.
Qed.

Lemma exec_err s op w e w' : exec s op w = (inl e, w') → w_db w' = w_db w.
Proof.
  assert (Hret : ∀ A (m : W A) w e w', (m ≫= λ _, mret tt) w = (inl e, w') → m w = (inl e, w')).
  { intros A m w0 e0 w0'. unfold mbind, M_bind. by destruct (m w0) as [[?|?] ?]; intros [= -> ->]. }
  destruct op; simpl; try (intros H%Hret; revert H).
  - unfold Claim. case_bool_decide; [by intros [= _ <-]|]. apply Tx_bind_err. intros [j|] w1; by eexists _, _.
  - unfold Heartbeat. case_bool_decide; [by intros [= _ <-]|]. apply Tx_err.
  - unfold Complete. destruct (valid_result res); [by intros [= _ <-]|]. apply Tx_bind_err. intros [? ?] w1; by eexists _, _.
  - unfold CancelRun. apply Tx_bind_err. intros [? ?] w1; by eexists _, _.
  - unfold AppendLogs. destruct (bad_seq chunks); [by intros [= _ <-]|]. apply Tx_bind_err. intros ? w1; by eexists _, _.
  - unfold Tick. apply Tx_bind_err. intros [[? ?] ?] w1; by eexists _, _.
Qed.

Lemma CancelRun_returns w k out w' :
  Inv (w_db w) → clock_pos w → CancelRun k w = (inr out, w') →
  PSteps (w_db w) (w_db w') ∧ Inv (w_db w') ∧
  ∃ run run', run_at (w_db w) k = Some run ∧ ¬ run_terminal (rr_state run) ∧
    run_at (w_db w') k = Some run' ∧ out = scanRun run' ∧
    ((cancel_requested (w_db w) k ∧ w_db w' = w_db w) ∨
     (¬ cancel_requested (w_db w) k ∧
      ∀ r, r ∈ run_jobs (w_db w) k → ∃ row, job_at (w_db w') (jr_id r) = Some row ∧ cancel_outcome r row)).
Proof.
  intros Hinv Hclk. unfold CancelRun. intros Hm. apply mbind_ok in Hm as ([o tr] & w1 & Htx & Hm). rewrite Tx_ok in Htx.
  minv Hm. unfold tr_apply, with_metrics in Hm0. injection Hm0 as <-. simpl.
  destruct (run_at (w_db w) k) as [run|] eqn:Hrun.
  2:{ unfold cancel_tx, mbind, M_bind in Htx. by rewrite (GetRun_none _ _ Hrun) in Htx. }
  destruct (ListEvents_requested w k) as (evs & He & Hiff).
  destruct (decide (run_terminal (rr_state run))) as [Ht|Ht].
  { unfold cancel_tx in Htx. rewrite (mbind_step _ _ _ _ _ (GetRun_ok _ _ _ Hrun)) in Htx.
    simpl r_State in Htx. by rewrite bool_decide_true in Htx. }
  destruct (List.existsb (λ e, bool_decide (e_Type e = "run.cancel_requested")) evs) eqn:Eev.
  - unfold cancel_tx in Htx. rewrite (mbind_step _ _ _ _ _ (GetRun_ok _ _ _ Hrun)) in Htx.
    simpl r_State in Htx. rewrite bool_decide_false in Htx by done.
    rewrite (mbind_step _ _ _ _ _ He), Eev in Htx. unfold mret, M_ret in Htx. simplify_eq.
    split_and!; [done|done|]. exists run, run. split_and!; try done. left. split; [by apply Hiff|done].
  - assert (¬ cancel_requested (w_db w) k) as Hnc by (rewrite <-Hiff; done).
    destruct (cancel_tx_ok w k run Hinv Hclk Hrun Ht Hnc) as (o' & tr' & w2 & Hc & Hev & Hi & Hjobs & run' & Hr' & ->).
    rewrite Hc in Htx. simplify_eq. split_and!; [by destruct Hev|done|]. exists run, run'. split_and!; try done. by right.
Qed.

Lemma AppendLogs_returns s id a chunks w w' :
  Inv (w_db w) → AppendLogs s id a chunks w = (inr tt, w') →
  ∃ r w1 stored, job_at (w_db w) id = Some r ∧ jr_state r = JobRunning ∧ jr_attempt r = a ∧
    (∀ c, c ∈ chunks → 1 ≤ c_Seq c) ∧
    appended s id r chunks w w1 stored ∧ w_db w' = w_db w1 ∧
    m_LogBytes (w_metrics w') = m_LogBytes (w_metrics w) + stored.
Proof.
  intros Hinv. unfold AppendLogs. destruct (bad_seq chunks) eqn:Hb; [done|]. intros Hm.
  apply mbind_ok in Hm as (st & w1 & Htx & Hm). rewrite Tx_ok in Htx. unfold with_metrics in Hm. injection Hm as <-.
  destruct (job_at (w_db w) id) as [r|] eqn:Hr.
  2:{ unfold append_tx, mbind, M_bind in Htx. by rewrite (GetJob_none _ _ Hr) in Htx. }
  destruct (decide (jr_state r = JobRunning ∧ jr_attempt r = a)) as [[Hs Ha]|Hn].
  - subst a. destruct (append_tx_ok s id r chunks w (inv_wf _ Hinv) Hr Hs) as (st' & w2 & Hc & Hap).
    rewrite Hc in Htx. simplify_eq. exists r, w1, st. split_and!; try done.
    + clear -Hb. induction chunks as [|c cs IH]; [by intros c ?%elem_of_nil|]. simpl in Hb.
      case_bool_decide; [done|]. intros x [->|Hx]%elem_of_cons; [lia|auto].
    + simpl. by rewrite (evo_metrics _ _ (so_evo _ _ (ap_soft _ _ _ _ _ _ _ Hap))).
  - unfold append_tx in Htx. rewrite (mbind_step _ _ _ _ _ (GetJob_ok _ _ _ Hr)) in Htx. simpl in Htx.
    rewrite bool_decide_true in Htx; [done|]. destruct (decide (jr_state r = JobRunning)); naive_solver.
Qed.

Lemma Tick_returns s w :
  Inv (w_db w) → clock_pos w →
  ∃ rep w', Tick s w = (inr rep, w') ∧ PSteps (w_db w) (w_db w') ∧ Inv (w_db w') ∧
    ∀ r, r ∈ db_jobs (w_db w) → jr_state r = JobRunning →
      ∃ row, job_at (w_db w') (jr_id r) = Some row ∧ ticked s (now_of w) (w_clock w) r row.
Proof.
  intros Hinv Hclk. destruct (tick_tx_ok s w Hinv Hclk) as (rep & tr & n & w' & Ht & He & Hi & Hj).
  unfold Tick. step_with (Tx_step _ _ _ _ Ht). eexists _, _. split; [done|]. split_and!; [by destruct He|done|done].
Qed.

Lemma exec_ok s op w r w' :
  Inv (w_db w) → clock_pos w → exec s op w = (r, w') →
  PSteps (w_db w) (w_db w') ∧ Inv (w_db w') ∧ (∀ e, r = inl e → w_db w' = w_db w).
Proof.
  intros Hinv Hclk Hx. destruct r as [e|[]].
  { pose proof (exec_err _ _ _ _ _ Hx) as E. rewrite E. done. }
  cut (PSteps (w_db w) (w_db w') ∧ Inv (w_db w')); [naive_solver|].
  destruct op; simpl in Hx.
  - minv Hx. by apply Claim_ok in Hm as [[? ?] _ _].
  - minv Hx. apply Heartbeat_ok in Hm as ([] & ? & _); done.
  - minv Hx. apply Complete_returns in Hm as (_ & row & _ & Hc & _); [|done].
    destruct Hc as [(_ & _ & w1 & _ & _ & _ & [] & ? & _)|(_ & _ & _ & ->)]; done.
  - minv Hx. apply CancelRun_returns in Hm as (? & ? & _); done.
  - apply AppendLogs_returns in Hx as (row & w1 & st & _ & _ & _ & _ & Hap & -> & _); [|done].
    apply ap_soft in Hap. destruct (soft_good _ _ Hap Hinv) as [[] ?]. done.
  - destruct (Tick_returns s w Hinv Hclk) as (rep & w1 & Ht & ? & ? & _).
    rewrite (mbind_step _ _ _ _ _ Ht) in Hx. injection Hx as <-. done.
Qed.

(** ** Sequences *)

#[export] Instance clock_exec s op : ClockSafe (exec s op).
Proof. destruct op; simpl; apply _. Qed.

Lemma after_exec_ok s op w :
  Inv (w_db w) → clock_pos w →
  PSteps (w_db w) (w_db (after (exec s op) w)) ∧ Inv (w_db (after (exec s op) w)) ∧ clock_pos (after (exec s op) w).
Proof.
  intros Hinv Hclk. unfold after. destruct (exec s op w) as [r w'] eqn:E.
  destruct (exec_ok s op w r w' Hinv Hclk E) as (? & ? & _). split_and!; [done|done|].
  intros n. pose proof (clock_exec s op w) as Hc. rewrite E in Hc. simpl in *. by rewrite Hc.
Qed.

Lemma run_ops_ok s ops w :
  Inv (w_db w) → clock_pos w →
  PSteps (w_db w) (w_db (run_ops s ops w)) ∧ Inv (w_db (run_ops s ops w)) ∧ clock_pos (run_ops s ops w).
Proof.
  revert w. induction ops as [|op ops IH]; intros w Hinv Hclk; [done|].
  destruct (after_exec_ok s op w Hinv Hclk) as (H1 & H2 & H3).
  destruct (IH _ H2 H3) as (H4 & H5 & H6). split_and!; try done. by etrans.
Qed.
