(* ===== verification/LogOrder.v ===== *)
(** * The stored logs of a job that is shipped in order

    Only AppendLogs touches the log rows, as only the upload handler touches the
    artifact rows.  When the batches of each attempt arrive in the order their shipper
    sent them, each possibly several times, the rows of an attempt are in sequence order
    at all times, they only grow at the end, and those of a job that is not running stay
    as they are. *)

From S2P Require Import Prelude GoLib Pipeline Types Store Scheduler Protocol Advance Consistency Refinement Logs Ops.
From stdpp Require Import relations.

Local Open Scope Z_scope.

(** ** The other calls leave the log rows alone, and the artifact rows *)

(** A table that the statements on the other tables do not concern. *)
Class Apart {T} (tab : DB → T) : Prop := {
  apart_runs d t : tab (d <| db_runs := t |>) = tab d;
  apart_jobs d t : tab (d <| db_jobs := t |>) = tab d;
  apart_deps d t : tab (d <| db_job_deps := t |>) = tab d;
  apart_runners d t : tab (d <| db_runners := t |>) = tab d;
  apart_events d t n : tab (d <| db_events := t |> <| db_event_seq := n |>) = tab d
}.
#[export] Instance apart_logs : Apart db_log_chunks.
Proof. by split. Qed.
#[export] Instance apart_artifacts : Apart db_artifacts.
Proof. by split. Qed.

Class KeepsRows {T} (tab : DB → T) (c : T) {A} (m : W A) : Prop :=
  keeps_rows w : tab (w_db w) = c → tab (w_db (m w).2) = c.

Section keeps.
Context {T : Type} (tab : DB → T) `{!Apart tab} (c : T).

#[export] Instance keeps_ret {A} (a : A) : KeepsRows tab c (mret a).
Proof. by intros w. Qed.
#[export] Instance keeps_fail {A} e : KeepsRows tab c (@fail A e).
Proof. by intros w. Qed.
#[export] Instance keeps_Now : KeepsRows tab c Now.
Proof. by intros w. Qed.
#[export] Instance keeps_get : KeepsRows tab c get_db.
Proof. by intros w. Qed.
#[export] Instance keeps_modify P f : KeepsRows tab c (modify_jobs P f).
Proof. intros w Hw. simpl. by rewrite apart_jobs. Qed.
#[export] Instance keeps_metrics f : KeepsRows tab c (with_metrics f).
Proof. by intros w. Qed.
Lemma keeps_put d : tab d = c → KeepsRows tab c (put_db d).
Proof. by intros H w. Qed.
(** What is read from the database may be put back, changed elsewhere. *)
Lemma keeps_read {B} (f : DB → W B) : (∀ d, tab d = c → KeepsRows tab c (f d)) → KeepsRows tab c (get_db ≫= f).
Proof. intros Hf w Hw. exact (Hf (w_db w) Hw w Hw). Qed.
#[export] Instance keeps_bind {A B} (m : W A) (f : A → W B) : KeepsRows tab c m → (∀ a, KeepsRows tab c (f a)) → KeepsRows tab c (m ≫= f).
Proof.
  intros Hm Hf w Hw. specialize (Hm w Hw). unfold mbind, M_bind. destruct (m w) as [[e|a] w1]; [done|].
  simpl in *. by apply Hf.
Qed.
#[export] Instance keeps_for {A B} (l : list A) (acc : B) f : (∀ x b, KeepsRows tab c (f x b)) → KeepsRows tab c (mfor l acc f).
Proof. intros Hf. revert acc. induction l as [|x l IH]; intros acc; simpl; apply _. Qed.
#[export] Instance keeps_Tx {A} (m : W A) : KeepsRows tab c m → KeepsRows tab c (Tx m).
Proof. intros Hm w Hw. specialize (Hm w Hw). unfold Tx. by destruct (m w) as [[?|?] ?]. Qed.
End keeps.

Ltac keeps_solve :=
  repeat first
    [ apply _
    | apply keeps_read; intros ??
    | apply keeps_bind; [|intros ?]
    | apply keeps_for; intros ??
    | apply keeps_Tx
    | apply keeps_put; by rewrite ?apart_runs, ?apart_jobs, ?apart_deps, ?apart_runners, ?apart_events
    | case_match
    | progress cbv zeta beta ].

Section calls.
Context {T : Type} (tab : DB → T) `{!Apart tab} (c : T).

#[export] Instance keeps_event k id t d : KeepsRows tab c (event k id t d).
Proof. unfold event, AppendEvent. keeps_solve. Qed.
#[export] Instance keeps_UpsertRunner a b x d e f : KeepsRows tab c (UpsertRunner a b x d e f).
Proof. unfold UpsertRunner. keeps_solve. Qed.
#[export] Instance keeps_TouchRunner a : KeepsRows tab c (TouchRunner a).
Proof. unfold TouchRunner. keeps_solve. Qed.
#[export] Instance keeps_GetJob id : KeepsRows tab c (GetJob id).
Proof. unfold GetJob. keeps_solve. Qed.
#[export] Instance keeps_GetRun id : KeepsRows tab c (GetRun id).
Proof. unfold GetRun. keeps_solve. Qed.
#[export] Instance keeps_SetRunState k a b : KeepsRows tab c (SetRunState k a b).
Proof. unfold SetRunState. keeps_solve. Qed.
#[export] Instance keeps_advance k tr : KeepsRows tab c (advance k tr).
Proof.
  assert (∀ n jobs nm st tr, KeepsRows tab c (advance_loop n k jobs nm st tr)) as Hl.
  { induction n; intros; simpl; [apply _|].
    apply keeps_bind; [|intros ?; case_match; apply _]. apply keeps_for. intros. unfold advance_job, TransitionPendingJob.
    keeps_solve. }
  unfold advance, ListJobs, ListJobDeps. keeps_solve.
Qed.
#[export] Instance keeps_Claim s r : KeepsRows tab c (Claim s r).
Proof.
  assert (∀ l, KeepsRows tab c (claim_loop s r l)) as Hl.
  { induction l; simpl; [apply _|]. unfold specLabels, jobSpec, ClaimJob. keeps_solve. }
  unfold Claim, ListQueuedJobs. keeps_solve.
Qed.
#[export] Instance keeps_Heartbeat s k js : KeepsRows tab c (Heartbeat s k js).
Proof. unfold Heartbeat, heartbeat_job, ExtendLease. keeps_solve. Qed.
#[export] Instance keeps_Complete id a res : KeepsRows tab c (Complete id a res).
Proof.
  unfold Complete, complete_tx, complete_transition, complete_succeeded, complete_cancelled, complete_requeue,
    complete_failed, FinishJob, RequeueJob, tr_apply. keeps_solve.
Qed.
#[export] Instance keeps_CancelRun k : KeepsRows tab c (CancelRun k).
Proof.
  unfold CancelRun, cancel_tx, cancel_job, CancelJob, RequestJobCancel, ListEvents, ListJobs, tr_apply. keeps_solve.
Qed.
#[export] Instance keeps_Tick s : KeepsRows tab c (Tick s).
Proof.
  unfold Tick, tick_tx, expire_job, backstop_job, jobSpec, RequestJobCancel, FinishJob, RequeueJob, ListExpiredLeases,
    ListRunningJobs, MarkRunnersOffline, mark_offline, tr_apply. keeps_solve.
Qed.
Lemma keeps_exec s op : (∀ id a cs, op ≠ OpAppendLogs id a cs) → KeepsRows tab c (exec s op).
Proof. intros Hop. destruct op; simpl; try apply _. by destruct (Hop jobID attempt chunks). Qed.
End calls.

(** ** Shipping in order *)

(** What has been sent of an attempt: the batch sent last, and a bound on everything sent
    before it. *)
Record Ship := mkShip { sp_floor : Z; sp_last : list Z }.
Definition top (sp : Ship) : Z := foldr Z.max (sp_floor sp) (sp_last sp).

Definition batch (job : string) (op : Op) : option (Z * list Z) :=
  match op with
  | OpAppendLogs id a chunks => if bool_decide (id = job) then Some (a, c_Seq <$> chunks) else None
  | _ => None
  end.
Definition send_batch (st : Z → Ship) (a : Z) (seqs : list Z) : Z → Ship :=
  λ b, if decide (b = a) then mkShip (top (st a)) seqs else st b.

(** A batch is the last one of its attempt again, or lies beyond everything sent. *)
Fixpoint in_order (st : Z → Ship) (bs : list (Z * list Z)) : Prop :=
  match bs with
  | [] => True
  | (a, seqs) :: bs' =>
      (seqs = sp_last (st a) ∧ in_order st bs') ∨
      (StronglySorted Z.lt seqs ∧ Forall (λ q, top (st a) < q ≤ int64_max) seqs ∧ in_order (send_batch st a seqs) bs')
  end.

(** The stored sequence numbers: earlier ones, and the last batch as a whole or not at all. *)
Definition covered (job : string) (st : Z → Ship) (d : DB) : Prop := ∀ a,
  StronglySorted Z.lt (sp_last (st a)) ∧ Forall (λ q, sp_floor (st a) < q ≤ int64_max) (sp_last (st a)) ∧ 0 ≤ sp_floor (st a) ≤ int64_max ∧
  ∃ old, StronglySorted Z.lt old ∧ Forall (λ q, 0 < q ≤ sp_floor (st a)) old ∧
    (log_seqs d job a = old ∨ log_seqs d job a = old ++ sp_last (st a)).

Lemma top_floor sp : sp_floor sp ≤ top sp.
Proof. unfold top. induction (sp_last sp); simpl; lia. Qed.
Lemma top_last sp q : q ∈ sp_last sp → q ≤ top sp.
Proof. unfold top. induction (sp_last sp) as [|x l IH]; [by intros ?%not_elem_of_nil|]. intros [->|H]%elem_of_cons; simpl; [lia|]. specialize (IH H). lia. Qed.

Lemma sorted_snoc (old seqs : list Z) f : StronglySorted Z.lt old → Forall (λ q, 0 < q ≤ f) old → StronglySorted Z.lt seqs → Forall (λ q, f < q ≤ int64_max) seqs →
  StronglySorted Z.lt (old ++ seqs).
Proof.
  intros H1 H2 H3 H4. apply StronglySorted_app. split_and!; [|done|done]. intros x y Hx Hy.
  rewrite Forall_forall in H2, H4. specialize (H2 x Hx). specialize (H4 y Hy). simpl in *. lia.
Qed.

Lemma top_bound sp : Forall (λ q, sp_floor sp < q ≤ int64_max) (sp_last sp) → sp_floor sp ≤ int64_max → top sp ≤ int64_max.
Proof. unfold top. intros H Hf. revert H. generalize (sp_floor sp) at 1. intros f. induction 1 as [|x l Hx _ IH]; simpl; lia. Qed.

Lemma covered_sorted job st d a : covered job st d → StronglySorted Z.lt (log_seqs d job a) ∧ Forall (λ q, 0 < q ≤ top (st a)) (log_seqs d job a).
Proof.
  intros Hc. destruct (Hc a) as (H1 & H2 & H3 & old & H4 & H5 & Hl). pose proof (top_floor (st a)) as Ht.
  assert (Forall (λ q, 0 < q ≤ top (st a)) old) by (eapply Forall_impl; [exact H5|]; simpl; lia).
  destruct Hl as [-> | ->]; [done|]. split; [by apply (sorted_snoc _ _ (sp_floor (st a)))|]. apply Forall_app. split; [done|]. apply Forall_forall. intros q Hq.
  rewrite Forall_forall in H2. specialize (H2 q Hq). pose proof (top_last _ _ Hq). lia.
Qed.

(** A batch sent, of which nothing is stored yet. *)
Lemma covered_send job st d a seqs : covered job st d → StronglySorted Z.lt seqs → Forall (λ q, top (st a) < q ≤ int64_max) seqs →
  covered job (send_batch st a seqs) d.
Proof.
  intros Hc Hs Hf b. unfold send_batch. case_decide as E; [|apply Hc]. subst b. simpl. destruct (covered_sorted _ _ _ a Hc) as [H1 H2].
  destruct (Hc a) as (_ & Hb & H0 & _). pose proof (top_floor (st a)). pose proof (top_bound _ Hb (proj2 H0)). split_and!; [done|done|lia|lia|]. exists (log_seqs d job a). by split_and!; [| |left].
Qed.

Lemma append_rows_fresh cap id a t seen cs : NoDup (c_Seq <$> cs) → (∀ c, c ∈ cs → c_Seq c ∉ seen) →
  lr_seq <$> append_rows cap id a t seen cs = c_Seq <$> cs.
Proof.
  revert t seen. induction cs as [|c cs IH]; intros t seen Hnd Hns; [done|]. simpl. rewrite bool_decide_false by (apply Hns; left).
  rewrite fmap_cons in Hnd. apply NoDup_cons in Hnd as [Hc Hnd]. rewrite !fmap_cons. f_equal. apply IH; [done|].
  intros x Hx Hin. apply elem_of_app in Hin as [Hin|Hin%list_elem_of_singleton]; [apply (Hns x); [by right|done]|].
  apply Hc. rewrite <-Hin. by apply list_elem_of_fmap_2.
Qed.

(** The rows of another job or attempt. *)
Lemma attempt_rows_other d rows id a id' a' : (∀ r, r ∈ rows → lr_job_id r = id' ∧ lr_attempt r = a') → (id, a) ≠ (id', a') →
  attempt_rows (d <| db_log_chunks := db_log_chunks d ++ rows |>) id a = attempt_rows d id a.
Proof.
  intros Hr Hne. unfold attempt_rows, sql_select. simpl. rewrite List.filter_app.
  assert (List.filter (is_chunk id a) rows = []) as ->; [|by rewrite app_nil_r].
  induction rows as [|r rows IH]; [done|]. simpl. destruct (Hr r ltac:(left)) as [E1 E2]. unfold is_chunk at 1. rewrite E1, E2.
  rewrite IH by (intros x Hx; apply Hr; by right). destruct (bool_decide (id' = id)) eqn:B1; [|done].
  destruct (bool_decide (a' = a)) eqn:B2; [|done]. apply bool_decide_eq_true in B1, B2. subst. done.
Qed.

Section step.
Context (job : string) (s : Scheduler).

(** A database whose log rows of the job have not changed. *)
Lemma covered_same st d d' : db_log_chunks d' = db_log_chunks d → covered job st d → covered job st d'.
Proof. intros E Hc a. destruct (Hc a) as (H1 & H2 & H3 & old & H4 & H5 & H6). unfold log_seqs, attempt_rows in *. rewrite E. refine (conj H1 (conj H2 (conj H3 _))). by exists old. Qed.

(** An accepted batch. *)
Lemma append_in_order st w w' a cs bs : Inv (w_db w) → AppendLogs s job a cs w = (inr tt, w') →
  covered job st (w_db w) → in_order st ((a, c_Seq <$> cs) :: bs) →
  ∃ st', covered job st' (w_db w') ∧ in_order st' bs ∧ (∀ b, attempt_rows (w_db w) job b `prefix_of` attempt_rows (w_db w') job b) ∧
    ∀ b, b ≠ a → attempt_rows (w_db w') job b = attempt_rows (w_db w) job b.
Proof.
  intros Hinv Hx Hc Ho. destruct (AppendLogs_returns _ _ _ _ _ _ Hinv Hx) as (r & w1 & n & Hr & Hs & <- & Hpos & Hap & Hd & _).
  set (a := jr_attempt r) in *. set (rows := append_rows (s_logCap s) job a (log_total (w_db w) job a) (log_seqs (w_db w) job a) cs).
  assert (Hch : db_log_chunks (w_db w') = db_log_chunks (w_db w) ++ rows) by (rewrite Hd; apply (ap_rows _ _ _ _ _ _ _ Hap)).
  assert (Howner : ∀ x, x ∈ rows → lr_job_id x = job ∧ lr_attempt x = a) by (intros x; apply append_rows_owner).
  assert (Hrows : attempt_rows (w_db w') job a = attempt_rows (w_db w) job a ++ rows).
  { rewrite <-(attempt_rows_app (w_db w) job a rows Howner). unfold attempt_rows. simpl. by rewrite Hch. }
  assert (Hoth : ∀ b, b ≠ a → attempt_rows (w_db w') job b = attempt_rows (w_db w) job b).
  { intros b Hb. rewrite <-(attempt_rows_other (w_db w) rows job b job a Howner) by congruence. unfold attempt_rows. simpl. by rewrite Hch. }
  assert (Hpre : ∀ b, attempt_rows (w_db w) job b `prefix_of` attempt_rows (w_db w') job b).
  { intros b. destruct (decide (b = a)) as [->|Hb]; [rewrite Hrows; by apply prefix_app_r|by rewrite Hoth]. }
  assert (Hseqs : log_seqs (w_db w') job a = log_seqs (w_db w) job a ++ (lr_seq <$> rows)) by (unfold log_seqs; by rewrite Hrows, fmap_app).
  assert (Hfresh : ∀ st' old, covered job st' (w_db w) → sp_last (st' a) = c_Seq <$> cs → Forall (λ q, 0 < q ≤ sp_floor (st' a)) old →
    StronglySorted Z.lt old → log_seqs (w_db w) job a = old → covered job st' (w_db w')).
  { intros st' old Hc' El Hold Hso Eold b. destruct (Hc' b) as (H1 & H2 & H3 & old' & H4 & H5 & H6).
    destruct (decide (b = a)) as [->|Hb]; [|refine (conj H1 (conj H2 (conj H3 _))); exists old'; unfold log_seqs in *; by rewrite Hoth].
    refine (conj H1 (conj H2 (conj H3 _))). exists old. split_and!; [done|done|right]. rewrite Hseqs, Eold, El. f_equal. rewrite El in H1, H2.
    apply append_rows_fresh.
    - clear -H1. induction H1 as [|x l Hs IH Hx]; [constructor|]. constructor; [|done]. rewrite Forall_forall in Hx. intros Hin. specialize (Hx x Hin). lia.
    - rewrite Eold. intros x Hx' Hin. rewrite Forall_forall in H2, Hold. specialize (H2 (c_Seq x) (list_elem_of_fmap_2 _ _ _ Hx')).
      specialize (Hold _ Hin). simpl in *. lia. }
  destruct Ho as [[El Ho]|(Hsq & Hgt & Ho)].
  - exists st. split_and!; [|done..]. destruct (Hc a) as (H1 & H2 & H3 & old & H4 & H5 & [H6|H6]); [by apply (Hfresh st old)|].
    apply (covered_same st (w_db w)); [|done]. rewrite Hch.
    assert (rows = []) as ->; [|by rewrite app_nil_r]. apply append_rows_seen. intros x Hx'. rewrite H6, <-El. apply elem_of_app. right.
    by apply list_elem_of_fmap_2.
  - exists (send_batch st a (c_Seq <$> cs)). split_and!; [|done..]. destruct (covered_sorted _ _ _ a Hc) as [Hso Hfl].
    apply (Hfresh _ (log_seqs (w_db w) job a)); unfold send_batch; rewrite ?decide_True by done; try done. by apply covered_send.
Qed.

Lemma exec_in_order st op w bs : Inv (w_db w) → clock_pos w → covered job st (w_db w) → in_order st (option_list (batch job op) ++ bs) →
  ∃ st', covered job st' (w_db (after (exec s op) w)) ∧ in_order st' bs ∧
    (∀ b, attempt_rows (w_db w) job b `prefix_of` attempt_rows (w_db (after (exec s op) w)) job b) ∧
    (∀ r b, job_at (w_db w) job = Some r → ¬ (jr_state r = JobRunning ∧ jr_attempt r = b) →
       attempt_rows (w_db (after (exec s op) w)) job b = attempt_rows (w_db w) job b).
Proof.
  intros Hinv Hclk Hc Ho. unfold after. destruct (exec s op w) as [r w'] eqn:E. simpl. destruct (exec_ok s op w r w' Hinv Hclk E) as (_ & _ & Herr).
  assert (Hsame : db_log_chunks (w_db w') = db_log_chunks (w_db w) → batch job op = None → ∃ st', covered job st' (w_db w') ∧ in_order st' bs ∧
    (∀ b, attempt_rows (w_db w) job b `prefix_of` attempt_rows (w_db w') job b) ∧
    (∀ r b, job_at (w_db w) job = Some r → ¬ (jr_state r = JobRunning ∧ jr_attempt r = b) → attempt_rows (w_db w') job b = attempt_rows (w_db w) job b)).
  { intros Ec Eb. rewrite Eb in Ho. exists st. unfold attempt_rows. rewrite Ec. split_and!; [by apply (covered_same st (w_db w))|done|done|done]. }
  assert (Hkeep : (∀ id a cs, op ≠ OpAppendLogs id a cs) → db_log_chunks (w_db w') = db_log_chunks (w_db w)).
  { intros Hop. pose proof (keeps_exec db_log_chunks (db_log_chunks (w_db w)) s op Hop w eq_refl) as Hk. by rewrite E in Hk. }
  destruct op as [ri|k js|id a res|k|id a cs|].
  5:{ destruct r as [e|[]].
      - rewrite (Herr e eq_refl). assert (Hskip : ∃ st', covered job st' (w_db w) ∧ in_order st' bs).
        { unfold batch in Ho. case_bool_decide; [|by exists st]. simpl in Ho. destruct Ho as [[_ Ho]|(H1 & H2 & Ho)]; [by exists st|].
          eexists. split; [|exact Ho]. by apply covered_send. }
        destruct Hskip as (st' & ? & ?). exists st'. by split_and!.
      - simpl in E. unfold batch in Ho. case_bool_decide as Hid; [subst id|].
        + destruct (append_in_order st w w' a cs bs Hinv E Hc Ho) as (st' & H1 & H2 & H3 & H4). exists st'. split_and!; [done..|].
          intros r b Hr Hns. destruct (AppendLogs_returns _ _ _ _ _ _ Hinv E) as (r' & ? & ? & Hr' & Hrun & Ha & _). apply H4.
          intros ->. apply Hns. rewrite Hr in Hr'. injection Hr' as <-. done.
        + destruct (AppendLogs_returns _ _ _ _ _ _ Hinv E) as (r' & w1 & n & Hr' & Hrun & <- & _ & Hap & Hd & _).
          assert (Hrows : ∀ b, attempt_rows (w_db w') job b = attempt_rows (w_db w) job b).
          { intros b. set (rows := append_rows (s_logCap s) id (jr_attempt r') (log_total (w_db w) id (jr_attempt r')) (log_seqs (w_db w) id (jr_attempt r')) cs).
            rewrite <-(attempt_rows_other (w_db w) rows job b id (jr_attempt r')); [|intros x; apply append_rows_owner|congruence].
            unfold attempt_rows. simpl. by rewrite Hd, (ap_rows _ _ _ _ _ _ _ Hap). }
          exists st. split_and!; [|done|intros b; by rewrite Hrows|done]. intros b. destruct (Hc b) as (H1 & H2 & H3 & old & H4 & H5 & H6).
          refine (conj H1 (conj H2 (conj H3 _))). exists old. unfold log_seqs in *. by rewrite Hrows. }
  all: apply Hsame; [by apply Hkeep|done].
Qed.

(** Any number of calls. *)
Definition frozen (d d' : DB) : Prop :=
  (∀ r, job_at d job = Some r → terminal (jr_state r) → ∀ b, attempt_rows d' job b = attempt_rows d job b) ∧
  (is_Some (job_at d job) → attempt_rows d' job 0 = attempt_rows d job 0).

Lemma run_ops_in_order ops : ∀ st w bs, Inv (w_db w) → clock_pos w → covered job st (w_db w) → in_order st (omap (batch job) ops ++ bs) →
  ∃ st', covered job st' (w_db (run_ops s ops w)) ∧ in_order st' bs ∧
    (∀ b, attempt_rows (w_db w) job b `prefix_of` attempt_rows (w_db (run_ops s ops w)) job b) ∧ frozen (w_db w) (w_db (run_ops s ops w)).
Proof.
  induction ops as [|op ops IH]; intros st w bs Hinv Hclk Hc Ho; [by exists st|].
  assert (Eo : omap (batch job) (op :: ops) ++ bs = option_list (batch job op) ++ (omap (batch job) ops ++ bs)).
  { csimpl. by destruct (batch job op). }
  rewrite Eo in Ho. destruct (exec_in_order st op w _ Hinv Hclk Hc Ho) as (st1 & Hc1 & Ho1 & Hp1 & Hf1).
  destruct (after_exec_ok s op w Hinv Hclk) as (Hs1 & Hi1 & Hk1). destruct (IH st1 _ bs Hi1 Hk1 Hc1 Ho1) as (st2 & Hc2 & Ho2 & Hp2 & Hf2).
  exists st2. split_and!; [done|done|intros b; by transitivity (attempt_rows (w_db (after (exec s op) w)) job b)|].
  change (run_ops s (op :: ops) w) with (run_ops s ops (after (exec s op) w)). destruct Hf2 as [F2 Z2]. split.
  - intros r Hr Ht b. destruct (PSteps_evolves _ _ job r Hs1 Hr) as (r1 & Hr1 & He1). pose proof (ev_terminal _ _ He1 Ht) as ->.
    rewrite (F2 r Hr1 Ht b). apply (Hf1 r); [done|]. intros [E _]. by rewrite E in Ht.
  - intros [r Hr]. destruct (PSteps_evolves _ _ job r Hs1 Hr) as (r1 & Hr1 & _). rewrite Z2 by (by eexists). apply (Hf1 r); [done|].
    intros [E E0]. pose proof (inv_rows _ Hinv job r Hr) as Hri.
    destruct (ri_running _ Hri E) as [? _]. lia.
Qed.
End step.
