(* ===== verification/Monitor.v ===== *)
(** * The lease monitor's loop

    RunMonitor of internal/scheduler/monitor.go: the ticker and the context are a sequence
    of events, and the lines it logs are its result. *)

From S2P Require Import Prelude GoLib Pipeline Types Store Scheduler Protocol Advance Consistency Refinement Logs Ops.

Local Open Scope Z_scope.

(** A tick, with whether the context has ended by the time Tick returns; or its end. *)
Inductive MonEvent := TickerFires (ctx_done : bool) | ContextEnds.
Inductive MonLine := TickFailed (e : Err) | TickChanged (rep : TickReport).

Definition tick_line (ctx_done : bool) (r : Err + TickReport) : list MonLine :=
  match r with
  | inl e => if ctx_done then [] else [TickFailed e]
  | inr rep =>
      if bool_decide (0 < Z.of_nat (length (tk_Requeued rep) + length (tk_Failed rep) + length (tk_TimedOut rep) + length (tk_RunnersOffline rep)))
      then [TickChanged rep] else []
  end.
(** The lines, and whether it has returned. *)
Fixpoint RunMonitor (s : Scheduler) (evs : list MonEvent) (w : World) : list MonLine * bool * World :=
  match evs with
  | [] => ([], false, w)
  | ContextEnds :: _ => ([], true, w)
  | TickerFires ctx_done :: l =>
      let '(r, w1) := Tick s w in
      let '(lines, returned, w2) := RunMonitor s l w1 in
      (tick_line ctx_done r ++ lines, returned, w2)
  end.

(** The ticks before the context ends. *)
Fixpoint ticks (evs : list MonEvent) : nat :=
  match evs with TickerFires _ :: l => S (ticks l) | _ => 0 end.

Lemma RunMonitor_ticks s evs : ∀ w, (RunMonitor s evs w).2 = run_ops s (replicate (ticks evs) OpTick) w.
Proof.
  induction evs as [|[d|] l IH]; intros w; [done| |done]. simpl. unfold run_ops in *. simpl. unfold after at 2, exec, mbind, M_bind.
  specialize (IH (Tick s w).2). destruct (Tick s w) as [r w1]. simpl in IH. destruct (RunMonitor s l w1) as [[lines ret] w2]. simpl in *.
  destruct r; done.
Qed.
(** A failed tick is logged and costs nothing but the time to the next one: the loop is so
    many passes of the monitor, so the database moves by protocol steps and keeps its
    invariant, and it returns as soon as the context ends. *)
Lemma monitor_keeps_the_invariant s evs w : Inv (w_db w) → clock_pos w →
  PSteps (w_db w) (w_db (RunMonitor s evs w).2) ∧ Inv (w_db (RunMonitor s evs w).2) ∧ ((RunMonitor s evs w).1.2 = true ↔ ContextEnds ∈ evs).
Proof.
  intros Hi Hc. rewrite RunMonitor_ticks. destruct (run_ops_ok s (replicate (ticks evs) OpTick) w Hi Hc) as (H1 & H2 & _).
  split; [done|]. split; [done|]. clear. revert w. induction evs as [|[d|] l IH]; intros w; simpl.
  - split; [done|]. by intros ?%not_elem_of_nil.
  - destruct (Tick s w) as [r w1]. specialize (IH w1). destruct (RunMonitor s l w1) as [[lines ret] w2]. simpl in *. rewrite IH, elem_of_cons. naive_solver.
  - split; [intros _; left|done].
Qed.
