(* ===== verification/InvCheck.v ===== *)
(** * Checking the invariant on a concrete database

    A boolean test that implies [Inv], so that the theorems can be applied to
    databases that are given as data. *)

From S2P Require Import Prelude GoLib Pipeline Types Store Scheduler Protocol Advance Consistency.

Local Open Scope Z_scope.

Definition some_b {A} (o : option A) : bool := match o with Some _ => true | None => false end.

Definition wf_b (d : DB) : bool :=
  bool_decide (NoDup (jr_id <$> db_jobs d)) && bool_decide (NoDup (rr_id <$> db_runs d)) &&
  List.forallb (λ r, some_b (run_at d (jr_run_id r)) && negb (bool_decide (jr_id r = "")) && some_b (jr_spec_json r)) (db_jobs d) &&
  List.forallb (λ e, match job_at d (d_JobID e), job_at d (d_NeedsJobID e) with
                     | Some a, Some b => bool_decide (jr_run_id a = jr_run_id b)
                     | _, _ => false
                     end) (db_job_deps d) &&
  List.forallb (λ r, negb (bool_decide (rr_id r = ""))) (db_runs d).

Definition verdict_kind_failed_b (kind : option string) : bool :=
  match kind with
  | Some k => bool_decide (k ∈ [FailureExitCode; FailureTimeout; FailureInfra; FailureLostRunner])
  | None => false
  end.

Definition implb' (P : Prop) `{Decision P} (b : bool) : bool := if bool_decide P then b else true.

Definition row_b (r : JobRow) : bool :=
  bool_decide (0 ≤ jr_attempt r ≤ jr_max_attempts r) &&
  implb' (jr_state r = JobPending) (bool_decide (jr_attempt r = 0)) &&
  implb' (jr_state r = JobPending ∨ jr_state r = JobQueued) (bool_decide (jr_attempt r < jr_max_attempts r)) &&
  implb' (jr_state r = JobRunning)
    (bool_decide (1 ≤ jr_attempt r) && some_b (jr_runner_id r) && some_b (jr_lease_expires_at r) && some_b (jr_started_at r)) &&
  implb' (jr_state r ≠ JobRunning) (negb (some_b (jr_lease_expires_at r))) &&
  Bool.eqb (some_b (jr_finished_at r)) (isTerminal (jr_state r)) &&
  (if some_b (jr_cancel_requested_at r) then bool_decide (jr_state r = JobRunning) || isTerminal (jr_state r) else true) &&
  bool_decide (jr_cancel_requested_at r ≠ Some 0) &&
  (if some_b (jr_failure_kind r) then bool_decide (jr_state r = JobFailed ∨ jr_state r = JobCancelled) else true) &&
  implb' (jr_state r = JobFailed) (verdict_kind_failed_b (jr_failure_kind r)).

Definition settled_b (d : DB) (k : string) : bool :=
  List.forallb (λ r, implb' (jr_state r = JobPending)
    (let ns := List.filter (λ e, bool_decide (d_JobID e = jr_id r)) (db_job_deps d) in
     List.forallb (λ e, match job_state_at d (d_NeedsJobID e) with
                        | Some JobFailed | Some JobCancelled | Some JobSkipped => false
                        | _ => true
                        end) ns &&
     List.existsb (λ e, bool_decide (job_state_at d (d_NeedsJobID e) ≠ Some JobSucceeded)) ns)) (run_jobs d k).

Definition run_b (d : DB) (run : RunRow) : bool :=
  settled_b d (rr_id run) &&
  match run_verdict d (rr_id run) with
  | Some f => bool_decide (rr_state run = f)
  | None => bool_decide (¬ run_terminal (rr_state run))
  end.

Definition inv_b (d : DB) : bool :=
  wf_b d && List.forallb row_b (db_jobs d) && List.forallb (run_b d) (db_runs d).

Lemma some_b_iff {A} (o : option A) : some_b o = true ↔ is_Some o.
Proof. destruct o as [a|]; simpl; [by split|]. by split; [|intros [? ?]]. Qed.

Lemma forallb_elem {A} (f : A → bool) l : List.forallb f l = true ↔ ∀ x, x ∈ l → f x = true.
Proof. rewrite forallb_forall. by setoid_rewrite list_elem_of_In. Qed.

Lemma implb'_iff P `{Decision P} b : implb' P b = true ↔ (P → b = true).
Proof. unfold implb'. case_bool_decide; naive_solver. Qed.

Lemma wf_b_ok d : wf_b d = true → WF d.
Proof.
  unfold wf_b. rewrite !andb_true_iff, !bool_decide_eq_true, !forallb_elem.
  intros ((((H1 & H2) & H3) & H4) & H5). setoid_rewrite andb_true_iff in H3. setoid_rewrite andb_true_iff in H3.
  split; try done.
  - intros r Hr. apply some_b_iff. by apply H3.
  - intros id n Hn. specialize (H4 _ Hn). simpl in H4.
    destruct (job_at d id) as [a|], (job_at d n) as [b|]; try done. apply bool_decide_eq_true in H4. eauto.
  - intros r Hr E. destruct (H3 r Hr) as [[_ Hn] _]. by rewrite bool_decide_true in Hn.
  - intros r Hr E. specialize (H5 r Hr). by rewrite bool_decide_true in H5.
  - intros r Hr. apply some_b_iff. by apply H3.
Qed.

Lemma row_b_ok r : row_b r = true → RowInv r.
Proof.
  unfold row_b. rewrite !andb_true_iff, !implb'_iff, !bool_decide_eq_true.
  intros (((((((((H1 & H2) & H3) & H4) & H5) & H6) & H7) & H8) & H9) & H10). split.
  - done.
  - exact H2.
  - exact H3.
  - intros Hs. specialize (H4 Hs). rewrite !andb_true_iff, !some_b_iff, ?bool_decide_eq_true in H4. naive_solver.
  - intros Hs. specialize (H5 Hs). by destruct (jr_lease_expires_at r).
  - apply eqb_prop in H6. unfold terminal. rewrite <-H6, some_b_iff. done.
  - intros Hc%some_b_iff. rewrite Hc, orb_true_iff, bool_decide_eq_true in H7. done.
  - done.
  - intros k E. rewrite E in H9. by apply bool_decide_eq_true in H9.
  - intros Hs. specialize (H10 Hs). unfold verdict_kind_failed_b in H10.
    destruct (jr_failure_kind r) as [k|]; [|done]. apply bool_decide_eq_true in H10. right. right. eauto.
Qed.

Lemma settled_b_ok d k : settled_b d k = true → Settled d k.
Proof.
  unfold settled_b. rewrite forallb_elem. intros H r Hr Hs.
  specialize (H r Hr). rewrite implb'_iff in H. specialize (H Hs). cbv zeta in H.
  rewrite andb_true_iff, forallb_elem, existsb_exists in H. destruct H as [H1 (e & He & H2)]. split.
  - intros n s Hn Hns Hbad. specialize (H1 (mkJobDep (jr_id r) n)). simpl in H1. rewrite Hns in H1.
    assert (mkJobDep (jr_id r) n ∈ List.filter (λ e, bool_decide (d_JobID e = jr_id r)) (db_job_deps d)) as Hin.
    { apply elem_of_sql_select. split; [done|]. by apply bool_decide_eq_true. }
    specialize (H1 Hin). destruct Hbad as [->|[->| ->]]; done.
  - apply list_elem_of_In, elem_of_sql_select in He as [He Hid%bool_decide_eq_true].
    apply bool_decide_eq_true in H2. exists (d_NeedsJobID e). split; [|done].
    unfold needs. rewrite <-Hid. by destruct e.
Qed.

Lemma inv_b_ok d : inv_b d = true → Inv d.
Proof.
  unfold inv_b. rewrite !andb_true_iff, !forallb_elem. intros ((H1 & H2) & H3). split.
  - by apply wf_b_ok.
  - intros id r [Hr _]%job_at_Some. by apply row_b_ok, H2.
  - intros k run [Hr <-]%run_at_Some. specialize (H3 run Hr). unfold run_b in H3.
    rewrite andb_true_iff in H3. destruct H3 as [HS HV]. split; [by apply settled_b_ok|].
    unfold RunOK. destruct (run_verdict d (rr_id run)); by apply bool_decide_eq_true in HV.
Qed.
