(* ===== verification/Demo.v ===== *)
(** * A concrete control plane

    One run in progress, as the tables would hold it: [build] (job j1) is running
    its first attempt on runner ra, [test] (j2) waits for it, [lint] (j3) is queued,
    [docs] (j4) has succeeded and [deploy] (j5) waits for [test].  The examples of
    the other files evaluate the operations on it. *)

From S2P Require Import Prelude GoLib Pipeline Types Store Scheduler Protocol Advance Consistency InvCheck.

Local Open Scope Z_scope.

Definition demo_spec (name : string) (needs : list string) (labels : gmap string string) : PJob :=
  mkPJob name "alpine:3" ["make"] needs ∅ labels [] (1 * Minute) (mkResources float_zero "").

Definition demo_job (id name : string) (needs : list string) (st : JobState) : JobRow :=
  mkJobRow id "r1" name (Some (demo_spec name needs ∅)) st 0 3 None None None None None 400 None None None None.

Definition demo_db : DB :=
  mkDB [mkRunRow "r1" "" "jobs: ..." None None "api" RunRunning 300 (Some 500) None]
    [ mkJobRow "j1" "r1" "build" (Some (demo_spec "build" [] ∅)) JobRunning 1 3 (Some "ra") (Some 1000) None None None
        400 (Some 500) None None None;
      demo_job "j2" "test" ["build"] JobPending;
      mkJobRow "j3" "r1" "lint" (Some (demo_spec "lint" [] {["os" := "linux"]})) JobQueued 0 3 None None None None None
        410 None None None None;
      mkJobRow "j4" "r1" "docs" (Some (demo_spec "docs" [] ∅)) JobSucceeded 1 3 (Some "ra") None None (Some 0) None
        400 (Some 450) (Some 480) None None;
      demo_job "j5" "deploy" ["test"] JobPending ]
    [mkJobDep "j2" "j1"; mkJobDep "j5" "j2"] [] [] [] [] 0.

Definition demo_clock (n : nat) : Z := 2000 + Z.of_nat n.
Definition demo_w : World := mkWorld demo_db demo_clock 0 (λ n, N.of_nat n) 0 no_metrics.
Definition demo_s : Scheduler := mkScheduler 30000 20 3 (5 * Second) 30000 30000 0.
Definition demo_runner : RunnerInfo := mkRunnerInfo "rb" "rb" {["os" := "linux"; "arch" := "arm"]} 2 "dev".

Definition res_ok : Result := mkResult "succeeded" "" (Some 0) "".
Definition res_infra : Result := mkResult "failed" "infra" None "pull failed".
Definition res_exit : Result := mkResult "failed" "exit_code" (Some 2) "exit 2".

Lemma demo_inv : Inv demo_db.
Proof. apply inv_b_ok. vm_compute. reflexivity. Qed.

Lemma demo_clock_pos : clock_pos demo_w.
Proof. intros n. unfold demo_w, demo_clock. simpl. lia. Qed.
