(* ===== verification/Metrics.v ===== *)
(** * internal/metrics: the metric sets and what a scrape reads

    Registration on a fresh registry, the snapshot gauges and their collector.  A registry
    is the descriptions it has accepted; registering a name twice is a panic, [None].  What
    the counters and histograms accumulate is [ServerMetrics] of Store.v; the text format of
    the exposition is Prometheus. *)

From S2P Require Import Prelude GoLib Pipeline Types Store Scheduler Protocol Advance Consistency Refinement InvCheck Demo.
From stdpp Require Import relations.

Local Open Scope Z_scope.

Record Desc := mkDesc { ds_Name : string; ds_Help : string; ds_Labels : list string }.

(** [prometheus.ExponentialBuckets], the bounds in milliseconds. *)
Definition ExponentialBuckets (start factor : Z) (count : nat) : list Z := (λ i, start * factor ^ Z.of_nat i) <$> seq 0 count.

(** [Registry.MustRegister]: each collector with what it describes. *)
Fixpoint MustRegister (reg : list Desc) (cs : list (list Desc)) : option (list Desc) :=
  match cs with
  | [] => Some reg
  | c :: cs' => if List.existsb (λ d, bool_decide (ds_Name d ∈ ds_Name <$> reg)) c then None else MustRegister (reg ++ c) cs'
  end.

Record MServer := mkMServer {
  ms_reg : list Desc;
  ms_JobsTotal : Desc;
  ms_JobDuration : Desc * list Z;
  ms_ClaimLatency : Desc * list Z;
  ms_LeaseExpirations : Desc;
  ms_LogBytes : Desc;
  ms_queueDepth : Desc;
  ms_runners : Desc;
  ms_snapshot : option (W Snapshot)
}.

(** [Describe] of the snapshot gauges. *)
Definition Describe (m : MServer) : list Desc := [ms_queueDepth m; ms_runners m].

Definition NewServer : option MServer :=
  let m := mkMServer []
    (mkDesc "quarry_jobs_total" "Job state transitions by the state entered." ["state"])
    (mkDesc "quarry_job_duration_seconds" "Attempt duration from claim to terminal result." [], ExponentialBuckets 1000 2 12)
    (mkDesc "quarry_claim_latency_seconds" "Time a job waited in the queue before a runner claimed it." [], ExponentialBuckets 100 2 12)
    (mkDesc "quarry_lease_expirations_total" "Running attempts whose lease the monitor found expired." [])
    (mkDesc "quarry_log_bytes_total" "Log bytes stored across all attempts." [])
    (mkDesc "quarry_queue_depth" "Queued jobs by required labels." ["labels"])
    (mkDesc "quarry_runners" "Registered runners by state." ["state"]) None in
  reg ← MustRegister [] [[ms_JobsTotal m]; [(ms_JobDuration m).1]; [(ms_ClaimLatency m).1]; [ms_LeaseExpirations m]; [ms_LogBytes m]; Describe m];
  Some (mkMServer reg (ms_JobsTotal m) (ms_JobDuration m) (ms_ClaimLatency m) (ms_LeaseExpirations m) (ms_LogBytes m)
          (ms_queueDepth m) (ms_runners m) None).

Definition SetSnapshot (fn : W Snapshot) (m : MServer) : MServer :=
  mkMServer (ms_reg m) (ms_JobsTotal m) (ms_JobDuration m) (ms_ClaimLatency m) (ms_LeaseExpirations m) (ms_LogBytes m)
    (ms_queueDepth m) (ms_runners m) (Some fn).

(** A constant gauge with its one label value. *)
Record Gauge := mkGauge { ga_Desc : Desc; ga_Label : string; ga_Value : Z }.

(** [Collect]: what it sends, the maps in any order; a failed read sends nothing. *)
Definition Collect (m : MServer) : World → list Gauge * World := λ w,
  match ms_snapshot m with
  | None => ([], w)
  | Some snapshot =>
      match snapshot w with
      | (inl _, w') => ([], w')
      | (inr snap, w') =>
          (((λ kn, mkGauge (ms_queueDepth m) kn.1 kn.2) <$> map_to_list (sn_QueueDepth snap)) ++
          ((λ kn, mkGauge (ms_runners m) kn.1 kn.2) <$> map_to_list (sn_Runners snap)), w')
      end
  end.

Record MRunner := mkMRunner { mr_reg : list Desc; mr_ActiveJobs : Desc; mr_ExecutorErrors : Desc }.
Definition NewRunner : option MRunner :=
  let active := mkDesc "quarry_runner_active_jobs" "Attempts currently executing on this runner." [] in
  let errors := mkDesc "quarry_runner_executor_errors_total" "Attempts the executor could not run (infra failures)." [] in
  reg ← MustRegister [] [[active]; [errors]];
  Some (mkMRunner reg active errors).

(** ** Registration *)

Lemma MustRegister_names cs : ∀ reg reg', NoDup (ds_Name <$> reg) → Forall (λ c, NoDup (ds_Name <$> c)) cs →
  MustRegister reg cs = Some reg' → reg' = reg ++ mjoin cs ∧ NoDup (ds_Name <$> reg').
Proof.
  induction cs as [|c cs IH]; intros reg reg' Hn Hc E; simpl in E; [injection E as <-; by rewrite app_nil_r|].
  destruct (List.existsb _ c) eqn:Ex; [done|]. apply Forall_cons in Hc as [Hc Hcs].
  destruct (IH (reg ++ c) reg') as [-> Hr]; [|done|done|by rewrite <-app_assoc in *; split].
  rewrite fmap_app. apply NoDup_app. split_and!; [done| |done]. intros x Hx (d & -> & Hd)%list_elem_of_fmap.
  apply not_true_iff_false in Ex. apply Ex, existsb_exists. exists d. split; [by apply list_elem_of_In|]. by apply bool_decide_eq_true.
Qed.

(** ** Counting *)

Definition occurs (k : string) (l : list string) : Z := Z.of_nat (length (List.filter (λ x, bool_decide (x = k)) l)).

Lemma occurs_app k l x : occurs k (l ++ [x]) = occurs k l + if bool_decide (x = k) then 1 else 0.
Proof. unfold occurs. rewrite List.filter_app, length_app. simpl. case_bool_decide; simpl; lia. Qed.
Lemma occurs_perm k l l' : l ≡ₚ l' → occurs k l = occurs k l'.
Proof. unfold occurs. induction 1; simpl; repeat case_bool_decide; simpl; lia. Qed.
Lemma occurs_nonneg k l : 0 ≤ occurs k l.
Proof. unfold occurs. lia. Qed.

(** A map in which every key counts its occurrences. *)
Definition counts (l : list string) (m : gmap string Z) : Prop := ∀ k n, m !! k = Some n ↔ n = occurs k l ∧ 0 < n.

Lemma counts_nil : counts [] ∅.
Proof. intros k n. rewrite lookup_empty. unfold occurs. simpl. split; [done|]. lia. Qed.
Lemma counts_incr l m x : counts l m → counts (l ++ [x]) (incr m x).
Proof.
  intros Hm k n. unfold incr. rewrite occurs_app. destruct (decide (x = k)) as [->|Hne].
  - rewrite lookup_insert_eq, bool_decide_true by done. pose proof (occurs_nonneg k l). destruct (m !! k) as [n0|] eqn:E; simpl.
    + apply Hm in E as [-> ?]. split; [intros [= <-]; lia|]. intros [-> _]. done.
    + assert (occurs k l = 0) as ->. { destruct (decide (0 < occurs k l)); [|lia]. by rewrite (proj2 (Hm k (occurs k l))) in E. }
      split; [intros [= <-]; lia|]. intros [-> _]. done.
  - rewrite lookup_insert_ne, bool_decide_false, Z.add_0_r by done. apply Hm.
Qed.
Lemma counts_foldl l : ∀ l0 m, counts l0 m → counts (l0 ++ l) (foldl incr m l).
Proof.
  induction l as [|x l IH]; intros l0 m Hm; simpl; [by rewrite app_nil_r|]. rewrite cons_middle, app_assoc. apply IH. by apply counts_incr.
Qed.
Lemma counts_perm l l' m : l ≡ₚ l' → counts l m → counts l' m.
Proof. intros Hp Hm k n. rewrite <-(occurs_perm k l l' Hp). apply Hm. Qed.

(** ** The snapshot *)

(** The label keys of the queued jobs and the states of the runners, as the tables have them. *)
Definition queue_keys (d : DB) : list string :=
  (λ r, LabelKey (match jr_spec_json r with Some spec => pj_Labels spec | None => ∅ end)) <$> sql_select (is_state JobQueued) (db_jobs d).
Definition runner_states (d : DB) : list string := (λ r, runner_state_str (nr_state r)) <$> db_runners d.

Lemma snapshot_jobs rows w : Forall (λ r, is_Some (jr_spec_json r)) rows → ∀ l m, counts l m →
  ∃ m', mfor (scanJob <$> rows) m snapshot_job w = (inr m', w) ∧
    counts (l ++ ((λ r, LabelKey (match jr_spec_json r with Some spec => pj_Labels spec | None => ∅ end)) <$> rows)) m'.
Proof.
  induction 1 as [|r rows [spec Hs] _ IH]; intros l m Hm; simpl; [exists m; by rewrite app_nil_r|].
  assert (E : snapshot_job (scanJob r) m w = (inr (incr m (LabelKey (pj_Labels spec))), w)).
  { unfold snapshot_job, specLabels, jobSpec. simpl. rewrite Hs. done. }
  rewrite (mbind_step _ _ _ _ _ E), Hs, cons_middle, app_assoc. apply IH. by apply counts_incr.
Qed.

Lemma TakeSnapshot_exact w : Inv (w_db w) →
  ∃ snap, TakeSnapshot w = (inr snap, w) ∧ counts (queue_keys (w_db w)) (sn_QueueDepth snap) ∧ counts (runner_states (w_db w)) (sn_Runners snap).
Proof.
  intros Hi. set (rows := order_by queued_leb (sql_select (is_state JobQueued) (db_jobs (w_db w)))).
  assert (Hrows : rows ≡ₚ sql_select (is_state JobQueued) (db_jobs (w_db w))) by apply order_by_perm.
  destruct (snapshot_jobs rows w) with (l := @nil string) (m := ∅ : gmap string Z) as (depth & E & Hd); [|apply counts_nil|].
  { apply Forall_forall. intros r Hr. apply (wf_specs _ (inv_wf _ Hi)). rewrite Hrows in Hr. by apply elem_of_sql_select in Hr as [? _]. }
  eexists. split; [|split].
  - unfold TakeSnapshot. rewrite (mbind_step _ _ _ (scanJob <$> rows) w) by done. rewrite (mbind_step _ _ _ _ _ E). done.
  - simpl. simpl in Hd. eapply counts_perm; [|exact Hd]. unfold queue_keys. by rewrite Hrows.
  - simpl. eapply counts_perm; [|apply (counts_foldl _ []), counts_nil]. simpl. unfold runner_states.
    rewrite <-list_fmap_compose. apply fmap_Permutation, order_by_perm.
Qed.


