(* ===== verification/SchedulerSpec.v ===== *)
(** * What the scheduler guarantees

    The correctness theorems of internal/scheduler, over any sequence of calls
    ([run_ops]) from any database that satisfies the invariant. *)

From S2P Require Import Prelude GoLib Pipeline Types Store Scheduler Protocol Advance Consistency Refinement Logs Ops InvCheck Demo.
From stdpp Require Import relations.

Local Open Scope Z_scope.

(** ** Lemmas on whole histories *)

Lemma history_row s ops w id r :
  Inv (w_db w) → clock_pos w → job_at (w_db w) id = Some r →
  ∃ r', job_at (w_db (run_ops s ops w)) id = Some r' ∧ evolves r r'.
Proof.
  intros Hinv Hclk Hr. destruct (run_ops_ok s ops w Hinv Hclk) as (Hs & _ & _). by eapply PSteps_evolves.
Qed.

(** Run rows: a terminal state is never left. *)
Lemma PStep_run_terminal d d' k run :
  PStep d d' → run_at d k = Some run → ∃ run', run_at d' k = Some run' ∧ (run_terminal (rr_state run) → rr_state run' = rr_state run).
Proof.
  intros Hs Hr. destruct (PStep_run _ _ k Hs) as [E|(r & r' & H0 & H1 & _ & Hc)].
  - exists run. by rewrite E.
  - assert (r = run) as -> by congruence. exists r'. split; [done|]. intros [? ?].
    destruct Hc as [(? & _)|(Hn & _)]; [congruence|]. by destruct Hn.
Qed.

Lemma PSteps_run_terminal d d' k run :
  PSteps d d' → run_at d k = Some run → ∃ run', run_at d' k = Some run' ∧ (run_terminal (rr_state run) → rr_state run' = rr_state run).
Proof.
  intros Hs. revert run. induction Hs as [|x y z Hxy _ IH]; intros run Hr; [by exists run|].
  destruct (PStep_run_terminal _ _ _ _ Hxy Hr) as (r1 & H1 & E1).
  destruct (IH _ H1) as (r2 & H2 & E2). exists r2. split; [done|]. intros Ht. rewrite E2, E1; [done|done|]. by rewrite E1.
Qed.

(** An attempt number the job no longer runs under. *)
Definition lost (a : Z) (r : JobRow) : Prop := a ≤ jr_attempt r ∧ ¬ (jr_state r = JobRunning ∧ jr_attempt r = a).

Lemma evolves_lost a r r' : evolves r r' → lost a r → lost a r'.
Proof.
  intros He [Hle Hn]. pose proof (ev_attempt _ _ He). split; [lia|]. intros [Hs Ha].
  assert (jr_attempt r = a) as Hra by lia.
  apply (ev_lost _ _ He); [|lia|done]. intros Hr. by apply Hn.
Qed.

Lemma Complete_stale w id r a res :
  valid_result res = None → job_at (w_db w) id = Some r → ¬ (jr_state r = JobRunning ∧ jr_attempt r = a) →
  ∃ w', Complete id a res w =
    (if bool_decide (jr_attempt r = a ∧ terminal (jr_state r)) then inr (scanJob r) else inl ErrFenced, w') ∧
    w_db w' = w_db w ∧ w_metrics w' = w_metrics w.
Proof.
  intros Hv Hr Hn. unfold Complete. rewrite Hv. unfold Tx, mbind, M_bind.
  rewrite (complete_tx_stale w id r a res Hr) by (destruct (decide (jr_state r = JobRunning)); naive_solver).
  case_bool_decide; eexists; (split; [done|]); simpl; [|done].
  split; [done|]. unfold add_counts. simpl. rewrite app_nil_r.
  assert (union_with (λ a b, Some (a + b)) (∅ : gmap JobState Z) (m_JobsTotal (w_metrics w)) = m_JobsTotal (w_metrics w)) as ->
    by apply (left_id_L ∅ (union_with _)).
  by destruct (w_metrics w).
Qed.

Lemma AppendLogs_stale s w id r a chunks :
  job_at (w_db w) id = Some r → ¬ (jr_state r = JobRunning ∧ jr_attempt r = a) → bad_seq chunks = None →
  ∃ w', AppendLogs s id a chunks w = (inl ErrFenced, w') ∧ w_db w' = w_db w.
Proof.
  intros Hr Hn Hb. unfold AppendLogs. rewrite Hb. unfold mbind at 1, M_bind at 1, Tx, append_tx.
  rewrite (mbind_step _ _ _ _ _ (GetJob_ok _ _ _ Hr)). simpl.
  rewrite bool_decide_true by (destruct (decide (jr_state r = JobRunning)); naive_solver). by eexists.
Qed.

(** ** Refinement *)

(** C1: Every call of the runner protocol, of the user API and of the lease monitor
    refines the protocol: from a database that satisfies the invariant, the new
    database is reached by protocol steps only (guarded job edges, run start and
    run finish, audit events, log rows of the running attempt), satisfies the
    invariant again, and is the old database exactly when the call returns an
    error. *)
Theorem calls_refine_protocol s op w r w' :
  Inv (w_db w) → clock_pos w → exec s op w = (r, w') →
  PSteps (w_db w) (w_db w') ∧ Inv (w_db w') ∧ (∀ e, r = inl e → w_db w' = w_db w).
Proof. apply exec_ok. Qed.

Lemma calls_refine_protocol_witness :
  PSteps demo_db (w_db (exec demo_s (OpComplete "j1" 1 res_exit) demo_w).2) ∧
  Inv (w_db (exec demo_s (OpComplete "j1" 1 res_exit) demo_w).2).
Proof.
  destruct (calls_refine_protocol demo_s (OpComplete "j1" 1 res_exit) demo_w _ _ demo_inv demo_clock_pos
    (surjective_pairing _)) as (H1 & H2 & _). exact (conj H1 H2).
Defined.

(** ** Histories *)

(** C2: Terminal states are final.  Whatever calls follow, a job that has
    succeeded, failed, been cancelled or been skipped keeps its row unchanged in
    every column, and a finished run keeps its state. *)
Theorem terminal_is_final s ops w :
  Inv (w_db w) → clock_pos w →
  (∀ id r, job_at (w_db w) id = Some r → terminal (jr_state r) → job_at (w_db (run_ops s ops w)) id = Some r) ∧
  (∀ k run, run_at (w_db w) k = Some run → run_terminal (rr_state run) →
     rr_state <$> run_at (w_db (run_ops s ops w)) k = Some (rr_state run)).
Proof.
  intros Hinv Hclk. destruct (run_ops_ok s ops w Hinv Hclk) as (Hs & _ & _). split.
  - intros id r Hr Ht. destruct (PSteps_evolves _ _ _ _ Hs Hr) as (r' & Hr' & He).
    by rewrite Hr', (ev_terminal _ _ He).
  - intros k run Hr Ht. destruct (PSteps_run_terminal _ _ _ _ Hs Hr) as (run' & -> & E). simpl. by rewrite E.
Qed.

Lemma terminal_is_final_witness :
  job_state_at (w_db (run_ops demo_s [OpCancelRun "r1"; OpTick] demo_w)) "j4" = Some JobSucceeded.
Proof.
  unfold job_state_at.
  rewrite (proj1 (terminal_is_final demo_s [OpCancelRun "r1"; OpTick] demo_w demo_inv demo_clock_pos) "j4"
    _ eq_refl eq_refl). reflexivity.
Defined.

(** Attempts are counted, bounded and never reused.  Over any calls a job's
    attempt number only grows, never passes max_attempts, and an attempt that the
    job no longer runs under (it was reported, requeued or lost) is never run
    again; an attempt still running has kept its runner and its start time. *)
Theorem attempts_never_reused s ops w id r :
  Inv (w_db w) → clock_pos w → job_at (w_db w) id = Some r →
  ∃ r', job_at (w_db (run_ops s ops w)) id = Some r' ∧
    jr_attempt r ≤ jr_attempt r' ≤ jr_max_attempts r ∧
    (jr_attempt r' = jr_attempt r → jr_state r' = JobRunning →
     jr_state r = JobRunning ∧ jr_runner_id r' = jr_runner_id r ∧ jr_started_at r' = jr_started_at r).
Proof.
  intros Hinv Hclk Hr. destruct (run_ops_ok s ops w Hinv Hclk) as (Hs & Hi & _).
  destruct (PSteps_evolves _ _ _ _ Hs Hr) as (r' & Hr' & He). exists r'. split; [done|].
  pose proof (ri_attempt _ (inv_rows _ Hi _ _ Hr')) as Hb. rewrite (ev_max _ _ He) in Hb.
  pose proof (ev_attempt _ _ He). split; [lia|]. intros Ha Hst.
  split; [|by apply (ev_holder _ _ He)]. apply dec_stable. intros Hn. by apply (ev_lost _ _ He Hn Ha).
Qed.

Lemma attempts_never_reused_witness :
  ∃ r', job_at (w_db (run_ops demo_s [OpTick; OpClaim demo_runner; OpClaim demo_runner] demo_w)) "j1" = Some r' ∧
    1 ≤ jr_attempt r' ≤ 3.
Proof.
  destruct (attempts_never_reused demo_s [OpTick; OpClaim demo_runner; OpClaim demo_runner] demo_w "j1" _
    demo_inv demo_clock_pos eq_refl) as (r' & H1 & H2 & _). exists r'. exact (conj H1 H2).
Defined.

Lemma directive_stale d runner id a r :
  job_at d id = Some r → ¬ (jr_state r = JobRunning ∧ jr_attempt r = a) →
  directive_for d runner (mkJobRef id a) = DirectiveAbort.
Proof. intros Hr Hn. unfold directive_for. simpl. rewrite Hr, bool_decide_false; [done|]. naive_solver. Qed.

(** C3: Fencing.  Once a job no longer runs under attempt [a], no later message
    about that attempt has an effect on it, whatever calls come in between.  A valid
    result is answered ErrFenced or, when that very attempt is the one that finished,
    with the job as stored, and the database stays as it is.  Logs with valid sequence
    numbers are answered ErrFenced and the database stays as it is.  A heartbeat of any runner (one that is registered
    is always answered) gets "abort" for every reference to the attempt; it leaves
    the job's row, its lease included, alone unless it also names another attempt of
    that job; and one that names nothing but the attempt changes nothing outside the
    runners table, where it refreshes its sender. *)
Theorem lost_attempts_are_fenced s ops w id r a runner res chunks :
  Inv (w_db w) → clock_pos w → job_at (w_db w) id = Some r → lost a r →
  valid_result res = None → bad_seq chunks = None →
  let w1 := run_ops s ops w in
  (∃ r1 w2, job_at (w_db w1) id = Some r1 ∧
    Complete id a res w1 =
      (if bool_decide (jr_attempt r1 = a ∧ terminal (jr_state r1)) then inr (scanJob r1) else inl ErrFenced, w2) ∧
    w_db w2 = w_db w1) ∧
  (∃ w2, AppendLogs s id a chunks w1 = (inl ErrFenced, w2) ∧ w_db w2 = w_db w1) ∧
  (∀ js, runner ≠ "" → sql_count (by_key nr_id runner) (db_runners (w_db w1)) = 1%nat →
     ∃ ds w2, Heartbeat s runner js w1 = (inr ds, w2)) ∧
  (∀ js ds w2, Heartbeat s runner js w1 = (inr ds, w2) →
     (∀ i, js !! i = Some (mkJobRef id a) → ds !! i = Some (mkDirective id a DirectiveAbort)) ∧
     ((∀ j, j ∈ js → jf_JobID j = id → jf_Attempt j = a) → job_at (w_db w2) id = job_at (w_db w1) id) ∧
     ((∀ j, j ∈ js → j = mkJobRef id a) → ∃ t, w_db w2 = (w_db w1) <| db_runners := t |>)).
Proof.
  intros Hinv Hclk Hr Hl Hv Hb w1. destruct (history_row s ops w id r Hinv Hclk Hr) as (r1 & Hr1 & He).
  pose proof (evolves_lost _ _ _ He Hl) as [_ Hn]. fold w1 in Hr1.
  destruct (run_ops_ok s ops w Hinv Hclk) as (_ & Hinv1 & _). fold w1 in Hinv1. split_and!.
  - destruct (Complete_stale w1 id r1 a res Hv Hr1 Hn) as (w2 & Hc & Hd & _). eauto.
  - by apply AppendLogs_stale with r1.
  - intros js. by apply Heartbeat_returns.
  - intros js ds w2 Hh. destruct (Heartbeat_ok _ _ _ _ _ _ Hinv1 Hh) as (_ & _ & -> & _ & _ & t & Hu1 & Hu2).
    pose proof (directive_stale _ runner _ _ _ Hr1 Hn) as Habort. split_and!.
    + intros i Hi. by rewrite list_lookup_fmap, Hi, <-Habort.
    + intros Hj. apply (Hu1 id). intros [k b] Hin Hk. specialize (Hj _ Hin Hk). simpl in *. by subst.
    + intros Hj. exists t. apply Hu2. by intros j ->%Hj.
Qed.

Definition demo_lost : World := run_ops demo_s [OpTick] demo_w.
Lemma lost_attempts_are_fenced_witness :
  ∃ ds w2, Heartbeat demo_s (ri_ID demo_runner) [mkJobRef "j1" 1] (run_ops demo_s [OpClaim demo_runner] demo_lost) = (inr ds, w2) ∧
    ds !! 0%nat = Some (mkDirective "j1" 1 DirectiveAbort).
Proof.
  destruct (run_ops_ok demo_s [OpTick] demo_w demo_inv demo_clock_pos) as (_ & Hi & Hc).
  destruct (lost_attempts_are_fenced demo_s [OpClaim demo_runner] demo_lost "j1"
    (default (demo_job "" "" [] JobPending) (job_at (w_db demo_lost) "j1")) 1 (ri_ID demo_runner) res_ok []
    Hi Hc) as (_ & _ & H1 & H2).
  - vm_compute. reflexivity.
  - split; [vm_compute; discriminate|]. intros [H _]. vm_compute in H. discriminate H.
  - reflexivity.
  - reflexivity.
  - destruct (H1 [mkJobRef "j1" 1]) as (ds & w2 & E); [discriminate|vm_compute; reflexivity|].
    exists ds, w2. split; [exact E|]. exact (proj1 (H2 _ _ _ E) 0%nat eq_refl).
Defined.

(** ** Claim *)

(** The runner offers every label the job requires, with its value; a label the runner
    does not have counts as the empty value. *)
Definition fits (have : gmap string string) (r : JobRow) : Prop :=
  ∃ spec, jr_spec_json r = Some spec ∧ ∀ k v, pj_Labels spec !! k = Some v → default "" (have !! k) = v.

Lemma matches_fits have r : matches have r ↔ fits have r.
Proof.
  unfold matches, fits, labelsSubset. setoid_rewrite bool_decide_eq_true. done.
Qed.

Lemma fits_labels have r :
  fits have r → ∃ spec, jr_spec_json r = Some spec ∧ ∀ k v, pj_Labels spec !! k = Some v →
    have !! k = Some v ∨ (v = "" ∧ have !! k = None).
Proof.
  intros (spec & Hs & Hf). exists spec. split; [done|]. intros k v Hk. specialize (Hf k v Hk).
  destruct (have !! k); simpl in Hf; subst; auto.
Qed.



(** A claim that returns no job means there was none: no queued job has labels
    the runner offers, and no job row changed. *)
Theorem claim_none_means_no_match s ri w w' :
  Inv (w_db w) → Claim s ri w = (inr None, w') →
  db_jobs (w_db w') = db_jobs (w_db w) ∧
  ∀ r, r ∈ db_jobs (w_db w) → jr_state r = JobQueued → ¬ matches (ri_Labels ri) r.
Proof. intros Hinv Hc. by destruct (Claim_ok _ _ _ _ _ Hinv Hc) as [_ _ Hn]; apply Hn. Qed.

Lemma claim_none_means_no_match_witness :
  db_jobs (w_db (Claim demo_s (mkRunnerInfo "rc" "" ∅ 1 "") demo_w).2) = db_jobs demo_db.
Proof.
  destruct (Claim demo_s (mkRunnerInfo "rc" "" ∅ 1 "") demo_w) as [[e|[j|]] w'] eqn:E;
    [vm_compute in E; discriminate E|vm_compute in E; discriminate E|].
  exact (proj1 (claim_none_means_no_match demo_s (mkRunnerInfo "rc" "" ∅ 1 "") demo_w w' demo_inv E)).
Defined.

(** An attempt is handed out once.  If a claim returned a job, then whatever
    calls happen in between, a later claim that returns the same job hands out a
    strictly larger attempt number. *)
Theorem attempt_claimed_once s1 s2 ri1 ri2 ops w j1 w1 j2 w2 :
  Inv (w_db w) → clock_pos w → Claim s1 ri1 w = (inr (Some j1), w1) →
  Claim s2 ri2 (run_ops s1 ops w1) = (inr (Some j2), w2) → j_ID j2 = j_ID j1 →
  j_Attempt j1 < j_Attempt j2.
Proof.
  intros Hinv Hclk H1 H2 Hid.
  destruct (Claim_ok _ _ _ _ _ Hinv H1) as [[_ Hinv1] Hs1 _].
  assert (clock_pos w1) as Hclk1.
  { intros n. pose proof (clock_Claim s1 ri1 w) as Hc. rewrite H1 in Hc. simpl in Hc. by rewrite Hc. }
  destruct (Hs1 _ eq_refl) as (r & lease & now & Hr & _ & _ & _ & -> & Ej).
  set (row := claimed_row r (ri_ID ri1) lease now) in *.
  assert (job_at (w_db w1) (jr_id r) = Some row) as Hrow.
  { rewrite (job_at_jobs _ _ _ Ej), job_at_set_job by done. by rewrite decide_True, Hr. }
  destruct (run_ops_ok s1 ops w1 Hinv1 Hclk1) as (_ & Hinv2 & _).
  destruct (history_row s1 ops w1 _ _ Hinv1 Hclk1 Hrow) as (r' & Hr' & He).
  destruct (Claim_ok _ _ _ _ _ Hinv2 H2) as [_ Hs2 _].
  destruct (Hs2 _ eq_refl) as (r2 & lease2 & now2 & Hr2 & _ & _ & _ & -> & _).
  simpl in *. rewrite Hid in Hr2. assert (r2 = r') as -> by congruence.
  pose proof (ev_attempt _ _ He) as Hle. simpl in Hle. lia.
Qed.

Definition claimed (x : (Err + option Job) * World) : Job :=
  match x.1 with inr (Some j) => j | _ => scanJob (demo_job "" "" [] JobPending) end.
Definition demo_claim1 := Claim demo_s demo_runner (run_ops demo_s [OpTick] demo_w).
Definition demo_claim2 :=
  Claim demo_s demo_runner (run_ops demo_s [OpComplete "j3" 1 res_infra; OpClaim demo_runner] demo_claim1.2).
Lemma attempt_claimed_once_witness : j_Attempt (claimed demo_claim1) < j_Attempt (claimed demo_claim2).
Proof.
  destruct (run_ops_ok demo_s [OpTick] demo_w demo_inv demo_clock_pos) as (_ & Hi & Hc).
  apply (attempt_claimed_once demo_s demo_s demo_runner demo_runner [OpComplete "j3" 1 res_infra; OpClaim demo_runner]
    _ (claimed demo_claim1) demo_claim1.2 (claimed demo_claim2) demo_claim2.2 Hi Hc); vm_compute; reflexivity.
Defined.

(** ** Complete *)

Lemma complete_row_settles r res now :
  jr_state (complete_row r res now) ≠ JobPending ∧ jr_id (complete_row r res now) = jr_id r ∧
  jr_attempt (complete_row r res now) = jr_attempt r ∧ jr_state (complete_row r res now) ≠ JobRunning.
Proof. unfold complete_row. repeat case_bool_decide; simpl; try done; destruct (_ && _); done. Qed.

Lemma Complete_running w id r res :
  Inv (w_db w) → job_at (w_db w) id = Some r → jr_state r = JobRunning → valid_result res = None →
  ∃ w', Complete id (jr_attempt r) res w = (inr (scanJob (complete_row r res (now_of w))), w') ∧
    job_at (w_db w') id = Some (complete_row r res (now_of w)) ∧
    (∀ k x, k ≠ id → job_at (w_db w) k = Some x → jr_state x ≠ JobPending ∨ jr_run_id x ≠ jr_run_id r →
       job_at (w_db w') k = Some x).
Proof.
  intros Hinv Hr Hs Hv. set (row := complete_row r res (now_of w)).
  destruct (complete_row_settles r res (now_of w)) as (Hp & Hid & _).
  destruct (complete_tx_running w id r res Hinv Hr Hs Hv)
    as (tr & w1 & w2 & out & Hc & _ & _ & Hi & Hj & Hadv & row' & Hrow' & ->).
  assert (only_row w w1 id row) as Ho by (by apply (only_row_set w w1 id r)).
  assert (Hkeep : ∀ k x, job_at (w_db w1) k = Some x → jr_state x ≠ JobPending ∨ jr_run_id x ≠ jr_run_id r →
                  job_at (w_db w2) k = Some x).
  { intros k x Hk Hx. destruct (advanced_row _ _ _ _ _ Hadv Hk) as (x' & Hx' & Hm).
    destruct Hx as [Hx|Hx]; [by rewrite <-(moved_nonpending _ _ _ _ _ Hk Hm)|].
    by destruct Hm as [->|[(? & _)|(? & _)]]. }
  assert (job_at (w_db w2) id = Some row) as Hrow by (apply Hkeep; [by rewrite (Ho _), decide_True|by left]).
  rewrite Hrow in Hrow'. injection Hrow' as <-.
  unfold Complete. rewrite Hv. step_with (Tx_step _ _ _ _ Hc). eexists. split_and!; [done|done|].
  intros k x Hk Hx Hc'. apply Hkeep; [by rewrite (Ho _), decide_False|done].
Qed.

(** C8: What a result does.  Reporting the running attempt always succeeds and
    stores exactly the row the protocol prescribes: success; a cancellation, told
    apart from the server's timeout backstop; a requeue of an infrastructure
    failure while attempts remain and no cancel is pending; any other failure with
    its kind.  Jobs past pending and jobs of other runs are untouched. *)
Theorem complete_stores_verdict w id r res :
  Inv (w_db w) → job_at (w_db w) id = Some r → jr_state r = JobRunning → valid_result res = None →
  ∃ w', Complete id (jr_attempt r) res w = (inr (scanJob (complete_row r res (now_of w))), w') ∧
    job_at (w_db w') id = Some (complete_row r res (now_of w)) ∧
    (∀ k x, k ≠ id → job_at (w_db w) k = Some x → jr_state x ≠ JobPending ∨ jr_run_id x ≠ jr_run_id r →
       job_at (w_db w') k = Some x).
Proof. apply Complete_running. Qed.

Definition demo_j1 : JobRow := default (demo_job "" "" [] JobPending) (job_at demo_db "j1").
Lemma complete_stores_verdict_witness :
  ∃ w', Complete "j1" 1 res_infra demo_w = (inr (scanJob (complete_row demo_j1 res_infra 2000)), w') ∧
    job_state_at (w_db w') "j1" = Some JobQueued.
Proof.
  destruct (complete_stores_verdict demo_w "j1" demo_j1 res_infra demo_inv eq_refl eq_refl eq_refl) as (w' & H1 & H2 & _).
  exists w'. split; [exact H1|]. unfold job_state_at. rewrite H2. reflexivity.
Defined.

(** C4: Results are accepted exactly once.  After a result was accepted, any
    redelivery of that attempt, with any valid result and after any other calls,
    changes neither the database nor the metrics.  It is answered with the same job
    when the attempt ended the job; when the job was requeued it is answered with
    ErrFenced, or with the stored job if the job has meanwhile ended without a new
    attempt. *)
Theorem result_accepted_once s ops w id a res res' j w1 :
  Inv (w_db w) → clock_pos w → Complete id a res w = (inr j, w1) → valid_result res' = None →
  let w2 := run_ops s ops w1 in
  ∃ out w3, Complete id a res' w2 = (out, w3) ∧ w_db w3 = w_db w2 ∧ w_metrics w3 = w_metrics w2 ∧
    (terminal (j_State j) → out = inr j) ∧
    (out = inl ErrFenced ∨ ∃ r2, out = inr (scanJob r2) ∧ job_at (w_db w2) id = Some r2 ∧ terminal (jr_state r2)).
Proof.
  intros Hinv Hclk Hc Hv' w2.
  assert (clock_pos w1) as Hclk1.
  { intros n. pose proof (clock_Complete id a res w) as H. rewrite Hc in H. simpl in H. by rewrite H. }
  destruct (Complete_returns _ _ _ _ _ _ Hinv Hc) as (Hv & r & Hr & Hcase & _).
  assert (Inv (w_db w1) ∧ ∃ row, job_at (w_db w1) id = Some row ∧ j = scanJob row ∧ jr_attempt row = a ∧ jr_state row ≠ JobRunning)
    as (Hinv1 & row & Hrow & -> & Ha & Hs).
  { destruct Hcase as [(Hs & Ha & w' & _ & _ & _ & _ & Hi & _)|(Ht & Ha & -> & Ed)].
    - split; [done|]. subst a. destruct (Complete_running w id r res Hinv Hr Hs Hv) as (w'' & Hc' & Hrow & _).
      rewrite Hc in Hc'. injection Hc' as -> ->. eexists. split_and!; [exact Hrow|done| |];
        by destruct (complete_row_settles r res (now_of w)) as (? & ? & ? & ?).
    - rewrite Ed. split; [done|]. exists r. split_and!; [done|done|done|]. intros E. rewrite E in Ht. done. }
  destruct (history_row s ops w1 id row Hinv1 Hclk1 Hrow) as (r2 & Hr2 & He).
  assert (lost a r2) as [Hle Hl].
  { apply (evolves_lost a row); [done|]. split; [lia|]. naive_solver. }
  destruct (Complete_stale w2 id r2 a res' Hv' Hr2 Hl) as (w3 & Hc3 & Hd & Hm). eexists _, w3. split_and!; [exact Hc3|done|done| |].
  - simpl. intros Et. rewrite (ev_terminal _ _ He Et), bool_decide_true; done.
  - case_bool_decide as Hb; [right|by left]. exists r2. by destruct Hb.
Qed.

Lemma result_accepted_once_witness :
  ∃ out w3, Complete "j1" 1 res_exit (run_ops demo_s [OpClaim demo_runner; OpTick] (Complete "j1" 1 res_ok demo_w).2) = (out, w3) ∧
    out = inr (scanJob (complete_row demo_j1 res_ok 2000)).
Proof.
  destruct (result_accepted_once demo_s [OpClaim demo_runner; OpTick] demo_w "j1" 1 res_ok res_exit
    (scanJob (complete_row demo_j1 res_ok 2000)) (Complete "j1" 1 res_ok demo_w).2 demo_inv demo_clock_pos)
    as (out & w3 & H1 & _ & _ & H2 & _); [vm_compute; reflexivity|reflexivity|].
  exists out, w3. exact (conj H1 (H2 eq_refl)).
Defined.

(** ** The DAG *)

(** C7: [advance] always returns and decides every job of the run exactly.  A job
    ends skipped iff it was skipped or some need, directly or through pending jobs,
    can no longer succeed; queued iff it was queued or all its needs have
    succeeded; any other job keeps its row.  Afterwards no pending job can be
    decided, and an unfinished run has the verdict of its jobs once all are
    terminal. *)
Theorem advance_decides_exactly w k run tr :
  WF (w_db w) → run_at (w_db w) k = Some run →
  ∃ tr' w', advance k tr w = (inr tr', w') ∧ Settled (w_db w') k ∧
    (∀ id r, job_at (w_db w) id = Some r → jr_run_id r = k →
      (job_state_at (w_db w') id = Some JobSkipped ↔ jr_state r = JobSkipped ∨ Blocked (w_db w) id) ∧
      (job_state_at (w_db w') id = Some JobQueued ↔ jr_state r = JobQueued ∨ Ready (w_db w) id) ∧
      (¬ Blocked (w_db w) id → ¬ Ready (w_db w) id → job_at (w_db w') id = Some r)) ∧
    (¬ run_terminal (rr_state run) →
     rr_state <$> run_at (w_db w') k = Some (default (rr_state run) (run_verdict (w_db w') k))).
Proof.
  intros Hwf Hrun. destruct (advance_ok w k tr Hwf) as (tr' & w' & Ha & Hadv); [by exists run|].
  exists tr', w'. split_and!; [done|apply Hadv|intros id r Hr Hk; by apply (advanced_exact w w' k)|].
  intros Hnt. destruct (ad_run _ _ _ Hadv run Hrun) as (run' & -> & Hst). simpl. by rewrite Hst, bool_decide_false.
Qed.

(** The demo database just after [build] failed: [test] and [deploy] are blocked. *)
Definition demo_failed : World :=
  upd (set_job "j1" (finished_row demo_j1 JobFailed FailureExitCode (Some 1) "" 2000) demo_db) demo_w.
Lemma advance_decides_exactly_witness :
  ∃ tr' w', advance "r1" no_transitions demo_failed = (inr tr', w') ∧ job_state_at (w_db w') "j5" = Some JobSkipped.
Proof.
  destruct (advance_decides_exactly demo_failed "r1" _ no_transitions
    (wf_b_ok (w_db demo_failed) ltac:(vm_compute; reflexivity)) eq_refl) as (tr' & w' & H1 & _ & H2 & _).
  exists tr', w'. split; [exact H1|].
  apply (proj1 (H2 "j5" (demo_job "j5" "deploy" ["test"] JobPending) eq_refl eq_refl)). right.
  apply (Blocked_later _ "j5" "j2"); [reflexivity|unfold needs; simpl; right; left|].
  apply (Blocked_now _ "j2" "j1" JobFailed); [reflexivity|unfold needs; simpl; left|reflexivity|left; reflexivity].
Defined.

(** C5: A run's state is the state of its jobs.  After any calls, a run is finished
    exactly when all its jobs are terminal; then it is failed if a job failed, else
    cancelled if a job was cancelled, else succeeded (skipped jobs do not count). *)
Theorem run_state_is_verdict s ops w k run :
  Inv (w_db w) → clock_pos w → run_at (w_db (run_ops s ops w)) k = Some run →
  let js := jr_state <$> run_jobs (w_db (run_ops s ops w)) k in
  (run_terminal (rr_state run) ↔ Forall terminal js) ∧
  (rr_state run = RunFailed ↔ Forall terminal js ∧ JobFailed ∈ js) ∧
  (rr_state run = RunCancelled ↔ Forall terminal js ∧ ¬ (JobFailed ∈ js) ∧ JobCancelled ∈ js) ∧
  (rr_state run = RunSucceeded ↔ Forall (λ st, st = JobSucceeded ∨ st = JobSkipped) js).
Proof.
  intros Hinv Hclk Hr js. destruct (run_ops_ok s ops w Hinv Hclk) as (_ & Hi & _).
  destruct (inv_runs _ Hi _ _ Hr) as [_ HR]. unfold RunOK, run_verdict in HR. rewrite final_state_spec in HR. fold js in HR.
  clearbody js. unfold verdict_of in HR. unfold run_terminal in *.
  assert (Hall : Forall terminal js ↔ ¬ Exists (λ s, isTerminal s = false) js).
  { rewrite Forall_forall, Exists_exists. unfold terminal. split; [naive_solver congruence|].
    intros Hn x Hx. destruct (isTerminal x) eqn:E; [done|]. destruct Hn. eauto. }
  assert (Hsucc : Forall (λ st, st = JobSucceeded ∨ st = JobSkipped) js ↔
                  Forall terminal js ∧ ¬ (JobFailed ∈ js) ∧ ¬ (JobCancelled ∈ js)).
  { rewrite !Forall_forall. unfold terminal. split.
    - intros H. split_and!; [intros x Hx; by destruct (H x Hx) as [-> | ->]| |]; intros Hx; by destruct (H _ Hx).
    - intros (H1 & H2 & H3) x Hx. specialize (H1 x Hx). destruct x; try done; auto. }
  rewrite Hsucc. case_bool_decide as He.
  - assert (¬ Forall terminal js) by (rewrite Hall; naive_solver). destruct (rr_state run); naive_solver.
  - assert (Forall terminal js) by (by rewrite Hall). rewrite HR. repeat case_bool_decide; naive_solver.
Qed.

Lemma run_state_is_verdict_witness :
  ∃ run, run_at (w_db (run_ops demo_s [OpComplete "j1" 1 res_exit; OpCancelRun "r1"] demo_w)) "r1" = Some run ∧
    run_terminal (rr_state run).
Proof.
  pose (run := default (mkRunRow "" "" "" None None "" RunPending 0 None None)
    (run_at (w_db (run_ops demo_s [OpComplete "j1" 1 res_exit; OpCancelRun "r1"] demo_w)) "r1")).
  assert (run_at (w_db (run_ops demo_s [OpComplete "j1" 1 res_exit; OpCancelRun "r1"] demo_w)) "r1" = Some run) as E
    by (vm_compute; reflexivity).
  exists run. split; [exact E|].
  apply (proj1 (run_state_is_verdict demo_s [OpComplete "j1" 1 res_exit; OpCancelRun "r1"] demo_w "r1" run
    demo_inv demo_clock_pos E)).
  apply Forall_forall. intros x Hx. vm_compute in Hx. repeat (inversion Hx as [|? ? ? Hx']; subst; clear Hx; [reflexivity|rename Hx' into Hx]).
  inversion Hx.
Defined.

(** A consistent database has work for every run that is not finished. *)
Lemma Inv_has_work d k run :
  Inv d → Acyclic d → run_at d k = Some run → ¬ run_terminal (rr_state run) →
  ∃ r, r ∈ run_jobs d k ∧ (jr_state r = JobQueued ∨ jr_state r = JobRunning).
Proof.
  intros Hi [rank Hrk] Hr Hnt.
  destruct (inv_runs _ Hi _ _ Hr) as [HS HR].
  assert (Exists (λ s, isTerminal s = false) (jr_state <$> run_jobs d k)) as Hex.
  { unfold RunOK, run_verdict in HR. rewrite final_state_spec in HR. unfold verdict_of in HR.
    case_bool_decide; [done|]. destruct Hnt. rewrite HR. unfold run_terminal. repeat case_bool_decide; done. }
  apply Exists_exists in Hex as (st & (r0 & -> & Hr0)%list_elem_of_fmap & Hnterm).
  assert (∀ m r, (rank (jr_id r) < m)%nat → r ∈ run_jobs d k → isTerminal (jr_state r) = false →
    ∃ x, x ∈ run_jobs d k ∧ (jr_state x = JobQueued ∨ jr_state x = JobRunning)) as Hind;
    [|by apply (Hind (S (rank (jr_id r0))) r0); [lia|..]].
  induction m as [|m IH]; intros r Hm Hin Hterm; [lia|].
  destruct (jr_state r) eqn:Es; try done; [|by eauto|by eauto].
  destruct (HS r Hin Es) as [Hno (n & Hn & Hns)].
  destruct (wf_deps _ (inv_wf _ Hi) _ _ Hn) as (a & b & Ha & Hb & Hab).
  destruct (proj1 (elem_of_run_jobs _ _ _) Hin) as [Hin' Hk].
  assert (a = r) as -> by (assert (job_at d (jr_id r) = Some r) by (apply job_at_iff; [apply Hi|done]); congruence).
  destruct (job_at_Some _ _ _ Hb) as [Hbin Hbid].
  assert (job_state_at d n = Some (jr_state b)) as Hst by (unfold job_state_at; by rewrite Hb).
  apply (IH b).
  - rewrite Hbid. specialize (Hrk _ _ Hn). lia.
  - apply elem_of_run_jobs. split; [done|congruence].
  - specialize (Hno n _ Hn Hst). unfold bad_state in Hno. destruct (jr_state b); try done; naive_solver.
Qed.

(** C6: No run is ever stuck.  After any calls, a run whose dependencies are
    acyclic and that is not finished has a job some runner can claim or is
    running. *)
Theorem unfinished_run_has_work s ops w k run :
  Inv (w_db w) → clock_pos w → Acyclic (w_db w) →
  run_at (w_db (run_ops s ops w)) k = Some run → ¬ run_terminal (rr_state run) →
  ∃ r, r ∈ run_jobs (w_db (run_ops s ops w)) k ∧ (jr_state r = JobQueued ∨ jr_state r = JobRunning).
Proof.
  intros Hinv Hclk [rank Hrank] Hr Hnt. destruct (run_ops_ok s ops w Hinv Hclk) as (Hs & Hi & _).
  destruct (PSteps_static _ _ Hs) as (_ & _ & Hdeps). apply (Inv_has_work _ _ run Hi); [|done..].
  exists rank. intros id n. unfold needs. rewrite Hdeps. apply Hrank.
Qed.

Lemma unfinished_run_has_work_witness :
  ∃ r, r ∈ run_jobs (w_db (run_ops demo_s [OpComplete "j1" 1 res_ok] demo_w)) "r1" ∧
    (jr_state r = JobQueued ∨ jr_state r = JobRunning).
Proof.
  eapply (unfinished_run_has_work demo_s [OpComplete "j1" 1 res_ok] demo_w "r1" _ demo_inv demo_clock_pos);
    [|vm_compute; reflexivity|].
  - exists (λ id, if bool_decide (id = "j5") then 2%nat else if bool_decide (id = "j2") then 1%nat else 0%nat).
    intros id n Hn. unfold needs in Hn. simpl in Hn.
    apply elem_of_cons in Hn as [[= -> ->]|Hn]; [vm_compute; lia|].
    apply list_elem_of_singleton in Hn as [= -> ->]. vm_compute. lia.
  - intros [_ H]. apply H. reflexivity.
Defined.

(** ** CancelRun *)

(** A job of a cancelled run: over, or running and told to stop. *)
Definition winding_down (r : JobRow) : Prop :=
  terminal (jr_state r) ∨ (jr_state r = JobRunning ∧ is_Some (jr_cancel_requested_at r)).

Lemma JobEdge_winding_down d r r' :
  JobEdge d r r' → RowInv r → winding_down r → winding_down r' ∧ jr_attempt r' = jr_attempt r.
Proof.
  intros He Hi [Ht|[Hs [t Hc]]].
  - rewrite (ev_terminal _ _ (JobEdge_evolves _ _ _ He) Ht). split; [by left|done].
  - unfold winding_down. destruct He; simpl; try (rewrite Hs in *; naive_solver).
    + split; [|done]. left. by destruct (verdict_kind_terminal _ _ H0).
    + destruct (ri_cancel_nz _ Hi). rewrite Hc in H1. simpl in H1. by subst.
Qed.

Lemma PSteps_winding_down d d' id r :
  PSteps d d' → RowsInv d → job_at d id = Some r → winding_down r →
  ∃ r', job_at d' id = Some r' ∧ winding_down r' ∧ jr_attempt r' = jr_attempt r.
Proof.
  intros Hs. revert r. induction Hs as [|x y z Hxy _ IH]; intros r Hi Hr Hw; [by exists r|].
  assert (∃ r1, job_at y id = Some r1 ∧ winding_down r1 ∧ jr_attempt r1 = jr_attempt r) as (r1 & Hr1 & Hw1 & Ha1).
  { destruct (PStep_job _ _ id Hxy) as [E|(a & b & H0 & H1 & He)]; [exists r; by rewrite E|].
    assert (a = r) as -> by congruence. exists b.
    destruct (JobEdge_winding_down _ _ _ He (Hi _ _ Hr) Hw). done. }
  destruct (IH r1) as (r2 & ? & ? & ?); [by eapply PStep_RowsInv|done|done|]. exists r2. split_and!; try done. lia.
Qed.

Lemma cancel_outcome_winding r row : cancel_outcome r row → winding_down row.
Proof.
  intros (H1 & H2 & H3 & H4). unfold winding_down. destruct (jr_state r) eqn:Hs.
  - destruct H1 as (now & ->); [by left|by left].
  - destruct H1 as (now & ->); [by right|by left].
  - destruct (jr_cancel_requested_at r) as [t|] eqn:Hn.
    + rewrite H3 by done. right. rewrite Hs, Hn. eauto.
    + destruct H2 as (now & _ & ->); [done|done|]. right. simpl. eauto.
  - rewrite H4 by done. left. by rewrite Hs.
  - rewrite H4 by done. left. by rewrite Hs.
  - rewrite H4 by done. left. by rewrite Hs.
  - rewrite H4 by done. left. by rewrite Hs.
Qed.

(** The first cancel of a run sweeps it.  Every pending or queued job is
    cancelled, every running job has a cancel requested (an earlier request keeps
    its time and reason), every finished job is unchanged. *)
Theorem cancel_sweeps_run w k out w' :
  Inv (w_db w) → clock_pos w → ¬ cancel_requested (w_db w) k → CancelRun k w = (inr out, w') →
  ∀ r, r ∈ run_jobs (w_db w) k → ∃ row, job_at (w_db w') (jr_id r) = Some row ∧
    (jr_state r = JobPending ∨ jr_state r = JobQueued → ∃ now, row = cancelled_row r "cancelled by user" now) ∧
    (jr_state r = JobRunning → jr_cancel_requested_at r = None →
       ∃ now, now ≠ 0 ∧ row = requested_row r CancelReasonUser now) ∧
    (jr_state r = JobRunning → jr_cancel_requested_at r ≠ None → row = r) ∧
    (terminal (jr_state r) → row = r).
Proof.
  intros Hinv Hclk Hn Hc. destruct (CancelRun_returns _ _ _ _ Hinv Hclk Hc) as (_ & _ & run & run' & _ & _ & _ & _ & Hcase).
  by destruct Hcase as [[? _]|[_ H]].
Qed.

Definition ok_run (x : (Err + Run) * World) : Run :=
  match x.1 with inr r => r | _ => mkRun "" "" "" "" "" "" RunPending 0 0 0 end.
Definition demo_cancel := CancelRun "r1" demo_w.

Lemma cancel_sweeps_run_witness :
  ∃ row, job_at (w_db demo_cancel.2) "j3" = Some row ∧ jr_state row = JobCancelled.
Proof.
  destruct (cancel_sweeps_run demo_w "r1" (ok_run demo_cancel) demo_cancel.2 demo_inv demo_clock_pos) with
    (r := default (demo_job "" "" [] JobPending) (job_at demo_db "j3")) as (row & H1 & H2 & _).
  - intros (e & He & _). inversion He.
  - vm_compute. reflexivity.
  - apply elem_of_run_jobs. split; [simpl; right; right; left|reflexivity].
  - destruct (H2 (or_intror eq_refl)) as (now & E). exists row. split; [exact H1|]. rewrite E. reflexivity.
Defined.

(** C10: A cancelled run never restarts.  Once a cancel of the run was accepted,
    then after any further calls no job of the run is pending or queued, none is
    ever attempted again, and one that still runs has its cancel requested. *)
Theorem cancelled_run_never_restarts s ops w k out w' :
  Inv (w_db w) → clock_pos w → ¬ cancel_requested (w_db w) k → CancelRun k w = (inr out, w') →
  ∀ r, r ∈ run_jobs (w_db w) k → ∃ r', job_at (w_db (run_ops s ops w')) (jr_id r) = Some r' ∧
    jr_attempt r' = jr_attempt r ∧
    (terminal (jr_state r') ∨ (jr_state r' = JobRunning ∧ is_Some (jr_cancel_requested_at r'))).
Proof.
  intros Hinv Hclk Hn Hc r Hr.
  destruct (CancelRun_returns _ _ _ _ Hinv Hclk Hc) as (_ & Hinv' & run & run' & _ & _ & _ & _ & Hcase).
  destruct Hcase as [[? _]|[_ H]]; [done|]. destruct (H r Hr) as (row & Hrow & Ho).
  assert (clock_pos w') as Hclk'.
  { intros n. pose proof (clock_CancelRun k w) as E. rewrite Hc in E. simpl in E. by rewrite E. }
  destruct (run_ops_ok s ops w' Hinv' Hclk') as (Hs & _ & _).
  destruct (PSteps_winding_down _ _ _ _ Hs (inv_rows _ Hinv') Hrow (cancel_outcome_winding _ _ Ho)) as (r' & Hr' & Hw & Ha).
  exists r'. split_and!; [done| |done]. rewrite Ha. destruct Ho as (H1 & H2 & H3 & H4).
  destruct (jr_state r) eqn:Es; try (by rewrite H4).
  - by destruct H1 as (? & ->); [left|].
  - by destruct H1 as (? & ->); [right|].
  - destruct (decide (jr_cancel_requested_at r = None)) as [Hx|Hx]; [by destruct H2 as (? & _ & ->)|by rewrite H3].
Qed.

Lemma cancelled_run_never_restarts_witness :
  ∃ r', job_at (w_db (run_ops demo_s [OpTick; OpClaim demo_runner] demo_cancel.2)) "j1" = Some r' ∧ jr_attempt r' = 1.
Proof.
  destruct (cancelled_run_never_restarts demo_s [OpTick; OpClaim demo_runner] demo_w "r1" (ok_run demo_cancel) demo_cancel.2
    demo_inv demo_clock_pos) with (r := demo_j1) as (r' & H1 & H2 & _).
  - intros (e & He & _). inversion He.
  - vm_compute. reflexivity.
  - apply elem_of_run_jobs. split; [simpl; left|reflexivity].
  - exists r'. exact (conj H1 H2).
Defined.

(** ** Heartbeat *)

(** What a heartbeat answers and does.  Each listed attempt is told to continue
    if this runner still runs it, to cancel if a cancel was requested, and to abort
    otherwise; the attempts it still runs end with a lease of one TTL from a clock
    reading of the call; nothing but leases changes in any job. *)
Theorem heartbeat_directs_and_extends s runner js w ds w' :
  Inv (w_db w) → Heartbeat s runner js w = (inr ds, w') →
  ds = (λ j, mkDirective (jf_JobID j) (jf_Attempt j) (directive_for (w_db w) runner j)) <$> js ∧
  (∀ id, no_lease <$> job_at (w_db w') id = no_lease <$> job_at (w_db w) id) ∧
  (∀ j, j ∈ js → directive_for (w_db w) runner j ≠ DirectiveAbort →
     ∃ n, jr_lease_expires_at <$> job_at (w_db w') (jf_JobID j) = Some (Some (w_clock w n + s_ttl s))).
Proof.
  intros Hinv Hh. destruct (Heartbeat_ok _ _ _ _ _ _ Hinv Hh) as (_ & _ & Hds & Hsl & Hheld & _).
  split_and!; [done|done|]. intros j Hj Hd. apply Hheld; [done|]. by rewrite (directive_for_leases _ _ _ _ Hsl).
Qed.

Definition demo_hb := Heartbeat demo_s "ra" [mkJobRef "j1" 1; mkJobRef "j3" 1] demo_w.
Lemma heartbeat_directs_and_extends_witness :
  ∃ n, jr_lease_expires_at <$> job_at (w_db demo_hb.2) "j1" = Some (Some (demo_clock n + 30000)).
Proof.
  destruct (heartbeat_directs_and_extends demo_s "ra" [mkJobRef "j1" 1; mkJobRef "j3" 1] demo_w
    [mkDirective "j1" 1 DirectiveContinue; mkDirective "j3" 1 DirectiveAbort] demo_hb.2 demo_inv) as (_ & _ & H);
    [vm_compute; reflexivity|].
  apply (H (mkJobRef "j1" 1)); [left|vm_compute; discriminate].
Defined.

(** ** Tick *)

(** C11: What a monitor pass does.  It always returns.  With [now] its first clock
    reading, a running job whose lease ran out (outside the start-up grace) is
    requeued while attempts remain and no cancel is pending, and otherwise failed
    as lost_runner; one that is past its timeout and the grace gets a cancel
    request with reason timeout, unless one is pending; every other running job
    keeps its row. *)
Theorem tick_decides_running_jobs s w :
  Inv (w_db w) → clock_pos w →
  let now := now_of w in
  ∃ rep w', Tick s w = (inr rep, w') ∧
    ∀ r, r ∈ db_jobs (w_db w) → jr_state r = JobRunning → ∃ row n, job_at (w_db w') (jr_id r) = Some row ∧
      row =
      if tick_expired s now r then
        if can_retry r then requeued_row r (expiry_msg (scanJob r)) (w_clock w n)
        else finished_row r JobFailed FailureLostRunner None (expiry_msg (scanJob r)) (w_clock w n)
      else if bool_decide (jr_cancel_requested_at r = None) && overdue s now r
      then requested_row r CancelReasonTimeout (w_clock w n)
      else r.
Proof.
  intros Hinv Hclk now. destruct (Tick_returns s w Hinv Hclk) as (rep & w' & Ht & _ & _ & H).
  exists rep, w'. split; [done|]. intros r Hr Hs. destruct (H r Hr Hs) as (row & Hrow & n & ->).
  eexists _, n. split; [exact Hrow|]. fold now. unfold expired_row, backstop_row.
  destruct (tick_expired s now r); [done|]. by destruct (bool_decide _), (overdue s now r).
Qed.

Lemma tick_decides_running_jobs_witness :
  ∃ rep w', Tick demo_s demo_w = (inr rep, w') ∧ job_state_at (w_db w') "j1" = Some JobQueued.
Proof.
  destruct (tick_decides_running_jobs demo_s demo_w demo_inv demo_clock_pos) as (rep & w' & H1 & H2).
  exists rep, w'. split; [exact H1|].
  destruct (H2 demo_j1) as (row & n & H3 & H4); [simpl; left|reflexivity|].
  unfold job_state_at. change "j1" with (jr_id demo_j1). rewrite H3, H4. reflexivity.
Defined.

(** A restart loses no attempt.  A scheduler started at [t0] expires no lease
    before [t0] plus the TTL: a monitor pass in that window leaves every running
    job running, under the same attempt and on the same runner. *)
Theorem restart_grace_keeps_attempts cfg w0 s w1 w :
  New cfg w0 = (inr s, w1) → Inv (w_db w) → clock_pos w → now_of w < now_of w0 + s_ttl s →
  ∃ rep w', Tick s w = (inr rep, w') ∧
    ∀ r, r ∈ db_jobs (w_db w) → jr_state r = JobRunning → ∃ row, job_at (w_db w') (jr_id r) = Some row ∧
      jr_state row = JobRunning ∧ jr_attempt row = jr_attempt r ∧ jr_runner_id row = jr_runner_id r.
Proof.
  intros Hnew Hinv Hclk Hnow. destruct (Tick_returns s w Hinv Hclk) as (rep & w' & Ht & _ & _ & H).
  exists rep, w'. split; [done|]. intros r Hr Hs. destruct (H r Hr Hs) as (row & Hrow & n & ->).
  assert (tick_expired s (now_of w) r = false) as E.
  { unfold New, Now in Hnew. unfold mbind, M_bind, mret, M_ret in Hnew. injection Hnew as <- _.
    unfold tick_expired. simpl in *. unfold now_of in *. by rewrite bool_decide_false by lia. }
  eexists. split; [exact Hrow|]. rewrite E. unfold backstop_row.
  destruct (bool_decide _), (overdue s (now_of w) r); done.
Qed.

Definition demo_cfg : Config := mkConfig (30 * Second) 0 0 0 0 0.
Definition ok_sched (x : (Err + Scheduler) * World) : Scheduler := match x.1 with inr s => s | _ => demo_s end.
Lemma restart_grace_keeps_attempts_witness :
  ∃ rep w', Tick (ok_sched (New demo_cfg demo_w)) (New demo_cfg demo_w).2 = (inr rep, w').
Proof.
  destruct (restart_grace_keeps_attempts demo_cfg demo_w (ok_sched (New demo_cfg demo_w)) (New demo_cfg demo_w).2
    (New demo_cfg demo_w).2) as (rep & w' & H & _);
    [vm_compute; reflexivity|exact demo_inv|exact demo_clock_pos|vm_compute; reflexivity|].
  exists rep, w'. exact H.
Defined.

(** ** AppendLogs *)

(** An accepted batch appends, for that attempt, one row per new chunk, holding
    together the prefix of the new bytes that fits. *)
Lemma AppendLogs_new s id a chunks w w' :
  Inv (w_db w) → AppendLogs s id a chunks w = (inr tt, w') →
  let new := new_chunks (log_seqs (w_db w) id a) chunks in
  ∃ rows, db_log_chunks (w_db w') = db_log_chunks (w_db w) ++ rows ∧
    attempt_rows (w_db w') id a = attempt_rows (w_db w) id a ++ rows ∧
    lr_seq <$> rows = c_Seq <$> new ∧
    mjoin (lr_data <$> rows) = take (Z.to_nat (s_logCap s - log_total (w_db w) id a)) (mjoin (c_Data <$> new)) ∧
    sum_len rows ≤ Z.max 0 (s_logCap s - log_total (w_db w) id a).
Proof.
  intros Hinv Hc new.
  destruct (AppendLogs_returns _ _ _ _ _ _ Hinv Hc) as (r & w1 & st & Hr & Hs & <- & _ & Hap & Hd & _).
  set (rows := append_rows (s_logCap s) id (jr_attempt r) (log_total (w_db w) id (jr_attempt r))
                 (log_seqs (w_db w) id (jr_attempt r)) chunks).
  exists rows. split_and!.
  - by rewrite Hd, (ap_rows _ _ _ _ _ _ _ Hap).
  - rewrite <-attempt_rows_app by apply append_rows_owner. unfold attempt_rows. simpl.
    by rewrite Hd, (ap_rows _ _ _ _ _ _ _ Hap).
  - apply append_rows_new.
  - apply append_rows_prefix.
  - apply append_rows_cap.
Qed.

(** C12: The log cap holds and is spent on a prefix of what is new.  Of an accepted
    batch the chunks whose sequence number the attempt already holds, or that repeat
    an earlier one of the batch, store nothing; each other chunk gets one row, in the
    batch's order, and these rows together hold exactly the longest prefix of the new
    chunks' bytes that keeps the attempt within the cap.  Every earlier row is kept,
    no other attempt gets one, and the stored total never passes the cap if it had
    not.  A batch that was stored before adds no row at all. *)
Theorem logs_store_prefix_within_cap s id a chunks w w' :
  Inv (w_db w) → AppendLogs s id a chunks w = (inr tt, w') →
  let new := new_chunks (log_seqs (w_db w) id a) chunks in
  (∃ rows, db_log_chunks (w_db w') = db_log_chunks (w_db w) ++ rows ∧
     (∀ row, row ∈ rows → lr_job_id row = id ∧ lr_attempt row = a) ∧
     lr_seq <$> rows = c_Seq <$> new ∧
     mjoin (lr_data <$> rows) =
       take (Z.to_nat (s_logCap s - log_total (w_db w) id a)) (mjoin (c_Data <$> new))) ∧
  log_total (w_db w') id a ≤ Z.max (log_total (w_db w) id a) (s_logCap s) ∧
  (NoDup (c_Seq <$> chunks) → (∀ c, c ∈ chunks → c_Seq c ∉ log_seqs (w_db w) id a) → new = chunks) ∧
  ((∀ c, c ∈ chunks → c_Seq c ∈ log_seqs (w_db w) id a) → db_log_chunks (w_db w') = db_log_chunks (w_db w)).
Proof.
  intros Hinv Hc new. destruct (AppendLogs_new _ _ _ _ _ _ Hinv Hc) as (rows & Hd & Hrows & Hseq & Hdata & Hcap).
  fold new in Hseq, Hdata. split_and!.
  - exists rows. split_and!; [done| |done|done]. intros row Hin.
    assert (row ∈ attempt_rows (w_db w') id a) as [_ Hp]%elem_of_sql_select by (rewrite Hrows; set_solver).
    unfold is_chunk in Hp. apply andb_true_iff in Hp as [?%bool_decide_eq_true ?%bool_decide_eq_true]. done.
  - unfold log_total at 1. rewrite Hrows, sum_len_app. unfold log_total in *. lia.
  - apply new_chunks_all.
  - intros Hall. unfold new in Hseq. rewrite (new_chunks_seen _ _ Hall) in Hseq. apply fmap_nil_inv in Hseq as ->.
    by rewrite Hd, app_nil_r.
Qed.

Definition demo_chunks : list LogChunk := [mkLogChunk 1 (replicate 15 65%N); mkLogChunk 2 (replicate 9 66%N)].
Lemma logs_store_prefix_within_cap_witness :
  let w1 := (AppendLogs demo_s "j1" 1 demo_chunks demo_w).2 in
  let w2 := (AppendLogs demo_s "j1" 1 demo_chunks w1).2 in
  log_total (w_db w1) "j1" 1 ≤ 20 ∧ db_log_chunks (w_db w2) = db_log_chunks (w_db w1).
Proof.
  intros w1 w2. assert (AppendLogs demo_s "j1" 1 demo_chunks demo_w = (inr tt, w1)) as E by (vm_compute; reflexivity).
  split.
  - exact (proj1 (proj2 (logs_store_prefix_within_cap demo_s "j1" 1 demo_chunks demo_w w1 demo_inv E))).
  - destruct (AppendLogs_returns demo_s "j1" 1 demo_chunks demo_w w1 demo_inv E) as (r & wa & st & _ & _ & _ & _ & Hap & Hd & _).
    destruct (soft_good _ _ (ap_soft _ _ _ _ _ _ _ Hap) (demo_inv : Inv (w_db demo_w))) as [_ Hinv1]. rewrite <-Hd in Hinv1.
    refine (proj2 (proj2 (proj2 (logs_store_prefix_within_cap demo_s "j1" 1 demo_chunks w1 w2 Hinv1 _))) _).
    + vm_compute. reflexivity.
    + apply Forall_forall, (bool_decide_eq_true_1 (Forall (λ c, c_Seq c ∈ log_seqs (w_db w1) "j1" 1) demo_chunks)).
      vm_compute. reflexivity.
Defined.

(** Log redelivery is harmless.  Sending an accepted batch again while the
    attempt still runs is accepted, and changes neither the database nor the
    ingested-bytes metric. *)
Theorem log_redelivery_is_noop s id a chunks w w1 :
  Inv (w_db w) → AppendLogs s id a chunks w = (inr tt, w1) →
  ∃ w2, AppendLogs s id a chunks w1 = (inr tt, w2) ∧
    db_log_chunks (w_db w2) = db_log_chunks (w_db w1) ∧ db_events (w_db w2) = db_events (w_db w1) ∧
    db_jobs (w_db w2) = db_jobs (w_db w1) ∧ m_LogBytes (w_metrics w2) = m_LogBytes (w_metrics w1).
Proof.
  intros Hinv Hc.
  destruct (AppendLogs_returns _ _ _ _ _ _ Hinv Hc) as (r & wa & st & Hr & Hs & <- & Hseq & Hap & Hd & _).
  destruct (soft_good _ _ (ap_soft _ _ _ _ _ _ _ Hap) Hinv) as [_ Hinv1]. rewrite <-Hd in Hinv1.
  assert (job_at (w_db w1) id = Some r) as Hr1 by (rewrite Hd, (job_at_jobs _ _ _ (ap_jobs _ _ _ _ _ _ _ Hap)); done).
  destruct (append_tx_ok s id r chunks w1 (inv_wf _ Hinv1) Hr1 Hs) as (st2 & w2 & Htx & Hap2).
  destruct (append_rows_seen (s_logCap s) id (jr_attempt r) (log_total (w_db w1) id (jr_attempt r))
              (log_seqs (w_db w1) id (jr_attempt r)) chunks) as [Hnil Hlost].
  { intros c Hin. unfold log_seqs at 1. rewrite Hd. unfold attempt_rows. rewrite (ap_rows _ _ _ _ _ _ _ Hap).
    change (sql_select (is_chunk id (jr_attempt r)) (db_log_chunks (w_db w) ++ ?x)) with
      (attempt_rows ((w_db w) <| db_log_chunks := db_log_chunks (w_db w) ++ x |>) id (jr_attempt r)).
    rewrite attempt_rows_app by apply append_rows_owner. rewrite fmap_app. by apply append_rows_seqs. }
  assert (bad_seq chunks = None) as Hb.
  { unfold AppendLogs in Hc. by destruct (bad_seq chunks). }
  pose proof (ap_rows _ _ _ _ _ _ _ Hap2) as Hrows2. rewrite Hnil, app_nil_r in Hrows2.
  assert (st2 = 0) as ->.
  { rewrite (ap_stored _ _ _ _ _ _ _ Hap2). unfold log_total, attempt_rows. rewrite Hrows2. lia. }
  unfold AppendLogs. rewrite Hb. step_with (Tx_step _ _ _ _ Htx). eexists. split; [done|]. simpl.
  destruct (ap_events _ _ _ _ _ _ _ Hap2 Hlost). split_and!; [done|done|apply Hap2|].
  rewrite (evo_metrics _ _ (so_evo _ _ (ap_soft _ _ _ _ _ _ _ Hap2))). lia.
Qed.

Lemma log_redelivery_is_noop_witness :
  ∃ w2, AppendLogs demo_s "j1" 1 demo_chunks (AppendLogs demo_s "j1" 1 demo_chunks demo_w).2 = (inr tt, w2).
Proof.
  destruct (log_redelivery_is_noop demo_s "j1" 1 demo_chunks demo_w (AppendLogs demo_s "j1" 1 demo_chunks demo_w).2
    demo_inv ltac:(vm_compute; reflexivity)) as (w2 & H & _). exists w2. exact H.
Defined.

(** Truncation is reported once.  However many batches of an attempt lose bytes
    to the cap, its job.logs_truncated event is recorded at most once, and it is
    recorded as soon as one does. *)
Theorem truncation_reported_once s id a chunks w w' r :
  Inv (w_db w) → AppendLogs s id a chunks w = (inr tt, w') → job_at (w_db w) id = Some r →
  (trunc_count (w_db w) (jr_run_id r) id a ≤ 1)%nat →
  (trunc_count (w_db w') (jr_run_id r) id a ≤ 1)%nat ∧
  (append_lost (s_logCap s) (log_total (w_db w) id a) (log_seqs (w_db w) id a) chunks = true →
   trunc_count (w_db w') (jr_run_id r) id a = 1%nat).
Proof.
  intros Hinv Hc Hr Hle.
  destruct (AppendLogs_returns _ _ _ _ _ _ Hinv Hc) as (r' & wa & st & Hr' & Hs & <- & _ & Hap & Hd & _).
  assert (r' = r) as -> by congruence. pose proof (ap_trunc _ _ _ _ _ _ _ Hap) as Ht. rewrite <-Hd in Ht.
  rewrite Ht. destruct (append_lost _ _ _ _); split; try done; lia.
Qed.

Lemma truncation_reported_once_witness :
  trunc_count (w_db (AppendLogs demo_s "j1" 1 demo_chunks demo_w).2) "r1" "j1" 1 = 1%nat.
Proof.
  apply (truncation_reported_once demo_s "j1" 1 demo_chunks demo_w (AppendLogs demo_s "j1" 1 demo_chunks demo_w).2 demo_j1
    demo_inv); [vm_compute; reflexivity|reflexivity|vm_compute; lia|vm_compute; reflexivity].
Defined.
