(* ===== verification/PipelineSpec.v ===== *)
(** * What parsing and validation guarantee

    Kahn's algorithm is proved correct against the edges the jobs declare (it never
    exhausts its fuel, returns a topological order of all jobs iff there is no
    cycle), and a pipeline [finalize] accepts is well formed. *)

From S2P Require Import Prelude GoLib Pipeline.

Local Open Scope Z_scope.

(** ** Kahn's algorithm *)

Section kahn.
Context (jobs : list PJob) (deps : gmap string (list string)).
Let names := pj_Name <$> jobs.
Let dep n := default [] (deps !! n).

(** What validation has established when [topo] runs: distinct names, needs
    that are distinct names of other jobs, and [deps] the reverse edges. *)
Record edges_ok : Prop := {
  eo_names : NoDup names;
  eo_needs : ∀ j, j ∈ jobs → NoDup (pj_Needs j) ∧ ∀ n, n ∈ pj_Needs j → n ∈ names;
  eo_deps_nodup : ∀ n, NoDup (dep n);
  eo_deps : ∀ n x, x ∈ dep n ↔ ∃ j, j ∈ jobs ∧ pj_Name j = x ∧ n ∈ pj_Needs j
}.
Context (Hok : edges_ok).

(** A job's needs that are not in [out]. *)
Definition missing (out : list string) (j : PJob) : list string := filter (λ n, n ∉ out) (pj_Needs j).

Record kahn_inv (indeg : gmap string Z) (ready out : list string) : Prop := {
  ki_nodup : NoDup (out ++ ready);
  ki_deg : ∀ j, j ∈ jobs → deg indeg (pj_Name j) = Z.of_nat (length (missing out j));
  ki_ready : ∀ x, x ∈ out ++ ready ↔ ∃ j, j ∈ jobs ∧ pj_Name j = x ∧ missing out j = [];
  ki_sorted : ∀ l1 x l2 j, out = l1 ++ x :: l2 → j ∈ jobs → pj_Name j = x → ∀ n, n ∈ pj_Needs j → n ∈ l1
}.

Lemma job_of_name j1 j2 : j1 ∈ jobs → j2 ∈ jobs → pj_Name j1 = pj_Name j2 → j1 = j2.
Proof.
  intros H1 H2 E. assert (keys_unique pj_Name jobs) as Hu by apply Hok.
  pose proof (by_key_row pj_Name jobs (pj_Name j1) j1 Hu H1 eq_refl).
  pose proof (by_key_row pj_Name jobs (pj_Name j1) j2 Hu H2 (eq_sym E)). congruence.
Qed.

Lemma release_spec ds indeg ready :
  NoDup ds →
  let '(indeg', ready') := release ds indeg ready in
  (∀ x, deg indeg' x = deg indeg x - (if bool_decide (x ∈ ds) then 1 else 0)) ∧
  ready' = ready ++ filter (λ x, deg indeg x = 1) ds.
Proof.
  intros Hnd. revert indeg ready. induction Hnd as [|d ds Hd Hnd IH]; intros indeg ready; simpl.
  { split; [intros x; lia|by rewrite app_nil_r]. }
  set (indeg1 := <[d := deg indeg d - 1]> indeg).
  assert (Hdeg : ∀ x, deg indeg1 x = if decide (x = d) then deg indeg d - 1 else deg indeg x).
  { intros x. subst indeg1. unfold deg. case_decide as E; [subst; by rewrite lookup_insert_eq|].
    by rewrite lookup_insert_ne. }
  set (ready1 := if bool_decide (deg indeg1 d = 0) then ready ++ [d] else ready).
  specialize (IH indeg1 ready1). destruct (release ds indeg1 ready1) as [indeg' ready'].
  destruct IH as [IH1 IH2]. split.
  - intros x. rewrite IH1, Hdeg. case_decide as E.
    + subst x. rewrite (bool_decide_false (d ∈ ds)), (bool_decide_true (d ∈ d :: ds)) by (done || by left). lia.
    + rewrite (bool_decide_ext (x ∈ d :: ds) (x ∈ ds)); [lia|]. rewrite elem_of_cons. naive_solver.
  - rewrite IH2. subst ready1. rewrite Hdeg, decide_True by done.
    assert (filter (λ x, deg indeg1 x = 1) ds = filter (λ x, deg indeg x = 1) ds) as ->.
    { apply filter_ext_in. intros x Hx. rewrite Hdeg, decide_False; [done|]. by intros ->. }
    rewrite filter_cons. destruct (decide (deg indeg d = 1)) as [E|E].
    + rewrite bool_decide_true by lia. by rewrite <-app_assoc.
    + by rewrite bool_decide_false by lia.
Qed.

Lemma length_missing_snoc out n j :
  NoDup (pj_Needs j) → n ∉ out →
  Z.of_nat (length (missing (out ++ [n]) j)) =
  Z.of_nat (length (missing out j)) - (if bool_decide (n ∈ pj_Needs j) then 1 else 0).
Proof.
  unfold missing. intros Hnd Hn. induction Hnd as [|x l Hx Hnd IH]; simpl; [done|].
  rewrite !filter_cons. destruct (decide (x = n)) as [->|Hne].
  - rewrite (bool_decide_true (n ∈ n :: l)) by (by left). rewrite bool_decide_false in IH by done.
    rewrite (decide_False (P := n ∉ out ++ [n])) by (intros H; apply H; set_solver).
    rewrite decide_True by done. simpl. lia.
  - rewrite (bool_decide_ext (n ∈ x :: l) (n ∈ l)) by (rewrite elem_of_cons; naive_solver).
    destruct (decide (x ∈ out)) as [Hin|Hin].
    + rewrite !decide_False by set_solver. done.
    + rewrite !decide_True by set_solver. simpl. lia.
Qed.

Lemma missing_nil out j : missing out j = [] ↔ ∀ n, n ∈ pj_Needs j → n ∈ out.
Proof.
  unfold missing. split.
  - intros E n Hn. apply dec_stable. intros Ho.
    assert (n ∈ filter (λ n, n ∉ out) (pj_Needs j)) as H by (by apply list_elem_of_filter).
    rewrite E in H. by apply elem_of_nil in H.
  - intros H. destruct (filter _ _) as [|n l] eqn:E; [done|].
    assert (n ∈ filter (λ n, n ∉ out) (pj_Needs j)) as [Ho Hn]%list_elem_of_filter by (rewrite E; by left).
    destruct Ho. auto.
Qed.

Lemma kahn_start :
  kahn_inv (init_indeg jobs)
    (pj_Name <$> List.filter (λ j, bool_decide (deg (init_indeg jobs) (pj_Name j) = 0)) jobs) [].
Proof.
  assert (Hdeg : ∀ j, j ∈ jobs → deg (init_indeg jobs) (pj_Name j) = Z.of_nat (length (pj_Needs j))).
  { intros j Hj. unfold deg, init_indeg.
    by rewrite (fold_insert_in pj_Name (λ j, Z.of_nat (length (pj_Needs j))) jobs ∅ j (eo_names Hok) Hj). }
  assert (Hmiss : ∀ j, missing [] j = pj_Needs j).
  { intros j. unfold missing. induction (pj_Needs j) as [|x l IH]; [done|].
    rewrite filter_cons, decide_True, IH; [done|]. apply not_elem_of_nil. }
  split.
  - simpl. apply (sql_select_keys pj_Name), Hok.
  - intros j Hj. by rewrite Hmiss, Hdeg.
  - intros x. simpl. rewrite list_elem_of_fmap. split.
    + intros (j & -> & [Hj Hz%bool_decide_eq_true]%(elem_of_sql_select _ jobs)). exists j.
      rewrite Hdeg in Hz by done. rewrite Hmiss. split_and!; [done|done|]. apply length_zero_iff_nil. lia.
    + intros (j & Hj & <- & E). exists j. split; [done|]. apply (elem_of_sql_select _ jobs). split; [done|].
      rewrite Hmiss in E. rewrite Hdeg, E by done. by apply bool_decide_eq_true.
  - intros l1 x l2 j E. by destruct l1.
Qed.

Lemma kahn_step indeg ready out n ready' indeg' ready'' :
  kahn_inv indeg ready out → n :: ready' ≡ₚ ready → release (dep n) indeg ready' = (indeg', ready'') →
  kahn_inv indeg' ready'' (out ++ [n]).
Proof.
  intros [K1 K2 K3 K4] Hp Hrel. rewrite <-Hp in K1.
  assert (K3' : ∀ x, x ∈ out ++ n :: ready' ↔ ∃ j, j ∈ jobs ∧ pj_Name j = x ∧ missing out j = [])
    by (intros x; rewrite Hp; apply K3).
  pose proof (release_spec (dep n) indeg ready' (eo_deps_nodup Hok n)) as Hs. rewrite Hrel in Hs.
  destruct Hs as [Hdeg ->].
  assert (Hn : n ∉ out) by (apply NoDup_app in K1 as (_ & Hd & _); intros Hn; eapply Hd; [done|by left]).
  assert (Hdep : ∀ j, j ∈ jobs → pj_Name j ∈ dep n ↔ n ∈ pj_Needs j).
  { intros j Hj. rewrite (eo_deps Hok). split; [|by eauto]. intros (j' & Hj' & E & H).
    by rewrite <-(job_of_name j' j). }
  assert (K2' : ∀ j, j ∈ jobs → deg indeg' (pj_Name j) = Z.of_nat (length (missing (out ++ [n]) j))).
  { intros j Hj. rewrite Hdeg, (K2 j Hj), length_missing_snoc by (done || by apply (eo_needs Hok)).
    by rewrite (bool_decide_ext _ _ (Hdep j Hj)). }
  split.
  - rewrite <-app_assoc. simpl. change (n :: ready' ++ ?l) with ((n :: ready') ++ l). rewrite app_assoc.
    apply NoDup_app. split_and!; [done| |by apply NoDup_filter, Hok].
    intros x Hx [Hx1 Hx2]%list_elem_of_filter. apply K3' in Hx as (j & Hj & <- & E).
    rewrite (K2 j Hj), E in Hx1. done.
  - done.
  - intros x. rewrite <-app_assoc. simpl. change (n :: ready' ++ ?l) with ((n :: ready') ++ l).
    rewrite app_assoc, elem_of_app, K3', list_elem_of_filter. split.
    + intros [(j & Hj & <- & E)|[H1 H2]].
      * exists j. split_and!; try done. rewrite missing_nil in *. set_solver.
      * apply (eo_deps Hok) in H2 as (j & Hj & <- & Hnj). exists j. split_and!; try done.
        apply length_zero_iff_nil. specialize (K2' j Hj). rewrite Hdeg, H1 in K2'.
        rewrite bool_decide_true in K2' by (by apply Hdep). lia.
    + intros (j & Hj & <- & E). destruct (decide (missing out j = [])) as [E0|E0]; [left; eauto|right].
      specialize (K2' j Hj). rewrite E, Hdeg, (K2 j Hj) in K2'. simpl in K2'.
      destruct (missing out j) as [|m l] eqn:Em; [done|]. simpl in K2'.
      case_bool_decide as Hd; [|lia]. split; [|done]. rewrite (K2 j Hj), Em. simpl. lia.
  - intros l1 x l2 j E Hj Hx m Hm.
    destruct l2 as [|y l2 _] using rev_ind.
    + apply app_inj_tail in E as [<- <-].
      assert (n ∈ out ++ n :: ready') as (j' & Hj' & E' & Hmiss)%K3' by set_solver.
      rewrite (job_of_name j j') in Hm by (done || congruence). rewrite missing_nil in Hmiss. auto.
    + rewrite app_comm_cons, app_assoc in E. apply app_inj_tail in E as [-> _]. by eapply K4.
Qed.

Lemma kahn_bound indeg ready out : kahn_inv indeg ready out → (length out + length ready ≤ length jobs)%nat.
Proof.
  intros [K1 _ K3 _]. rewrite <-length_app.
  assert (out ++ ready ⊆+ names) as Hsub.
  { apply NoDup_submseteq; [done|]. intros x (j & Hj & <- & _)%K3. by apply list_elem_of_fmap_2. }
  apply submseteq_length in Hsub. unfold names in Hsub. by rewrite length_fmap in Hsub.
Qed.

Lemma topo_loop_ok fuel indeg ready out :
  kahn_inv indeg ready out → (length out + fuel = length jobs)%nat →
  ∃ out' indeg', topo_loop jobs deps fuel indeg ready out = Some (out', indeg') ∧ kahn_inv indeg' [] out'.
Proof.
  revert indeg ready out. induction fuel as [|fuel IH]; intros indeg ready out Hinv Hlen; simpl;
    pose proof (order_by_perm (ready_leb jobs) ready) as Hp;
    destruct (order_by (ready_leb jobs) ready) as [|n ready'] eqn:E;
    try (apply Permutation_nil_l in Hp; rewrite <-Hp in *; by eauto).
  - apply kahn_bound in Hinv. apply Permutation_length in Hp. simpl in Hp. lia.
  - destruct (release (default [] (deps !! n)) indeg ready') as [indeg' ready''] eqn:Er.
    apply IH; [by eapply kahn_step|]. rewrite length_app. simpl. lia.
Qed.

(** The jobs left over: each waits for another one. *)
Lemma kahn_stuck indeg out : kahn_inv indeg [] out →
  ∀ j, j ∈ jobs → deg indeg (pj_Name j) > 0 →
  ∃ j', j' ∈ jobs ∧ pj_Name j' ∈ pj_Needs j ∧ deg indeg (pj_Name j') > 0.
Proof.
  intros [K1 K2 K3 K4] j Hj Hd. rewrite (K2 j Hj) in Hd.
  destruct (missing out j) as [|n l] eqn:Em; [simpl in Hd; lia|].
  assert (n ∈ missing out j) as [Hno Hn]%list_elem_of_filter by (rewrite Em; by left).
  destruct (eo_needs Hok j Hj) as [_ Hnames]. destruct (proj1 (list_elem_of_fmap _ _ _) (Hnames n Hn)) as (j' & -> & Hj').
  exists j'. split_and!; [done|done|]. rewrite (K2 j' Hj').
  destruct (missing out j') as [|m l'] eqn:Em'; [|simpl; lia].
  destruct Hno. specialize (K3 (pj_Name j')). rewrite app_nil_r in K3. apply K3. eauto.
Qed.

Definition topological (out : list string) : Prop :=
  out ≡ₚ names ∧
  ∀ l1 x l2 j, out = l1 ++ x :: l2 → j ∈ jobs → pj_Name j = x → ∀ n, n ∈ pj_Needs j → n ∈ l1.

Definition has_rank : Prop :=
  ∃ rank : string → nat, ∀ j, j ∈ jobs → ∀ n, n ∈ pj_Needs j → (rank n < rank (pj_Name j))%nat.

(** Every job of the set needs another one of the set. *)
Definition self_needing (C : list string) : Prop :=
  ∀ x, x ∈ C → ∃ j n, j ∈ jobs ∧ pj_Name j = x ∧ n ∈ pj_Needs j ∧ n ∈ C.

Lemma kahn_avoids indeg out C : kahn_inv indeg [] out → self_needing C → ∀ x, x ∈ C → x ∉ out.
Proof.
  intros [_ _ _ K4] HC. assert (∀ l1 l2, out = l1 ++ l2 → ∀ x, x ∈ C → x ∉ l1) as H.
  { intros l1. induction l1 as [|y l1 IH] using rev_ind; intros l2 E x Hx; [apply not_elem_of_nil|].
    rewrite <-app_assoc in E. simpl in E. rewrite not_elem_of_app, list_elem_of_singleton.
    split; [by eapply IH|]. intros ->. destruct (HC y Hx) as (j & n & Hj & Hy & Hn & HnC).
    apply (IH _ E n HnC). by eapply K4. }
  apply (H out []). by rewrite app_nil_r.
Qed.

Lemma topo_cases :
  (∃ out, topo jobs deps = TopoOk out ∧ topological out) ∨
  (∃ stuck, topo jobs deps = TopoCycle stuck ∧ stuck ≠ [] ∧
     (∀ x, x ∈ stuck → ∃ j n, j ∈ jobs ∧ pj_Name j = x ∧ n ∈ pj_Needs j ∧ n ∈ stuck) ∧
     ∀ C, self_needing C → ∀ x, x ∈ C → x ∈ stuck).
Proof.
  unfold topo. destruct (topo_loop_ok (length jobs) _ _ [] kahn_start) as (out & indeg & -> & Hinv); [done|].
  pose proof Hinv as [K1 K2 K3 K4]. rewrite app_nil_r in *.
  assert (Hsub : ∀ x, x ∈ out → x ∈ names).
  { intros x (j & Hj & <- & _)%K3. by apply list_elem_of_fmap_2. }
  case_bool_decide as Hl.
  - left. exists out. split; [done|]. split; [|exact K4].
    apply submseteq_length_Permutation; [by apply NoDup_submseteq|]. unfold names. rewrite length_fmap. lia.
  - right. eexists. split; [done|].
    set (P := λ j, bool_decide (deg indeg (pj_Name j) > 0)).
    assert (Hst : ∀ x, x ∈ pj_Name <$> List.filter P jobs ↔ ∃ j, j ∈ jobs ∧ pj_Name j = x ∧ deg indeg (pj_Name j) > 0).
    { intros x. rewrite list_elem_of_fmap. split.
      - intros (j & -> & [Hj Hd%bool_decide_eq_true]%(elem_of_sql_select P jobs)). eauto.
      - intros (j & Hj & <- & Hd). exists j. split; [done|]. apply (elem_of_sql_select P jobs).
        split; [done|]. by apply bool_decide_eq_true. }
    split.
    + intros E. apply Hl. rewrite <-(length_fmap pj_Name jobs).
      apply Permutation_length, submseteq_length_Permutation; [by apply NoDup_submseteq|].
      apply submseteq_length, NoDup_submseteq; [apply Hok|].
      intros x (j & -> & Hj)%list_elem_of_fmap. apply K3. exists j. split_and!; try done.
      apply length_zero_iff_nil. specialize (K2 j Hj).
      assert (¬ deg indeg (pj_Name j) > 0).
      { intros Hd. assert (pj_Name j ∈ pj_Name <$> List.filter P jobs) as Hx by (apply Hst; eauto).
        rewrite E in Hx. by apply elem_of_nil in Hx. }
      lia.
    + split.
      * intros x (j & Hj & <- & Hd)%Hst. destruct (kahn_stuck _ _ Hinv j Hj Hd) as (j' & Hj' & Hn & Hd').
        exists j, (pj_Name j'). split_and!; try done. apply Hst. eauto.
      * intros C HC x Hx. apply Hst. destruct (HC x Hx) as (j & n & Hj & <- & Hn & HnC). exists j. split_and!; try done.
        rewrite (K2 j Hj). destruct (missing out j) as [|m l] eqn:Em; [|simpl; lia].
        rewrite missing_nil in Em. by destruct (kahn_avoids _ _ _ Hinv HC n HnC (Em n Hn)).
Qed.

(** An order gives a rank, and a rank rules out a cycle. *)
Lemma topological_rank out : topological out → has_rank.
Proof.
  intros [Hp Hs]. assert (NoDup out) as Hnd by (rewrite Hp; apply Hok).
  exists (λ x, default 0%nat (fst <$> list_find (eq x) out)). intros j Hj n Hn.
  assert (pj_Name j ∈ out) as Hx by (rewrite Hp; by apply list_elem_of_fmap_2).
  apply list_elem_of_split in Hx as (l1 & l2 & E).
  assert (n ∈ l1) as Hn1 by (by eapply Hs). rewrite E in Hnd |- *.
  apply NoDup_app in Hnd as (_ & Hdis & _).
  assert (pj_Name j ∉ l1) as Hnl by (intros H; eapply Hdis; [done|by left]).
  assert (list_find (eq (pj_Name j)) (l1 ++ pj_Name j :: l2) = Some (length l1, pj_Name j)) as ->.
  { apply list_find_Some. split_and!; [by rewrite list_lookup_middle|done|].
    intros k y Hk Hlt. rewrite lookup_app_l in Hk by done. intros <-. by apply Hnl, list_elem_of_lookup_2 with k. }
  destruct (list_find (eq n) l1) as [[i y]|] eqn:Ei.
  - rewrite (list_find_app_l _ _ _ _ _ Ei). simpl. apply list_find_Some in Ei as (Hi & _). apply lookup_lt_Some in Hi. lia.
  - apply list_find_None in Ei. rewrite Forall_forall in Ei. by destruct (Ei n Hn1).
Qed.

Lemma stuck_no_rank stuck :
  stuck ≠ [] → (∀ x, x ∈ stuck → ∃ j n, j ∈ jobs ∧ pj_Name j = x ∧ n ∈ pj_Needs j ∧ n ∈ stuck) → ¬ has_rank.
Proof.
  intros Hne Hst [rank Hr].
  assert (∀ m x, x ∈ stuck → (rank x < m)%nat → False) as H.
  { induction m as [|m IH]; intros x Hx Hm; [lia|]. destruct (Hst x Hx) as (j & n & Hj & <- & Hn & Hns).
    apply (IH n Hns). specialize (Hr j Hj n Hn). lia. }
  destruct stuck as [|x l]; [done|]. apply (H (S (rank x)) x); [by left|lia].
Qed.
End kahn.

(** ** Names, required fields and defaults *)

Record valid_job (j : PJob) : Prop := {
  vj_name : pj_Name j ≠ "";
  vj_image : pj_Image j ≠ "";
  vj_steps : pj_Steps j ≠ [] ∧ ∀ s, s ∈ pj_Steps j → TrimSpace s ≠ "";
  vj_timeout : 0 ≤ pj_Timeout j;
  vj_cpu : SpecFloat.SFltb (rs_CPU (pj_Resources j)) float_zero = false
}.

Definition fix_timeout (j : PJob) : PJob :=
  if bool_decide (pj_Timeout j = 0) then j <| pj_Timeout := DefaultTimeout |> else j.

Lemma fix_timeout_fields j :
  pj_Name (fix_timeout j) = pj_Name j ∧ pj_Needs (fix_timeout j) = pj_Needs j.
Proof. unfold fix_timeout. by case_bool_decide. Qed.

Lemma app_nil_iff {A} (l1 l2 : list A) : l1 ++ l2 = [] ↔ l1 = [] ∧ l2 = [].
Proof. split; [apply app_eq_nil|]. by intros [-> ->]. Qed.
Lemma if_singleton_nil {A} (b : bool) (x : A) : (if b then [x] else []) = [] ↔ b = false.
Proof. by destruct b. Qed.

Lemma step_problems_nil n steps : step_problems n steps = [] ↔ ∀ s, s ∈ steps → TrimSpace s ≠ "".
Proof.
  assert (H : ∀ f : nat → Problem,
    mjoin (imap (λ k s, if bool_decide (TrimSpace s = "") then [f k] else []) steps) = [] ↔
    ∀ s, s ∈ steps → TrimSpace s ≠ "").
  { induction steps as [|s l IH]; intros f; simpl.
    - split; [by intros _ s Hs%elem_of_nil|done].
    - rewrite app_nil_iff, if_singleton_nil, bool_decide_eq_false.
      pose proof (IH (λ k, f (S k))) as IH'. unfold compose. rewrite IH'. setoid_rewrite elem_of_cons. naive_solver. }
  apply (H (λ k, PEmptyStep n (S k))).
Qed.

(** The first loop adds no problem exactly for a fresh, valid job. *)
Lemma check_job_nil ns i j :
  ns_problems (check_job ns i j) = [] ↔ ns_problems ns = [] ∧ valid_job j ∧ ns_byName ns !! pj_Name j = None.
Proof.
  destruct ns as [byName probs jobs]. unfold check_job. simpl. case_bool_decide as Hn; simpl.
  { rewrite app_nil_iff. split; [naive_solver|]. intros (_ & [] & _). done. }
  destruct (byName !! pj_Name j) as [k|] eqn:E; simpl.
  { rewrite app_nil_iff. naive_solver. }
  rewrite !app_nil_iff, !if_singleton_nil, !bool_decide_eq_false, step_problems_nil. split.
  - intros (H0 & H1 & H2 & H3 & H4 & H5). split_and!; [done| |done]. split; try done. lia.
  - intros (H0 & [] & _). naive_solver lia.
Qed.

Lemma check_job_result ns i j :
  ns_problems (check_job ns i j) = [] →
  check_job ns i j = mkNameState (<[pj_Name j := i]> (ns_byName ns)) [] (ns_jobs ns ++ [fix_timeout j]).
Proof.
  intros Hp. pose proof Hp as (_ & [Hn _ _ _ _] & Hf)%check_job_nil. revert Hp.
  destruct ns as [byName probs jobs]. unfold check_job. simpl in *.
  rewrite (bool_decide_false _ Hn), Hf. simpl. intros E. by rewrite E.
Qed.

Lemma check_names_nil jobs ns i :
  ns_problems (check_names ns i jobs) = [] ↔
  ns_problems ns = [] ∧ Forall valid_job jobs ∧ NoDup (pj_Name <$> jobs) ∧
  (∀ j, j ∈ jobs → ns_byName ns !! pj_Name j = None).
Proof.
  revert ns i. induction jobs as [|j l IH]; intros ns i; simpl.
  { split; [|naive_solver]. intros H. split_and!; try done; [constructor|]. by intros j Hj%elem_of_nil. }
  rewrite IH, Forall_cons, NoDup_cons. split.
  - intros (H1 & H2 & H3 & H4). rewrite (check_job_result _ _ _ H1) in H4. simpl in H4.
    apply check_job_nil in H1 as (H5 & H6 & H7). split_and!; try done.
    + intros (x & E & Hx)%list_elem_of_fmap. specialize (H4 x Hx). rewrite E, lookup_insert_eq in H4. done.
    + intros x [->|Hx]%elem_of_cons; [done|]. specialize (H4 x Hx). by apply lookup_insert_None in H4 as [? _].
  - intros (H1 & [H2 H3] & [H4 H5] & H6).
    assert (ns_problems (check_job ns i j) = []) as Hc by (apply check_job_nil; split_and!; auto; apply H6; by left).
    split_and!; try done. rewrite (check_job_result _ _ _ Hc). simpl. intros x Hx.
    apply lookup_insert_None. split; [apply H6; by right|]. intros E. destruct H4. rewrite E. by apply list_elem_of_fmap_2.
Qed.

Lemma check_names_result jobs ns i :
  ns_problems (check_names ns i jobs) = [] →
  ns_jobs (check_names ns i jobs) = ns_jobs ns ++ (fix_timeout <$> jobs) ∧
  (∀ q j, jobs !! q = Some j → ns_byName (check_names ns i jobs) !! pj_Name j = Some (i + q)%nat) ∧
  (∀ n, n ∉ pj_Name <$> jobs → ns_byName (check_names ns i jobs) !! n = ns_byName ns !! n).
Proof.
  revert ns i. induction jobs as [|j l IH]; intros ns i Hp; simpl.
  { rewrite app_nil_r. split_and!; try done. }
  simpl in Hp. pose proof (proj1 (check_names_nil _ _ _) Hp) as (Hc & _ & _ & Hf).
  destruct (IH _ _ Hp) as (H1 & H2 & H3). rewrite (check_job_result _ _ _ Hc) in *. simpl in *.
  assert (pj_Name j ∉ pj_Name <$> l) as Hnin.
  { intros (x & E & Hx)%list_elem_of_fmap. specialize (Hf x Hx). by rewrite E, lookup_insert_eq in Hf. }
  split_and!.
  - by rewrite H1, <-app_assoc.
  - intros [|q] x Hx; simpl in Hx.
    + injection Hx as ->. rewrite H3 by done. by rewrite lookup_insert_eq, Nat.add_0_r.
    + rewrite (H2 q x Hx). f_equal. lia.
  - intros n. rewrite not_elem_of_cons. intros [Hn1 Hn2]. rewrite H3 by done. by rewrite lookup_insert_ne.
Qed.

(** ** Edges *)

(** The needs of one job that the second loop accepts after [seen]. *)
Definition needs_ok (byName : gmap string nat) (n : string) (seen : gset string) (needs : list string) : Prop :=
  NoDup needs ∧ ∀ m, m ∈ needs → m ≠ n ∧ ¬ (m ∈ seen) ∧ is_Some (byName !! m).

Lemma check_needs_nil byName n needs es :
  es_problems (foldl (check_need byName n) es needs) = [] ↔
  es_problems es = [] ∧ needs_ok byName n (es_seen es) needs.
Proof.
  unfold needs_ok. revert es. induction needs as [|m l IH]; intros [deps probs seen]; simpl.
  { split; [|naive_solver]. intros H. split_and!; [done|constructor|]. by intros m Hm%elem_of_nil. }
  rewrite IH, NoDup_cons. clear IH. simpl. setoid_rewrite elem_of_cons.
  case_bool_decide as H1; simpl.
  { rewrite app_nil_iff. split; [by intros ([_ [=]] & _)|]. intros (_ & _ & H). destruct (H m) as (? & _); [by left|done]. }
  case_bool_decide as H2; simpl.
  { rewrite app_nil_iff. split; [by intros ([_ [=]] & _)|]. intros (_ & _ & H). destruct (H m) as (_ & ? & _); [by left|done]. }
  destruct (byName !! m) as [k|] eqn:E; simpl.
  2:{ rewrite app_nil_iff. split; [naive_solver|]. intros (_ & _ & H). destruct (H m) as (_ & _ & [? ?]); [by left|congruence]. }
  split.
  - intros (Hp & Hnd & H). split_and!; try done.
    + intros Hm. destruct (H m Hm) as (_ & Hs & _). set_solver.
    + intros x [->|Hx]; [by rewrite E|]. destruct (H x Hx) as (? & Hs & ?). set_solver.
  - intros (Hp & [Hm Hnd] & H). split_and!; try done. intros x Hx. destruct (H x) as (? & Hs & ?); [by right|].
    split_and!; try done. rewrite elem_of_union, elem_of_singleton. intros [->|?]; done.
Qed.

Lemma check_needs_deps byName n needs es m :
  es_problems (foldl (check_need byName n) es needs) = [] →
  default [] (es_deps (foldl (check_need byName n) es needs) !! m) =
  default [] (es_deps es !! m) ++ (if bool_decide (m ∈ needs) then [n] else []).
Proof.
  revert es. induction needs as [|x l IH]; intros es Hp; [simpl; by rewrite app_nil_r|].
  pose proof (proj1 (check_needs_nil _ _ _ _) Hp) as (Hp0 & Hnd & Hx).
  destruct (Hx x ltac:(by left)) as (H1 & H2 & [k Hk]). apply NoDup_cons in Hnd as [Hxl Hnd].
  simpl in *. rewrite IH by done. clear IH. destruct es as [deps probs seen]. simpl in *.
  rewrite (bool_decide_false (x = n)), (bool_decide_false (x ∈ seen)), Hk by done. simpl.
  destruct (decide (m = x)) as [->|Hne].
  - rewrite lookup_insert_eq, (bool_decide_false (x ∈ l)), (bool_decide_true (x ∈ x :: l)) by (done || by left).
    simpl. by rewrite app_nil_r.
  - rewrite lookup_insert_ne by done. rewrite (bool_decide_ext (m ∈ x :: l) (m ∈ l)); [done|].
    rewrite elem_of_cons. naive_solver.
Qed.

(** The second loop, for jobs whose names are all in the index. *)
Lemma check_edges_nil byName jobs i deps probs :
  (∀ q j, jobs !! q = Some j → byName !! pj_Name j = Some (i + q)%nat) →
  (check_edges byName i jobs deps probs).2 = [] ↔
  probs = [] ∧ ∀ j, j ∈ jobs → needs_ok byName (pj_Name j) ∅ (pj_Needs j).
Proof.
  revert i deps probs. induction jobs as [|j l IH]; intros i deps probs Hidx; simpl.
  { split; [|naive_solver]. intros H. split; [done|]. by intros j Hj%elem_of_nil. }
  rewrite bool_decide_true by (rewrite (Hidx 0%nat j) by done; f_equal; lia).
  rewrite IH by (intros q x Hx; rewrite (Hidx (S q) x Hx); f_equal; lia).
  rewrite check_needs_nil. simpl. setoid_rewrite elem_of_cons. naive_solver.
Qed.

Lemma check_edges_deps byName jobs i deps probs m :
  (∀ q j, jobs !! q = Some j → byName !! pj_Name j = Some (i + q)%nat) →
  (check_edges byName i jobs deps probs).2 = [] →
  default [] ((check_edges byName i jobs deps probs).1 !! m) =
  default [] (deps !! m) ++ (pj_Name <$> filter (λ j, m ∈ pj_Needs j) jobs).
Proof.
  revert i deps probs. induction jobs as [|j l IH]; intros i deps probs Hidx Hp; [simpl; by rewrite app_nil_r|].
  assert (Hidx' : ∀ q x, l !! q = Some x → byName !! pj_Name x = Some (S i + q)%nat)
    by (intros q x Hx; rewrite (Hidx (S q) x Hx); f_equal; lia).
  simpl in *. rewrite bool_decide_true in * by (rewrite (Hidx 0%nat j) by done; f_equal; lia).
  rewrite IH by done. pose proof (proj1 (check_edges_nil byName l (S i) _ _ Hidx') Hp) as [Hp1 _].
  rewrite check_needs_deps by done. simpl. rewrite filter_cons, <-app_assoc. f_equal.
  case_bool_decide; case_decide; done.
Qed.

(** ** finalize *)

Definition valid_pipeline (jobs : list PJob) : Prop :=
  jobs ≠ [] ∧ Forall valid_job jobs ∧ NoDup (pj_Name <$> jobs) ∧
  (∀ j, j ∈ jobs → NoDup (pj_Needs j) ∧ ∀ n, n ∈ pj_Needs j → n ≠ pj_Name j ∧ n ∈ pj_Name <$> jobs) ∧
  has_rank jobs.

Definition dependents_of (jobs : list PJob) (n : string) : list string :=
  pj_Name <$> filter (λ j, n ∈ pj_Needs j) jobs.

Lemma edges_ok_of jobs deps :
  NoDup (pj_Name <$> jobs) →
  (∀ j, j ∈ jobs → NoDup (pj_Needs j) ∧ ∀ n, n ∈ pj_Needs j → n ∈ pj_Name <$> jobs) →
  (∀ n, default [] (deps !! n) = dependents_of jobs n) → edges_ok jobs deps.
Proof.
  intros Hnd Hneeds Hdeps. split.
  - done.
  - done.
  - intros n. rewrite Hdeps. unfold dependents_of.
    assert (Hsub : ∀ P `{!∀ x, Decision (P x)}, pj_Name <$> filter P jobs `sublist_of` (pj_Name <$> jobs)).
    { intros P ?. clear. induction jobs as [|j l IH]; [done|]. rewrite filter_cons. case_decide; simpl; by constructor. }
    eapply sublist_NoDup; [done|apply Hsub].
  - intros n x. rewrite Hdeps. unfold dependents_of. rewrite list_elem_of_fmap. setoid_rewrite list_elem_of_filter. naive_solver.
Qed.

Lemma check_edges_grow byName jobs i deps probs : (check_edges byName i jobs deps probs).2 = [] → probs = [].
Proof.
  revert i deps probs. induction jobs as [|j l IH]; intros i deps probs; simpl; [done|].
  case_bool_decide; [|apply IH]. intros Hp%IH. by apply check_needs_nil in Hp as [Hp _].
Qed.

Lemma lookup_fix_timeout (jobs : list PJob) (q : nat) j' :
  (fix_timeout <$> jobs) !! q = Some j' → ∃ j, jobs !! q = Some j ∧ j' = fix_timeout j.
Proof. rewrite list_lookup_fmap. destruct (jobs !! q) as [j|]; [|done]. intros [= <-]. eauto. Qed.

Lemma names_fix_timeout (jobs : list PJob) : pj_Name <$> (fix_timeout <$> jobs) = pj_Name <$> jobs.
Proof. rewrite <-list_fmap_compose. apply list_fmap_ext. intros i j _. apply fix_timeout_fields. Qed.

Lemma has_rank_fix_timeout jobs : has_rank (fix_timeout <$> jobs) ↔ has_rank jobs.
Proof.
  unfold has_rank. split; intros [rank H]; exists rank.
  - intros j Hj n Hn. destruct (fix_timeout_fields j) as [E1 E2]. rewrite <-E1.
    apply H; [by apply list_elem_of_fmap_2|by rewrite E2].
  - intros j' (j & -> & Hj)%list_elem_of_fmap n. destruct (fix_timeout_fields j) as [-> ->]. by apply H.
Qed.

(** The state of [finalize] before [topo], when no problem was found. *)
Definition names_state (jobs : list PJob) : NameState :=
  check_names (mkNameState ∅ (if bool_decide (length jobs = 0%nat) then [PNoJobs] else []) []) 0 jobs.
Definition edges_state (jobs : list PJob) : gmap string (list string) * list Problem :=
  check_edges (ns_byName (names_state jobs)) 0 (ns_jobs (names_state jobs)) ∅ (ns_problems (names_state jobs)).

Definition fields_ok (jobs : list PJob) : Prop :=
  jobs ≠ [] ∧ Forall valid_job jobs ∧ NoDup (pj_Name <$> jobs) ∧
  ∀ j, j ∈ jobs → NoDup (pj_Needs j) ∧ ∀ n, n ∈ pj_Needs j → n ≠ pj_Name j ∧ n ∈ pj_Name <$> jobs.

Lemma names_state_nil jobs :
  ns_problems (names_state jobs) = [] ↔ jobs ≠ [] ∧ Forall valid_job jobs ∧ NoDup (pj_Name <$> jobs).
Proof.
  unfold names_state. rewrite check_names_nil. simpl.
  assert (E : (if bool_decide (length jobs = 0%nat) then [PNoJobs] else []) = [] ↔ jobs ≠ []).
  { rewrite if_singleton_nil, bool_decide_eq_false, length_zero_iff_nil. done. }
  rewrite E. split; [naive_solver|]. intros (? & ? & ?). split_and!; try done.
Qed.

Lemma names_state_result jobs :
  ns_problems (names_state jobs) = [] →
  ns_jobs (names_state jobs) = fix_timeout <$> jobs ∧
  (∀ q j, (fix_timeout <$> jobs) !! q = Some j → ns_byName (names_state jobs) !! pj_Name j = Some q) ∧
  (∀ n, is_Some (ns_byName (names_state jobs) !! n) ↔ n ∈ pj_Name <$> jobs).
Proof.
  intros Hp. destruct (check_names_result _ _ _ Hp) as (H1 & H2 & H3). split_and!; [done| |].
  - intros q j' (j & Hj & ->)%lookup_fix_timeout. destruct (fix_timeout_fields j) as [-> _]. by apply (H2 q j Hj).
  - intros n. split.
    + intros [k Hk]. apply dec_stable. intros Hn. unfold names_state in Hk. rewrite (H3 n Hn) in Hk. done.
    + intros (j & -> & [q Hq]%list_elem_of_lookup)%list_elem_of_fmap. unfold names_state. rewrite (H2 q j Hq). done.
Qed.

Lemma edges_state_nil jobs : (edges_state jobs).2 = [] ↔ fields_ok jobs.
Proof.
  unfold edges_state, fields_ok. split.
  - intros He. pose proof (check_edges_grow _ _ _ _ _ He) as Hp.
    destruct (names_state_result jobs Hp) as (Ej & Hidx & Hdom). rewrite Ej in He.
    apply check_edges_nil in He as [_ Hn]; [|done]. apply names_state_nil in Hp as (H1 & H2 & H3).
    split_and!; try done. intros j Hj. destruct (Hn (fix_timeout j)) as [Hnd Hm]; [by apply list_elem_of_fmap_2|].
    destruct (fix_timeout_fields j) as [E1 E2]. rewrite E1, E2 in *. split; [done|].
    intros n Hin. destruct (Hm n Hin) as (? & _ & ?%Hdom). done.
  - intros (H1 & H2 & H3 & H4). assert (ns_problems (names_state jobs) = []) as Hp by (by apply names_state_nil).
    destruct (names_state_result jobs Hp) as (Ej & Hidx & Hdom). rewrite Ej. apply check_edges_nil; [done|].
    split; [done|]. intros j' (j & -> & Hj)%list_elem_of_fmap. destruct (fix_timeout_fields j) as [E1 E2].
    rewrite E1, E2. destruct (H4 j Hj) as [Hnd Hm]. split; [done|]. intros n Hin. destruct (Hm n Hin).
    split_and!; [done|set_solver|by apply Hdom].
Qed.

Lemma edges_state_ok jobs :
  fields_ok jobs →
  ns_jobs (names_state jobs) = fix_timeout <$> jobs ∧
  (∀ n, default [] ((edges_state jobs).1 !! n) = dependents_of (fix_timeout <$> jobs) n) ∧
  edges_ok (fix_timeout <$> jobs) (edges_state jobs).1.
Proof.
  intros Hf. pose proof (proj2 (edges_state_nil jobs) Hf) as He.
  pose proof (check_edges_grow _ _ _ _ _ He) as Hp.
  destruct (names_state_result jobs Hp) as (Ej & Hidx & Hdom). unfold edges_state in *. rewrite Ej in *.
  assert (Hdeps : ∀ n, default [] ((check_edges (ns_byName (names_state jobs)) 0 (fix_timeout <$> jobs) ∅
    (ns_problems (names_state jobs))).1 !! n) = dependents_of (fix_timeout <$> jobs) n).
  { intros n. by rewrite check_edges_deps. }
  split_and!; [done|done|]. destruct Hf as (_ & _ & Hnd & Hneeds).
  apply edges_ok_of; [by rewrite names_fix_timeout| |done].
  intros j' (j & -> & Hj)%list_elem_of_fmap. destruct (fix_timeout_fields j) as [_ ->].
  rewrite names_fix_timeout. destruct (Hneeds j Hj) as [? H]. split; [done|]. intros n Hn. by apply H.
Qed.

Lemma finalize_unfold name jobs :
  finalize name jobs =
  let probs := (edges_state jobs).2 in
  let probs' :=
    if bool_decide (length probs = 0%nat) then
      match topo (ns_jobs (names_state jobs)) (edges_state jobs).1 with
      | TopoOk _ => probs
      | TopoCycle stuck => probs ++ [PCycle stuck]
      | TopoFuel => probs ++ [PCycle []]
      end
    else probs in
  if bool_decide (length probs' = 0%nat)
  then inr (mkPipeline name (ns_jobs (names_state jobs)) (ns_byName (names_state jobs)) (edges_state jobs).1)
  else inl (ValidationError probs').
Proof.
  unfold finalize. fold (names_state jobs). unfold edges_state.
  by destruct (check_edges _ _ _ _ _) as [deps probs].
Qed.

Lemma finalize_inr name jobs p :
  finalize name jobs = inr p ↔
  valid_pipeline jobs ∧
  p = mkPipeline name (fix_timeout <$> jobs) (ns_byName (names_state jobs)) (edges_state jobs).1.
Proof.
  rewrite finalize_unfold. cbv zeta. unfold valid_pipeline.
  assert (Hv : (jobs ≠ [] ∧ Forall valid_job jobs ∧ NoDup (pj_Name <$> jobs) ∧
     (∀ j, j ∈ jobs → NoDup (pj_Needs j) ∧ ∀ n, n ∈ pj_Needs j → n ≠ pj_Name j ∧ n ∈ pj_Name <$> jobs) ∧ has_rank jobs)
     ↔ fields_ok jobs ∧ has_rank jobs) by (unfold fields_ok; naive_solver).
  rewrite Hv. clear Hv. destruct (decide ((edges_state jobs).2 = [])) as [E|E].
  2:{ rewrite (bool_decide_false (length (edges_state jobs).2 = 0%nat)) by (by rewrite length_zero_iff_nil).
      rewrite bool_decide_false by (by rewrite length_zero_iff_nil). rewrite edges_state_nil in E. naive_solver. }
  rewrite (bool_decide_true (length (edges_state jobs).2 = 0%nat)) by (by rewrite E).
  rewrite E. rewrite edges_state_nil in E. destruct (edges_state_ok jobs E) as (Ej & Hdeps & Hok). rewrite Ej.
  rewrite <-(has_rank_fix_timeout jobs).
  destruct (topo_cases _ _ Hok) as [(out & -> & Ht)|(stuck & -> & Hne & Hst & _)]; simpl.
  - pose proof (topological_rank _ _ Hok _ Ht). naive_solver.
  - pose proof (stuck_no_rank _ _ Hne Hst). naive_solver.
Qed.

(** ** The guarantees *)

(** C14: [Parse] accepts exactly the valid pipelines.  A document is accepted iff it
    decodes to at least one job, every job has a name, an image, at least one
    non-blank step, a timeout and a cpu that are not negative, names are distinct,
    the needs of a job are distinct names of other jobs, and the needs form no
    cycle; the jobs are then the document's, with the default timeout filled in. *)
Theorem parse_accepts_exactly_valid yaml_decode src :
  (∀ p, Parse yaml_decode src = inr p →
     ∃ jobs, yaml_decode src = YamlDoc (p_Name p) jobs ∧ valid_pipeline jobs ∧ p_Jobs p = fix_timeout <$> jobs) ∧
  (∀ name jobs, yaml_decode src = YamlDoc name jobs → valid_pipeline jobs →
     ∃ p, Parse yaml_decode src = inr p).
Proof.
  unfold Parse. split.
  - intros p. destruct (yaml_decode src) as [|msg|name jobs]; try done.
    intros [Hv ->]%finalize_inr. by exists jobs.
  - intros name jobs -> Hv. eexists. by apply finalize_inr.
Qed.

(** C15: [TopoOrder] of an accepted pipeline never panics: it returns all job names,
    each once, every job after all of its needs. *)
Theorem topo_order_is_topological yaml_decode src p :
  Parse yaml_decode src = inr p →
  ∃ out, TopoOrder p = Some out ∧ out ≡ₚ pj_Name <$> p_Jobs p ∧
    ∀ l1 x l2 j n, out = l1 ++ x :: l2 → j ∈ p_Jobs p → pj_Name j = x → n ∈ pj_Needs j → n ∈ l1.
Proof.
  unfold Parse. destruct (yaml_decode src) as [|msg|name jobs]; try done.
  intros [(H1 & H2 & H3 & H4 & Hrank) ->]%finalize_inr. unfold TopoOrder. simpl.
  destruct (edges_state_ok jobs) as (_ & _ & Hok); [done|].
  destruct (topo_cases _ _ Hok) as [(out & -> & [Hp Hs])|(stuck & _ & Hne & Hst & _)].
  - exists out. split_and!; [done|done|]. intros l1 x l2 j n E Hj Hx. by eapply Hs.
  - destruct (stuck_no_rank _ _ Hne Hst). by rewrite has_rank_fix_timeout.
Qed.

Definition demo_yaml (_ : string) : YamlResult :=
  YamlDoc "ci" [ mkPJob "deploy" "alpine" ["make deploy"] ["test"; "build"] ∅ ∅ [] 0 (mkResources float_zero "");
                 mkPJob "build" "alpine" ["make"] [] ∅ ∅ [] 0 (mkResources float_zero "");
                 mkPJob "test" "alpine" ["make test"] ["build"] ∅ ∅ [] (5 * Minute) (mkResources float_zero "") ].
Definition demo_pipeline : Pipeline :=
  match Parse demo_yaml "" with inr p => p | inl _ => mkPipeline "" [] ∅ ∅ end.

Lemma topo_order_is_topological_witness :
  ∃ out, TopoOrder demo_pipeline = Some out ∧ out ≡ₚ ["deploy"; "build"; "test"].
Proof.
  destruct (topo_order_is_topological demo_yaml "" demo_pipeline) as (out & H1 & H2 & _); [vm_compute; reflexivity|].
  exists out. exact (conj H1 H2).
Defined.

(** Cycles are reported exactly.  A document that is valid but for a cycle is
    refused with one problem, and the jobs it names are the largest set in which
    every job needs another one of the set: all jobs on a cycle and all jobs that
    wait for one. *)
Theorem cycle_report_is_exact name jobs :
  fields_ok jobs → ¬ has_rank jobs →
  ∃ stuck, finalize name jobs = inl (ValidationError [PCycle stuck]) ∧ stuck ≠ [] ∧
    self_needing jobs stuck ∧ ∀ C, self_needing jobs C → ∀ x, x ∈ C → x ∈ stuck.
Proof.
  intros Hf Hnr. rewrite finalize_unfold. cbv zeta. rewrite (proj2 (edges_state_nil jobs) Hf). simpl.
  destruct (edges_state_ok jobs Hf) as (-> & _ & Hok). rewrite <-has_rank_fix_timeout in Hnr.
  assert (Hself : ∀ C, self_needing (fix_timeout <$> jobs) C ↔ self_needing jobs C).
  { intros C. unfold self_needing. split; intros H x Hx; destruct (H x Hx) as (j & n & Hj & <- & Hn & HC).
    - apply list_elem_of_fmap in Hj as (j0 & -> & Hj). exists j0, n.
      destruct (fix_timeout_fields j0) as [E1 E2]. by rewrite E2 in Hn.
    - exists (fix_timeout j), n. destruct (fix_timeout_fields j) as [-> ->]. split_and!; try done.
      by apply list_elem_of_fmap_2. }
  destruct (topo_cases _ _ Hok) as [(out & _ & Ht)|(stuck & -> & Hne & Hst & Hmax)].
  - by destruct Hnr; eapply topological_rank.
  - exists stuck. split_and!; [done|done|by apply Hself|]. intros C HC. by apply Hmax, Hself.
Qed.

Definition demo_cyclic : list PJob :=
  [ mkPJob "a" "alpine" ["x"] ["b"] ∅ ∅ [] 0 (mkResources float_zero "");
    mkPJob "b" "alpine" ["x"] ["a"] ∅ ∅ [] 0 (mkResources float_zero "");
    mkPJob "c" "alpine" ["x"] ["b"] ∅ ∅ [] 0 (mkResources float_zero "") ].

Lemma cycle_report_is_exact_witness :
  ∃ stuck, finalize "ci" demo_cyclic = inl (ValidationError [PCycle stuck]) ∧ stuck ≠ [].
Proof.
  destruct (cycle_report_is_exact "ci" demo_cyclic) as (stuck & H1 & H2 & _).
  - apply edges_state_nil. vm_compute. reflexivity.
  - intros [rank H].
    pose proof (H (mkPJob "a" "alpine" ["x"] ["b"] ∅ ∅ [] 0 (mkResources float_zero "")) ltac:(left) "b" ltac:(left)) as Ha.
    pose proof (H (mkPJob "b" "alpine" ["x"] ["a"] ∅ ∅ [] 0 (mkResources float_zero "")) ltac:(right; left) "a" ltac:(left)) as Hb.
    simpl in Ha, Hb. lia.
  - exists stuck. exact (conj H1 H2).
Defined.

(** The indexes of an accepted pipeline are right: [Job] finds each job under
    its name and nothing else, [Dependents] lists in declaration order the jobs
    that need the given one, [Roots] the jobs without needs. *)
Theorem indexes_are_right yaml_decode src p :
  Parse yaml_decode src = inr p →
  (∀ n j, JobByName p n = Some j ↔ j ∈ p_Jobs p ∧ pj_Name j = n) ∧
  (∀ n, Dependents p n = pj_Name <$> filter (λ j, n ∈ pj_Needs j) (p_Jobs p)) ∧
  Roots p = pj_Name <$> filter (λ j, pj_Needs j = []) (p_Jobs p).
Proof.
  unfold Parse. destruct (yaml_decode src) as [|msg|name jobs]; try done.
  intros [(H1 & H2 & H3 & H4 & Hrank) ->]%finalize_inr. simpl.
  destruct (edges_state_ok jobs) as (_ & Hdeps & Hok); [done|].
  destruct (names_state_result jobs) as (_ & Hidx & Hdom); [by apply names_state_nil|].
  split_and!.
  - intros n j. unfold JobByName. simpl. split.
    + destruct (ns_byName (names_state jobs) !! n) as [i|] eqn:Ei; [|done]. intros Hj.
      split; [by eapply list_elem_of_lookup_2|].
      assert (n ∈ pj_Name <$> jobs) as Hn by (apply Hdom; eauto). rewrite <-names_fix_timeout in Hn.
      apply list_elem_of_fmap in Hn as (j' & -> & [q Hq]%list_elem_of_lookup). rewrite (Hidx q j' Hq) in Ei.
      injection Ei as ->. congruence.
    + intros [[q Hq]%list_elem_of_lookup <-]. by rewrite (Hidx q j Hq).
  - intros n. unfold Dependents. simpl. apply Hdeps.
  - unfold Roots. simpl. f_equal. generalize (fix_timeout <$> jobs) as l. induction l as [|j l IH]; [done|].
    rewrite filter_cons. simpl. rewrite IH.
    rewrite (bool_decide_ext _ _ (length_zero_iff_nil (pj_Needs j))). case_bool_decide; case_decide; done.
Qed.

Lemma indexes_are_right_witness : Dependents demo_pipeline "build" = ["deploy"; "test"].
Proof.
  destruct (indexes_are_right demo_yaml "" demo_pipeline) as (_ & H & _); [vm_compute; reflexivity|].
  rewrite (H "build"). vm_compute. reflexivity.
Defined.
