(* ===== verification/Submit.v ===== *)
(** * internal/api/submit.go: turning a pipeline into a run

    [submitRun] stores one job per pipeline job, the roots queued and the others
    pending, and the edges, in one transaction.  The result satisfies the
    scheduler's invariant, so every theorem about histories applies to it. *)

From S2P Require Import Prelude GoLib Pipeline Types Store Scheduler Protocol Advance Consistency Refinement Ops InvCheck PipelineSpec.
From stdpp Require Import relations.

Local Open Scope Z_scope.

Definition TriggerAPI : string := "api".

(** [newID n]: 2*n hex characters from crypto/rand. *)
Definition newID (n : nat) : W string := λ w,
  (inr (hex_encode ((λ i, w_rand w (w_rands w + i)%nat) <$> seq 0 n)), w <| w_rands := (w_rands w + n)%nat |>).

(** [json.Marshal] of a job spec fails only on a float64 that JSON cannot hold. *)
Definition marshal_ok (pj : PJob) : bool :=
  match rs_CPU (pj_Resources pj) with
  | SpecFloat.S754_nan | SpecFloat.S754_infinity _ => false
  | _ => true
  end.

Record SubmitAcc := mkSubmitAcc {
  sa_ids : gmap string string;
  sa_jobs : list (option JobState * Job)
}.

(** One iteration of the jobs loop. *)
Definition submit_job (roots : list string) (maxAttempts : Z) (pj : PJob) (acc : SubmitAcc) : W SubmitAcc :=
  if marshal_ok pj then
    id ← newID 8;
    let state := if bool_decide (pj_Name pj ∈ roots) then JobQueued else JobPending in
    mret (mkSubmitAcc (<[pj_Name pj := id]> (sa_ids acc))
           (sa_jobs acc ++ [(Some state, mkJob id "" (pj_Name pj) (Some pj) state 0 maxAttempts "" 0 "" None "" 0 0 0 0 "")]))
  else fail (ErrEncodeSpec (pj_Name pj)).

(** The edges loop; [ids[name]] is the empty string for a missing name. *)
Definition submit_deps (ids : gmap string string) (jobs : list PJob) : list JobDep :=
  jobs ≫= λ pj, (λ need, mkJobDep (default "" (ids !! pj_Name pj)) (default "" (ids !! need))) <$> pj_Needs pj.

Definition submitRun (runID : string) (p : Pipeline) (src : string) (maxAttempts : Z) : W (Run * list Job) :=
  let run := mkRun runID "" src "" "" TriggerAPI RunPending 0 0 0 in
  acc ← mfor (p_Jobs p) (mkSubmitAcc ∅ []) (submit_job (Roots p) maxAttempts);
  let deps := submit_deps (sa_ids acc) (p_Jobs p) in
  Tx (
    res ← CreateRun (Some RunPending) run (sa_jobs acc) deps;
    AppendEvent runID "" "run.created"
      [("jobs", DInt (Z.of_nat (length (sa_jobs acc)))); ("roots", DStrs (Roots p))];;
    mret res).

(** ** Adding a run to a consistent database *)

Definition extend (d : DB) (run : RunRow) (rows : list JobRow) (deps : list JobDep) : DB :=
  d <| db_runs := db_runs d ++ [run] |> <| db_jobs := db_jobs d ++ rows |> <| db_job_deps := db_job_deps d ++ deps |>.

Record fresh_run (d : DB) (run : RunRow) (rows : list JobRow) (deps : list JobDep) : Prop := {
  fr_run : run_at d (rr_id run) = None ∧ rr_id run ≠ "" ∧ rr_state run = RunPending;
  fr_rows : rows ≠ [] ∧ NoDup (jr_id <$> rows);
  fr_row : ∀ r, r ∈ rows → jr_run_id r = rr_id run ∧ jr_id r ≠ "" ∧ is_Some (jr_spec_json r) ∧ RowInv r ∧
             job_at d (jr_id r) = None;
  fr_state : ∀ r, r ∈ rows → jr_state r = JobQueued ∨ (jr_state r = JobPending ∧ ∃ n, mkJobDep (jr_id r) n ∈ deps);
  fr_deps : ∀ id n, mkJobDep id n ∈ deps → id ∈ jr_id <$> rows ∧ n ∈ jr_id <$> rows
}.

Section extend.
Context (d : DB) (run : RunRow) (rows : list JobRow) (deps : list JobDep).
Context (Hinv : Inv d) (Hf : fresh_run d run rows deps).
Let d' := extend d run rows deps.

Lemma find_app {A} (f : A → bool) l1 l2 :
  List.find f (l1 ++ l2) = match List.find f l1 with Some x => Some x | None => List.find f l2 end.
Proof. induction l1 as [|x l1 IH]; simpl; [done|]. by destruct (f x). Qed.

Lemma extend_job_old id r : job_at d id = Some r → job_at d' id = Some r.
Proof. unfold job_at, sql_row. simpl. rewrite find_app. by intros ->. Qed.

Lemma extend_job_new r : r ∈ rows → job_at d' (jr_id r) = Some r.
Proof.
  intros Hr. unfold job_at, sql_row. simpl. rewrite find_app.
  destruct (fr_row _ _ _ _ Hf r Hr) as (_ & _ & _ & _ & Hn). unfold job_at, sql_row in Hn. rewrite Hn.
  apply (by_key_row jr_id); [apply Hf|done|done].
Qed.

Lemma extend_run_old k x : run_at d k = Some x → run_at d' k = Some x.
Proof. unfold run_at, sql_row. simpl. rewrite find_app. by intros ->. Qed.

Lemma extend_run_new : run_at d' (rr_id run) = Some run.
Proof.
  destruct (fr_run _ _ _ _ Hf) as (Hn & _). unfold run_at, sql_row in *. simpl. rewrite find_app, Hn. simpl.
  by rewrite bool_decide_true.
Qed.

Lemma new_id_not_old r x : r ∈ rows → x ∈ db_jobs d → jr_id x ≠ jr_id r.
Proof.
  intros Hr Hx E. destruct (fr_row _ _ _ _ Hf r Hr) as (_ & _ & _ & _ & Hn).
  assert (job_at d (jr_id r) = Some x) by (by apply job_at_iff; [apply Hinv|]). congruence.
Qed.

Lemma new_run_not_old x : x ∈ db_jobs d → jr_run_id x ≠ rr_id run.
Proof.
  intros Hx E. destruct (wf_job_run _ (inv_wf _ Hinv) x Hx) as [y Hy]. rewrite E in Hy.
  destruct (fr_run _ _ _ _ Hf) as (Hn & _). congruence.
Qed.

Lemma extend_needs id n :
  needs d' id n ↔ (needs d id n ∧ is_Some (job_at d id)) ∨ (mkJobDep id n ∈ deps ∧ id ∈ jr_id <$> rows).
Proof.
  unfold needs. simpl. rewrite elem_of_app. split.
  - intros [H|H].
    + left. split; [done|]. destruct (wf_deps _ (inv_wf _ Hinv) id n H) as (a & b & -> & _). done.
    + right. split; [done|]. by destruct (fr_deps _ _ _ _ Hf id n H).
  - intros [[H _]|[H _]]; auto.
Qed.

Lemma extend_WF : WF d'.
Proof.
  pose proof (inv_wf _ Hinv) as [W1 W2 W3 W4 W5 W6 W7]. split.
  - unfold keys_unique in *. simpl. rewrite fmap_app. apply NoDup_app. split_and!; [done| |apply Hf].
    intros id (x & -> & Hx)%list_elem_of_fmap (r & E & Hr)%list_elem_of_fmap. by apply (new_id_not_old r x Hr Hx).
  - unfold keys_unique in *. simpl. rewrite fmap_app. apply NoDup_app. split_and!; [done| |apply NoDup_singleton].
    intros k Hk Hk2. simpl in Hk2. apply list_elem_of_singleton in Hk2 as ->.
    apply run_at_exists in Hk as [x Hx]. destruct (fr_run _ _ _ _ Hf) as (Hn & _). congruence.
  - simpl. intros r [Hr|Hr]%elem_of_app.
    + destruct (W3 r Hr) as [x Hx]. exists x. by apply extend_run_old.
    + destruct (fr_row _ _ _ _ Hf r Hr) as (-> & _). exists run. apply extend_run_new.
  - intros id n [[Hn _]|[Hn _]]%extend_needs.
    + destruct (W4 id n Hn) as (a & b & Ha & Hb & Hab). exists a, b. auto using extend_job_old.
    + destruct (fr_deps _ _ _ _ Hf id n Hn) as [(a & -> & Ha)%list_elem_of_fmap (b & -> & Hb)%list_elem_of_fmap].
      exists a, b. destruct (fr_row _ _ _ _ Hf a Ha) as (Ea & _), (fr_row _ _ _ _ Hf b Hb) as (Eb & _).
      split_and!; [by apply extend_job_new|by apply extend_job_new|congruence].
  - simpl. intros r [Hr|Hr]%elem_of_app; [by apply W5|]. by apply (fr_row _ _ _ _ Hf).
  - simpl. intros r [Hr|Hr%list_elem_of_singleton]%elem_of_app; [by apply W6|]. subst r. by apply (fr_run _ _ _ _ Hf).
  - simpl. intros r [Hr|Hr]%elem_of_app; [by apply W7|]. by apply (fr_row _ _ _ _ Hf).
Qed.

Lemma extend_RowsInv : RowsInv d'.
Proof.
  intros id r [Hr Hid]%job_at_Some. simpl in Hr. apply elem_of_app in Hr as [Hr|Hr].
  - apply (inv_rows _ Hinv id). by apply job_at_iff; [apply Hinv|].
  - by apply (fr_row _ _ _ _ Hf).
Qed.

Lemma extend_run_jobs k : run_jobs d' k = if decide (k = rr_id run) then rows else run_jobs d k.
Proof.
  unfold run_jobs, sql_select. simpl. rewrite List.filter_app.
  assert (Hall : List.filter (λ r, bool_decide (jr_run_id r = k)) rows = if decide (k = rr_id run) then rows else []).
  { pose proof (fr_row _ _ _ _ Hf) as Hr. clear -Hr. induction rows as [|r l IH]; [by case_decide|]. simpl.
    destruct (Hr r) as (E & _); [by left|]. rewrite E, IH by (intros; apply Hr; by right).
    case_decide; case_bool_decide; congruence. }
  rewrite Hall. case_decide as E; [|by rewrite app_nil_r]. subst k.
  assert (List.filter (λ r, bool_decide (jr_run_id r = rr_id run)) (db_jobs d) = []) as ->; [|done].
  destruct (List.filter _ (db_jobs d)) as [|x l] eqn:Ef; [done|].
  assert (x ∈ sql_select (λ r, bool_decide (jr_run_id r = rr_id run)) (db_jobs d)) as Hx by (unfold sql_select; rewrite Ef; by left).
  apply elem_of_sql_select in Hx as [Hx Hb%bool_decide_eq_true]. by destruct (new_run_not_old x Hx).
Qed.

Lemma extend_new_state n : n ∈ jr_id <$> rows → ∃ s, job_state_at d' n = Some s ∧ (s = JobQueued ∨ s = JobPending).
Proof.
  intros (r & -> & Hr)%list_elem_of_fmap. exists (jr_state r). unfold job_state_at. rewrite (extend_job_new r Hr).
  split; [done|]. destruct (fr_state _ _ _ _ Hf r Hr) as [|[]]; auto.
Qed.

Lemma extend_Settled_new : Settled d' (rr_id run).
Proof.
  intros r Hr Hs. rewrite extend_run_jobs, decide_True in Hr by done. split.
  - intros n s [[_ Hsome]|[Hn _]]%extend_needs Hst Hbad.
    + destruct (fr_row _ _ _ _ Hf r Hr) as (_ & _ & _ & _ & Hnone). rewrite Hnone in Hsome. by destruct Hsome.
    + destruct (extend_new_state n) as (s' & Hs' & Hc); [by destruct (fr_deps _ _ _ _ Hf (jr_id r) n Hn)|].
      assert (s' = s) as -> by congruence. destruct Hc as [-> | ->]; by destruct Hbad as [|[|]].
  - destruct (fr_state _ _ _ _ Hf r Hr) as [|[_ [n Hn]]]; [congruence|]. exists n. split.
    + apply extend_needs. right. split; [done|]. by apply list_elem_of_fmap_2.
    + destruct (extend_new_state n) as (s' & -> & Hc); [by destruct (fr_deps _ _ _ _ Hf (jr_id r) n Hn)|]. destruct Hc as [-> | ->]; done.
Qed.

Lemma extend_Settled_old k : k ≠ rr_id run → Settled d k → Settled d' k.
Proof.
  intros Hk HS r Hr Hs. rewrite extend_run_jobs, decide_False in Hr by done.
  destruct (proj1 (elem_of_run_jobs _ _ _) Hr) as [Hin _].
  assert (Hold : ∀ n, needs d' (jr_id r) n ↔ needs d (jr_id r) n).
  { intros n. rewrite extend_needs. split; [|intros H; left; split; [done|]].
    - intros [[? _]|[_ (x & E & Hx)%list_elem_of_fmap]]; [done|]. by destruct (new_id_not_old x r Hx Hin).
    - destruct (wf_deps _ (inv_wf _ Hinv) _ _ H) as (a & b & -> & _). done. }
  assert (Hst : ∀ n, needs d (jr_id r) n → job_state_at d' n = job_state_at d n).
  { intros n Hn. destruct (wf_deps _ (inv_wf _ Hinv) _ _ Hn) as (a & b & _ & Hb & _).
    unfold job_state_at. by rewrite (extend_job_old _ _ Hb), Hb. }
  destruct (HS r Hr Hs) as [H1 (n & H2 & H3)]. split.
  - intros m s Hm%Hold. rewrite (Hst m Hm). eauto.
  - exists n. rewrite Hold, (Hst n H2). done.
Qed.

Lemma extend_Inv : Inv d'.
Proof.
  split; [apply extend_WF|apply extend_RowsInv|]. intros k x Hx.
  assert (RunOK d' (rr_id run) run) as Hnew.
  { destruct (fr_run _ _ _ _ Hf) as (_ & _ & Hs). unfold RunOK, run_verdict.
    rewrite extend_run_jobs, decide_True, final_state_spec by done. unfold verdict_of.
    rewrite bool_decide_true; [rewrite Hs; by intros []|].
    destruct (fr_rows _ _ _ _ Hf) as [Hne _]. destruct rows as [|r l] eqn:El; [done|]. apply Exists_exists.
    exists (jr_state r). split; [by left|]. rewrite <-El in *.
    destruct (fr_state _ _ _ _ Hf r) as [->|[-> _]]; [rewrite El; by left|done|done]. }
  destruct (decide (k = rr_id run)) as [->|Hne].
  - rewrite extend_run_new in Hx. injection Hx as <-. split; [apply extend_Settled_new|done].
  - assert (run_at d k = Some x) as Hx0.
    { unfold run_at, sql_row in *. simpl in Hx. rewrite find_app in Hx. destruct (List.find _ (db_runs d)); [done|].
      simpl in Hx. by rewrite bool_decide_false in Hx by congruence. }
    destruct (inv_runs _ Hinv k x Hx0) as [HS HR]. split; [by apply extend_Settled_old|].
    unfold RunOK, run_verdict in *. by rewrite extend_run_jobs, decide_False.
Qed.
End extend.

(** ** What [submitRun] stores *)

Definition gen_id (rand : nat → N) (k : nat) : string := hex_encode ((λ i, rand (k + i)%nat) <$> seq 0 8).

(** The jobs with the ids they get, the random stream being at [k]. *)
Fixpoint with_ids (rand : nat → N) (k : nat) (jobs : list PJob) : list (string * PJob) :=
  match jobs with
  | [] => []
  | pj :: l => (gen_id rand k, pj) :: with_ids rand (k + 8) l
  end.

Definition root_state (roots : list string) (pj : PJob) : JobState :=
  if bool_decide (pj_Name pj ∈ roots) then JobQueued else JobPending.

Definition submit_entry (roots : list string) (maxAttempts : Z) (x : string * PJob) : option JobState * Job :=
  let st := root_state roots x.2 in
  (Some st, mkJob x.1 "" (pj_Name x.2) (Some x.2) st 0 maxAttempts "" 0 "" None "" 0 0 0 0 "").

Definition submit_row (roots : list string) (runID : string) (now maxAttempts : Z) (x : string * PJob) : JobRow :=
  mkJobRow x.1 runID (pj_Name x.2) (Some x.2) (root_state roots x.2) 0
    (if bool_decide (maxAttempts <= 0) then 1 else maxAttempts) None None None None None now None None None None.

Lemma with_ids_jobs rand k jobs : (with_ids rand k jobs).*2 = jobs.
Proof. revert k. induction jobs as [|pj l IH]; intros k; simpl; [done|]. by rewrite IH. Qed.

Lemma gen_id_ne rand k : gen_id rand k ≠ "".
Proof. done. Qed.

Lemma with_ids_ne rand k jobs x : x ∈ with_ids rand k jobs → x.1 ≠ "".
Proof.
  revert k. induction jobs as [|pj l IH]; intros k; simpl; [by intros ?%elem_of_nil|].
  intros [->|Hx]%elem_of_cons; [apply gen_id_ne|by eapply IH].
Qed.

Lemma submit_job_ok roots maxA pj acc w :
  marshal_ok pj = true →
  submit_job roots maxA pj acc w =
  (inr (mkSubmitAcc (<[pj_Name pj := gen_id (w_rand w) (w_rands w)]> (sa_ids acc))
          (sa_jobs acc ++ [submit_entry roots maxA (gen_id (w_rand w) (w_rands w), pj)])),
   w <| w_rands := (w_rands w + 8)%nat |>).
Proof. intros H. unfold submit_job. by rewrite H. Qed.

Lemma submit_loop_ok roots maxA jobs acc w :
  Forall (λ pj, marshal_ok pj = true) jobs →
  let prs := with_ids (w_rand w) (w_rands w) jobs in
  mfor jobs acc (submit_job roots maxA) w =
  (inr (mkSubmitAcc (foldl (λ m x, <[pj_Name x.2 := x.1]> m) (sa_ids acc) prs) (sa_jobs acc ++ (submit_entry roots maxA <$> prs))),
   w <| w_rands := (w_rands w + 8 * length jobs)%nat |>).
Proof.
  revert acc w. induction jobs as [|pj l IH]; intros acc w Hm; cbn [mfor with_ids].
  { simpl. rewrite app_nil_r, Nat.add_0_r. by destruct acc, w. }
  apply Forall_cons in Hm as [Hpj Hm]. rewrite (mbind_step _ _ _ _ _ (submit_job_ok roots maxA pj acc w Hpj)).
  rewrite (IH _ (w <| w_rands := (w_rands w + 8)%nat |>) Hm). cbn [sa_ids sa_jobs]. rewrite <-app_assoc. apply pair_equal_spec. split; [done|].
  destruct w. unfold setf, set_w_rands. simpl. f_equal. lia.
Qed.

Definition add_jobs (w : World) (rows : list JobRow) : World :=
  upd ((w_db w) <| db_jobs := db_jobs (w_db w) ++ rows |>) w.
Definition add_deps (w : World) (deps : list JobDep) : World :=
  upd ((w_db w) <| db_job_deps := db_job_deps (w_db w) ++ deps |>) w.

Lemma add_jobs_app w r1 r2 : add_jobs (add_jobs w r1) r2 = add_jobs w (r1 ++ r2).
Proof. unfold add_jobs, upd. simpl. by rewrite <-app_assoc. Qed.
Lemma add_deps_app w r1 r2 : add_deps (add_deps w r1) r2 = add_deps w (r1 ++ r2).
Proof. unfold add_deps, upd. simpl. by rewrite <-app_assoc. Qed.
Lemma add_jobs_nil w : add_jobs w [] = w.
Proof. unfold add_jobs, upd. rewrite app_nil_r. by destruct w as [[]]. Qed.
Lemma add_deps_nil w : add_deps w [] = w.
Proof. unfold add_deps, upd. rewrite app_nil_r. by destruct w as [[]]. Qed.

Definition created (r : JobRow) : Job :=
  mkJob (jr_id r) (jr_run_id r) (jr_name r) (jr_spec_json r) (jr_state r) (jr_attempt r) (jr_max_attempts r)
    "" 0 "" None "" (jr_queued_at r) 0 0 0 "".

Lemma create_job_ok roots runID now maxA x acc w :
  is_Some (run_at (w_db w) runID) → job_at (w_db w) x.1 = None → x.1 ≠ "" → pj_Name x.2 ≠ "" →
  (∀ r, r ∈ db_jobs (w_db w) → jr_run_id r = runID → jr_name r ≠ pj_Name x.2) →
  create_job runID now (submit_entry roots maxA x) acc w =
  (inr (acc ++ [created (submit_row roots runID now maxA x)]), add_jobs w [submit_row roots runID now maxA x]).
Proof.
  intros [run Hrun] Hid Hne Hnn Hname. unfold create_job, submit_entry. simpl.
  rewrite (bool_decide_false (x.1 = "")), (bool_decide_false (pj_Name x.2 = "")) by done. simpl.
  unfold insert_job. simpl. unfold job_at in Hid. unfold mbind, M_bind, get_db. simpl. rewrite Hid. simpl.
  assert (List.existsb (λ r, bool_decide (jr_run_id r = runID) && bool_decide (jr_name r = pj_Name x.2)) (db_jobs (w_db w)) = false) as ->.
  { apply not_true_iff_false. rewrite existsb_exists. intros (r & Hr & [H1 H2]%andb_true_iff).
    apply bool_decide_eq_true in H1, H2. apply (Hname r); [by apply list_elem_of_In|done|done]. }
  unfold run_at in Hrun. rewrite Hrun. done.
Qed.

Lemma create_jobs_ok roots runID now maxA prs acc w :
  is_Some (run_at (w_db w) runID) → NoDup prs.*1 → NoDup (pj_Name <$> prs.*2) →
  (∀ x, x ∈ prs → job_at (w_db w) x.1 = None ∧ x.1 ≠ "" ∧ pj_Name x.2 ≠ "") →
  (∀ x r, x ∈ prs → r ∈ db_jobs (w_db w) → jr_run_id r = runID → jr_name r ≠ pj_Name x.2) →
  mfor (submit_entry roots maxA <$> prs) acc (create_job runID now) w =
  (inr (acc ++ (created <$> (submit_row roots runID now maxA <$> prs))),
   add_jobs w (submit_row roots runID now maxA <$> prs)).
Proof.
  revert acc w. induction prs as [|x l IH]; intros acc w Hrun Hnd1 Hnd2 Hid Hname.
  { simpl. by rewrite app_nil_r, add_jobs_nil. }
  rewrite !fmap_cons in *. apply NoDup_cons in Hnd1 as [Hx1 Hnd1], Hnd2 as [Hx2 Hnd2].
  destruct (Hid x) as (H1 & H2 & H3); [by left|]. cbn [mfor].
  rewrite (mbind_step _ _ _ _ _ (create_job_ok roots runID now maxA x acc w Hrun H1 H2 H3
    (λ r Hr, Hname x r ltac:(by left) Hr))).
  rewrite IH.
  - by rewrite add_jobs_app, <-app_assoc.
  - done.
  - done.
  - done.
  - intros y Hy. destruct (Hid y) as (H4 & H5 & H6); [by right|]. split_and!; try done.
    unfold job_at, sql_row, add_jobs in *. simpl. rewrite find_app, H4. simpl.
    destruct (is_id y.1 _) eqn:E; [|done]. apply is_id_true in E. simpl in E.
    destruct Hx1. rewrite E. by apply list_elem_of_fmap_2.
  - intros y r Hy. unfold add_jobs. simpl. intros [Hr|Hr%list_elem_of_singleton]%elem_of_app Hrr.
    + apply Hname; [by right|done|done].
    + subst r. simpl. intros E. destruct Hx2. rewrite E, <-list_fmap_compose. by apply (list_elem_of_fmap_2 (pj_Name ∘ snd)).
Qed.

Lemma create_deps_ok ids deps w :
  NoDup deps → (∀ e, e ∈ deps → e ∉ db_job_deps (w_db w)) →
  (∀ e, e ∈ deps → d_JobID e ∈ ids ∧ d_NeedsJobID e ∈ ids) → (∀ id, id ∈ ids → is_Some (job_at (w_db w) id)) →
  mfor deps tt (create_dep ids) w = (inr tt, add_deps w deps).
Proof.
  revert w. induction deps as [|e l IH]; intros w Hnd Hfr Hids Hex; [by rewrite add_deps_nil|].
  apply NoDup_cons in Hnd as [He Hnd]. destruct (Hids e) as [H1 H2]; [by left|]. cbn [mfor].
  assert (create_dep ids e tt w = (inr tt, add_deps w [e])) as E.
  { unfold create_dep. rewrite !bool_decide_true by done. simpl. unfold insert_dep, mbind, M_bind, get_db.
    rewrite bool_decide_false by (apply Hfr; by left).
    destruct (Hex _ H1) as [a Ha], (Hex _ H2) as [b Hb]. unfold job_at in *. by rewrite Ha, Hb. }
  rewrite (mbind_step _ _ _ _ _ E), IH.
  - by rewrite add_deps_app.
  - done.
  - intros x Hx. unfold add_deps. simpl. rewrite not_elem_of_app, list_elem_of_singleton.
    split; [apply Hfr; by right|]. by intros ->.
  - intros x Hx. apply Hids. by right.
  - done.
Qed.

(** ** The submitted run *)

(** The facts of an accepted pipeline [submitRun] relies on. *)
Record accepted (p : Pipeline) : Prop := {
  ac_ne : p_Jobs p ≠ [];
  ac_names : NoDup (pj_Name <$> p_Jobs p);
  ac_name_ne : ∀ j, j ∈ p_Jobs p → pj_Name j ≠ "";
  ac_needs : ∀ j, j ∈ p_Jobs p → NoDup (pj_Needs j) ∧ ∀ n, n ∈ pj_Needs j → n ∈ pj_Name <$> p_Jobs p;
  ac_rank : has_rank (p_Jobs p)
}.

Lemma Parse_accepted yaml_decode src p : Parse yaml_decode src = inr p → accepted p.
Proof.
  unfold Parse. destruct (yaml_decode src) as [|msg|name jobs]; try done.
  intros [(H1 & H2 & H3 & H4 & H5) ->]%finalize_inr. split; simpl.
  - by destruct jobs.
  - by rewrite names_fix_timeout.
  - intros j' (j & -> & Hj)%list_elem_of_fmap. destruct (fix_timeout_fields j) as [-> _].
    rewrite Forall_forall in H2. by apply H2.
  - intros j' (j & -> & Hj)%list_elem_of_fmap. destruct (fix_timeout_fields j) as [_ ->].
    rewrite names_fix_timeout. destruct (H4 j Hj) as [? H]. split; [done|]. intros n Hn. by apply H.
  - by rewrite has_rank_fix_timeout.
Qed.

Lemma elem_of_Roots p j : accepted p → j ∈ p_Jobs p → pj_Name j ∈ Roots p ↔ pj_Needs j = [].
Proof.
  intros Ha Hj. unfold Roots. rewrite list_elem_of_fmap. split.
  - intros (x & E & [Hx Hn%bool_decide_eq_true]%(elem_of_sql_select _ (p_Jobs p))).
    assert (Some x = Some j) as [= ->]; [|by apply length_zero_iff_nil].
    rewrite <-(by_key_row pj_Name (p_Jobs p) (pj_Name j) x), <-(by_key_row pj_Name (p_Jobs p) (pj_Name j) j); try done; apply Ha.
  - intros E. exists j. split; [done|]. apply (elem_of_sql_select _ (p_Jobs p)). split; [done|].
    apply bool_decide_eq_true. by rewrite E.
Qed.

Section submit.
Context (w : World) (p : Pipeline) (runID src : string) (maxA : Z).
Let prs := with_ids (w_rand w) (w_rands w) (p_Jobs p).
Let ids : gmap string string := foldl (λ m x, <[pj_Name x.2 := x.1]> m) ∅ prs.
Let deps := submit_deps ids (p_Jobs p).
Let now := now_of w.
Let rows := submit_row (Roots p) runID now maxA <$> prs.
Let run := mkRunRow runID "" src None None TriggerAPI RunPending now None None.

Context (Hinv : Inv (w_db w)) (Ha : accepted p).
Context (Hrun : run_at (w_db w) runID = None) (HrunID : runID ≠ "") (Hsrc : src ≠ "").
Context (Hmar : Forall (λ pj, marshal_ok pj = true) (p_Jobs p)).
Context (Hnd : NoDup prs.*1) (Hfresh : ∀ id, id ∈ prs.*1 → job_at (w_db w) id = None).

Lemma prs_job x : x ∈ prs → x.2 ∈ p_Jobs p.
Proof. intros Hx. rewrite <-(with_ids_jobs (w_rand w) (w_rands w) (p_Jobs p)). by apply list_elem_of_fmap_2. Qed.

Lemma NoDup_names_prs : NoDup ((λ x, pj_Name x.2) <$> prs).
Proof.
  replace ((λ x, pj_Name x.2) <$> prs) with (pj_Name <$> prs.*2) by (by rewrite <-list_fmap_compose).
  unfold prs. rewrite with_ids_jobs. apply Ha.
Qed.

Lemma job_prs j : j ∈ p_Jobs p → ∃ id, (id, j) ∈ prs ∧ ids !! pj_Name j = Some id.
Proof.
  intros Hj. rewrite <-(with_ids_jobs (w_rand w) (w_rands w) (p_Jobs p)) in Hj.
  apply list_elem_of_fmap in Hj as ([id j'] & -> & Hx). exists id. split; [done|].
  apply (fold_insert_in (λ x, pj_Name x.2) fst prs ∅ (id, j')); [|done].
  apply NoDup_names_prs.
Qed.

Lemma ids_prs x : x ∈ prs → ids !! pj_Name x.2 = Some x.1.
Proof.
  intros Hx. apply (fold_insert_in (λ x, pj_Name x.2) fst prs ∅ x); [|done].
  apply NoDup_names_prs.
Qed.

Lemma prs_inj x y : x ∈ prs → y ∈ prs → x.1 = y.1 → x = y.
Proof.
  intros Hx Hy E. assert (Some x = Some y) as [= ->]; [|done].
  rewrite <-(by_key_row fst prs x.1 x), <-(by_key_row fst prs x.1 y); done.
Qed.

Lemma elem_of_deps a b :
  mkJobDep a b ∈ deps ↔ ∃ x y, x ∈ prs ∧ y ∈ prs ∧ x.1 = a ∧ y.1 = b ∧ pj_Name y.2 ∈ pj_Needs x.2.
Proof.
  unfold deps, submit_deps. rewrite list_elem_of_bind. split.
  - intros (j & (n & [= -> ->] & Hn)%list_elem_of_fmap & Hj). destruct (ac_needs _ Ha j Hj) as [_ Hin].
    apply Hin in Hn as Hn'. apply list_elem_of_fmap in Hn' as (j2 & -> & Hj2).
    destruct (job_prs j Hj) as (id1 & H1 & E1), (job_prs j2 Hj2) as (id2 & H2 & E2).
    exists (id1, j), (id2, j2). rewrite E1, E2. done.
  - intros (x & y & Hx & Hy & <- & <- & Hn). exists x.2. split; [|by apply prs_job].
    apply list_elem_of_fmap. exists (pj_Name y.2). by rewrite !ids_prs.
Qed.

Lemma NoDup_deps : NoDup deps.
Proof.
  unfold deps, submit_deps. apply NoDup_bind.
  - intros j1 j2 e H1 H2 (n1 & -> & _)%list_elem_of_fmap (n2 & E & _)%list_elem_of_fmap. injection E as E _.
    destruct (job_prs j1 H1) as (id1 & P1 & E1), (job_prs j2 H2) as (id2 & P2 & E2). rewrite E1, E2 in E. simpl in E.
    assert ((id1, j1) = (id2, j2)) by (by apply prs_inj). congruence.
  - intros j Hj. destruct (ac_needs _ Ha j Hj) as [Hn Hin].
    apply (NoDup_fmap_2_strong _ (pj_Needs j)); [|done].
    intros n1 n2 H1 H2 [= E]. apply Hin in H1, H2.
    apply list_elem_of_fmap in H1 as (j1 & -> & H1), H2 as (j2 & -> & H2).
    destruct (job_prs j1 H1) as (id1 & P1 & E1), (job_prs j2 H2) as (id2 & P2 & E2). rewrite E1, E2 in E. simpl in E.
    assert ((id1, j1) = (id2, j2)) by (by apply prs_inj). congruence.
  - eapply NoDup_fmap_1. apply Ha.
Qed.

Lemma submit_fresh : fresh_run (w_db w) run rows deps.
Proof.
  assert (Hids : jr_id <$> rows = prs.*1) by (unfold rows; rewrite <-list_fmap_compose; by apply list_fmap_ext).
  split.
  - done.
  - split; [|by rewrite Hids]. pose proof (ac_ne _ Ha) as Hne. unfold rows, prs. by destruct (p_Jobs p).
  - intros r (x & -> & Hx)%list_elem_of_fmap. simpl. split_and!; [done|by eapply with_ids_ne|done| |].
    + assert (root_state (Roots p) x.2 = JobQueued ∨ root_state (Roots p) x.2 = JobPending) as Hc
        by (unfold root_state; case_bool_decide; auto).
      assert (1 ≤ (if bool_decide (maxA <= 0) then 1 else maxA)) as Hmax by (case_bool_decide; lia).
      destruct Hc as [E|E]; split; simpl; unfold terminal; rewrite ?E; try done; try lia;
        try (by split; [intros [? ?]|]); by intros [? ?].
    + apply Hfresh. by apply list_elem_of_fmap_2.
  - intros r (x & -> & Hx)%list_elem_of_fmap. simpl. unfold root_state. case_bool_decide as Hr; [by left|right].
    split; [done|]. pose proof (prs_job x Hx) as Hj. rewrite elem_of_Roots in Hr by done.
    destruct (pj_Needs x.2) as [|n l] eqn:En; [done|]. destruct (ac_needs _ Ha x.2 Hj) as [_ Hin].
    rewrite En in Hin. destruct (proj1 (list_elem_of_fmap _ _ _) (Hin n ltac:(by left))) as (j2 & -> & Hj2).
    destruct (job_prs j2 Hj2) as (id2 & H2 & _). exists id2. apply elem_of_deps. exists x, (id2, j2).
    split_and!; try done. rewrite En. by left.
  - intros a b (x & y & Hx & Hy & <- & <- & _)%elem_of_deps. rewrite Hids. split; by apply list_elem_of_fmap_2.
Qed.

Lemma submitRun_ok :
  ∃ w', submitRun runID p src maxA w = (inr (scanRun run, created <$> rows), w') ∧
    Inv (w_db w') ∧ db_runs (w_db w') = db_runs (w_db w) ++ [run] ∧ db_jobs (w_db w') = db_jobs (w_db w) ++ rows ∧
    db_job_deps (w_db w') = db_job_deps (w_db w) ++ deps ∧ w_clock w' = w_clock w.
Proof.
  unfold submitRun. rewrite (mbind_step _ _ _ _ _ (submit_loop_ok (Roots p) maxA (p_Jobs p) _ w Hmar)).
  cbn [sa_ids sa_jobs]. fold prs. fold ids. fold deps. set (w0 := w <| w_rands := _ |>).
  set (w1 := upd ((w_db w) <| db_runs := db_runs (w_db w) ++ [run] |>) (tick w0)).
  assert (Hjobs : ∀ x, x ∈ prs → job_at (w_db w1) x.1 = None ∧ x.1 ≠ "" ∧ pj_Name x.2 ≠ "").
  { intros x Hx. split_and!; [apply (Hfresh x.1); by apply list_elem_of_fmap_2|by eapply with_ids_ne|].
    apply (ac_name_ne _ Ha). by apply prs_job. }
  assert (Hold : ∀ r, r ∈ db_jobs (w_db w) → jr_run_id r ≠ runID).
  { intros r Hr E. destruct (wf_job_run _ (inv_wf _ Hinv) r Hr) as [y Hy]. rewrite E in Hy. congruence. }
  assert (Hcr : CreateRun (Some RunPending) (mkRun runID "" src "" "" TriggerAPI RunPending 0 0 0)
      (submit_entry (Roots p) maxA <$> prs) deps w0 =
      (inr (scanRun run, created <$> rows), add_deps (add_jobs w1 rows) deps)).
  { unfold CreateRun. cbn [r_ID r_PipelineYAML].
    rewrite (bool_decide_false _ HrunID), (bool_decide_false _ Hsrc). step_now w0.
    assert (insert_run (mkRun runID "" src "" "" TriggerAPI RunPending now 0 0) (tick w0) = (inr tt, w1)) as Hins.
    { unfold insert_run, mbind, M_bind, get_db. simpl. unfold run_at in Hrun. by rewrite Hrun. }
    step_with Hins. cbn [r_ID].
    step_with (create_jobs_ok (Roots p) runID now maxA prs [] w1
      ltac:(rewrite run_at_exists; simpl; rewrite fmap_app; set_solver) Hnd
      ltac:(unfold prs; rewrite with_ids_jobs; apply Ha) Hjobs
      (λ x r _ Hr E, False_ind _ (Hold r Hr E))).
    simpl app. fold rows.
    assert (Hids : j_ID <$> (created <$> rows) = jr_id <$> rows) by (rewrite <-list_fmap_compose; by apply list_fmap_ext).
    rewrite Hids. pose proof submit_fresh as Hf.
    assert (Hd : mfor deps tt (create_dep (jr_id <$> rows)) (add_jobs w1 rows) = (inr tt, add_deps (add_jobs w1 rows) deps)).
    { apply create_deps_ok.
      - apply NoDup_deps.
      - intros [a b] He Hin. simpl in Hin. destruct (wf_deps _ (inv_wf _ Hinv) a b Hin) as (ra & _ & Hra & _).
        destruct (fr_deps _ _ _ _ Hf a b He) as [(r & -> & Hr)%list_elem_of_fmap _].
        destruct (fr_row _ _ _ _ Hf r Hr) as (_ & _ & _ & _ & Hn). congruence.
      - intros [a b] He. by apply (fr_deps _ _ _ _ Hf).
      - intros id Hid. apply job_at_exists. simpl. rewrite fmap_app. set_solver. }
    step_with Hd. done. }
  pose proof (extend_Inv _ _ _ _ Hinv submit_fresh) as Hext.
  set (w2 := add_deps (add_jobs w1 rows) deps) in *.
  assert (w_db w2 = extend (w_db w) run rows deps) as Ew2 by done. rewrite <-Ew2 in Hext.
  set (detail := [_; _] : Detail).
  destruct (event_soft w2 runID "" "run.created" detail HrunID) as (w3 & He & Hs & _ & Ej & Er); [done|].
  destruct (soft_good _ _ Hs Hext) as [Hev Hinv3].
  unfold event in He. apply mbind_ok in He as (ev & w4 & He & Hx). injection Hx as ->.
  exists w3. split; [|split_and!; try done].
  - apply Tx_step. rewrite (mbind_step _ _ _ _ _ Hcr). rewrite (mbind_step _ _ _ _ _ He). done.
  - by destruct (PSteps_static _ _ (evo_steps _ _ Hev)) as (_ & _ & ->).
  - by rewrite (evo_clock _ _ Hev).
Qed.

Lemma submit_acyclic d' :
  db_job_deps d' = db_job_deps (w_db w) ++ deps → Acyclic (w_db w) → Acyclic d'.
Proof.
  intros Hd [rank0 H0]. destruct (ac_rank _ Ha) as [rank1 H1].
  exists (λ id, match List.find (by_key fst id) prs with Some x => rank1 (pj_Name x.2) | None => rank0 id end).
  assert (Hnew : ∀ x, x ∈ prs → List.find (by_key fst x.1) prs = Some x) by (intros x Hx; by apply (by_key_row fst)).
  assert (Hold : ∀ id, is_Some (job_at (w_db w) id) → List.find (by_key fst id) prs = None).
  { intros id Hs. destruct (List.find _ prs) as [x|] eqn:E; [|done].
    apply (sql_row_key fst) in E as [Hx <-]. rewrite (Hfresh x.1) in Hs by (by apply list_elem_of_fmap_2). by destruct Hs. }
  intros id n. unfold needs. rewrite Hd, elem_of_app. intros [Hn|Hn].
  - destruct (wf_deps _ (inv_wf _ Hinv) _ _ Hn) as (a & b & Hja & Hjb & _).
    rewrite !Hold by (rewrite ?Hja, ?Hjb; done). by apply H0.
  - apply elem_of_deps in Hn as (x & y & Hx & Hy & <- & <- & Hn). rewrite !Hnew by done. apply H1; [by apply prs_job|done].
Qed.
End submit.


Definition empty_world : World := mkWorld empty_db (λ n, 1000 + Z.of_nat n) 0 (λ n, N.of_nat (n mod 256)) 0 no_metrics.
