(* ===== verification/Migrate.v ===== *)
(** * Schema migrations: src/internal/store/migrate.go

    The migrations embedded in the binary, ordered by version, and their
    application: each one runs in a transaction together with the row that records
    it.  What SQLite does with a migration's text is the parameter [exec]; the rest
    of the database is the type [S]. *)

From S2P Require Import Prelude GoLib.
From Stdlib Require Import Ascii.

Local Open Scope Z_scope.

Record migration := mkMigration { mg_version : Z; mg_name : string; mg_sql : string }.
#[export] Instance migration_eq_dec : EqDecision migration.
Proof. solve_decision. Defined.

(** A row of schema_migrations. *)
Record MigRow := mkMigRow { mr_version : Z; mr_name : string; mr_applied_at : Z }.

Inductive MigErr :=
  | MReadDir
  | MBadName (name : string)
  | MBadVersion (name : string)
  | MTwice (v : Z)
  | MReadFile (name : string)
  | MCreateTable
  | MApply (name : string).

(** ** loadMigrations *)

(** The embedded directory: [None] when reading it fails, and each entry with its
    bytes, [None] when the file cannot be read. *)
Definition EmbedFS : Type := option (list (string * option string)).

(** The loop over the entries; [seen] is the set of the versions so far. *)
Fixpoint load_entries (es : list (string * option string)) (seen : gset Z) (ms : list migration) : MigErr + list migration :=
  match es with
  | [] => inr ms
  | (name, file) :: es' =>
      if negb (HasSuffix name ".sql") then load_entries es' seen ms
      else
        let '(prefix, _, ok) := Cut name "_" in
        if negb ok then inl (MBadName name)
        else match ParseInt prefix with
             | None => inl (MBadVersion name)
             | Some v =>
                 if bool_decide (v ≤ 0) then inl (MBadVersion name)
                 else if bool_decide (v ∈ seen) then inl (MTwice v)
                 else match file with
                      | None => inl (MReadFile name)
                      | Some body => load_entries es' ({[v]} ∪ seen) (ms ++ [mkMigration v name body])
                      end
             end
  end.

Definition by_version (m1 m2 : migration) : bool := bool_decide (mg_version m1 ≤ mg_version m2).

Definition loadMigrations (fs : EmbedFS) : MigErr + list migration :=
  match fs with
  | None => inl MReadDir
  | Some es => match load_entries es ∅ [] with
               | inl e => inl e
               | inr ms => inr (order_by by_version ms)
               end
  end.

(** ** migrate *)

Section migrate.
Context {S : Type} (exec : string → S → option S).

(** The database: schema_migrations, absent before the first run, and the rest. *)
Record MDB := mkMDB { md_rows : option (list MigRow); md_rest : S }.

(** What fails by itself during a run: creating the table, and the begin, query,
    insert or commit of a migration's transaction. *)
Record MFaults := mkMFaults { mf_create : bool; mf_tx : Z → bool }.

Definition recorded (v : Z) (d : MDB) : bool :=
  existsb (λ r, bool_decide (mr_version r = v)) (default [] (md_rows d)).

(** The body of one transaction; an error rolls all of it back. *)
Definition apply_one (f : MFaults) (now : Z) (m : migration) (d : MDB) : option MDB :=
  if mf_tx f (mg_version m) then None
  else if recorded (mg_version m) d then Some d
  else match exec (mg_sql m) (md_rest d) with
       | None => None
       | Some rest' => Some (mkMDB (Some (default [] (md_rows d) ++ [mkMigRow (mg_version m) (mg_name m) now])) rest')
       end.

(** The loop; the last component is the committed states it goes through. *)
Fixpoint apply_all (f : MFaults) (now : Z) (ms : list migration) (d : MDB) : option MigErr * MDB * list MDB :=
  match ms with
  | [] => (None, d, [])
  | m :: ms' =>
      match apply_one f now m d with
      | None => (Some (MApply (mg_name m)), d, [])
      | Some d' => let '(e, d'', h) := apply_all f now ms' d' in (e, d'', d' :: h)
      end
  end.

Definition create_table (d : MDB) : MDB := mkMDB (Some (default [] (md_rows d))) (md_rest d).

Definition migrate_history (f : MFaults) (now : Z) (fs : EmbedFS) (d : MDB) : option MigErr * MDB * list MDB :=
  if mf_create f then (Some MCreateTable, d, [d])
  else
    let d1 := create_table d in
    match loadMigrations fs with
    | inl e => (Some e, d1, [d; d1])
    | inr ms => let '(e, d2, h) := apply_all f now ms d1 in (e, d2, d :: d1 :: h)
    end.

Definition migrate (f : MFaults) (now : Z) (fs : EmbedFS) (d : MDB) : option MigErr * MDB :=
  (migrate_history f now fs d).1.

(** [SchemaVersion]; [None] when the table does not exist. *)
Definition SchemaVersion (d : MDB) : option Z :=
  match md_rows d with
  | None => None
  | Some rows => Some (match mr_version <$> rows with [] => 0 | v :: vs => foldr Z.max v vs end)
  end.
End migrate.

(** ** What loading yields *)

Definition versions (ms : list migration) : list Z := mg_version <$> ms.

Lemma load_entries_ok es : ∀ seen ms out,
  load_entries es seen ms = inr out → list_to_set (versions ms) = seen → NoDup (versions ms) →
  Forall (λ m, 0 < mg_version m) ms → NoDup (versions out) ∧ Forall (λ m, 0 < mg_version m) out.
Proof.
  induction es as [|[name file] es IH]; simpl; intros seen ms out; [by intros [= <-]|].
  destruct (HasSuffix name ".sql"); simpl; [|by apply IH].
  destruct (Cut name "_") as [[prefix rest] []]; simpl; [|done].
  destruct (ParseInt prefix) as [v|]; [|done]. case_bool_decide as Hv; [done|].
  case_bool_decide as Hs; [done|]. destruct file as [body|]; [|done]. intros E Hseen Hnd Hpos.
  eapply IH; [exact E|..]; unfold versions; rewrite ?fmap_app; simpl.
  - rewrite list_to_set_app_L. fold (versions ms). rewrite Hseen. simpl. set_solver.
  - apply NoDup_app. split_and!; [done| |apply NoDup_singleton]. intros x Hx ->%list_elem_of_singleton.
    apply Hs. rewrite <-Hseen. by apply elem_of_list_to_set.
  - apply Forall_app. split; [done|]. apply Forall_singleton. simpl. lia.
Qed.

Lemma loadMigrations_ok fs ms : loadMigrations fs = inr ms →
  NoDup (versions ms) ∧ StronglySorted (λ a b, by_version a b = true) ms ∧ Forall (λ m, 0 < mg_version m) ms.
Proof.
  destruct fs as [es|]; simpl; [|done]. destruct (load_entries es ∅ []) as [|out] eqn:E; [done|]. intros [= <-].
  apply load_entries_ok in E as [Hnd Hpos]; [|done|constructor|constructor]. split_and!.
  - unfold versions. by rewrite order_by_perm.
  - apply order_by_sorted; unfold by_version.
    + intros a b. rewrite !bool_decide_eq_true. lia.
    + intros a b c. rewrite !bool_decide_eq_true. lia.
  - by rewrite order_by_perm.
Qed.

(** ** What applying does *)

Section spec.
Context {S : Type} (exec : string → S → option S).

Definition no_mfaults : MFaults := mkMFaults false (λ _, false).
Definition rows_of (d : MDB (S := S)) : list MigRow := default [] (md_rows d).
Definition recorded_versions (d : MDB (S := S)) : list Z := mr_version <$> rows_of d.

(** The migrations a database still lacks, and running them one after another. *)
Definition pending (ms : list migration) (d : MDB (S := S)) : list migration :=
  filter (λ m, mg_version m ∉ recorded_versions d) ms.
Fixpoint exec_all (ms : list migration) (s : S) : option S :=
  match ms with [] => Some s | m :: ms' => s' ← exec (mg_sql m) s; exec_all ms' s' end.

(** [d'] is [d] with exactly the migrations [ms] applied and recorded, in order. *)
Record advanced (ms : list migration) (d d' : MDB (S := S)) : Prop := {
  ad_rest : exec_all ms (md_rest d) = Some (md_rest d');
  ad_rows : recorded_versions d' = recorded_versions d ++ versions ms
}.

Lemma recorded_spec v d : recorded (S := S) v d = bool_decide (v ∈ recorded_versions d).
Proof.
  apply eq_bool_prop_intro. unfold recorded, recorded_versions, rows_of. rewrite bool_decide_spec, list_elem_of_fmap.
  rewrite Is_true_true, existsb_exists. split.
  - intros (r & Hr & He). apply bool_decide_eq_true in He. exists r. split; [done|]. by apply list_elem_of_In.
  - intros (r & -> & Hr). exists r. split; [by apply list_elem_of_In|]. by apply bool_decide_eq_true.
Qed.

Lemma exec_all_app a b s : exec_all (a ++ b) s = exec_all a s ≫= exec_all b.
Proof.
  revert s. induction a as [|m a IH]; intros s; [done|]. simpl. destruct (exec (mg_sql m) s) as [s1|]; [apply IH|done].
Qed.

Lemma pending_app a b d : pending (a ++ b) d = pending a d ++ pending b d.
Proof. apply filter_app. Qed.

Lemma advanced_trans a b d1 d2 d3 : advanced a d1 d2 → advanced b d2 d3 → advanced (a ++ b) d1 d3.
Proof.
  intros [H1 R1] [H2 R2]. split; [by rewrite exec_all_app, H1|].
  rewrite R2, R1. unfold versions. by rewrite fmap_app, app_assoc.
Qed.

Lemma apply_one_ok f now m d d' : apply_one exec f now m d = Some d' → advanced (pending [m] d) d d'.
Proof.
  unfold apply_one. destruct (mf_tx f (mg_version m)); [done|]. rewrite recorded_spec. unfold pending.
  rewrite filter_cons, filter_nil. case_bool_decide as Hr.
  - intros [= <-]. rewrite decide_False by (intros H; by apply H). split; [done|]. by rewrite app_nil_r.
  - rewrite decide_True by done. destruct (exec (mg_sql m) (md_rest d)) as [s'|] eqn:E; [|done]. intros [= <-].
    split; simpl; [by rewrite E|]. unfold recorded_versions, rows_of. simpl. by rewrite fmap_app.
Qed.

(** Applying a migration leaves the later ones as pending as they were. *)
Lemma pending_advanced a b d d' : NoDup (versions (a ++ b)) → advanced (pending a d) d d' → pending b d' = pending b d.
Proof.
  intros Hnd [_ Hr]. unfold pending. rewrite Hr. apply filter_ext_in. intros m Hm.
  rewrite not_elem_of_app. split; [by intros [? _]|]. intros ?. split; [done|]. intros Hin.
  apply list_elem_of_fmap in Hin as (m' & E & Hm'%list_elem_of_filter). unfold versions in Hnd. rewrite fmap_app in Hnd.
  apply NoDup_app in Hnd as (_ & Hnd & _). apply (Hnd (mg_version m')).
  - apply list_elem_of_fmap. exists m'. split; [done|]. apply Hm'.
  - rewrite <-E. by apply list_elem_of_fmap_2.
Qed.

Lemma pending_done a d d' : advanced (pending a d) d d' → pending a d' = [].
Proof.
  intros [_ Hr]. unfold pending. rewrite Hr. apply elem_of_nil_inv. intros m [Hn Hm]%list_elem_of_filter. apply Hn.
  apply elem_of_app. destruct (decide (mg_version m ∈ recorded_versions d)); [by left|right].
  apply list_elem_of_fmap_2. by apply list_elem_of_filter.
Qed.

Lemma apply_all_history f now ms : ∀ d e d' h, NoDup (versions ms) → apply_all exec f now ms d = (e, d', h) →
  d' ∈ d :: h ∧ (e = None → advanced (pending ms d) d d') ∧
  ∀ d1, d1 ∈ d :: h → ∃ p q, ms = p ++ q ∧ advanced (pending p d) d d1.
Proof.
  assert (Hrefl : ∀ d, advanced (pending [] d) d d) by (intros d; split; [done|by rewrite app_nil_r]).
  induction ms as [|m ms IH]; intros d e d' h Hnd E; simpl in E.
  { injection E as <- <- <-. split_and!; [by left|done|]. intros d1 ->%list_elem_of_singleton. by exists [], []. }
  destruct (apply_one exec f now m d) as [d2|] eqn:E1.
  2:{ injection E as <- <- <-. split_and!; [by left|done|]. intros d1 ->%list_elem_of_singleton. by exists [], (m :: ms). }
  destruct (apply_all exec f now ms d2) as [[e2 d3] h2] eqn:E2. injection E as <- <- <-.
  apply apply_one_ok in E1. apply NoDup_cons in Hnd as Hnd2. destruct Hnd2 as [_ Hnd2].
  destruct (IH _ _ _ _ Hnd2 E2) as (Hin & Hok & Hh).
  assert (Hstep : ∀ p q d4, ms = p ++ q → advanced (pending p d2) d2 d4 → advanced (pending (m :: p) d) d d4).
  { intros p q d4 -> H4. change (m :: p) with ([m] ++ p). rewrite pending_app. eapply advanced_trans; [exact E1|].
    rewrite <-(pending_advanced [m] p d d2); [done| |done]. apply (sublist_NoDup _ _ Hnd).
    change (mg_version m :: versions p `sublist_of` mg_version m :: versions (p ++ q)).
    apply sublist_skip. unfold versions. rewrite fmap_app. by apply sublist_inserts_r. }
  split_and!; [by right|intros He; apply (Hstep ms []); [by rewrite app_nil_r|auto]|].
  intros d1 [->|H1]%elem_of_cons; [by exists [], (m :: ms)|].
  destruct (Hh d1 H1) as (p & q & -> & Hp). exists (m :: p), q. split; [done|]. by apply (Hstep p q).
Qed.

Lemma apply_all_total now ms : ∀ d, NoDup (versions ms) → is_Some (exec_all (pending ms d) (md_rest d)) →
  ∃ d' h, apply_all exec no_mfaults now ms d = (None, d', h).
Proof.
  induction ms as [|m ms IH]; intros d Hnd Hex; [by exists d, []|].
  change (m :: ms) with ([m] ++ ms) in Hex. rewrite pending_app, exec_all_app in Hex.
  assert (∃ d2, apply_one exec no_mfaults now m d = Some d2) as [d2 E1].
  { unfold apply_one. simpl. rewrite recorded_spec. unfold pending in Hex. rewrite filter_cons, filter_nil in Hex.
    case_bool_decide as Hr; [by eauto|]. rewrite decide_True in Hex by done. simpl in Hex.
    destruct (exec (mg_sql m) (md_rest d)); [by eauto|by destruct Hex]. }
  pose proof (apply_one_ok _ _ _ _ _ E1) as Ha. rewrite (ad_rest _ _ _ Ha) in Hex. simpl in Hex.
  rewrite <-(pending_advanced [m] ms d d2) in Hex by done. apply NoDup_cons in Hnd as [_ Hnd].
  destruct (IH d2 Hnd Hex) as (d' & h & E). exists d', (d2 :: h). cbn [apply_all]. by rewrite E1, E.
Qed.

Lemma create_table_advanced d : advanced [] d (create_table d).
Proof. split; [done|]. by rewrite app_nil_r. Qed.

Lemma pending_create ms d : pending ms (create_table d) = pending ms d.
Proof. done. Qed.

(** A run goes through states that have a prefix of the missing migrations, and
    ends with all of them or with an error. *)
Lemma migrate_steps f now fs d e d' h : migrate_history exec f now fs d = (e, d', h) →
  d' ∈ h ∧ ∀ d1, d1 ∈ h → d1 = d ∨
    ∀ ms, loadMigrations fs = inr ms → ∃ p q, ms = p ++ q ∧ advanced (pending p d) d d1.
Proof.
  unfold migrate_history. destruct (mf_create f).
  { intros [= <- <- <-]. split; [by left|]. intros d1 ->%list_elem_of_singleton. by left. }
  destruct (loadMigrations fs) as [e1|ms] eqn:El.
  { intros [= <- <- <-]. split; [by right; left|]. intros d1 [->| ->%list_elem_of_singleton]%elem_of_cons; [by left|by right]. }
  destruct (apply_all exec f now ms (create_table d)) as [[e2 d2] h2] eqn:E. intros [= <- <- <-].
  destruct (loadMigrations_ok _ _ El) as (Hnd & _). destruct (apply_all_history _ _ _ _ _ _ _ Hnd E) as (Hin & _ & Hh).
  split; [by right|]. intros d1 [->|H1]%elem_of_cons; [by left|right]. intros ms' [= <-].
  destruct (Hh d1 H1) as (p & q & -> & Hp). exists p, q. split; [done|]. rewrite pending_create in Hp.
  exact (advanced_trans [] _ _ _ _ (create_table_advanced d) Hp).
Qed.

Lemma migrate_ok now fs d d' : migrate exec no_mfaults now fs d = (None, d') →
  ∃ ms, loadMigrations fs = inr ms ∧ advanced (pending ms d) d d'.
Proof.
  unfold migrate, migrate_history. simpl. destruct (loadMigrations fs) as [|ms] eqn:El; [done|].
  destruct (apply_all exec no_mfaults now ms (create_table d)) as [[e2 d2] h2] eqn:E. intros [= -> ->].
  destruct (loadMigrations_ok _ _ El) as (Hnd & _). destruct (apply_all_history _ _ _ _ _ _ _ Hnd E) as (_ & Hok & _).
  exists ms. split; [done|]. exact (advanced_trans [] _ _ _ _ (create_table_advanced d) (Hok eq_refl)).
Qed.

Lemma migrate_succeeds now fs d ms : loadMigrations fs = inr ms → is_Some (exec_all (pending ms d) (md_rest d)) →
  ∃ d', migrate exec no_mfaults now fs d = (None, d').
Proof.
  intros El Hex. destruct (loadMigrations_ok _ _ El) as (Hnd & _).
  destruct (apply_all_total now ms (create_table d) Hnd) as (d' & h & E); [by rewrite pending_create|].
  exists d'. unfold migrate, migrate_history. simpl. by rewrite El, E.
Qed.

(** C32: An interrupted migration is completed by the next start.  Take any run of
    migrate, with whatever failures, and any committed state [d1] it passes through
    (what a crash there leaves behind); if an undisturbed run from the original
    database succeeds, then so does an undisturbed run from [d1], and it ends with
    the same schema and the same recorded versions: no migration is lost and none
    is applied twice. *)
Theorem migration_survives_a_crash f now now1 now2 fs d d1 dfin :
  d1 ∈ (migrate_history exec f now fs d).2 → migrate exec no_mfaults now1 fs d = (None, dfin) →
  ∃ d2, migrate exec no_mfaults now2 fs d1 = (None, d2) ∧
        md_rest d2 = md_rest dfin ∧ recorded_versions d2 = recorded_versions dfin ∧
        ∀ ms, loadMigrations fs = inr ms → pending ms d2 = [].
Proof.
  intros Hd1 (ms & El & Hfin)%migrate_ok.
  destruct (migrate_history exec f now fs d) as [[e d'] h] eqn:E. apply migrate_steps in E as [_ Hh].
  destruct (loadMigrations_ok _ _ El) as (Hnd & _).
  assert (∃ p q, ms = p ++ q ∧ advanced (pending p d) d d1) as (p & q & -> & Hp).
  { destruct (Hh d1 Hd1) as [->|H]; [|by apply H]. exists [], ms. split; [done|]. split; [done|by rewrite app_nil_r]. }
  assert (Hpend : pending (p ++ q) d1 = pending q d).
  { rewrite pending_app, (pending_done p d d1 Hp), (pending_advanced p q d d1 Hnd Hp). done. }
  destruct Hfin as [Hx Hr]. rewrite pending_app, exec_all_app, (ad_rest _ _ _ Hp) in Hx. simpl in Hx.
  destruct (migrate_succeeds now2 fs d1 (p ++ q) El) as [d2 E2]; [rewrite Hpend; by eauto|].
  exists d2. split; [done|]. apply migrate_ok in E2 as (ms & El2 & H2). rewrite El in El2. injection El2 as <-.
  pose proof (pending_done _ _ _ H2) as Hdone. destruct H2 as [Hx2 Hr2]. rewrite Hpend in Hx2, Hr2. split_and!.
  - rewrite Hx in Hx2. by injection Hx2.
  - rewrite Hr2, Hr, (ad_rows _ _ _ Hp), pending_app. unfold versions. by rewrite fmap_app, app_assoc.
  - intros ms E3. rewrite El in E3. by injection E3 as <-.
Qed.
End spec.

(** A toy engine that keeps the list of the statements it ran. *)
Definition toy_exec (sql : string) (s : list string) : option (list string) := Some (s ++ [sql]).
Definition toy_fs : EmbedFS := Some [("0002_b.sql", Some "B"); ("0001_a.sql", Some "A"); ("README", None)].

Lemma migration_survives_a_crash_witness :
  ∃ d2, migrate toy_exec no_mfaults 9 toy_fs (mkMDB (Some [mkMigRow 1 "0001_a.sql" 5]) ["A"]) = (None, d2) ∧
        md_rest d2 = ["A"; "B"] ∧ recorded_versions d2 = [1; 2] ∧
        ∀ ms, loadMigrations toy_fs = inr ms → pending ms d2 = [].
Proof.
  apply (migration_survives_a_crash toy_exec (mkMFaults false (λ v, bool_decide (v = 2))) 5 7 9 toy_fs (mkMDB None [])
           (mkMDB (Some [mkMigRow 1 "0001_a.sql" 5]) ["A"])
           (mkMDB (Some [mkMigRow 1 "0001_a.sql" 7; mkMigRow 2 "0002_b.sql" 7]) ["A"; "B"])).
  - vm_compute. right. right. left.
  - vm_compute. reflexivity.
Defined.

(** A broken set of files stops the start before anything is applied. *)
Example load_refuses_duplicates :
  loadMigrations (Some [("0001_a.sql", Some "A"); ("1_b.sql", Some "B")]) = inl (MTwice 1) ∧
  loadMigrations (Some [("first.sql", Some "A")]) = inl (MBadName "first.sql") ∧
  loadMigrations (Some [("0_a.sql", Some "A")]) = inl (MBadVersion "0_a.sql").
Proof. vm_compute. done. Qed.
