(* ===== verification/Artifact.v ===== *)
(** * internal/artifact: keys, paths and the blob store interface

    [BlobStore] is the contract of artifact.Store the server relies on; LocalStore.v
    shows that the filesystem store meets it. *)

From stdpp Require Import pretty.
From S2P Require Import Prelude GoLib.
From Stdlib Require Import Ascii.

Local Open Scope Z_scope.

(** ** Keys *)

Definition SourceKey (runID : string) : string := "sources/" +:+ runID +:+ ".tar".
Definition JobPrefix (runID jobID : string) (attempt : Z) : string :=
  "runs/" +:+ runID +:+ "/jobs/" +:+ jobID +:+ "/" +:+ Itoa attempt +:+ "/".
Definition JobKey (runID jobID : string) (attempt : Z) (path : string) : string :=
  JobPrefix runID jobID attempt +:+ path.

Definition MaxPathLen : Z := 1024.

Inductive PathError :=
  | EmptyPath
  | PathTooLong
  | ForbiddenCharacter
  | AbsolutePath
  | EmptySegment
  | DotSegment (seg : string).

Definition strlen (s : string) : Z := Z.of_nat (String.length s).

(** [for _, c := range p]: the forbidden runes are ASCII, so they are bytes. *)
Fixpoint has_forbidden (p : string) : bool :=
  match p with
  | EmptyString => false
  | String c p' =>
      bool_decide (byte_of c < 32)%N || bool_decide (byte_of c = 127%N) || bool_decide (byte_of c = 92%N) || has_forbidden p'
  end.

Fixpoint check_segments (segs : list string) : option PathError :=
  match segs with
  | [] => None
  | seg :: l =>
      if bool_decide (seg = "") then Some EmptySegment
      else if bool_decide (seg = "." ∨ seg = "..") then Some (DotSegment seg)
      else check_segments l
  end.

(** [None] is the nil error. *)
Definition ValidatePath (p : string) : option PathError :=
  if bool_decide (p = "") then Some EmptyPath
  else if bool_decide (strlen p > MaxPathLen) then Some PathTooLong
  else if has_forbidden p then Some ForbiddenCharacter
  else if HasPrefix p "/" then Some AbsolutePath
  else check_segments (Split p "/"%char).

Definition ValidateKey (key : string) : option PathError := ValidatePath key.

(** ** The interface *)

(** What a reader yields: bytes, then end of file or an error. *)
Inductive ReadErr := TooBig | CtxDone | ReadFailed.
#[export] Instance ReadErr_eq_dec : EqDecision ReadErr.
Proof. solve_decision. Defined.

Record Body := mkBody { bd_bytes : list N; bd_err : option ReadErr }.

(** [io.ReadAll], [io.LimitReader] and [http.MaxBytesReader]. *)
Definition ReadAll (b : Body) : ReadErr + list N :=
  match bd_err b with Some e => inl e | None => inr (bd_bytes b) end.

Definition LimitReader (b : Body) (n : Z) : Body :=
  if bool_decide (n ≤ 0) then mkBody [] None
  else if bool_decide (n ≤ Z.of_nat (length (bd_bytes b))) then mkBody (take (Z.to_nat n) (bd_bytes b)) None
  else b.

Definition MaxBytesReader (b : Body) (n : Z) : Body :=
  if bool_decide (n < Z.of_nat (length (bd_bytes b))) then mkBody (take (Z.to_nat n) (bd_bytes b)) (Some TooBig) else b.

Inductive BlobError :=
  | BlobNotFound
  | BlobInvalidKey (e : PathError)
  | BlobInvalidPrefix
  | BlobSize (got want : Z)
  | BlobRead (e : ReadErr)
  | BlobIO.

(** The operations of artifact.Store over a state [B].  The argument of type [F] is
    what the operating system does during the call; [calm] is a call in which
    nothing fails.  [blob_reserved] holds of the keys under which an interrupted
    write may leave a file of its own. *)
Class BlobOps (B F : Type) := {
  calm : F;
  blob_reserved : string → bool;
  blob_Put : F → string → Body → Z → B → option BlobError * B;
  blob_Get : F → string → B → BlobError + list N;
  blob_Delete : F → string → B → option BlobError * B;
  blob_List : F → string → B → BlobError + list string
}.

(** The bytes stored under a key. *)
Definition blob_at {B F} `{BlobOps B F} (b : B) (key : string) : option (list N) :=
  match blob_Get calm key b with inr data => Some data | inl _ => None end.

(** The documented behaviour, from a state that satisfies the store's invariant: a
    Put that returns nil stored the bytes it read, as many as announced, and
    nothing else; a Put that fails stored nothing; Get returns what is stored;
    Delete removes the object or fails. *)
Class BlobStore (B F : Type) `{BlobOps B F} := {
  blob_inv : B → Prop;
  put_ok : ∀ f key body size b b', blob_inv b → blob_Put f key body size b = (None, b') →
    blob_at b' key = Some (bd_bytes body) ∧ bd_err body = None ∧
    (0 ≤ size → Z.of_nat (length (bd_bytes body)) = size) ∧
    ∀ k, k ≠ key → blob_at b' k = blob_at b k;
  put_err : ∀ f key body size b e b', blob_inv b → blob_Put f key body size b = (Some e, b') →
    ∀ k, blob_at b' k = blob_at b k ∨ blob_reserved k = true ∧ blob_at b k = None;
  get_ok : ∀ f key b data, blob_inv b → blob_Get f key b = inr data → blob_at b key = Some data;
  delete_ok : ∀ f key b b', blob_inv b → blob_Delete f key b = (None, b') →
    blob_at b' key = None ∧ ∀ k, k ≠ key → blob_at b' k = blob_at b k;
  delete_err : ∀ f key b e b', blob_inv b → blob_Delete f key b = (Some e, b') → ∀ k, blob_at b' k = blob_at b k;
  delete_calm : ∀ key b, blob_inv b → is_Some (blob_at b key) → (blob_Delete calm key b).1 = None;
  put_inv : ∀ f key body size b, blob_inv b → blob_inv (blob_Put f key body size b).2;
  delete_inv : ∀ f key b, blob_inv b → blob_inv (blob_Delete f key b).2
}.

(** ** Paths *)

Lemma check_segments_ok segs :
  check_segments segs = None ↔ Forall (λ s, s ≠ "" ∧ s ≠ "." ∧ s ≠ "..") segs.
Proof.
  induction segs as [|s l IH]; simpl; [done|]. rewrite Forall_cons. case_bool_decide as H1; [naive_solver|].
  case_bool_decide as H2; [naive_solver|]. rewrite IH. naive_solver.
Qed.

(** Byte order on strings, [sort.Strings]. *)
Lemma string_leb_cons a s b t :
  String.leb (String a s) (String b t) = true ↔
    (byte_of a < byte_of b)%N ∨ a = b ∧ String.leb s t = true.
Proof.
  unfold String.leb, byte_of. simpl. unfold Ascii.compare.
  destruct (N.compare_spec (N_of_ascii a) (N_of_ascii b)) as [E|E|E].
  - assert (a = b) as -> by (by rewrite <-(ascii_N_embedding a), E, ascii_N_embedding).
    split; [by right|]. intros [?|[_ ?]]; [lia|done].
  - split; [by left|done].
  - split; [done|]. intros [?|[-> _]]; lia.
Qed.

Lemma string_leb_trans s t u : String.leb s t = true → String.leb t u = true → String.leb s u = true.
Proof.
  revert t u. induction s as [|a s IH]; intros [|b t] [|c u]; try done.
  rewrite !string_leb_cons. intros [H1|[-> H1]] [H2|[-> H2]]; [left; lia|by left|by left|right]. eauto.
Qed.

(** A string without a slash: one segment of a path. *)
Definition plain (s : string) : Prop := ContainsByte s "/"%char = false.

Lemma plain_cons c s : plain (String c s) ↔ c ≠ "/"%char ∧ plain s.
Proof. unfold plain. simpl. rewrite orb_false_iff, bool_decide_eq_false. done. Qed.

Lemma Split_join p sep : Join (Split p sep) (String sep "") = p ∧ Split p sep ≠ [].
Proof.
  induction p as [|c p [IH Hne]]; simpl; [done|].
  destruct (Split p sep) as [|x l]; [done|]. case_bool_decide as E; subst; simpl; split; try done.
  by destruct l; simpl.
Qed.

Lemma Join_cons x l sep : l ≠ [] → Join (x :: l) sep = x +:+ sep +:+ Join l sep.
Proof. by destruct l. Qed.

Lemma Split_plain p : Forall plain (Split p "/").
Proof.
  induction p as [|c p IH]; simpl; [by constructor|]. case_bool_decide; [by constructor|].
  destruct (Split p "/"%char) as [|x l]; [by repeat constructor; apply plain_cons|].
  inversion IH; subst. constructor; [by apply plain_cons|done].
Qed.

Lemma Split_app x y : plain x → Split (x +:+ String "/"%char y) "/" = x :: Split y "/".
Proof.
  induction x as [|c x IH]; [done|]. intros [Hc Hx]%plain_cons. simpl.
  rewrite bool_decide_eq_false_2 by done. by rewrite (IH Hx).
Qed.

Lemma Split_join_plain l : l ≠ [] → Forall plain l → Split (Join l "/") "/" = l.
Proof.
  induction l as [|x l IH]; [done|]. intros _ [Hx Hl]%Forall_cons. destruct l as [|y l].
  - clear IH Hl. induction x as [|c x IHx]; [done|]. apply plain_cons in Hx as [Hc Hx]. simpl in *.
    by rewrite bool_decide_eq_false_2, (IHx Hx).
  - change (Join (x :: y :: l) "/") with (x +:+ String "/"%char (Join (y :: l) "/")).
    by rewrite Split_app, IH.
Qed.

Lemma HasPrefix_slash p : HasPrefix p "/" = true → ∃ l, Split p "/" = "" :: l.
Proof. destruct p as [|c p]; simpl; [done|]. case_bool_decide; [|done]. subst c. simpl. eauto. Qed.

Lemma Split_inj p q : Split p "/" = Split q "/" → p = q.
Proof. intros E. rewrite <-(proj1 (Split_join p "/")), <-(proj1 (Split_join q "/")). by rewrite E. Qed.

Lemma has_forbidden_ok p :
  has_forbidden p = false ↔ Forall (λ c, 32 ≤ byte_of c ∧ byte_of c ≠ 127 ∧ byte_of c ≠ 92)%N (String.list_ascii_of_string p).
Proof.
  induction p as [|c p IH]; simpl; [done|]. rewrite Forall_cons, <-IH, !orb_false_iff, !bool_decide_eq_false.
  rewrite N.nlt_ge. tauto.
Qed.

(** A decimal number is one plain segment. *)
Lemma plain_pretty_go n s : plain s → plain (pretty_N_go n s).
Proof.
  revert s. induction (N.lt_wf_0 n) as [n _ IH]; intros s Hs.
  destruct (decide (0 < n)%N) as [Hn|]; [|replace n with 0%N by lia; done].
  rewrite pretty_N_go_step by done. apply IH; [by apply N.div_lt|]. apply plain_cons. split; [|done].
  unfold pretty_N_char. by repeat case_match.
Qed.
Lemma plain_Itoa z : plain (Itoa z).
Proof.
  assert (Hp : ∀ p : positive, plain (pretty p)).
  { intros p. unfold pretty, pretty_positive, pretty, pretty_N. case_decide; [done|]. by apply plain_pretty_go. }
  destruct z; [done|apply Hp|]. apply plain_cons. by split; [|apply Hp].
Qed.

Lemma string_app_assoc (x y z : string) : (x +:+ y) +:+ z = x +:+ (y +:+ z).
Proof. induction x as [|c x IH]; [done|]. exact (f_equal (String c) IH). Qed.

Lemma Split_JobKey run job a path : plain run → plain job →
  Split (JobKey run job a path) "/" = "runs" :: run :: "jobs" :: job :: Itoa a :: Split path "/".
Proof.
  intros Hr Hj. unfold JobKey, JobPrefix. rewrite !string_app_assoc.
  change (Split ("runs" +:+ String "/" (run +:+ String "/" ("jobs" +:+ String "/" (job +:+ String "/" (Itoa a +:+
    String "/" path))))) "/" = "runs" :: run :: "jobs" :: job :: Itoa a :: Split path "/").
  rewrite !Split_app; try done. apply plain_Itoa.
Qed.

Lemma ValidatePath_nil p : ValidatePath p = None → p ≠ "" ∧ strlen p ≤ MaxPathLen ∧ has_forbidden p = false ∧
  HasPrefix p "/" = false ∧ check_segments (Split p "/") = None.
Proof.
  unfold ValidatePath. do 2 (case_bool_decide; [done|]). destruct (has_forbidden p); [done|].
  destruct (HasPrefix p "/"); [done|]. intros. split_and!; done || lia.
Qed.

(** ** Claims *)

(** [ValidatePath] accepts exactly the non-empty relative slash paths of at most
    1024 bytes whose segments are plain names: none is empty, "." or "..", and
    there is no control character, DEL or backslash. *)
Theorem ValidatePath_accepts_plain_paths p :
  ValidatePath p = None ↔
    0 < strlen p ≤ 1024 ∧
    Forall (λ c, 32 ≤ byte_of c ∧ byte_of c ≠ 127 ∧ byte_of c ≠ 92)%N (String.list_ascii_of_string p) ∧
    ∃ segs, segs ≠ [] ∧ p = Join segs "/" ∧
      Forall (λ s, ContainsByte s "/" = false ∧ s ≠ "" ∧ s ≠ "." ∧ s ≠ "..") segs.
Proof.
  rewrite <-has_forbidden_ok. split.
  - intros (Hne & Hlen & Hf & _ & Hs)%ValidatePath_nil. unfold MaxPathLen, strlen in *. split_and!; try done.
    + destruct p; [done|]. simpl. lia.
    + exists (Split p "/"). destruct (Split_join p "/") as [Hj Hn]. split_and!; try done.
      apply check_segments_ok in Hs. apply (Forall_and (λ s, ContainsByte s "/" = false)).
      split; [apply Split_plain|done].
  - intros ([H0 Hlen] & Hf & segs & Hne & -> & Hs). apply (Forall_and (λ s, ContainsByte s "/" = false)) in Hs as [Hp Hs].
    pose proof (Split_join_plain segs Hne Hp) as E. apply check_segments_ok in Hs as Hc.
    unfold ValidatePath. rewrite bool_decide_eq_false_2 by (intros Hz; by rewrite Hz in H0).
    rewrite bool_decide_eq_false_2 by (unfold MaxPathLen; lia). rewrite Hf.
    destruct (HasPrefix (Join segs "/") "/") eqn:Hpre; [|by rewrite E].
    apply HasPrefix_slash in Hpre as [l Hl]. rewrite E in Hl. subst segs.
    apply Forall_cons in Hs as [(? & _) _]. done.
Qed.

(** Keys do not collide: with ids that hold no slash (the server's are hex),
    the key of an artifact determines the run, the job, the attempt and the path,
    and no artifact key is the key of a source bundle. *)
Theorem keys_do_not_collide run job a path run' job' a' path' :
  ContainsByte run "/" = false → ContainsByte job "/" = false →
  ContainsByte run' "/" = false → ContainsByte job' "/" = false →
  (JobKey run job a path = JobKey run' job' a' path' → run = run' ∧ job = job' ∧ a = a' ∧ path = path') ∧
  JobKey run job a path ≠ SourceKey run'.
Proof.
  intros H1 H2 H3 H4. split.
  - intros E%(f_equal (λ k, Split k "/")). rewrite !Split_JobKey in E by done.
    injection E as -> -> Ea Ep. apply Split_inj in Ep. apply (inj (pretty (A := Z))) in Ea. done.
  - intros E. unfold JobKey, JobPrefix, SourceKey in E. simpl in E. discriminate.
Qed.

Lemma keys_do_not_collide_witness : JobKey "r1" "j1" 1 "out/a" ≠ JobKey "r1" "j1" 11 "out/a".
Proof.
  destruct (keys_do_not_collide "r1" "j1" 1 "out/a" "r1" "j1" 11 "out/a") as [H _]; [reflexivity..|].
  intros E. destruct (H E) as (_ & _ & ? & _). lia.
Defined.
