(* ===== verification/LocalStore.v ===== *)
(** * internal/artifact/local: the filesystem blob store

    The filesystem is the map from absolute paths (lists of names) to nodes; a
    path resolves when every proper prefix of it is a directory.  Each system
    call appends the state it leaves to a history, so that what a crash or a
    concurrent reader can observe is part of the model. *)

From stdpp Require Import pretty.
From S2P Require Import Prelude GoLib Artifact.
From Stdlib Require Import Ascii.

Local Open Scope Z_scope.

(** ** The filesystem *)

Inductive Node := Dir | File (data : list N).
Abbreviation FS := (gmap (list string) Node).

(** The filesystem's own root is always a directory. *)
Definition node (fs : FS) (p : list string) : option Node :=
  match p with [] => Some Dir | _ => fs !! p end.

Inductive Errno := ENOENT | ENOTDIR | EISDIR | ENOTEMPTY | EIO.

(** Path resolution, name by name. *)
Fixpoint walk (fs : FS) (pre rest : list string) : Errno + Node :=
  match node fs pre with
  | None => inl ENOENT
  | Some n =>
      match rest, n with
      | [], _ => inr n
      | s :: l, Dir => walk fs (pre ++ [s]) l
      | _ :: _, File _ => inl ENOTDIR
      end
  end.
Definition stat (fs : FS) (p : list string) : Errno + Node := walk fs [] p.

Record LState := mkLState { l_fs : FS; l_hist : list FS }.
Abbreviation L := (M LState BlobError).

Definition lfail {A} (e : BlobError) : L A := λ s, (inl e, s).
Definition get_fs : L FS := λ s, (inr (l_fs s), s).
Definition set_fs (fs : FS) : L unit := λ s, (inr tt, mkLState fs (l_hist s ++ [fs])).

(** [defer] of a cleanup that runs on an error only. *)
Definition on_error {A} (m : L A) (cleanup : L unit) : L A := λ s,
  match m s with
  | (inl e, s') => (inl e, (cleanup s').2)
  | r => r
  end.

(** What the operating system does during a call: which directory creations fail,
    the random numbers [os.CreateTemp] draws (it retries on a name in use, and
    fails when they run out), after how many bytes the context ends or the disk
    is full, and the single calls that fail. *)
Record Faults := mkFaults {
  ft_mkdir : list string → bool;
  ft_temps : list N;
  ft_ctx : option nat;
  ft_write : option nat;
  ft_sync : bool;
  ft_close : bool;
  ft_rename : bool;
  ft_remove : bool;
  ft_open : bool;
  ft_stat : bool;
  ft_walk : bool
}.
Definition no_faults : Faults :=
  mkFaults (λ _, false) [] None None false false false false false false false.

(** ** Paths *)

Definition tmpPrefix : string := ".quarry-put-".

(** [filepath.Clean] of a rooted path, one element at a time. *)
Definition clean_step (acc : list string) (seg : string) : list string :=
  if bool_decide (seg = "" ∨ seg = ".") then acc
  else if bool_decide (seg = "..") then removelast acc
  else acc ++ [seg].
Definition Clean (segs : list string) : list string := foldl clean_step [] segs.

Record Store := mkStore { st_root : list string; st_fs : FS }.

(** [filepath.Join(s.root, key)] of a validated key. *)
Definition path_of (root : list string) (key : string) : list string := Clean (root ++ Split key "/").
Definition path (root : list string) (key : string) : L (list string) :=
  match ValidateKey key with
  | Some e => lfail (BlobInvalidKey e)
  | None => mret (path_of root key)
  end.

(** ** System calls *)

(** [os.MkdirAll]: every missing directory of the path, from the top. *)
Fixpoint mkdir_all (fault : list string → bool) (pre rest : list string) : L unit :=
  fs ← get_fs;
  match node fs pre with
  | Some (File _) => lfail BlobIO
  | n =>
      match n with
      | Some _ => mret tt
      | None => if fault pre then lfail BlobIO else set_fs (<[pre := Dir]> fs)
      end;;
      match rest with
      | [] => mret tt
      | s :: l => mkdir_all fault (pre ++ [s]) l
      end
  end.
Definition MkdirAll (fault : list string → bool) (p : list string) : L unit := mkdir_all fault [] p.

(** [os.CreateTemp(dir, tmpPrefix + "*")] in an existing directory. *)
Fixpoint CreateTemp (dir : list string) (temps : list N) : L (list string) :=
  match temps with
  | [] => lfail BlobIO
  | n :: l =>
      let p := dir ++ [tmpPrefix +:+ pretty n] in
      fs ← get_fs;
      match fs !! p with
      | Some _ => CreateTemp dir l
      | None => set_fs (<[p := File []]> fs);; mret p
      end
  end.

(** [os.Remove]: a file, or a directory with nothing in it. *)
Definition parent (p : list string) : list string := removelast p.
Definition is_empty_dir (fs : FS) (p : list string) : bool :=
  bool_decide (Forall (λ kv, parent kv.1 ≠ p) (map_to_list fs)).
Definition Remove (p : list string) (fs : FS) : Errno + FS :=
  match stat fs p with
  | inl e => inl e
  | inr (File _) => inr (delete p fs)
  | inr Dir => if bool_decide (p ≠ []) && is_empty_dir fs p then inr (delete p fs) else inl ENOTEMPTY
  end.

(** [os.Rename] of a file. *)
Definition Rename (fault : bool) (src dst : list string) : L unit :=
  fs ← get_fs;
  if fault then lfail BlobIO
  else match stat fs src, stat fs (parent dst), stat fs dst with
       | inr (File data), inr Dir, inr Dir => lfail BlobIO
       | inr (File data), inr Dir, _ => set_fs (<[dst := File data]> (delete src fs))
       | _, _, _ => lfail BlobIO
       end.

(** ** Readers *)

(** A read once the context is done returns its error. *)
Definition readerCtx (done : option nat) (b : Body) : Body :=
  match done with
  | Some k => mkBody (take k (bd_bytes b)) (Some CtxDone)
  | None => b
  end.

(** The bytes reach the file one after the other. *)
Fixpoint write_bytes (tmp : list string) (done todo : list N) : L unit :=
  match todo with
  | [] => mret tt
  | x :: l =>
      fs ← get_fs;
      set_fs (<[tmp := File (done ++ [x])]> fs);; write_bytes tmp (done ++ [x]) l
  end.

(** [io.Copy]: the number of bytes copied, or the first error of either side. *)
Definition io_Copy (full : option nat) (tmp : list string) (src : Body) : L Z :=
  let data := bd_bytes src in
  match full with
  | Some k => if bool_decide (k < length data)%nat then write_bytes tmp [] (take k data);; lfail BlobIO
              else write_bytes tmp [] data;;
                   match bd_err src with Some e => lfail (BlobRead e) | None => mret (Z.of_nat (length data)) end
  | None => write_bytes tmp [] data;;
            match bd_err src with Some e => lfail (BlobRead e) | None => mret (Z.of_nat (length data)) end
  end.

(** ** The store *)

Definition remove_temp (f : Faults) (tmp : list string) : L unit :=
  fs ← get_fs;
  if ft_remove f then mret tt
  else match Remove tmp fs with inr fs' => set_fs fs' | inl _ => mret tt end.

Definition put_temp (f : Faults) (tmp dst : list string) (r : Body) (size : Z) : L unit :=
  let src := readerCtx (ft_ctx f) r in
  let src := if bool_decide (0 ≤ size) then LimitReader src (int64 (size + 1)) else src in
  n ← io_Copy (ft_write f) tmp src;
  if bool_decide (0 ≤ size) && bool_decide (n ≠ size) then lfail (BlobSize n size)
  else if ft_sync f then lfail BlobIO
  else if ft_close f then lfail BlobIO
  else Rename (ft_rename f) tmp dst.

Definition put (f : Faults) (root : list string) (key : string) (r : Body) (size : Z) : L unit :=
  dst ← path root key;
  MkdirAll (ft_mkdir f) (parent dst);;
  tmp ← CreateTemp (parent dst) (ft_temps f);
  on_error (put_temp f tmp dst r size) (remove_temp f tmp).

Definition Put (f : Faults) (key : string) (r : Body) (size : Z) (s : Store) : option BlobError * Store :=
  let '(res, s') := put f (st_root s) key r size (mkLState (st_fs s) []) in
  (match res with inl e => Some e | inr _ => None end, mkStore (st_root s) (l_fs s')).

(** The states the filesystem passes through during a Put. *)
Definition Put_history (f : Faults) (key : string) (r : Body) (size : Z) (s : Store) : list Store :=
  mkStore (st_root s) <$> l_hist (put f (st_root s) key r size (mkLState (st_fs s) [])).2.

(** [New]: the root is absolute and created if needed. *)
Definition New (f : Faults) (cwd : list string) (root : string) (fs : FS) : BlobError + Store :=
  let abs := Clean (if HasPrefix root "/" then Split root "/" else cwd ++ Split root "/") in
  match MkdirAll (ft_mkdir f) abs (mkLState fs []) with
  | (inl e, _) => inl e
  | (inr _, s) => inr (mkStore abs (l_fs s))
  end.

Definition Get (f : Faults) (key : string) (s : Store) : BlobError + list N :=
  match ValidateKey key with
  | Some e => inl (BlobInvalidKey e)
  | None =>
      if ft_open f then inl BlobIO
      else match stat (st_fs s) (path_of (st_root s) key) with
           | inl ENOENT => inl BlobNotFound
           | inl _ => inl BlobIO
           | inr n => if ft_stat f then inl BlobNotFound
                      else match n with Dir => inl BlobNotFound | File data => inr data end
           end
  end.

Definition Delete (f : Faults) (key : string) (s : Store) : option BlobError * Store :=
  match ValidateKey key with
  | Some e => (Some (BlobInvalidKey e), s)
  | None =>
      if ft_remove f then (Some BlobIO, s)
      else match Remove (path_of (st_root s) key) (st_fs s) with
           | inl ENOENT => (Some BlobNotFound, s)
           | inl _ => (Some BlobIO, s)
           | inr fs' => (None, mkStore (st_root s) fs')
           end
  end.

(** [prefix[:strings.LastIndex(prefix, "/")]], [None] without a slash. *)
Fixpoint LastDir (s : string) : option string :=
  match s with
  | EmptyString => None
  | String c s' =>
      match LastDir s' with
      | Some q => Some (String c q)
      | None => if bool_decide (c = "/"%char) then Some EmptyString else None
      end
  end.

(** [filepath.Rel] to an ancestor. *)
Definition Rel (root p : list string) : list string := drop (length root) p.

(** The files [filepath.WalkDir] visits, the ones whose path resolves and starts
    with [dir]. *)
Definition walked (fs : FS) (dir : list string) : list (list string) :=
  List.filter (λ p, bool_decide (take (length dir) p = dir) && match stat fs p with inr (File _) => true | _ => false end)
    (map_to_list fs).*1.

Definition is_temp (p : list string) : bool := HasPrefix (default "" (last p)) tmpPrefix.

Definition List_ (f : Faults) (prefix : string) (s : Store) : BlobError + list string :=
  if Contains prefix "\" || Contains prefix ".." then inl BlobInvalidPrefix
  else
    let root := Clean (st_root s) in
    let dir := match LastDir prefix with Some q => Clean (st_root s ++ Split q "/") | None => root end in
    if ft_walk f then inl BlobIO
    else match stat (st_fs s) dir with
         | inl ENOENT => inr []
         | inl _ => inl BlobIO
         | inr _ =>
             let keys := (λ p, Join (Rel root p) "/") <$> List.filter (λ p, negb (is_temp p)) (walked (st_fs s) dir) in
             inr (order_by String.leb (List.filter (λ k, HasPrefix k prefix) keys))
         end.

(** A key whose file name marks an in-flight write. *)
Definition reserved (key : string) : bool := is_temp (Split key "/").

#[export] Instance local_ops : BlobOps Store Faults := {|
  calm := no_faults; blob_reserved := reserved;
  blob_Put := Put; blob_Get := Get; blob_Delete := Delete; blob_List := List_ |}.

(** ** The tree invariant *)

Definition fs_wf (fs : FS) : Prop := ∀ p n, fs !! p = Some n → p ≠ [] ∧ node fs (parent p) = Some Dir.

Lemma node_ne fs p : p ≠ [] → node fs p = fs !! p.
Proof. by destruct p. Qed.

Lemma node_insert_ne fs p q n : q ≠ p → node (<[p := n]> fs) q = node fs q.
Proof. destruct q; [done|]. intros. simpl. by rewrite lookup_insert_ne. Qed.

Lemma node_delete_ne fs p q : q ≠ p → node (delete p fs) q = node fs q.
Proof. destruct q; [done|]. intros. simpl. by rewrite lookup_delete_ne. Qed.

Lemma parent_snoc p s : parent (p ++ [s]) = p.
Proof. apply removelast_last. Qed.

Lemma parent_ne p : p ≠ [] → parent p ≠ p.
Proof. destruct p as [|s p _] using rev_ind; [done|]. intros _. rewrite parent_snoc. intros E%(f_equal length).
  rewrite length_app in E. simpl in E. lia. Qed.

Lemma wf_dirs fs q r : fs_wf fs → is_Some (node fs (q ++ r)) → r ≠ [] → node fs q = Some Dir.
Proof.
  intros Hwf. induction r as [|s r IH] using rev_ind; [done|]. intros Hs _. rewrite app_assoc in Hs.
  rewrite node_ne in Hs by (intros E%(f_equal length); rewrite length_app in E; simpl in E; lia).
  destruct Hs as [n Hn]. apply Hwf in Hn as [_ Hn]. rewrite parent_snoc in Hn.
  destruct (decide (r = [])) as [->|]; [by rewrite app_nil_r in Hn|]. by apply IH.
Qed.

(** In a tree, a path resolves exactly when it has an entry. *)
Lemma walk_ok fs pre rest n : fs_wf fs → walk fs pre rest = inr n ↔ node fs (pre ++ rest) = Some n.
Proof.
  intros Hwf. revert pre. induction rest as [|s l IH]; intros pre; simpl.
  - rewrite app_nil_r. destruct (node fs pre); naive_solver.
  - replace (pre ++ s :: l) with ((pre ++ [s]) ++ l) by (by rewrite <-app_assoc).
    destruct (node fs pre) as [[|d]|] eqn:E; [by rewrite IH|..]; (split; [done|]); intros Hn;
      rewrite <-app_assoc in Hn; by rewrite (wf_dirs _ pre (s :: l)) in E.
Qed.
Lemma stat_ok fs p n : fs_wf fs → stat fs p = inr n ↔ node fs p = Some n.
Proof. apply (walk_ok fs [] p). Qed.

Lemma wf_insert fs p n :
  fs_wf fs → p ≠ [] → node fs (parent p) = Some Dir → (fs !! p = Some Dir → n = Dir) → fs_wf (<[p := n]> fs).
Proof.
  intros Hwf Hp Hpar Hn q m. destruct (decide (q = p)) as [->|Hq].
  - intros _. split; [done|]. by rewrite node_insert_ne by (by apply parent_ne).
  - rewrite lookup_insert_ne by done. intros [Hq0 Hd]%Hwf. split; [done|].
    destruct (decide (parent q = p)) as [E|]; [|by rewrite node_insert_ne].
    rewrite E in Hd |- *. rewrite node_ne in Hd |- * by done. rewrite lookup_insert_eq. f_equal. auto.
Qed.

Lemma wf_delete fs p : fs_wf fs → (∀ q n, fs !! q = Some n → parent q ≠ p) → fs_wf (delete p fs).
Proof.
  intros Hwf Hno q n [Hqp Hq]%lookup_delete_Some. destruct (Hwf q n Hq) as [? Hd]. split; [done|].
  rewrite node_delete_ne by eauto. done.
Qed.

Lemma Remove_ok fs p fs' : fs_wf fs → Remove p fs = inr fs' → fs' = delete p fs ∧ fs_wf fs' ∧ is_Some (fs !! p).
Proof.
  intros Hwf. unfold Remove. destruct (stat fs p) as [|n] eqn:Es; [done|]. rewrite stat_ok in Es by done.
  destruct n as [|d].
  - destruct (bool_decide (p ≠ [])) eqn:Hp, (is_empty_dir fs p) eqn:He; try done. simpl. intros [= <-].
    apply bool_decide_eq_true in Hp. rewrite node_ne in Es by done. split_and!; [done| |by rewrite Es].
    apply wf_delete; [done|]. intros q n Hq. unfold is_empty_dir in He. apply bool_decide_eq_true in He.
    rewrite Forall_forall in He. apply (He (q, n)). by apply elem_of_map_to_list.
  - intros [= <-]. destruct (decide (p = [])) as [->|Hp]; [done|]. rewrite node_ne in Es by done.
    split_and!; [done| |by rewrite Es]. apply wf_delete; [done|].
    intros q n [? Hd]%Hwf E. rewrite E, node_ne in Hd by done. congruence.
Qed.

(** ** Keys and paths *)

Lemma Clean_app a b : Forall (λ s, s ≠ "" ∧ s ≠ "." ∧ s ≠ "..") b → Clean (a ++ b) = Clean a ++ b.
Proof.
  unfold Clean. rewrite foldl_app. generalize (foldl clean_step [] a). induction b as [|s b IH]; intros acc Hb; simpl.
  - by rewrite app_nil_r.
  - apply Forall_cons in Hb as [(H1 & H2 & H3) Hb]. unfold clean_step at 2.
    rewrite bool_decide_eq_false_2 by naive_solver. rewrite bool_decide_eq_false_2 by done.
    rewrite IH by done. by rewrite <-app_assoc.
Qed.

Lemma path_of_valid root key : ValidateKey key = None →
  path_of root key = Clean root ++ Split key "/" ∧ Split key "/" ≠ [].
Proof.
  intros (_ & _ & _ & _ & Hs%check_segments_ok)%ValidatePath_nil. split; [by apply Clean_app|apply Split_join].
Qed.

Lemma path_of_inj root k1 k2 : ValidateKey k1 = None → ValidateKey k2 = None →
  path_of root k1 = path_of root k2 → k1 = k2.
Proof.
  intros H1 H2. rewrite (proj1 (path_of_valid root k1 H1)), (proj1 (path_of_valid root k2 H2)).
  intros E%(inj (app (Clean root))). by apply Split_inj.
Qed.

Lemma path_of_ne root key : ValidateKey key = None → path_of root key ≠ [].
Proof. intros H. destruct (path_of_valid root key H) as [-> Hne]. intros [_ ?]%app_eq_nil. done. Qed.

Lemma last_app_ne {A} (a b : list A) : b ≠ [] → last (a ++ b) = last b.
Proof. intros. rewrite last_app. destruct (last b) eqn:E; [done|]. by apply last_None in E. Qed.

Lemma path_of_temp root key : ValidateKey key = None → is_temp (path_of root key) = reserved key.
Proof. intros H. destruct (path_of_valid root key H) as [-> Hne]. unfold reserved, is_temp. by rewrite last_app_ne. Qed.

(** The object under a key, in a tree. *)
Definition object (root : list string) (fs : FS) (key : string) : option (list N) :=
  match ValidateKey key with
  | None => match fs !! path_of root key with Some (File d) => Some d | _ => None end
  | Some _ => None
  end.

Lemma blob_at_object s key : fs_wf (st_fs s) → blob_at s key = object (st_root s) (st_fs s) key.
Proof.
  intros Hwf. unfold blob_at, object. simpl. unfold Get. simpl. destruct (ValidateKey key) eqn:Hv; [done|].
  rewrite <-node_ne by (by apply path_of_ne).
  destruct (stat (st_fs s) (path_of (st_root s) key)) as [e|n] eqn:Es.
  - destruct (node (st_fs s) (path_of (st_root s) key)) as [n|] eqn:En; [|by destruct e].
    apply stat_ok in En; [congruence|done].
  - apply stat_ok in Es as ->; [|done]. by destruct n.
Qed.

(** ** What a Put does to the tree *)

(** [fs'] is [fs] with a temporary file and some of the directories of [dst] added. *)
Definition near (dst : list string) (tmp : option (list string)) (fs fs' : FS) : Prop :=
  fs_wf fs' ∧ ∀ p, fs' !! p = fs !! p ∨
    fs !! p = None ∧ (tmp = Some p ∧ (∃ d, fs' !! p = Some (File d)) ∨ fs' !! p = Some Dir ∧ p `prefix_of` parent dst).

(** A program that only passes through states satisfying [I]. *)
Definition through (I : FS → Prop) (s s' : LState) : Prop :=
  I (l_fs s') ∧ ∃ ext, l_hist s' = l_hist s ++ ext ∧ Forall I ext.

Lemma through_refl I s : I (l_fs s) → through I s s.
Proof. split; [done|]. exists []. by rewrite app_nil_r. Qed.

Lemma through_trans I s1 s2 s3 : through I s1 s2 → through I s2 s3 → through I s1 s3.
Proof.
  intros [_ (e1 & E1 & F1)] [? (e2 & E2 & F2)]. split; [done|]. exists (e1 ++ e2).
  rewrite E2, E1, app_assoc. split; [done|]. by apply Forall_app.
Qed.

Lemma through_mono (I J : FS → Prop) s s' : (∀ fs, I fs → J fs) → through I s s' → through J s s'.
Proof. intros HIJ [? (e & E & F)]. split; [auto|]. exists e. split; [done|]. by eapply Forall_impl. Qed.

Lemma through_set (I : FS → Prop) s fs : I fs → through I s (mkLState fs (l_hist s ++ [fs])).
Proof. intros H. split; [done|]. exists [fs]. split; [done|]. by constructor. Qed.

Lemma near_refl dst tmp fs : fs_wf fs → near dst tmp fs fs.
Proof. split; [done|]. intros p. by left. Qed.

Lemma near_weaken dst tmp fs fs' : near dst None fs fs' → near dst tmp fs fs'.
Proof. intros [? H]. split; [done|]. intros p. destruct (H p) as [?|[? [[? _]|?]]]; naive_solver. Qed.

Lemma near_mkdir dst fs fs' pre :
  near dst None fs fs' → fs' !! pre = None → pre ≠ [] → node fs' (parent pre) = Some Dir → pre `prefix_of` parent dst →
  near dst None fs (<[pre := Dir]> fs').
Proof.
  intros [Hwf H] Hn Hne Hpar Hpre. split; [by apply wf_insert|]. intros p. destruct (decide (p = pre)) as [->|Hp].
  - right. rewrite lookup_insert_eq. destruct (H pre) as [E|[E _]]; [rewrite Hn in E|]; naive_solver.
  - by rewrite lookup_insert_ne.
Qed.

Lemma near_file dst tmp fs fs' d :
  near dst (Some tmp) fs fs' → fs !! tmp = None → fs' !! tmp ≠ Some Dir → tmp ≠ [] → node fs' (parent tmp) = Some Dir →
  near dst (Some tmp) fs (<[tmp := File d]> fs').
Proof.
  intros [Hwf H] Hn Hd Hne Hpar. split; [by apply wf_insert|]. intros p. destruct (decide (p = tmp)) as [->|Hp].
  - right. split; [done|]. left. split; [done|]. exists d. apply lookup_insert_eq.
  - by rewrite lookup_insert_ne.
Qed.

Section put.
Context (dst : list string) (fs0 : FS) (Hdst : dst ≠ []).

Lemma mkdir_all_ok fault rest : ∀ pre s r s',
  near dst None fs0 (l_fs s) → (pre ++ rest) `prefix_of` parent dst →
  (pre = [] ∨ node (l_fs s) (parent pre) = Some Dir) →
  mkdir_all fault pre rest s = (r, s') →
  through (near dst None fs0) s s' ∧ (r = inr tt → node (l_fs s') (pre ++ rest) = Some Dir).
Proof.
  induction rest as [|x rest IH]; intros pre s r s' Hn Hpre Hpar E; simpl in E.
  all: unfold mbind, M_bind in E; simpl in E.
  all: assert (Hp : pre `prefix_of` parent dst) by (etrans; [by apply prefix_app_r|exact Hpre]).
  all: destruct (node (l_fs s) pre) as [[|d]|] eqn:En;
    [|injection E as <- <-; split; [by apply through_refl|done]|destruct (fault pre);
      [injection E as <- <-; split; [by apply through_refl|done]|]].
  - injection E as <- <-. rewrite app_nil_r. split; [by apply through_refl|done].
  - assert (pre ≠ []) by (intros ->; done). rewrite node_ne in En by done.
    destruct Hpar as [|Hpar]; [done|]. injection E as <- <-.
    rewrite app_nil_r, node_ne by done. simpl. rewrite lookup_insert_eq.
    split; [apply through_set; by apply near_mkdir|done].
  - rewrite (cons_middle x) in Hpre |- *. rewrite app_assoc in Hpre |- *.
    apply IH in E; [done|done|done|right; by rewrite parent_snoc].
  - assert (pre ≠ []) by (intros ->; done). rewrite node_ne in En by done.
    destruct Hpar as [|Hpar]; [done|]. simpl in E.
    rewrite (cons_middle x) in Hpre |- *. rewrite app_assoc in Hpre |- *. apply IH in E; simpl.
    + destruct E as [E1 E2]. split; [|done]. eapply through_trans; [|exact E1]. apply through_set. by apply near_mkdir.
    + by apply near_mkdir.
    + done.
    + right. rewrite parent_snoc, node_ne by done. apply lookup_insert_eq.
Qed.

Lemma MkdirAll_ok fault s r s' : near dst None fs0 (l_fs s) → MkdirAll fault (parent dst) s = (r, s') →
  through (near dst None fs0) s s' ∧ (r = inr tt → node (l_fs s') (parent dst) = Some Dir).
Proof. intros Hn E. apply (mkdir_all_ok fault (parent dst) [] s r s') in E; [done..|by left]. Qed.

Lemma CreateTemp_ok temps s r s' :
  near dst None fs0 (l_fs s) → node (l_fs s) (parent dst) = Some Dir →
  CreateTemp (parent dst) temps s = (r, s') →
  match r with
  | inl _ => s' = s
  | inr tmp => fs0 !! tmp = None ∧ is_temp tmp = true ∧ parent tmp = parent dst ∧ tmp ≠ [] ∧
      through (near dst (Some tmp) fs0) s s' ∧ l_fs s' !! tmp = Some (File []) ∧ node (l_fs s') (parent dst) = Some Dir
  end.
Proof.
  intros Hn Hd. induction temps as [|n temps IH]; intros E; [by injection E as <- <-|].
  simpl in E. unfold mbind, M_bind in E. simpl in E. set (tmp := parent dst ++ [tmpPrefix +:+ pretty n]) in *.
  destruct (l_fs s !! tmp) eqn:Et; [by apply IH|]. injection E as <- <-.
  assert (Hne : tmp ≠ []) by (unfold tmp; by intros [_ ?]%app_eq_nil).
  assert (Hpar : parent tmp = parent dst) by (unfold tmp; apply parent_snoc).
  assert (H0 : fs0 !! tmp = None) by (destruct (proj2 Hn tmp) as [E|[E _]]; congruence).
  split_and!; try done.
  - unfold is_temp, tmp. rewrite last_snoc. simpl. generalize (pretty n) as x. intros x. by destruct x.
  - apply through_set. apply near_file; try done; [by apply near_weaken|congruence|by rewrite Hpar].
  - simpl. apply lookup_insert_eq.
  - simpl. rewrite node_insert_ne; [done|]. rewrite <-Hpar. by apply parent_ne.
Qed.

Context (tmp : list string) (Htmp : fs0 !! tmp = None) (Hne : tmp ≠ []) (Hpar : parent tmp = parent dst).
Let I := near dst (Some tmp) fs0.

Lemma write_bytes_ok todo : ∀ done s,
  I (l_fs s) → l_fs s !! tmp = Some (File done) → node (l_fs s) (parent dst) = Some Dir →
  ∃ s', write_bytes tmp done todo s = (inr tt, s') ∧ through I s s' ∧
    l_fs s' !! tmp = Some (File (done ++ todo)) ∧ node (l_fs s') (parent dst) = Some Dir.
Proof.
  induction todo as [|x todo IH]; intros dn s HI Ht Hd; simpl.
  - exists s. rewrite app_nil_r. split_and!; try done. by apply through_refl.
  - unfold mbind, M_bind. simpl. set (s1 := mkLState _ _).
    assert (I (l_fs s1)).
    { apply near_file; try done; [congruence|by rewrite Hpar]. }
    destruct (IH (dn ++ [x]) s1) as (s' & -> & Hth & Ht' & Hd'); [done|apply lookup_insert_eq| |].
    { simpl. rewrite node_insert_ne; [done|]. rewrite <-Hpar. by apply parent_ne. }
    exists s'. rewrite <-app_assoc in Ht'. split_and!; try done.
    eapply through_trans; [|exact Hth]. by apply through_set.
Qed.

Lemma io_Copy_ok full src s r s' :
  I (l_fs s) → l_fs s !! tmp = Some (File []) → node (l_fs s) (parent dst) = Some Dir →
  io_Copy full tmp src s = (r, s') →
  through I s s' ∧ node (l_fs s') (parent dst) = Some Dir ∧
  ∀ n, r = inr n → n = Z.of_nat (length (bd_bytes src)) ∧ bd_err src = None ∧ l_fs s' !! tmp = Some (File (bd_bytes src)).
Proof.
  intros HI Ht Hd. unfold io_Copy.
  assert (Hall : (write_bytes tmp [] (bd_bytes src);;
                  match bd_err src with Some e => lfail (BlobRead e) | None => mret (Z.of_nat (length (bd_bytes src))) end)
                 s = (r, s') → through I s s' ∧ node (l_fs s') (parent dst) = Some Dir ∧
    ∀ n, r = inr n → n = Z.of_nat (length (bd_bytes src)) ∧ bd_err src = None ∧ l_fs s' !! tmp = Some (File (bd_bytes src))).
  { destruct (write_bytes_ok (bd_bytes src) [] s) as (s1 & E & Hth & Ht1 & Hd1); [done..|].
    rewrite (mbind_step _ _ _ _ _ E). destruct (bd_err src); intros [= <- <-]; split_and!; naive_solver. }
  destruct full as [k|]; [|done]. case_bool_decide; [|done].
  destruct (write_bytes_ok (take k (bd_bytes src)) [] s) as (s1 & E & Hth & Ht1 & Hd1); [done..|].
  rewrite (mbind_step _ _ _ _ _ E). intros [= <- <-]. by split_and!.
Qed.
End put.

Lemma LimitReader_ok b size :
  0 ≤ size → bd_err (LimitReader b (int64 (size + 1))) = None →
  Z.of_nat (length (bd_bytes (LimitReader b (int64 (size + 1))))) = size → LimitReader b (int64 (size + 1)) = b.
Proof.
  intros Hs. unfold LimitReader. case_bool_decide as H1; simpl.
  - intros _ <-. by vm_compute in H1.
  - case_bool_decide as H2; [|done]. simpl. intros _. rewrite length_take, Nat.min_l by lia. rewrite Z2Nat.id by lia.
    unfold int64. pose proof (Z.div_mod (size + 1 + 2 ^ 63) (2 ^ 64)). lia.
Qed.

(** [fs'] is [fs] with the object at [dst] and the directories of [dst] added. *)
Definition stored (dst : list string) (data : list N) (fs fs' : FS) : Prop :=
  fs_wf fs' ∧ fs' !! dst = Some (File data) ∧
  ∀ p, p ≠ dst → fs' !! p = fs !! p ∨ fs !! p = None ∧ fs' !! p = Some Dir ∧ p `prefix_of` parent dst.

Lemma Rename_ok fault src dst s r s' :
  fs_wf (l_fs s) → Rename fault src dst s = (r, s') →
  match r with
  | inl _ => s' = s
  | inr _ => ∃ data, node (l_fs s) src = Some (File data) ∧ node (l_fs s) (parent dst) = Some Dir ∧
      node (l_fs s) dst ≠ Some Dir ∧ s' = mkLState (<[dst := File data]> (delete src (l_fs s)))
        (l_hist s ++ [<[dst := File data]> (delete src (l_fs s))])
  end.
Proof.
  intros Hwf. unfold Rename, mbind, M_bind. simpl. destruct fault; [by intros [= <- <-]|].
  destruct (stat (l_fs s) src) as [|[|data]] eqn:E1; try by intros [= <- <-].
  destruct (stat (l_fs s) (parent dst)) as [|[|]] eqn:E2; try by intros [= <- <-].
  apply stat_ok in E1, E2; try done.
  destruct (stat (l_fs s) dst) as [e|[|]] eqn:E3; try by intros [= <- <-].
  all: intros [= <- <-]; exists data; split_and!; try done; intros E; apply (stat_ok _ _ _ Hwf) in E; congruence.
Qed.

Lemma near_stored dst tmp fs0 fs1 data :
  near dst (Some tmp) fs0 fs1 → dst ≠ [] → fs0 !! tmp = None → tmp ≠ [] → parent tmp = parent dst →
  fs1 !! tmp = Some (File data) → node fs1 (parent dst) = Some Dir → fs1 !! dst ≠ Some Dir →
  stored dst data fs0 (<[dst := File data]> (delete tmp fs1)).
Proof.
  intros [Hwf H] Hd Hn Hne Hpar Ht Hdir Hnd. split_and!.
  - apply wf_insert.
    + apply wf_delete; [done|]. intros q n Hq Eq. destruct (Hwf q n Hq) as [_ Hq']. rewrite Eq, node_ne in Hq' by done.
      congruence.
    + done.
    + rewrite node_delete_ne; [done|]. rewrite <-Hpar. by apply parent_ne.
    + destruct (decide (dst = tmp)) as [->|]; [by rewrite lookup_delete_eq|by rewrite lookup_delete_ne].
  - apply lookup_insert_eq.
  - intros p Hp. rewrite lookup_insert_ne by done. destruct (decide (p = tmp)) as [->|Hpt].
    + left. by rewrite lookup_delete_eq, Hn.
    + rewrite lookup_delete_ne by done. destruct (H p) as [|[? [[? _]|[? ?]]]]; naive_solver.
Qed.

Section put_spec.
Context (f : Faults) (dst : list string) (r : Body) (size : Z) (fs0 : FS) (Hdst : dst ≠ []).

Definition read_ok : Prop := bd_err r = None ∧ (0 ≤ size → Z.of_nat (length (bd_bytes r)) = size).

(** The states of a Put: near the initial one until the object is stored. *)
Definition put_result (tmp : option (list string)) (s s' : LState) (res : BlobError + unit) : Prop :=
  match res with
  | inl _ => through (near dst tmp fs0) s s'
  | inr _ => read_ok ∧ stored dst (bd_bytes r) fs0 (l_fs s') ∧
      ∃ s1, through (near dst tmp fs0) s s1 ∧ l_hist s' = l_hist s1 ++ [l_fs s']
  end.

Lemma copy_src_ok n src :
  src = (if bool_decide (0 ≤ size) then LimitReader (readerCtx (ft_ctx f) r) (int64 (size + 1)) else readerCtx (ft_ctx f) r) →
  n = Z.of_nat (length (bd_bytes src)) → bd_err src = None →
  bool_decide (0 ≤ size) && bool_decide (n ≠ size) = false → src = r ∧ read_ok.
Proof.
  intros Es -> He Hc. unfold read_ok.
  assert (Hsrc : src = readerCtx (ft_ctx f) r ∧ (0 ≤ size → Z.of_nat (length (bd_bytes src)) = size)).
  { case_bool_decide as Hs; [|split; [done|lia]]. simpl in Hc. apply bool_decide_eq_false in Hc.
    assert (Hl : Z.of_nat (length (bd_bytes src)) = size) by lia. split; [|done]. rewrite Es.
    apply LimitReader_ok; congruence. }
  destruct Hsrc as [-> Hl]. unfold readerCtx in *. by destruct (ft_ctx f).
Qed.

Lemma put_temp_ok tmp s res s' :
  fs0 !! tmp = None → tmp ≠ [] → parent tmp = parent dst → near dst (Some tmp) fs0 (l_fs s) →
  l_fs s !! tmp = Some (File []) → node (l_fs s) (parent dst) = Some Dir →
  put_temp f tmp dst r size s = (res, s') → put_result (Some tmp) s s' res.
Proof.
  intros Hn Hne Hpar HI Ht Hd. unfold put_temp, mbind, M_bind. set (src := if bool_decide (0 ≤ size) then _ else _).
  destruct (io_Copy (ft_write f) tmp src s) as [rc s1] eqn:Ec.
  apply (io_Copy_ok dst fs0 tmp Hn Hne Hpar) in Ec as (Hth & Hd1 & Hok); [|done..].
  destruct rc as [e|n]; [intros [= <- <-]; done|]. destruct (Hok n eq_refl) as (-> & He & Ht1).
  destruct (bool_decide (0 ≤ size) && _) eqn:Hc; [by intros [= <- <-]|].
  destruct (ft_sync f); [by intros [= <- <-]|]. destruct (ft_close f); [by intros [= <- <-]|].
  destruct (copy_src_ok _ src eq_refl eq_refl He Hc) as [Er Hr]. rewrite Er in Ht1. intros E.
  destruct (proj1 Hth) as [Hwf1 _]. apply Rename_ok in E; [|done]. destruct res as [e|[]]; [by subst s'|].
  destruct E as (data & Hsrc & _ & Hnd & ->). rewrite node_ne in Hsrc, Hnd by done. simplify_eq.
  split_and!; [done| |by exists s1]. simpl. apply near_stored; try done. apply Hth.
Qed.

Lemma remove_temp_ok tmp s :
  fs0 !! tmp = None → near dst (Some tmp) fs0 (l_fs s) →
  through (near dst (Some tmp) fs0) s (remove_temp f tmp s).2.
Proof.
  intros Hn HI. unfold remove_temp, mbind, M_bind. simpl. destruct (ft_remove f); [by apply through_refl|].
  destruct (Remove tmp (l_fs s)) as [|fs'] eqn:E; [by apply through_refl|]. apply through_set.
  apply Remove_ok in E as (-> & Hwf & _); [|apply HI]. split; [done|]. intros p.
  destruct (decide (p = tmp)) as [->|]; [left; by rewrite lookup_delete_eq, Hn|].
  rewrite lookup_delete_ne by done. apply HI.
Qed.

Lemma on_error_ok tmp s res s' :
  fs0 !! tmp = None → tmp ≠ [] → parent tmp = parent dst → near dst (Some tmp) fs0 (l_fs s) →
  l_fs s !! tmp = Some (File []) → node (l_fs s) (parent dst) = Some Dir →
  on_error (put_temp f tmp dst r size) (remove_temp f tmp) s = (res, s') → put_result (Some tmp) s s' res.
Proof.
  intros Hn Hne Hpar HI Ht Hd. unfold on_error. destruct (put_temp f tmp dst r size s) as [rt s1] eqn:Ep.
  pose proof (put_temp_ok tmp s rt s1 Hn Hne Hpar HI Ht Hd Ep) as Hr. destruct rt as [e|[]].
  - intros [= <- <-]. simpl in *. eapply through_trans; [exact Hr|]. apply remove_temp_ok; [done|apply Hr].
  - intros [= <- <-]. exact Hr.
Qed.
End put_spec.

Lemma put_spec f root key r size fs0 res s' :
  fs_wf fs0 → ValidateKey key = None → put f root key r size (mkLState fs0 []) = (res, s') →
  ∃ tmp, (∀ p, tmp = Some p → fs0 !! p = None ∧ is_temp p = true ∧ p ≠ [] ∧ parent p = parent (path_of root key)) ∧
    put_result (path_of root key) r size fs0 tmp (mkLState fs0 []) s' res.
Proof.
  intros Hwf Hv. pose proof (path_of_ne root key Hv) as Hne. unfold put, path. rewrite Hv. rewrite mbind_ret.
  set (dst := path_of root key) in *. unfold mbind, M_bind. set (s0 := mkLState fs0 []).
  destruct (MkdirAll (ft_mkdir f) (parent dst) s0) as [rm s1] eqn:Em.
  apply (MkdirAll_ok dst fs0) in Em as [Hth1 Hd1]; [|by apply near_refl].
  destruct rm as [e|[]]; [intros [= <- <-]; by exists None|]. specialize (Hd1 eq_refl).
  destruct (CreateTemp (parent dst) (ft_temps f) s1) as [rc s2] eqn:Ec.
  apply (CreateTemp_ok dst fs0) in Ec; [|apply Hth1|done].
  destruct rc as [e|tmp]; [subst s2; intros [= <- <-]; by exists None|].
  destruct Ec as (Hn & Htemp & Hpar & Hnt & Hth2 & Ht2 & Hd2). intros E. exists (Some tmp).
  split; [by intros ? [= <-]|]. apply (on_error_ok f dst r size fs0 Hne) in E; try done; [|apply Hth2].
  assert (Hth : through (near dst (Some tmp) fs0) s0 s2).
  { eapply through_trans; [|exact Hth2]. eapply through_mono; [|exact Hth1]. intros fs. apply near_weaken. }
  destruct res as [e|[]]; simpl in *; [by eapply through_trans|].
  destruct E as (? & ? & s3 & Hth3 & ?). split_and!; try done. exists s3. split; [|done]. by eapply through_trans.
Qed.

Lemma put_invalid f root key r size s e :
  ValidateKey key = Some e → put f root key r size s = (inl (BlobInvalidKey e), s).
Proof. intros Hv. unfold put, path. rewrite Hv. done. Qed.

(** ** The contract *)

Lemma object_near root dst tmp fs fs' k :
  near dst tmp fs fs' → (∀ p, tmp = Some p → is_temp p = true) →
  object root fs' k = object root fs k ∨ reserved k = true ∧ object root fs k = None.
Proof.
  intros [_ H] Ht. unfold object. destruct (ValidateKey k) eqn:Hv; [by left|].
  destruct (H (path_of root k)) as [->|[E [[Hp _]|[-> _]]]]; [by left| |by left; rewrite E].
  right. pose proof (Ht _ Hp) as Hi. rewrite E. by rewrite <-(path_of_temp root).
Qed.

Lemma object_stored root key data fs fs' :
  ValidateKey key = None → stored (path_of root key) data fs fs' →
  object root fs' key = Some data ∧ ∀ k, k ≠ key → object root fs' k = object root fs k.
Proof.
  intros Hv (_ & Hd & H). unfold object. split; [by rewrite Hv, Hd|]. intros k Hk.
  destruct (ValidateKey k) eqn:Hvk; [done|].
  destruct (H (path_of root k)) as [->|(E & -> & _)]; [|done|by rewrite E].
  intros E. by apply path_of_inj in E.
Qed.

Lemma Put_result f key r size s res s' :
  fs_wf (st_fs s) → Put f key r size s = (res, s') →
  st_root s' = st_root s ∧ fs_wf (st_fs s') ∧
  match res with
  | None => ValidateKey key = None ∧ read_ok r size ∧
      stored (path_of (st_root s) key) (bd_bytes r) (st_fs s) (st_fs s')
  | Some _ => s' = s ∨ ValidateKey key = None ∧ ∃ tmp,
      (∀ p, tmp = Some p → is_temp p = true ∧ p ≠ [] ∧ parent p = parent (path_of (st_root s) key)) ∧
      near (path_of (st_root s) key) tmp (st_fs s) (st_fs s')
  end.
Proof.
  intros Hwf. unfold Put. destruct (put f (st_root s) key r size _) as [rp sp] eqn:E. intros [= <- <-]. simpl.
  destruct (ValidateKey key) as [e|] eqn:Hv.
  - rewrite (put_invalid _ _ _ _ _ _ e Hv) in E. injection E as <- <-. simpl. split_and!; try done.
    left. by destruct s.
  - apply put_spec in E as (tmp & Ht & Hr); [|done..]. destruct rp as [e|[]]; simpl in Hr.
    + split_and!; [done|apply Hr|]. right. split; [done|]. exists tmp. split; [|apply Hr]. intros p Hp.
      by destruct (Ht p Hp) as (_ & ? & ? & ?).
    + destruct Hr as (H1 & H2 & _). split_and!; try done. apply H2.
Qed.

Lemma Delete_result f key s res s' :
  fs_wf (st_fs s) → Delete f key s = (res, s') →
  st_root s' = st_root s ∧ fs_wf (st_fs s') ∧
  match res with
  | None => ValidateKey key = None ∧ st_fs s' = delete (path_of (st_root s) key) (st_fs s)
  | Some _ => s' = s
  end.
Proof.
  intros Hwf. unfold Delete. destruct (ValidateKey key) eqn:Hv; [by intros [= <- <-]|].
  destruct (ft_remove f); [by intros [= <- <-]|].
  destruct (Remove _ (st_fs s)) as [e|fs'] eqn:E; [destruct e; by intros [= <- <-]|].
  intros [= <- <-]. apply Remove_ok in E as (-> & ? & _); done.
Qed.

Lemma object_delete root key fs :
  ValidateKey key = None →
  object root (delete (path_of root key) fs) key = None ∧
  ∀ k, k ≠ key → object root (delete (path_of root key) fs) k = object root fs k.
Proof.
  intros Hv. unfold object. split; [by rewrite Hv, lookup_delete_eq|]. intros k Hk.
  destruct (ValidateKey k) eqn:Hvk; [done|]. rewrite lookup_delete_ne; [done|].
  intros E. by apply path_of_inj in E.
Qed.

#[export] Instance local_store : BlobStore Store Faults.
Proof.
  refine {| blob_inv s := fs_wf (st_fs s) |}; simpl.
  - intros f key r size s s' Hwf (Er & Hwf' & Hv & [] & Hst)%Put_result; [|done].
    rewrite blob_at_object, Er by done. apply object_stored in Hst as [? Hk]; [|done]. split_and!; try done.
    intros k ?. rewrite !blob_at_object, Er by done. by apply Hk.
  - intros f key r size s e s' Hwf (Er & Hwf' & [->|(_ & tmp & Ht & Hn)])%Put_result k; [by left| |done].
    rewrite !blob_at_object, Er by done. eapply object_near; [done|]. intros p Hp. by destruct (Ht p Hp).
  - intros f key s data Hwf. unfold Get, blob_at. simpl. unfold Get. simpl. destruct (ValidateKey key); [done|].
    destruct (ft_open f); [done|]. destruct (stat _ _) as [[]|n]; try done. destruct (ft_stat f); [done|].
    destruct n; [done|]. by intros [= ->].
  - intros f key s s' Hwf (Er & Hwf' & Hv & E)%Delete_result; [|done].
    rewrite blob_at_object, Er, E by done. destruct (object_delete (st_root s) key (st_fs s) Hv) as [? Hk].
    split; [done|]. intros k ?. rewrite !blob_at_object, Er, E by done. by apply Hk.
  - intros f key s e s' Hwf (_ & _ & ->)%Delete_result k; done.
  - intros key s Hwf. rewrite blob_at_object by done. unfold object, Delete. simpl.
    destruct (ValidateKey key) eqn:Hv; [by intros [? ?]|]. intros [d Hd].
    destruct (st_fs s !! path_of (st_root s) key) as [[|d']|] eqn:E; try done. unfold Remove.
    rewrite (proj2 (stat_ok _ _ (File d') Hwf)); [done|]. by rewrite node_ne by (by apply path_of_ne).
  - intros f key r size s Hwf. destruct (Put f key r size s) as [res s'] eqn:E. by apply Put_result in E as (_ & ? & _).
  - intros f key s Hwf. destruct (Delete f key s) as [res s'] eqn:E. by apply Delete_result in E as (_ & ? & _).
Defined.
