(* ===== verification/LocalSpec.v ===== *)
(** * Theorems about the filesystem blob store

    Atomicity of Put under crashes and concurrent readers, the refinement to a map
    from keys to bytes, confinement to the root, success of an undisturbed Put,
    and what List returns. *)

From stdpp Require Import pretty.
From S2P Require Import Prelude GoLib Artifact LocalStore.
From Stdlib Require Import Ascii.

Local Open Scope Z_scope.

(** A store over a filesystem that holds only the root's directories. *)
Definition demo_root : list string := ["srv"; "data"].
Definition demo_fs : FS := <[["srv"; "data"] := Dir]> (<[["srv"] := Dir]> ∅).
Definition demo_store : Store := mkStore demo_root demo_fs.
Definition demo_faults : Faults := mkFaults (λ _, false) [7%N] None None false false false false false false false.

Lemma demo_wf : fs_wf demo_fs.
Proof.
  apply wf_insert; [apply wf_insert; [|done..]|done..]. by intros p n.
Qed.

(** C19: Put is atomic: in every state the filesystem passes through during a Put
    (what a crash would leave, and what a concurrent Get reads), each key other
    than an in-flight file's has the object it had before, except that the key
    written may already have the whole new object, and then Put returns nil. *)
Theorem put_is_atomic f key r size s s1 k :
  fs_wf (st_fs s) → s1 ∈ Put_history f key r size s → reserved k = false →
  blob_at s1 k = blob_at s k ∨
  k = key ∧ (Put f key r size s).1 = None ∧ blob_at s1 k = Some (bd_bytes r).
Proof.
  intros Hwf (fs1 & -> & Hh)%list_elem_of_fmap Hk. unfold Put.
  destruct (put f (st_root s) key r size (mkLState (st_fs s) [])) as [res s'] eqn:E. simpl in Hh.
  destruct (ValidateKey key) as [e|] eqn:Hv.
  { rewrite (put_invalid _ _ _ _ _ _ e Hv) in E. injection E as <- <-. by apply elem_of_nil in Hh. }
  apply put_spec in E as (tmp & Ht & Hr); [|done..].
  assert (Hnear : near (path_of (st_root s) key) tmp (st_fs s) fs1 →
                  blob_at (mkStore (st_root s) fs1) k = blob_at s k).
  { intros Hn. rewrite !blob_at_object; [|done|apply Hn]. simpl.
    destruct (object_near (st_root s) _ _ _ _ k Hn) as [|[? _]]; [|done|congruence]. intros p Hp.
    by destruct (Ht p Hp) as (_ & ? & _). }
  destruct res as [e|[]]; simpl in Hr.
  - left. apply Hnear. destruct Hr as [_ (ext & Eh & Hf)]. rewrite Eh in Hh. simpl in Hh.
    by eapply Forall_forall in Hf.
  - destruct Hr as (_ & Hst & s3 & [_ (ext & Eh & Hf)] & Eh'). rewrite Eh', Eh in Hh. simpl in Hh.
    apply elem_of_app in Hh as [Hh|Hh%list_elem_of_singleton].
    + left. apply Hnear. by eapply Forall_forall in Hf.
    + subst fs1. rewrite !blob_at_object; [|done|apply Hst]. simpl. destruct (object_stored _ _ _ _ _ Hv Hst) as [Ho Hne].
      destruct (decide (k = key)) as [->|]; [right; by rewrite Ho|left; by apply Hne].
Qed.

Lemma put_is_atomic_witness :
  Forall (λ s1, blob_at s1 "runs/r1/a" = None ∨ blob_at s1 "runs/r1/a" = Some [1%N; 2%N; 3%N])
    (Put_history demo_faults "runs/r1/a" (mkBody [1%N; 2%N; 3%N] None) 3 demo_store).
Proof.
  apply Forall_forall. intros s1 H.
  destruct (put_is_atomic demo_faults "runs/r1/a" (mkBody [1%N; 2%N; 3%N] None) 3 demo_store s1 "runs/r1/a")
    as [E|(_ & _ & E)]; [apply demo_wf|exact H|vm_compute; reflexivity|left|right; exact E].
  rewrite E. vm_compute. reflexivity.
Defined.

(** ** Refinement to a map *)

(** The abstract store: a finite map from keys to bytes. *)
Record represents (s : Store) (m : gmap string (list N)) : Prop := {
  rep_wf : fs_wf (st_fs s);
  rep_at : ∀ k, reserved k = false → m !! k = blob_at s k
}.

(** C20: The filesystem store refines a map from keys to bytes: from a store that
    represents [m], a Put that returns nil leaves one that represents [m] with the
    key bound to the bytes read, a Delete that returns nil one without the key, a
    Put or Delete that fails still represents [m] whatever went wrong, Get returns
    only the map's bytes, and a Get in which nothing fails always returns them. *)
Theorem local_store_refines_map f key r size s m :
  represents s m → reserved key = false →
  (let '(res, s') := Put f key r size s in
   represents s' (match res with None => <[key := bd_bytes r]> m | Some _ => m end)) ∧
  (let '(res, s') := Delete f key s in
   represents s' (match res with None => delete key m | Some _ => m end)) ∧
  (∀ data, Get f key s = inr data → m !! key = Some data) ∧
  (∀ data, m !! key = Some data ↔ Get no_faults key s = inr data).
Proof.
  intros [Hwf Hat] Hkey. assert (Hinv : blob_inv s) by exact Hwf. split_and!.
  - destruct (Put f key r size s) as [[e|] s'] eqn:E; (split; [by apply Put_result in E as (_ & ? & _)|]); intros k Hk.
    + rewrite Hat by done. destruct (put_err f key r size s e s' Hinv E k) as [?|[Hr _]]; [done|].
      simpl in Hr. congruence.
    + apply (put_ok f key r size s s' Hinv) in E as (E & _ & _ & Hne).
      destruct (decide (k = key)) as [->|]; [by rewrite lookup_insert_eq, E|].
      rewrite lookup_insert_ne by done. rewrite Hat, Hne; done.
  - destruct (Delete f key s) as [[e|] s'] eqn:E; (split; [by apply Delete_result in E as (_ & ? & _)|]); intros k Hk.
    + rewrite Hat by done. symmetry. apply (delete_err f key s e s' Hinv E).
    + apply (delete_ok f key s s' Hinv) in E as (E & Hne).
      destruct (decide (k = key)) as [->|]; [by rewrite lookup_delete_eq, E|].
      rewrite lookup_delete_ne by done. rewrite Hat, Hne; done.
  - intros data E. rewrite Hat by done. by apply (get_ok f key s data Hinv).
  - intros data. rewrite Hat by done. unfold blob_at. simpl. destruct (Get no_faults key s); naive_solver.
Qed.

Lemma local_store_refines_map_witness :
  represents (Put demo_faults "runs/r1/a" (mkBody [1%N] None) 1 demo_store).2 (<["runs/r1/a" := [1%N]]> ∅).
Proof.
  destruct (local_store_refines_map demo_faults "runs/r1/a" (mkBody [1%N] None) 1 demo_store ∅) as [H _].
  - split; [apply demo_wf|]. intros k _. rewrite blob_at_object by apply demo_wf.
    unfold object. destruct (ValidateKey k) as [|] eqn:Hv; [reflexivity|].
    change (st_root demo_store) with demo_root. destruct (path_of_valid demo_root k Hv) as [-> Hne]. simpl. unfold demo_fs.
    rewrite !lookup_insert_ne; [reflexivity| |]; destruct (Split k "/"); [done|discriminate|done|discriminate].
  - vm_compute. reflexivity.
  - exact H.
Defined.

(** ** Confinement *)

(** The store never touches anything outside its root: once the root's
    directories exist, a Put and a Delete, with any key, any body and any failure,
    leave every other path of the filesystem, and the root itself, as they were. *)
Theorem store_is_confined_to_root f key r size s p :
  fs_wf (st_fs s) → node (st_fs s) (Clean (st_root s)) = Some Dir →
  (∀ q, q ≠ [] → p ≠ Clean (st_root s) ++ q) →
  st_fs (Put f key r size s).2 !! p = st_fs s !! p ∧ st_fs (Delete f key s).2 !! p = st_fs s !! p.
Proof.
  intros Hwf Hroot Hp.
  assert (Hout : ∀ k, ValidateKey k = None → p ≠ path_of (st_root s) k).
  { intros k Hv. destruct (path_of_valid (st_root s) k Hv) as [-> Hne]. by apply Hp. }
  assert (Hdirs : ∀ fs1, fs_wf fs1 → ValidateKey key = None → p `prefix_of` parent (path_of (st_root s) key) →
                    st_fs s !! p = None → fs1 !! p = Some Dir → fs1 !! p = st_fs s !! p).
  { intros fs1 Hwf1 Hv Hpre Hn H1. destruct (path_of_valid (st_root s) key Hv) as [E Hne]. rewrite E in Hpre.
    destruct Hpre as [q Hq]. unfold parent in Hq. rewrite removelast_app in Hq by done.
    assert (Hin : p `prefix_of` Clean (st_root s)).
    { destruct (prefix_weak_total p (Clean (st_root s)) (p ++ q)) as [?|[q' ->]]; [by exists q| |done|].
      - rewrite <-Hq. by exists (removelast (Split key "/")).
      - destruct q' as [|x q']; [by rewrite app_nil_r|]. by destruct (Hp (x :: q')). }
    destruct Hin as [q' Hq']. destruct (decide (p = [])) as [->|Hpn].
    - by destruct (Hwf1 [] Dir H1).
    - rewrite <-node_ne in Hn by done. rewrite Hq' in Hroot. destruct q' as [|x q'].
      + rewrite app_nil_r in Hroot. congruence.
      + rewrite (wf_dirs _ p (x :: q') Hwf) in Hn; [done|by rewrite Hroot|done]. }
  split.
  - destruct (Put f key r size s) as [res s'] eqn:E. apply Put_result in E as (_ & Hwf' & H); [|done]. simpl.
    destruct res as [e|].
    + destruct H as [->|(Hv & tmp & Ht & _ & H)]; [done|].
      destruct (H p) as [?|[? [[Hp' _]|[? ?]]]]; [done| |by apply Hdirs].
      destruct (Ht p Hp') as (_ & Hpn & Hpar). destruct (path_of_valid (st_root s) key Hv) as [E Hne].
      rewrite E in Hpar. unfold parent in Hpar. rewrite (removelast_app _ Hne) in Hpar.
      destruct (Hp (removelast (Split key "/") ++ [List.last p ""])); [by intros [_ ?]%app_eq_nil|].
      by rewrite app_assoc, <-Hpar, <-app_removelast_last.
    + destruct H as (Hv & _ & _ & _ & H). destruct (H p (Hout key Hv)) as [?|(? & ? & ?)]; [done|]. by apply Hdirs.
  - destruct (Delete f key s) as [res s'] eqn:E. apply Delete_result in E as (_ & _ & H); [|done]. simpl.
    destruct res as [e|]; [by subst s'|]. destruct H as [Hv ->]. rewrite lookup_delete_ne; [done|].
    intros Ep. by apply (Hout key Hv).
Qed.

Lemma store_is_confined_to_root_witness :
  st_fs (Put demo_faults "../../etc/passwd" (mkBody [1%N] None) 1 demo_store).2 !! ["etc"; "passwd"] = None.
Proof.
  apply (store_is_confined_to_root demo_faults "../../etc/passwd" (mkBody [1%N] None) 1 demo_store ["etc"; "passwd"]).
  - apply demo_wf.
  - vm_compute. reflexivity.
  - intros q _. discriminate.
Defined.

(** ** Success *)

(** Nothing fails and one of the random names is unused. *)
Record undisturbed (f : Faults) (fs : FS) (dir : list string) : Prop := {
  ud_mkdir : ∀ p, ft_mkdir f p = false;
  ud_temp : ∃ n, n ∈ ft_temps f ∧ fs !! (dir ++ [tmpPrefix +:+ pretty n]) = None;
  ud_copy : ft_ctx f = None ∧ ft_write f = None;
  ud_calls : ft_sync f = false ∧ ft_close f = false ∧ ft_rename f = false
}.

Lemma mkdir_all_succeeds fault rest : (∀ p, fault p = false) → ∀ pre s,
  (∀ q d, q `prefix_of` (pre ++ rest) → node (l_fs s) q ≠ Some (File d)) →
  ∃ s', mkdir_all fault pre rest s = (inr tt, s').
Proof.
  intros Hf. induction rest as [|x rest IH]; intros pre s Hq; simpl; unfold mbind, M_bind; simpl.
  all: destruct (node (l_fs s) pre) as [[|d]|] eqn:En;
    [|by destruct (Hq pre d ltac:(by apply prefix_app_r))|rewrite Hf]; simpl; eauto.
  - apply IH. intros q d Hpre. apply Hq. by rewrite <-app_assoc in Hpre.
  - apply IH. intros q d Hpre. simpl. destruct (decide (q = pre)) as [->|Hne].
    + destruct pre; [done|]. simpl. by rewrite lookup_insert_eq.
    + rewrite node_insert_ne by done. apply Hq. by rewrite <-app_assoc in Hpre.
Qed.

Lemma CreateTemp_succeeds dir temps s :
  (∃ n, n ∈ temps ∧ l_fs s !! (dir ++ [tmpPrefix +:+ pretty n]) = None) → ∃ p s', CreateTemp dir temps s = (inr p, s').
Proof.
  induction temps as [|n temps IH]; intros (m & Hm & Hn); [by apply elem_of_nil in Hm|]. simpl.
  unfold mbind, M_bind. simpl. destruct (l_fs s !! (dir ++ [tmpPrefix +:+ pretty n])) eqn:E; [|eauto].
  apply elem_of_cons in Hm as [->|Hm]; [congruence|]. eauto.
Qed.

Lemma put_temp_succeeds f tmp dst r size fs0 s :
  dst ≠ [] → fs0 !! tmp = None → tmp ≠ [] → parent tmp = parent dst → near dst (Some tmp) fs0 (l_fs s) →
  l_fs s !! tmp = Some (File []) → node (l_fs s) (parent dst) = Some Dir →
  undisturbed f fs0 (parent dst) → read_ok r size → in_int64 (size + 1) → fs0 !! dst ≠ Some Dir →
  ∃ s', put_temp f tmp dst r size s = (inr tt, s').
Proof.
  intros Hdst Hn Hne Hpar HI Ht Hd [_ _ [Hc Hw] (Hs & Hcl & Hr)] [He Hl] H64 Hnd. unfold put_temp, io_Copy. rewrite Hc, Hw. simpl.
  assert (Hsrc : (if bool_decide (0 ≤ size) then LimitReader r (int64 (size + 1)) else r) = r).
  { case_bool_decide as Hsz; [|done]. rewrite int64_id by done. specialize (Hl Hsz). unfold LimitReader.
    rewrite !bool_decide_eq_false_2 by lia. done. }
  rewrite Hsrc. destruct (write_bytes_ok dst fs0 tmp Hn Hne Hpar (bd_bytes r) [] s HI Ht Hd) as (s1 & E & [Hn1 _] & Ht1 & Hd1).
  unfold mbind, M_bind. rewrite E, He. simpl.
  assert (Hg : bool_decide (0 ≤ size) && bool_decide (Z.of_nat (length (bd_bytes r)) ≠ size) = false).
  { case_bool_decide as Hsz; [|done]. simpl. apply bool_decide_eq_false. intros Hx. by rewrite Hl in Hx. }
  rewrite Hg, Hs, Hcl, Hr. unfold Rename, mbind, M_bind. simpl. destruct Hn1 as [Hwf1 Hn1].
  rewrite (proj2 (stat_ok _ tmp (File (bd_bytes r)) Hwf1)) by (by rewrite node_ne).
  rewrite (proj2 (stat_ok _ (parent dst) Dir Hwf1)) by done.
  destruct (stat (l_fs s1) dst) as [e|[|]] eqn:E2; [by eauto| |by eauto].
  apply stat_ok in E2; [|done]. rewrite node_ne in E2 by done.
  destruct (Hn1 dst) as [E3|[_ [[_ [d E3]]|[_ Hpre]]]]; [congruence..|].
  apply prefix_length in Hpre. unfold parent in Hpre. destruct dst as [|x l _] using rev_ind; [done|].
  rewrite removelast_last, length_app in Hpre. simpl in Hpre. lia.
Qed.

(** An undisturbed Put of a valid key succeeds and can be read back: when no
    directory on the way is a file, the key does not name a directory, nothing
    fails and the reader yields what was announced, Put returns nil and Get then
    returns the bytes. *)
Theorem put_then_get f key r size s :
  fs_wf (st_fs s) → ValidateKey key = None →
  undisturbed f (st_fs s) (parent (path_of (st_root s) key)) →
  bd_err r = None → (0 ≤ size → Z.of_nat (length (bd_bytes r)) = size) → in_int64 (size + 1) →
  (∀ q d, q `prefix_of` parent (path_of (st_root s) key) → st_fs s !! q ≠ Some (File d)) →
  st_fs s !! path_of (st_root s) key ≠ Some Dir →
  (Put f key r size s).1 = None ∧ Get no_faults key (Put f key r size s).2 = inr (bd_bytes r).
Proof.
  intros Hwf Hv Hu He Hl H64 Hq Hnd. pose proof (path_of_ne (st_root s) key Hv) as Hne.
  assert (Hput : ∃ s', put f (st_root s) key r size (mkLState (st_fs s) []) = (inr tt, s')).
  { unfold put, path. rewrite Hv, mbind_ret. set (dst := path_of (st_root s) key) in *. set (s0 := mkLState (st_fs s) []).
    destruct (mkdir_all_succeeds (ft_mkdir f) (parent dst) (ud_mkdir _ _ _ Hu) [] s0) as [s1 E1].
    { intros q d Hpre Hn. destruct q as [|x q]; [done|]. by apply (Hq (x :: q) d). }
    pose proof E1 as E1'. apply (MkdirAll_ok dst (st_fs s)) in E1' as [[Hn1 _] Hd1]; [|by apply near_refl].
    specialize (Hd1 eq_refl). rewrite (mbind_step _ _ _ _ _ E1).
    destruct (CreateTemp_succeeds (parent dst) (ft_temps f) s1) as (tmp & s2 & E2).
    { destruct (ud_temp _ _ _ Hu) as (n & Hin & Hno). exists n. split; [done|].
      destruct (proj2 Hn1 (parent dst ++ [tmpPrefix +:+ pretty n])) as [->|[_ [[? _]|[_ Hpre]]]]; [done..|].
      apply prefix_length in Hpre. rewrite length_app in Hpre. simpl in Hpre. lia. }
    rewrite (mbind_step _ _ _ _ _ E2). apply (CreateTemp_ok dst (st_fs s)) in E2; [|done..].
    destruct E2 as (Hn & _ & Hpar & Hnt & [HI _] & Ht & Hd2). unfold on_error.
    destruct (put_temp_succeeds f tmp dst r size (st_fs s) s2) as [s' ->]; try done. by exists s'. }
  destruct Hput as [s' E]. assert (EP : Put f key r size s = (None, mkStore (st_root s) (l_fs s'))).
  { unfold Put. by rewrite E. }
  rewrite EP. split; [done|]. simpl.
  pose proof (put_ok f key r size s _ (Hwf : blob_inv s) EP) as (Hat & _). revert Hat.
  unfold blob_at. simpl. destruct (Get no_faults key _); [done|]. by intros [= ->].
Qed.

Lemma put_then_get_witness :
  Get no_faults "runs/r1/a" (Put demo_faults "runs/r1/a" (mkBody [1%N; 2%N] None) 2 demo_store).2 = inr [1%N; 2%N].
Proof.
  apply (put_then_get demo_faults "runs/r1/a" (mkBody [1%N; 2%N] None) 2 demo_store).
  - apply demo_wf.
  - vm_compute. reflexivity.
  - split; [reflexivity|exists 7%N; split; [left|vm_compute; reflexivity]|split; reflexivity|split_and!; reflexivity].
  - reflexivity.
  - reflexivity.
  - vm_compute. split; discriminate.
  - intros q d (l & E). vm_compute in E. destruct q as [|a [|b [|c [|e [|]]]]]; simpl in E; simplify_eq; vm_compute; discriminate.
  - vm_compute. discriminate.
Defined.

(** ** Listing *)

(** The names a filesystem can hold. *)
Definition posix_names (fs : FS) : Prop :=
  ∀ p n, fs !! p = Some n → Forall (λ s, plain s ∧ s ≠ "" ∧ s ≠ "." ∧ s ≠ "..") p.

Lemma HasPrefix_app s p : HasPrefix s p = true ↔ ∃ t, s = p +:+ t.
Proof.
  revert s. induction p as [|a p IH]; intros s; [split; [by exists s|by destruct s]|].
  destruct s as [|b s]; simpl; [split; [done|]; intros (t & Ht); discriminate Ht|].
  rewrite andb_true_iff, bool_decide_eq_true, IH. split.
  - intros [-> [t ->]]. by exists t.
  - intros [t Ht]. change (String a p +:+ t) with (String a (p +:+ t)) in Ht. injection Ht as -> ->.
    split; [done|]. by exists t.
Qed.

Lemma Contains_app a s b : Contains (a +:+ s +:+ b) s = true.
Proof.
  assert (Hone : ∀ t, HasPrefix t s = true → Contains t s = true).
  { intros [|c t] Ht; simpl in *; by rewrite Ht. }
  induction a as [|c a IH].
  - apply Hone. apply HasPrefix_app. by exists b.
  - change ((String c a) +:+ s +:+ b) with (String c (a +:+ s +:+ b)).
    change (HasPrefix (String c (a +:+ s +:+ b)) s || Contains (a +:+ s +:+ b) s = true). by rewrite IH, orb_true_r.
Qed.

Lemma string_app_nil (s : string) : s +:+ "" = s.
Proof. induction s as [|c s IH]; [done|]. exact (f_equal (String c) IH). Qed.

Lemma Split_elem q x : x ∈ Split q "/" → ∃ a b, q = a +:+ x +:+ b.
Proof.
  revert x. induction q as [|c q IH]; intros x; simpl.
  - intros ->%list_elem_of_singleton. by exists "", "".
  - case_bool_decide as Hc.
    + intros [->|Hx]%elem_of_cons; [by exists "", (String c q)|]. destruct (IH x Hx) as (a & b & ->).
      by exists (String c a), b.
    + destruct (Split q "/"%char) as [|y l] eqn:Es; [by destruct (Split_join q "/")|].
      intros [->|Hx]%elem_of_cons.
      * destruct l as [|z l]; simpl in *.
        -- exists "", "". pose proof (proj1 (Split_join q "/")) as E. rewrite Es in E. simpl in E. subst y.
           symmetry. apply string_app_nil.
        -- pose proof (proj1 (Split_join q "/")) as E. rewrite Es in E. exists "", (String "/" (Join (z :: l) "/")).
           by rewrite <-E.
      * destruct (IH x) as (a & b & ->); [by right|]. by exists (String c a), b.
Qed.

Lemma Split_app2 x y : Split (x +:+ String "/"%char y) "/" = Split x "/" ++ Split y "/".
Proof.
  induction x as [|c x IH]; [done|]. change (String c x +:+ String "/" y) with (String c (x +:+ String "/" y)). simpl.
  rewrite IH. case_bool_decide; [done|]. by destruct (Split x "/"%char) eqn:E; [destruct (Split_join x "/")|].
Qed.

Lemma LastDir_Some p q : LastDir p = Some q → ∃ r, p = q +:+ String "/"%char r.
Proof.
  revert q. induction p as [|c p IH]; intros q; simpl; [done|].
  destruct (LastDir p) as [q'|] eqn:E.
  - intros [= <-]. destruct (IH q' eq_refl) as [r ->]. by exists r.
  - case_bool_decide; [|done]. intros [= <-]. subst c. by exists p.
Qed.

Lemma Clean_no_dotdot a b : Forall (λ s, s ≠ "..") b → ∃ c, Clean (a ++ b) = Clean a ++ c.
Proof.
  unfold Clean. rewrite foldl_app. generalize (foldl clean_step [] a). induction b as [|s b IH]; intros acc Hb; simpl.
  - exists []. by rewrite app_nil_r.
  - apply Forall_cons in Hb as [H1 Hb]. destruct (IH (clean_step acc s) Hb) as [c ->]. unfold clean_step.
    case_bool_decide; [by exists c|]. rewrite bool_decide_eq_false_2 by done. exists (s :: c). by rewrite <-app_assoc.
Qed.

(** The directory the walk starts from. *)
Definition start_dir (root : list string) (prefix : string) : list string :=
  match LastDir prefix with Some q => Clean (root ++ Split q "/") | None => Clean root end.

Lemma start_dir_below root prefix : Contains prefix ".." = false → ∃ c, start_dir root prefix = Clean root ++ c.
Proof.
  intros Hc. unfold start_dir. destruct (LastDir prefix) as [q|] eqn:E; [|exists []; by rewrite app_nil_r].
  apply LastDir_Some in E as [r ->]. apply Clean_no_dotdot. apply Forall_forall. intros x Hx ->.
  apply Split_elem in Hx as (a & b & ->). rewrite !string_app_assoc, Contains_app in Hc. done.
Qed.

Lemma start_dir_above root prefix k :
  ValidateKey k = None → HasPrefix k prefix = true → ∃ c, c ≠ [] ∧ path_of root k = start_dir root prefix ++ c.
Proof.
  intros Hv Hp. destruct (path_of_valid root k Hv) as [-> Hne]. unfold start_dir.
  destruct (LastDir prefix) as [q|] eqn:E; [|by exists (Split k "/")].
  apply LastDir_Some in E as [r ->]. apply HasPrefix_app in Hp as [t ->]. rewrite string_app_assoc in *.
  change (String "/" r +:+ t) with (String "/" (r +:+ t)) in *. rewrite Split_app2 in *.
  apply ValidatePath_nil in Hv as (_ & _ & _ & _ & Hs%check_segments_ok). rewrite Split_app2 in Hs.
  apply Forall_app in Hs as [Hs _]. rewrite Clean_app by done. exists (Split (r +:+ t) "/").
  split; [apply Split_join|by rewrite app_assoc].
Qed.

Lemma elem_of_walked fs dir p :
  fs_wf fs → p ∈ walked fs dir ↔ (∃ c, p = dir ++ c) ∧ ∃ d, fs !! p = Some (File d).
Proof.
  intros Hwf. unfold walked. rewrite list_elem_of_In, filter_In, <-list_elem_of_In, andb_true_iff, bool_decide_eq_true.
  rewrite list_elem_of_fmap. split.
  - intros (([p' n] & -> & Hp%elem_of_map_to_list) & Hd & Hs). simpl in *. split; [exists (drop (length dir) p')|].
    + by rewrite <-Hd at 1; rewrite take_drop.
    + destruct (stat fs p') as [|[|d]] eqn:E; [done..|]. apply stat_ok in E; [|done].
      rewrite node_ne in E by (by apply Hwf in Hp as [? _]). eauto.
  - intros [[c ->] [d Hd]]. split_and!.
    + exists (dir ++ c, File d). split; [done|]. by apply elem_of_map_to_list.
    + apply take_app_length.
    + rewrite (proj2 (stat_ok _ _ (File d) Hwf)); [done|]. rewrite node_ne; [done|]. by apply Hwf in Hd as [? _].
Qed.

Section listing.
Context (s : Store) (prefix : string).
Context (Hwf : fs_wf (st_fs s)) (Hnames : posix_names (st_fs s)) (Hdd : Contains prefix ".." = false).
Let root := Clean (st_root s).
Let dir := start_dir (st_root s) prefix.

Lemma walked_rel p : p ∈ walked (st_fs s) dir →
  ∃ d, p = root ++ Rel root p ∧ st_fs s !! p = Some (File d) ∧
       Forall (λ x, plain x ∧ x ≠ "" ∧ x ≠ "." ∧ x ≠ "..") (Rel root p).
Proof.
  intros [[c ->] [d Hd]]%elem_of_walked; [|done]. destruct (start_dir_below (st_root s) prefix Hdd) as [c' E].
  fold dir root in E. exists d. unfold Rel. rewrite E in Hd |- *. rewrite <-app_assoc in Hd |- *.
  rewrite drop_app_length. split_and!; try done. apply Hnames in Hd. by apply Forall_app in Hd as [_ ?].
Qed.

Lemma walked_key p : p ∈ walked (st_fs s) dir → Rel root p ≠ [] → Split (Join (Rel root p) "/") "/" = Rel root p.
Proof.
  intros (d & _ & _ & Hf)%walked_rel Hne. apply Split_join_plain; [done|]. eapply Forall_impl; [exact Hf|]. by intros ? [].
Qed.

Lemma walked_inj p1 p2 : p1 ∈ walked (st_fs s) dir → p2 ∈ walked (st_fs s) dir →
  Join (Rel root p1) "/" = Join (Rel root p2) "/" → p1 = p2.
Proof.
  assert (Hempty : ∀ p, p ∈ walked (st_fs s) dir → Rel root p ≠ [] → Join (Rel root p) "/" ≠ "").
  { intros p Hp Hne E. apply walked_key in Hne as Hk; [|done]. rewrite E in Hk. simpl in Hk.
    apply walked_rel in Hp as (_ & _ & _ & Hf). rewrite <-Hk in Hf. by apply Forall_cons in Hf as [(_ & ? & _) _]. }
  intros H1 H2 E. destruct (walked_rel p1 H1) as (_ & E1 & _), (walked_rel p2 H2) as (_ & E2 & _).
  rewrite E1, E2. f_equal. destruct (decide (Rel root p1 = [])) as [Z1|N1], (decide (Rel root p2 = [])) as [Z2|N2].
  - congruence.
  - rewrite Z1 in E. by destruct (Hempty p2).
  - rewrite Z2 in E. by destruct (Hempty p1).
  - rewrite <-(walked_key p1), <-(walked_key p2) by done. by rewrite E.
Qed.

Lemma walked_at k : ValidateKey k = None → HasPrefix k prefix = true →
  (∃ p, k = Join (Rel root p) "/" ∧ is_temp p = false ∧ p ∈ walked (st_fs s) dir) ↔
  is_Some (object (st_root s) (st_fs s) k) ∧ reserved k = false.
Proof.
  intros Hv Hp. destruct (path_of_valid (st_root s) k Hv) as [Epath Hne]. fold root in Epath.
  rewrite <-(path_of_temp (st_root s)) by done. unfold object. rewrite Hv. split.
  - intros (p & -> & Ht & Hw). assert (Hr : Rel root p ≠ []).
    { intros E. rewrite E in Hv. vm_compute in Hv. discriminate. }
    rewrite (walked_key p Hw Hr) in Epath. destruct (walked_rel p Hw) as (d & Ep & Hd & _).
    rewrite Epath, <-Ep, Hd. by eauto.
  - intros [[d Hd] Ht]. exists (path_of (st_root s) k). split_and!; [|done|].
    + rewrite Epath. unfold Rel. rewrite drop_app_length. symmetry. apply Split_join.
    + apply elem_of_walked; [done|]. destruct (start_dir_above (st_root s) prefix k Hv Hp) as (c & _ & E).
      split; [by exists c|]. destruct (st_fs s !! path_of (st_root s) k) as [[|d']|]; naive_solver.
Qed.
End listing.

(** List is exact: on a filesystem with ordinary names it returns, in byte order
    and without duplicates, exactly the stored keys with the given string prefix,
    except the keys whose file name marks an in-flight write. *)
Theorem list_is_exact f prefix s keys :
  fs_wf (st_fs s) → posix_names (st_fs s) → List_ f prefix s = inr keys →
  StronglySorted (λ a b, String.leb a b = true) keys ∧ NoDup keys ∧
  ∀ k, ValidateKey k = None →
    k ∈ keys ↔ HasPrefix k prefix = true ∧ is_Some (blob_at s k) ∧ reserved k = false.
Proof.
  intros Hwf Hn. unfold List_. destruct (Contains prefix "\"); [done|]. simpl.
  destruct (Contains prefix "..") eqn:Hdd; [done|]. destruct (ft_walk f); [done|].
  fold (start_dir (st_root s) prefix). set (dir := start_dir (st_root s) prefix).
  destruct (stat (st_fs s) dir) as [e|n] eqn:Es.
  - destruct e; try done. intros [= <-]. split_and!; [constructor|constructor|]. intros k Hv.
    split; [by intros ?%elem_of_nil|]. intros (Hp & [d Hd] & Hr). exfalso. rewrite blob_at_object in Hd by done.
    destruct (proj2 (walked_at s prefix Hwf Hn Hdd k Hv Hp)) as (p & _ & _ & Hw); [by eauto|].
    apply elem_of_walked in Hw as [[c ->] [d' Hw]]; [|done]. fold dir in Hw.
    assert (is_Some (node (st_fs s) dir)) as [n En].
    { destruct (decide (c = [])) as [->|].
      - rewrite app_nil_r in Hw. destruct dir; [done|]. by exists (File d').
      - exists Dir. apply (wf_dirs _ dir c Hwf); [|done]. rewrite node_ne; [by eauto|]. by apply Hwf in Hw as [? _]. }
    apply (stat_ok _ _ _ Hwf) in En. congruence.
  - intros [= <-]. split_and!.
    + apply order_by_sorted; [apply String.leb_total|apply string_leb_trans].
    + rewrite order_by_perm. apply NoDup_ListNoDup, List.NoDup_filter, NoDup_ListNoDup.
      apply (NoDup_fmap_2_strong _); [|apply NoDup_ListNoDup; do 2 apply List.NoDup_filter; apply NoDup_ListNoDup, NoDup_fst_map_to_list].
      intros p1 p2 H1 H2. rewrite list_elem_of_In, filter_In, <-list_elem_of_In in H1, H2.
      apply (walked_inj s prefix Hwf Hn Hdd); [apply H1|apply H2].
    + intros k Hv. rewrite elem_of_order_by, list_elem_of_In, filter_In, <-list_elem_of_In, list_elem_of_fmap.
      rewrite blob_at_object by done. split.
      * intros [(p & -> & Hp) Hpre]. rewrite list_elem_of_In, filter_In, <-list_elem_of_In in Hp. destruct Hp as [Hp Ht%negb_true_iff].
        split; [done|]. apply (walked_at s prefix Hwf Hn Hdd); [done..|]. by exists p.
      * intros (Hpre & Ho). split; [|done].
        apply (walked_at s prefix Hwf Hn Hdd k Hv Hpre) in Ho as (p & Hk & Ht & Hw).
        exists p. split; [done|]. rewrite list_elem_of_In, filter_In, <-list_elem_of_In, Ht. done.
Qed.

Lemma list_is_exact_witness :
  "runs/r10/b" ∈ ["runs/r1/a"; "runs/r10/b"] ↔
  HasPrefix "runs/r10/b" "runs/r1" = true ∧
  is_Some (blob_at (mkStore demo_root (<[["srv"; "data"; "runs"; "r10"; "b"] := File []]>
    (<[["srv"; "data"; "runs"; "r10"] := Dir]> (<[["srv"; "data"; "runs"; "r1"; "a"] := File [1%N]]>
    (<[["srv"; "data"; "runs"; "r1"] := Dir]> (<[["srv"; "data"; "runs"] := Dir]> demo_fs)))))) "runs/r10/b") ∧ reserved "runs/r10/b" = false.
Proof.
  apply (list_is_exact no_faults "runs/r1").
  - cbn [st_fs]. repeat apply wf_insert; try done; apply demo_wf.
  - intros p n H. cbn [st_fs] in H. unfold demo_fs in H.
    rewrite !lookup_insert_Some, lookup_empty in H. 
    repeat (destruct H as [[<- <-]|[_ H]]; [repeat (apply Forall_cons_2; [done|]); by apply Forall_nil_2|]). discriminate H.
  - vm_compute. reflexivity.
  - vm_compute. reflexivity.
Defined.
