(* ===== verification/DockerFiles.v ===== *)
(** * Artifact collection of the Docker executor: src/internal/executor/docker/artifacts.go

    The declared paths, and the unpacking of the tar stream the daemon returns for
    one of them into the runner's directory.  The stream is what [archive/tar] reads
    from it: entries with a type, an announced size and a body, then the end or an
    error. *)

From S2P Require Import Prelude GoLib Artifact LocalStore LocalSpec.
From Stdlib Require Import Ascii.

Local Open Scope Z_scope.

(** ** Slash paths *)

(** [path.Clean], on the segments: empty and "." segments go, ".." takes its
    predecessor with it, stays at the front of a relative path and is dropped at the
    front of a rooted one. *)
Definition clean_seg1 (rooted : bool) (acc : list string) (seg : string) : list string :=
  if bool_decide (seg = "" ∨ seg = ".") then acc
  else if bool_decide (seg = "..") then
    match last acc with
    | None => if rooted then acc else [".."]
    | Some s => if bool_decide (s = "..") then acc ++ [".."] else removelast acc
    end
  else acc ++ [seg].
Definition path_segs (p : string) : list string := foldl (clean_seg1 (HasPrefix p "/")) [] (Split p "/").
Definition path_Clean (p : string) : string :=
  let segs := path_segs p in
  if HasPrefix p "/" then "/" +:+ Join segs "/"
  else match segs with [] => "." | _ => Join segs "/" end.
Definition IsAbs (p : string) : bool := HasPrefix p "/".

Definition workspace : string := "/workspace".

(** [artifactPaths]: the name under which the artifact is uploaded and the absolute
    path in the container. *)
Definition artifactPaths (declared : string) : option (string * string) :=
  let p := path_Clean (TrimSpace declared) in
  let '(src, rel) :=
    if IsAbs p then (p, TrimPrefix p "/") else (path_Clean (workspace +:+ "/" +:+ p), p) in
  if bool_decide (rel = "") || bool_decide (rel = ".") || bool_decide (rel = "..") ||
     HasPrefix rel "../" || Contains rel "\"
  then None else Some (rel, src).

(** ** Tar streams *)

Inductive TarType := TypeDir | TypeReg | TypeOther.
Record TarEntry := mkTarEntry { te_Name : string; te_Typeflag : TarType; te_Size : Z; te_Body : Body }.
(** The entries, and whether the stream then ends or breaks. *)
Record TarStream := mkTarStream { ts_entries : list TarEntry; ts_broken : bool }.

(** The loop of [stripFirst] over the segments. *)
Definition plain_segment (seg : string) : bool := negb (bool_decide (seg = "" ∨ seg = "." ∨ seg = "..")).

Definition stripFirst (name : string) : option string :=
  let name := TrimSuffix name "/" in
  if bool_decide (name = "") || HasPrefix name "/" || Contains name "\" then None
  else if negb (forallb plain_segment (Split name "/")) then None
  else let '(_, rest, _) := Cut name "/" in Some rest.

(** What the operating system refuses: a directory, the opening of a file, the byte
    at which the disk is full, and the closing of the file. *)
Record XFaults := mkXFaults {
  xf_mkdir : list string → bool;
  xf_open : list string → bool;
  xf_write : list string → option nat;
  xf_close : list string → bool
}.
Definition no_xfaults : XFaults := mkXFaults (λ _, false) (λ _, false) (λ _, None) (λ _, false).

(** [os.OpenFile] with O_CREATE|O_WRONLY|O_TRUNC. *)
Definition OpenFile (f : XFaults) (p : list string) : L unit :=
  fs ← get_fs;
  if xf_open f p then lfail BlobIO
  else match stat fs (parent p), stat fs p with
       | inr Dir, inr Dir => lfail BlobIO
       | inr Dir, _ => if bool_decide (p = []) then lfail BlobIO else set_fs (<[p := File []]> fs)
       | _, _ => lfail BlobIO
       end.

Definition writeFile (f : XFaults) (target : list string) (r : Body) (size : Z) : L unit :=
  OpenFile f target;;
  n ← io_Copy (xf_write f target) target r;
  if xf_close f target then lfail BlobIO
  else if bool_decide (n ≠ size) then lfail (BlobSize n size) else mret tt.

(** [extractArtifact]; the destination is absolute.  The number of files written is
    kept on an error too. *)
Fixpoint extract_entries (f : XFaults) (es : list TarEntry) (broken : bool) (dest : list string) (files : Z) : L Z :=
  match es with
  | [] => if broken then lfail BlobIO else mret files
  | e :: es' =>
      match stripFirst (te_Name e) with
      | None => lfail BlobInvalidPrefix
      | Some name =>
          let target := if bool_decide (name = "") then dest else Clean (dest ++ Split name "/") in
          match te_Typeflag e with
          | TypeDir => MkdirAll (xf_mkdir f) target;; extract_entries f es' broken dest files
          | TypeReg =>
              MkdirAll (xf_mkdir f) (parent target);;
              writeFile f target (te_Body e) (te_Size e);;
              extract_entries f es' broken dest (files + 1)
          | TypeOther => extract_entries f es' broken dest files
          end
      end
  end.
Definition extractArtifact (f : XFaults) (r : TarStream) (dest : list string) : L Z :=
  extract_entries f (ts_entries r) (ts_broken r) dest 0.

(** Where collectArtifacts unpacks: filepath.Join(ArtifactDir, rel). *)
Definition artifact_dest (dir : list string) (rel : string) : list string := Clean (dir ++ Split rel "/").

(** ** What the system calls touch *)

(** [fs'] differs from [fs] at most at [t] and by new directories on the way to it. *)
Definition touched (t : list string) (fs fs' : FS) : Prop :=
  fs_wf fs' ∧ ∀ p, fs' !! p = fs !! p ∨ p = t ∨ fs !! p = None ∧ fs' !! p = Some Dir ∧ p `prefix_of` t.

Lemma touched_refl t fs : fs_wf fs → touched t fs fs.
Proof. split; [done|]. by left. Qed.

Lemma touched_trans t fs1 fs2 fs3 : touched t fs1 fs2 → touched t fs2 fs3 → touched t fs1 fs3.
Proof.
  intros [_ H1] [Hwf H2]. split; [done|]. intros p.
  destruct (H1 p) as [E1|[?|(E1 & D1 & P1)]]; [|by right; left|]; destruct (H2 p) as [E2|[?|(E2 & D2 & P2)]].
  - left. congruence.
  - by right; left.
  - right. right. split_and!; congruence.
  - right. right. split_and!; congruence.
  - by right; left.
  - congruence.
Qed.

Lemma touched_insert t fs d : fs_wf fs → t ≠ [] → node fs (parent t) = Some Dir → fs !! t ≠ Some Dir →
  touched t fs (<[t := File d]> fs).
Proof.
  intros Hwf Hne Hpar Hd. split; [by apply wf_insert|]. intros p.
  destruct (decide (p = t)) as [->|]; [by right; left|left; by rewrite lookup_insert_ne].
Qed.

Lemma prefix_parent (p : list string) : parent p `prefix_of` p.
Proof.
  destruct p as [|x p _] using rev_ind; [done|]. rewrite parent_snoc. by apply prefix_app_r.
Qed.

Lemma MkdirAll_touched fault t s r s' : fs_wf (l_fs s) → MkdirAll fault t s = (r, s') →
  fs_wf (l_fs s') ∧ (∀ p, l_fs s' !! p = l_fs s !! p ∨ l_fs s !! p = None ∧ l_fs s' !! p = Some Dir ∧ p `prefix_of` t) ∧
  (r = inr tt → node (l_fs s') t = Some Dir).
Proof.
  intros Hwf E. rewrite <-(parent_snoc t "") in E.
  apply (MkdirAll_ok (t ++ [""]) (l_fs s)) in E as [[[Hwf' Hn] _] Hd]; [|by apply near_refl].
  rewrite parent_snoc in Hd. split_and!; [done| |done]. intros p. destruct (Hn p) as [?|[? [[? _]|[? Hp]]]]; [by left|done|].
  rewrite parent_snoc in Hp. by right.
Qed.

Lemma OpenFile_touched f t s r s' : fs_wf (l_fs s) → OpenFile f t s = (r, s') →
  touched t (l_fs s) (l_fs s') ∧
  (r = inr tt → t ≠ [] ∧ l_fs s' !! t = Some (File []) ∧ node (l_fs s') (parent t) = Some Dir).
Proof.
  intros Hwf. unfold OpenFile, mbind, M_bind. simpl.
  assert (Hno : ∀ e, (inl e, s) = (r, s') → touched t (l_fs s) (l_fs s') ∧
    (r = inr tt → t ≠ [] ∧ l_fs s' !! t = Some (File []) ∧ node (l_fs s') (parent t) = Some Dir)).
  { intros e [= <- <-]. split; [by apply touched_refl|done]. }
  destruct (xf_open f t); [apply Hno|]. destruct (stat (l_fs s) (parent t)) as [|[|]] eqn:Ep; [apply Hno| |apply Hno].
  apply stat_ok in Ep; [|done].
  assert (Hset : t ≠ [] → l_fs s !! t ≠ Some Dir → set_fs (<[t := File []]> (l_fs s)) s = (r, s') →
    touched t (l_fs s) (l_fs s') ∧ (r = inr tt → t ≠ [] ∧ l_fs s' !! t = Some (File []) ∧ node (l_fs s') (parent t) = Some Dir)).
  { intros Hne Hd [= <- <-]. simpl. split; [by apply touched_insert|]. intros _.
    split_and!; [done|by rewrite lookup_insert_eq|rewrite node_insert_ne; [done|by apply parent_ne]]. }
  destruct (stat (l_fs s) t) as [e|[|d]] eqn:Et; [|apply Hno|]; (case_bool_decide as Hne; [apply Hno|apply Hset; [done|]]).
  - intros Hd. rewrite (proj2 (stat_ok _ t Dir Hwf)) in Et; [done|]. by rewrite node_ne.
  - apply stat_ok in Et; [|done]. rewrite node_ne in Et by done. congruence.
Qed.

Lemma write_bytes_touched t todo : ∀ dn s, fs_wf (l_fs s) → t ≠ [] → l_fs s !! t = Some (File dn) →
  node (l_fs s) (parent t) = Some Dir →
  ∃ s', write_bytes t dn todo s = (inr tt, s') ∧ touched t (l_fs s) (l_fs s') ∧ l_fs s' !! t = Some (File (dn ++ todo)).
Proof.
  induction todo as [|x todo IH]; intros dn s Hwf Hne Ht Hp; simpl.
  - exists s. rewrite app_nil_r. split_and!; try done. by apply touched_refl.
  - unfold mbind, M_bind. simpl. set (s1 := mkLState _ _).
    assert (H1 : touched t (l_fs s) (l_fs s1)) by (apply touched_insert; [done..|congruence]).
    destruct (IH (dn ++ [x]) s1) as (s' & -> & Ht' & Hf).
    + apply H1.
    + done.
    + apply lookup_insert_eq.
    + simpl. rewrite node_insert_ne; [done|by apply parent_ne].
    + exists s'. rewrite <-app_assoc in Hf. split_and!; [done|by eapply touched_trans|done].
Qed.

Lemma io_Copy_touched full t src s r s' : fs_wf (l_fs s) → t ≠ [] → l_fs s !! t = Some (File []) →
  node (l_fs s) (parent t) = Some Dir → io_Copy full t src s = (r, s') →
  touched t (l_fs s) (l_fs s') ∧
  ∀ n, r = inr n → n = Z.of_nat (length (bd_bytes src)) ∧ bd_err src = None ∧ l_fs s' !! t = Some (File (bd_bytes src)).
Proof.
  intros Hwf Hne Ht Hp. unfold io_Copy.
  assert (Hall : (write_bytes t [] (bd_bytes src);;
                  match bd_err src with Some e => lfail (BlobRead e) | None => mret (Z.of_nat (length (bd_bytes src))) end)
                 s = (r, s') → touched t (l_fs s) (l_fs s') ∧
    ∀ n, r = inr n → n = Z.of_nat (length (bd_bytes src)) ∧ bd_err src = None ∧ l_fs s' !! t = Some (File (bd_bytes src))).
  { destruct (write_bytes_touched t (bd_bytes src) [] s) as (s1 & E & Hth & Ht1); [done..|].
    rewrite (mbind_step _ _ _ _ _ E). destruct (bd_err src); intros [= <- <-]; split_and!; naive_solver. }
  destruct full as [k|]; [|done]. case_bool_decide; [|done].
  destruct (write_bytes_touched t (take k (bd_bytes src)) [] s) as (s1 & E & Hth & Ht1); [done..|].
  rewrite (mbind_step _ _ _ _ _ E). by intros [= <- <-].
Qed.

Lemma writeFile_touched f t b size s r s' : fs_wf (l_fs s) → writeFile f t b size s = (r, s') →
  touched t (l_fs s) (l_fs s') ∧
  (r = inr tt → bd_err b = None ∧ Z.of_nat (length (bd_bytes b)) = size ∧ l_fs s' !! t = Some (File (bd_bytes b))).
Proof.
  intros Hwf. unfold writeFile. destruct (OpenFile f t s) as [[e|[]] s1] eqn:E1.
  { rewrite (mbind_err _ _ _ _ _ E1). apply OpenFile_touched in E1 as [? _]; [|done]. by intros [= <- <-]. }
  rewrite (mbind_step _ _ _ _ _ E1). apply OpenFile_touched in E1 as [H1 Ho]; [|done].
  destruct (Ho eq_refl) as (Hne & Ht & Hp).
  destruct (io_Copy (xf_write f t) t b s1) as [[e|n] s2] eqn:E2.
  { rewrite (mbind_err _ _ _ _ _ E2). apply io_Copy_touched in E2 as [? _]; [|apply H1|done..].
    intros [= <- <-]. split; [by eapply touched_trans|done]. }
  rewrite (mbind_step _ _ _ _ _ E2). apply io_Copy_touched in E2 as [H2 Hn]; [|apply H1|done..].
  destruct (Hn n eq_refl) as (-> & He & Hf). assert (touched t (l_fs s) (l_fs s2)) by (by eapply touched_trans).
  destruct (xf_close f t); [by intros [= <- <-]|]. case_bool_decide as Hs; intros [= <- <-]; [done|].
  split; [done|]. intros _. split_and!; [done| |done]. by destruct (decide (Z.of_nat (length (bd_bytes b)) = size)).
Qed.

(** ** Extraction *)

Definition target_of (dest : list string) (name : string) : list string :=
  if bool_decide (name = "") then dest else Clean (dest ++ Split name "/").
Definition ok_seg (s : string) : Prop := s ≠ "" ∧ s ≠ "." ∧ s ≠ "..".

Lemma Cut_split s a b ok : Cut s "/" = (a, b, ok) → if ok then Split s "/" = a :: Split b "/" else b = "".
Proof.
  revert a b ok. induction s as [|c s IH]; intros a b ok; simpl; [by intros [= <- <- <-]|].
  case_bool_decide as Hc; [by intros [= <- <- <-]|].
  destruct (Cut s "/") as [[a' b'] ok'] eqn:E. intros [= <- <- <-]. specialize (IH _ _ _ eq_refl).
  destruct ok'; [by rewrite IH|done].
Qed.

Lemma stripFirst_safe name rest : stripFirst name = Some rest → rest ≠ "" → Forall ok_seg (Split rest "/").
Proof.
  unfold stripFirst. set (nm := TrimSuffix name "/"). destruct (_ || _); [done|].
  destruct (forallb plain_segment (Split nm "/")) eqn:Hf; [|done]. simpl.
  destruct (Cut nm "/") as [[a b] ok] eqn:E. intros [= <-] Hne. apply Cut_split in E. destruct ok; [|done].
  rewrite E in Hf. simpl in Hf. apply andb_true_iff in Hf as [_ Hf]. apply Forall_forall. intros s Hs.
  rewrite forallb_forall in Hf. specialize (Hf s ltac:(by apply list_elem_of_In)).
  unfold plain_segment in Hf. apply negb_true_iff, bool_decide_eq_false in Hf. unfold ok_seg. tauto.
Qed.

Lemma target_below dest name rest : Clean dest = dest → stripFirst name = Some rest → dest `prefix_of` target_of dest rest.
Proof.
  intros Hc Hs. unfold target_of. case_bool_decide as He; [done|].
  rewrite Clean_app by (by apply (stripFirst_safe name)). rewrite Hc. by apply prefix_app_r.
Qed.

(** The regular files of a stream, as (place, entry), in order. *)
Definition written (dest : list string) (es : list TarEntry) : list (list string * TarEntry) :=
  omap (λ e, match te_Typeflag e, stripFirst (te_Name e) with
             | TypeReg, Some n => Some (target_of dest n, e)
             | _, _ => None
             end) es.

(** What one entry does: a directory, or a file with the entry's bytes. *)
Definition step_ok (dest : list string) (e : TarEntry) (fs fs' : FS) : Prop :=
  fs_wf fs' ∧ ∀ p, fs' !! p = fs !! p ∨ p ∈ (written dest [e]).*1 ∨
    fs !! p = None ∧ fs' !! p = Some Dir ∧ ∃ n, stripFirst (te_Name e) = Some n ∧ p `prefix_of` target_of dest n.

Definition extract_one (f : XFaults) (dest : list string) (e : TarEntry) (n : string) : L unit :=
  match te_Typeflag e with
  | TypeDir => MkdirAll (xf_mkdir f) (target_of dest n)
  | TypeReg => MkdirAll (xf_mkdir f) (parent (target_of dest n));; writeFile f (target_of dest n) (te_Body e) (te_Size e)
  | TypeOther => mret tt
  end.

Lemma extract_cons f e es broken dest files s : extract_entries f (e :: es) broken dest files s =
  (match stripFirst (te_Name e) with
   | None => lfail BlobInvalidPrefix
   | Some n => extract_one f dest e n;; extract_entries f es broken dest (files + Z.of_nat (length (written dest [e])))
   end) s.
Proof.
  simpl. unfold written, extract_one. simpl. destruct (stripFirst (te_Name e)) as [n|]; [|done].
  destruct (te_Typeflag e); simpl; rewrite ?Z.add_0_r; [done|by rewrite mbind_assoc|by rewrite mbind_ret].
Qed.

Lemma extract_one_ok f dest e n s r s' : stripFirst (te_Name e) = Some n → fs_wf (l_fs s) →
  extract_one f dest e n s = (r, s') →
  step_ok dest e (l_fs s) (l_fs s') ∧
  (r = inr tt → Forall (λ '(t, e), bd_err (te_Body e) = None ∧ Z.of_nat (length (bd_bytes (te_Body e))) = te_Size e ∧
                                  l_fs s' !! t = Some (File (bd_bytes (te_Body e)))) (written dest [e])).
Proof.
  intros Hn Hwf. unfold extract_one, step_ok, written. simpl. rewrite Hn. destruct (te_Typeflag e); simpl.
  - intros E. apply MkdirAll_touched in E as (Hwf' & Hp & _); [|done]. split; [split; [done|]|done].
    intros p. destruct (Hp p) as [?|(? & ? & ?)]; [by left|]. right. right. split_and!; try done. by exists n.
  - destruct (MkdirAll (xf_mkdir f) (parent (target_of dest n)) s) as [[err|[]] s1] eqn:E1.
    + rewrite (mbind_err _ _ _ _ _ E1). intros [= <- <-]. apply MkdirAll_touched in E1 as (Hwf' & Hp & _); [|done].
      split; [split; [done|]|done]. intros p. destruct (Hp p) as [?|(? & ? & ?)]; [by left|]. right. right.
      split_and!; try done. exists n. split; [done|]. etrans; [done|apply prefix_parent].
    + rewrite (mbind_step _ _ _ _ _ E1). apply MkdirAll_touched in E1 as (Hwf1 & Hp & _); [|done].
      assert (H1 : touched (target_of dest n) (l_fs s) (l_fs s1)).
      { split; [done|]. intros p. destruct (Hp p) as [?|(? & ? & ?)]; [by left|]. right. right.
        split_and!; try done. etrans; [done|apply prefix_parent]. }
      intros E. apply writeFile_touched in E as [H2 Hok]; [|done].
      pose proof (touched_trans _ _ _ _ H1 H2) as [Hwf' H3]. split.
      * split; [done|]. intros p. destruct (H3 p) as [?| [->|(? & ? & ?)]]; [by left|by right; left; left|].
        right. right. split_and!; try done. by exists n.
      * intros Hr. apply Forall_singleton. by apply Hok.
  - intros [= <- <-]. split; [split; [done|by left]|constructor].
Qed.

(** The whole stream: what changes, how many files are reported, and which bytes a
    file has when no later entry writes it again. *)
Lemma extract_entries_ok f broken dest es : ∀ files s r s', fs_wf (l_fs s) →
  extract_entries f es broken dest files s = (r, s') →
  fs_wf (l_fs s') ∧
  (∀ p, l_fs s' !! p = l_fs s !! p ∨ p ∈ (written dest es).*1 ∨
     l_fs s !! p = None ∧ l_fs s' !! p = Some Dir ∧ ∃ nm n, stripFirst nm = Some n ∧ p `prefix_of` target_of dest n) ∧
  (∀ n, r = inr n → n = files + Z.of_nat (length (written dest es)) ∧
     ∀ before t e after, written dest es = before ++ (t, e) :: after → t ∉ after.*1 →
       Z.of_nat (length (bd_bytes (te_Body e))) = te_Size e ∧ l_fs s' !! t = Some (File (bd_bytes (te_Body e)))).
Proof.
  induction es as [|e es IH]; intros files s r s' Hwf E.
  { simpl in E. destruct broken; injection E as <- <-; (split_and!; [done|by left|intros n]); [done|].
    intros [= <-]. split; [simpl; lia|]. intros before t e after Hw _. by destruct before. }
  rewrite extract_cons in E. assert (Hw : written dest (e :: es) = written dest [e] ++ written dest es).
  { unfold written. simpl. by destruct (match te_Typeflag e with TypeReg => _ | _ => _ end). }
  rewrite Hw, fmap_app, length_app. destruct (stripFirst (te_Name e)) as [n|] eqn:Hn.
  2:{ injection E as <- <-. split_and!; [done|by left|done]. }
  destruct (extract_one f dest e n s) as [[err|[]] s1] eqn:E1.
  - rewrite (mbind_err _ _ _ _ _ E1) in E. injection E as <- <-.
    apply extract_one_ok in E1 as [[Hwf1 H1] _]; [|done..]. split_and!; [done| |done].
    intros p. destruct (H1 p) as [?|[?|(? & ? & m & ? & ?)]]; [by left|right; left; set_solver|right; right]. eauto 6.
  - rewrite (mbind_step _ _ _ _ _ E1) in E. apply extract_one_ok in E1 as [[Hwf1 H1] Hok]; [|done..].
    specialize (Hok eq_refl). apply IH in E as (Hwf2 & H2 & Hr); [|done]. split_and!; [done| |].
    + intros p. destruct (H1 p) as [E1|[?|(E1 & D1 & m & ? & ?)]]; [|right; left; set_solver|];
        (destruct (H2 p) as [E2|[?|(E2 & D2 & ?)]]; [|right; left; set_solver|]).
      * left. congruence.
      * right. right. split_and!; [congruence|done|done].
      * right. right. split_and!; [done|congruence|eauto].
      * congruence.
    + intros k Hk. destruct (Hr k Hk) as [-> Hlast]. split; [lia|]. intros before t e' after Hb Ha.
      destruct (written dest [e]) as [|[t1 e1] l] eqn:Ew; [by apply (Hlast before t e' after)|].
      assert (l = []) as ->.
      { unfold written in Ew. simpl in Ew. destruct (match te_Typeflag e with TypeReg => _ | _ => _ end); by simplify_eq. }
      destruct before as [|b before]; simpl in Hb; [|injection Hb as _ Hb; by apply (Hlast before t e' after)].
      injection Hb as <- <- <-. apply Forall_singleton in Hok as (_ & Hsz & Hf). split; [done|].
      destruct (H2 t1) as [->|[?|[? _]]]; [done..|congruence].
Qed.

(** ** Declared paths *)

(** A cleaned path is ".." segments, none when rooted, before ordinary ones. *)
Definition cleaned (rooted : bool) (segs : list string) : Prop :=
  ∃ k ps, segs = replicate k ".." ++ ps ∧ (rooted = true → k = O) ∧ Forall (λ s, plain s ∧ ok_seg s) ps.

Lemma clean_seg1_cleaned rooted acc seg : plain seg → cleaned rooted acc → cleaned rooted (clean_seg1 rooted acc seg).
Proof.
  intros Hs (k & ps & -> & Hk & Hps). unfold clean_seg1. case_bool_decide as H1; [by exists k, ps|].
  case_bool_decide as H2.
  - destruct ps as [|x ps _] using rev_ind.
    + rewrite app_nil_r. destruct k as [|k].
      * simpl. destruct rooted; [by exists O, []|]. by exists 1%nat, [].
      * assert (last (replicate (S k) "..") = Some "..") as ->.
        { rewrite replicate_S_end. by rewrite last_snoc. }
        rewrite bool_decide_eq_true_2 by done. exists (S (S k)), []. rewrite app_nil_r, (replicate_S_end (S k)).
        split_and!; [done|intros E; by apply Hk in E|constructor].
    + rewrite app_assoc, last_snoc. apply Forall_app in Hps as [Hps Hx]. apply Forall_singleton in Hx as [_ (_ & _ & Hx)].
      rewrite bool_decide_eq_false_2 by done. rewrite removelast_last. by exists k, ps.
  - exists k, (ps ++ [seg]). rewrite app_assoc. split_and!; [done..|]. apply Forall_app. split; [done|].
    apply Forall_singleton. unfold ok_seg. split; [done|]. tauto.
Qed.

Lemma path_segs_cleaned p : cleaned (HasPrefix p "/") (path_segs p).
Proof.
  unfold path_segs. pose proof (Split_plain p) as Hp. revert Hp. generalize (HasPrefix p "/") as rooted. intros rooted.
  assert (H0 : cleaned rooted []) by (by exists O, []). revert H0. generalize (@nil string) as acc.
  induction (Split p "/") as [|x l IH]; intros acc H0 Hp; [done|]. simpl. apply Forall_cons in Hp as [Hx Hp].
  apply IH; [|done]. by apply clean_seg1_cleaned.
Qed.

Lemma Split_cleaned ps : ps ≠ [] → Forall (λ s, plain s ∧ ok_seg s) ps → Split (Join ps "/") "/" = ps.
Proof. intros Hne Hps. apply Split_join_plain; [done|]. eapply Forall_impl; [exact Hps|]. by intros s [? _]. Qed.

Lemma Join_cleaned_rel ps : ps ≠ [] → Forall (λ s, plain s ∧ ok_seg s) ps → IsAbs (Join ps "/") = false.
Proof.
  intros Hne Hps. unfold IsAbs. destruct (HasPrefix (Join ps "/") "/") eqn:E; [|done].
  apply HasPrefix_slash in E as [l E]. rewrite Split_cleaned in E by done. subst ps.
  apply Forall_cons in Hps as [[_ (? & _)] _]. done.
Qed.

Lemma Clean_ok segs : Forall ok_seg (Clean segs).
Proof.
  unfold Clean. assert (H : Forall ok_seg []) by constructor. revert H. generalize (@nil string) as acc.
  induction segs as [|s l IH]; intros acc H; [done|]. simpl. apply IH. unfold clean_step.
  case_bool_decide as H1; [done|]. case_bool_decide as H2.
  - destruct acc as [|x acc _] using rev_ind; [done|]. rewrite removelast_last. by apply Forall_app in H as [? _].
  - apply Forall_app. split; [done|]. apply Forall_singleton. unfold ok_seg. tauto.
Qed.

Lemma Clean_idemp segs : Clean (Clean segs) = Clean segs.
Proof. exact (Clean_app [] (Clean segs) (Clean_ok segs)). Qed.

Ltac pass_guard := match goal with |- context [if ?b then None else _] => destruct b eqn:?; [done|] end.

(** The upload name of a declared artifact has only ordinary segments. *)
Lemma artifactPaths_safe declared rel src : artifactPaths declared = Some (rel, src) → Forall ok_seg (Split rel "/").
Proof.
  unfold artifactPaths. set (q := TrimSpace declared). destruct (path_segs_cleaned q) as (k & ps & Hq & Hk & Hps).
  assert (Hok : Forall ok_seg ps) by (eapply Forall_impl; [exact Hps|]; by intros s [_ ?]).
  assert (Ep : path_Clean q = if HasPrefix q "/" then String "/" (Join ps "/")
                              else match replicate k ".." ++ ps with [] => "." | l => Join l "/" end).
  { unfold path_Clean. rewrite Hq. destruct (HasPrefix q "/"); [by rewrite (Hk eq_refl)|by destruct (replicate k ".." ++ ps)]. }
  rewrite Ep. destruct (HasPrefix q "/") eqn:Hr.
  - assert (IsAbs (String "/" (Join ps "/")) = true ∧ TrimPrefix (String "/" (Join ps "/")) "/" = Join ps "/") as [-> ->].
    { unfold TrimPrefix, IsAbs. simpl. by destruct (Join ps "/"). }
    pass_guard. intros E. assert (rel = Join ps "/") as -> by congruence. destruct ps as [|x ps]; [done|]. by rewrite Split_cleaned.
  - destruct k as [|k].
    + destruct ps as [|x ps]; [done|]. cbn [replicate app]. rewrite Join_cleaned_rel by done.
      pass_guard. intros E. assert (rel = Join (x :: ps) "/") as -> by congruence. by rewrite Split_cleaned.
    + cbn [replicate app]. set (tl := replicate k ".." ++ ps).
      assert (Hbad : Join (".." :: tl) "/" = ".." ∨
                     IsAbs (Join (".." :: tl) "/") = false ∧ HasPrefix (Join (".." :: tl) "/") "../" = true).
      { destruct tl as [|y tl]; [by left|right]. rewrite Join_cons by done. split; [reflexivity|].
        apply HasPrefix_app. by exists (Join (y :: tl) "/"). }
      destruct Hbad as [->|[-> Hp]]; [done|]. rewrite Hp, !orb_true_r. done.
Qed.

Lemma artifact_dest_ok dir declared rel src : artifactPaths declared = Some (rel, src) →
  artifact_dest dir rel = Clean dir ++ Split rel "/" ∧ Clean (artifact_dest dir rel) = artifact_dest dir rel.
Proof.
  intros H%artifactPaths_safe. unfold artifact_dest. rewrite Clean_app by done. split; [done|].
  rewrite Clean_app by done. by rewrite Clean_idemp.
Qed.

(** Whatever the stream holds, unpacking a declared artifact changes nothing that is
    not strictly below the runner's directory. *)
Lemma extract_confined f ts dir declared rel src s r s' :
  fs_wf (l_fs s) → node (l_fs s) (Clean dir) = Some Dir → artifactPaths declared = Some (rel, src) →
  extractArtifact f ts (artifact_dest dir rel) s = (r, s') →
  fs_wf (l_fs s') ∧ ∀ p, (∀ q, q ≠ [] → p ≠ Clean dir ++ q) → l_fs s' !! p = l_fs s !! p.
Proof.
  intros Hwf Hdir Hp E. destruct (artifact_dest_ok dir _ _ _ Hp) as [Hd Hc].
  assert (Hbelow : ∀ nm n, stripFirst nm = Some n → ∃ q, q ≠ [] ∧ target_of (artifact_dest dir rel) n = Clean dir ++ q).
  { intros nm n Hn. destruct (target_below _ _ _ Hc Hn) as [l Hl]. rewrite Hd, <-app_assoc in Hl.
    rewrite Hd. eexists. split; [|exact Hl]. intros [Hs _]%app_eq_nil. by destruct (Split_join rel "/"). }
  apply extract_entries_ok in E as (Hwf' & H & _); [|done]. split; [done|]. intros p Hout.
  destruct (H p) as [?|[Hw|(Hn & Hs & nm & n & Hnm & Hpre)]]; [done|..].
  - apply list_elem_of_fmap in Hw as ([t e] & -> & Hw). apply list_elem_of_omap in Hw as (e' & _ & He). simpl.
    destruct (te_Typeflag e'), (stripFirst (te_Name e')) as [n|] eqn:Hn; try done. injection He as <- <-.
    destruct (Hbelow _ _ Hn) as (q & Hq & Et). by destruct (Hout q Hq).
  - exfalso. destruct (Hbelow _ _ Hnm) as (q & Hq & Et). rewrite Et in Hpre.
    destruct (prefix_weak_total p (Clean dir) (Clean dir ++ q)) as [[l Hl]|[l ->]]; [done|by apply prefix_app_r|..].
    + assert (node (l_fs s) p = Some Dir) as Hpd.
      { destruct (decide (l = [])) as [->|Hl0]; [by rewrite app_nil_r in Hl; rewrite <-Hl|].
        apply (wf_dirs _ p l Hwf); [|done]. by rewrite <-Hl, Hdir. }
      destruct (Hwf' p Dir Hs) as [Hp0 _]. rewrite node_ne in Hpd by done. congruence.
    + destruct l as [|x l]; [|by apply (Hout (x :: l))]. rewrite app_nil_r in Hn, Hs.
      destruct (Hwf' (Clean dir) Dir Hs) as [Hp0 _]. rewrite node_ne in Hdir by done. congruence.
Qed.

(** A successful extraction delivers the container's files: it reports as many
    files as the stream has regular entries, and every entry that no later entry
    replaces is at its place below the destination with exactly its bytes, as many as
    its header announces. *)
Theorem extraction_delivers_the_files f ts dest s n s' :
  fs_wf (l_fs s) → extractArtifact f ts dest s = (inr n, s') →
  n = Z.of_nat (length (written dest (ts_entries ts))) ∧
  ∀ before t e after, written dest (ts_entries ts) = before ++ (t, e) :: after → t ∉ after.*1 →
    Z.of_nat (length (bd_bytes (te_Body e))) = te_Size e ∧ l_fs s' !! t = Some (File (bd_bytes (te_Body e))).
Proof.
  intros Hwf E. apply extract_entries_ok in E as (_ & _ & H); [|done]. exact (H n eq_refl).
Qed.

Definition tar_dist : TarStream := mkTarStream
  [mkTarEntry "dist/" TypeDir 0 (mkBody [] None);
   mkTarEntry "dist/app.bin" TypeReg 2 (mkBody [7%N; 8%N] None);
   mkTarEntry "dist/link" TypeOther 0 (mkBody [] None);
   mkTarEntry "dist/lib/a.so" TypeReg 1 (mkBody [9%N] None)] false.

Lemma extraction_delivers_the_files_witness :
  l_fs (extractArtifact no_xfaults tar_dist ["srv"; "data"; "dist"] (mkLState demo_fs [])).2 !!
    ["srv"; "data"; "dist"; "lib"; "a.so"] = Some (File [9%N]).
Proof.
  assert (H : ∃ s', extractArtifact no_xfaults tar_dist ["srv"; "data"; "dist"] (mkLState demo_fs []) = (inr 2, s')).
  { eexists. vm_compute. reflexivity. }
  destruct H as [s' E]. rewrite E.
  apply (extraction_delivers_the_files no_xfaults tar_dist ["srv"; "data"; "dist"] (mkLState demo_fs []) 2 s') in E as [_ H].
  - destruct (H [(["srv"; "data"; "dist"; "app.bin"], mkTarEntry "dist/app.bin" TypeReg 2 (mkBody [7%N; 8%N] None))]
                ["srv"; "data"; "dist"; "lib"; "a.so"] (mkTarEntry "dist/lib/a.so" TypeReg 1 (mkBody [9%N] None)) [])
      as [_ Hf].
    + vm_compute. reflexivity.
    + apply not_elem_of_nil.
    + exact Hf.
  - apply demo_wf.
Defined.

(** Names that would leave the destination stop the extraction. *)
Example unsafe_entry_refused :
  (extractArtifact no_xfaults (mkTarStream [mkTarEntry "dist/../../etc/passwd" TypeReg 0 (mkBody [] None)] false)
     ["srv"; "data"; "dist"] (mkLState demo_fs [])).1 = inl BlobInvalidPrefix.
Proof. vm_compute. reflexivity. Qed.
