(* ===== verification/Api.v ===== *)
(** * internal/api: the HTTP surface of the control plane

    One definition per handler, over the scheduler's world and a blob store that
    is only known through its interface.  A handler that has written its response
    and returned early has thrown it: [inl] is the response of an early return,
    [inr] that of the last line.  The codecs of the standard library (JSON, MIME,
    multipart, SHA-256) and the YAML decoder are the record [Codecs]. *)

From S2P Require Import Prelude GoLib Pipeline Types Store Scheduler Submit Artifact.

Local Open Scope Z_scope.

Definition MaxPipelineBytes : Z := Z.shiftl 1 20.
Definition MaxSourceBytes : Z := Z.shiftl 256 20.
Definition MaxRunnerBodyBytes : Z := Z.shiftl 64 10.
Definition MaxLogBodyBytes : Z := Z.shiftl 1 20.
Definition MaxArtifactBytes : Z := Z.shiftl 1 30.
Definition DefaultContentType : string := "application/octet-stream".

(** ** Request bodies *)

Record claimRequest := mkClaimRequest {
  cq_RunnerID : string; cq_Name : string; cq_Labels : gmap string string; cq_Capacity : Z; cq_Version : string }.
Record jobRefJSON := mkJobRefJSON { jq_JobID : string; jq_Attempt : Z }.
Record heartbeatRequest := mkHeartbeatRequest { hq_RunnerID : string; hq_Jobs : list jobRefJSON }.
Record completeRequest := mkCompleteRequest {
  pq_RunnerID : string; pq_Attempt : Z; pq_Status : string; pq_FailureKind : string;
  pq_ExitCode : option Z; pq_Error : string }.
Record registerRequest := mkRegisterRequest { gq_Name : string; gq_Labels : gmap string string; gq_Capacity : Z }.
Record logChunkJSON := mkLogChunkJSON { lc_Seq : Z; lc_Data : list N }.
Record logsRequest := mkLogsRequest { lq_RunnerID : string; lq_Attempt : Z; lq_Chunks : list logChunkJSON }.

(** What [mime/multipart] yields: the parts in order, then the end or an error. *)
Inductive Multi :=
  | MEnd
  | MFail (e : ReadErr)
  | MPart (name : string) (body : Body) (rest : Multi).

(** The decoders; [json.Unmarshal] reports its error as text. *)
Record Codecs := mkCodecs {
  cd_yaml : string → YamlResult;
  cd_media : string → string;
  cd_multipart : string → Body → option Multi;
  cd_sha256 : list N → list N;
  cd_claim : list N → string + claimRequest;
  cd_heartbeat : list N → string + heartbeatRequest;
  cd_complete : list N → string + completeRequest;
  cd_register : list N → string + registerRequest;
  cd_logs : list N → string + logsRequest
}.

(** ** Response bodies *)

Record runJSON := mkRunJSON {
  rj_ID : string; rj_State : RunState; rj_Trigger : string; rj_CommitSHA : string; rj_Ref : string;
  rj_CreatedAt : Z; rj_StartedAt : Z; rj_FinishedAt : Z }.
Record jobJSON := mkJobJSON {
  jj_ID : string; jj_RunID : string; jj_Name : string; jj_State : JobState; jj_Attempt : Z; jj_MaxAttempts : Z;
  jj_RunnerID : string; jj_LeaseExpiresAt : Z; jj_FailureKind : string; jj_ExitCode : option Z; jj_Error : string;
  jj_QueuedAt : Z; jj_StartedAt : Z; jj_FinishedAt : Z; jj_Spec : option PJob }.
Record eventJSON := mkEventJSON {
  ej_ID : Z; ej_RunID : string; ej_JobID : string; ej_Type : string; ej_Detail : Detail; ej_CreatedAt : Z }.
Record runnerJSON := mkRunnerJSON {
  nj_ID : string; nj_Name : string; nj_Labels : gmap string string; nj_Capacity : Z; nj_State : RunnerState;
  nj_Version : string; nj_LastSeenAt : Z; nj_RegisteredAt : Z }.
Record artifactJSON := mkArtifactJSON {
  aj_Path : string; aj_SizeBytes : Z; aj_SHA256 : string; aj_ContentType : string; aj_CreatedAt : Z }.
Record directiveJSON := mkDirectiveJSON { dj_JobID : string; dj_Attempt : Z; dj_Directive : string }.
Record logsResponse := mkLogsResponse { ls_Attempt : Z; ls_Chunks : list logChunkJSON; ls_Next : Z }.

Definition toRunJSON (r : Run) : runJSON :=
  mkRunJSON (r_ID r) (r_State r) (r_Trigger r) (r_CommitSHA r) (r_Ref r) (r_CreatedAt r) (r_StartedAt r) (r_FinishedAt r).
Definition toJobJSON (j : Job) : jobJSON :=
  mkJobJSON (j_ID j) (j_RunID j) (j_Name j) (j_State j) (j_Attempt j) (j_MaxAttempts j) (j_RunnerID j)
    (j_LeaseExpiresAt j) (j_FailureKind j) (j_ExitCode j) (j_Error j) (j_QueuedAt j) (j_StartedAt j) (j_FinishedAt j)
    (j_SpecJSON j).
Definition toEventJSON (e : Event) : eventJSON :=
  mkEventJSON (e_ID e) (e_RunID e) (e_JobID e) (e_Type e) (e_DetailJSON e) (e_CreatedAt e).
Definition toRunnerJSON (r : Runner) : runnerJSON :=
  mkRunnerJSON (rn_ID r) (rn_Name r) (rn_Labels r) (rn_Capacity r) (rn_State r) (rn_Version r) (rn_LastSeenAt r) (rn_RegisteredAt r).
Definition toArtifactJSON (a : Artifact) : artifactJSON :=
  mkArtifactJSON (a_Path a) (a_SizeBytes a) (a_SHA256 a) (a_ContentType a) (a_CreatedAt a).

(** An error message: a fixed text, or the text of an error value. *)
Inductive Msg :=
  | MText (s : string)
  | MDecode (s : string)
  | MReadBody (e : ReadErr)
  | MPath (e : PathError)
  | MParse (e : ParseError)
  | MErr (e : Err)
  | MSubmit (what : string).

Inductive Payload :=
  | PNone
  | PError (msg : Msg) (request_id : string)
  | PText (s : string)
  | PRunDetail (run : runJSON) (jobs : list jobJSON)
  | PRuns (l : list runJSON)
  | PEvents (l : list eventJSON)
  | PJob_ (j : jobJSON)
  | PRunners (l : list runnerJSON)
  | PClaimed (j : jobJSON) (lease_ttl_ms : Z)
  | PDirectives (l : list directiveJSON)
  | PRunnerID (id : string)
  | PLogs (r : logsResponse)
  | PArtifact (a : artifactJSON)
  | PArtifacts (attempt : Z) (l : list artifactJSON)
  | PBytes (data : list N).

Record Response := mkResponse { rp_Status : Z; rp_Headers : list (string * string); rp_Body : Payload }.

Definition writeJSON (status : Z) (v : Payload) : Response :=
  mkResponse status [("Content-Type", "application/json")] v.

(** A text between double quotes. *)
Definition quoted (s : string) : string := String (chr 34) (s +:+ String (chr 34) EmptyString).

(** [Scheduler.LeaseTTL], a duration. *)
Definition LeaseTTL (s : Scheduler) : Z := int64 (s_ttl s * Millisecond).

(** ** Requests *)

(** What [http.ServeMux] selected; [ApiMiss] is its own 404 or 405 under /api/. *)
Inductive Handler :=
  | HSubmitRun | HListRuns | HGetRun | HCancelRun | HListEvents | HGetSource | HGetJob | HGetLogs
  | HListArtifacts | HGetArtifact | HListRunners | HRegister | HClaim | HHeartbeat | HComplete
  | HAppendLogs | HUploadArtifact | HApiMiss (status : Z).
Inductive Endpoint := EHealthz | EMetrics | ENotFound (status : Z) | EApi (h : Handler).

Section api.
Context {B F : Type} `{Ops : BlobOps B F}.

Record Request := mkRequest {
  rq_Endpoint : Endpoint;
  rq_Headers : gmap string string;
  rq_PathValues : gmap string string;
  rq_Query : gmap string string;
  rq_ContentLength : Z;
  rq_Body : Body;
  rq_blob : F;       (* the operating system during the request's store call *)
  rq_discard : F     (* the same for the deletion of a discarded object *)
}.
Definition Header (rq : Request) (k : string) : string := default "" (rq_Headers rq !! k).
Definition PathValue (rq : Request) (k : string) : string := default "" (rq_PathValues rq !! k).
Definition Query (rq : Request) (k : string) : string := default "" (rq_Query rq !! k).

(** The server's configuration and its state. *)
Record Server := mkServer { sv_token : string; sv_sched : Scheduler; sv_codecs : Codecs }.
Record State := mkState { st_w : World; st_blob : B }.

Abbreviation H := (M State Response).

Definition reply {A} (r : Response) : H A := λ s, (inl r, s).

(** A store or scheduler call whose error ends the handler. *)
Definition try_ {A} (m : W A) (onerr : Err → Response) : H A := λ s,
  match m (st_w s) with
  | (inl e, w) => (inl (onerr e), mkState w (st_blob s))
  | (inr a, w) => (inr a, mkState w (st_blob s))
  end.
Definition run_w {A} (m : W A) : H (Err + A) := λ s,
  let '(r, w) := m (st_w s) in (inr r, mkState w (st_blob s)).

Definition to_string (b : list N) : string := foldr (λ n s, String (chr n) s) EmptyString b.

(** The rest of the file is under one request id. *)
Section handlers.
Context (srv : Server) (rid : string).
Let cd := sv_codecs srv.

Definition writeError (status : Z) (msg : Msg) : Response := writeJSON status (PError msg rid).
Definition internalError : Response := writeError 500 (MText "internal error").
Definition storeError (what : string) (e : Err) : Response :=
  if bool_decide (e = ErrNotFound) then writeError 404 (MText (what +:+ " not found")) else internalError.
Definition no_content : Response := mkResponse 204 [] PNone.

Definition runDetail (run : Run) (jobs : list Job) : Payload := PRunDetail (toRunJSON run) (toJobJSON <$> jobs).

(** [decodeBody]: the raw body within [limit], decoded. *)
Definition decodeBody {T} (rq : Request) (dec : list N → string + T) (limit : Z) : H T :=
  match ReadAll (MaxBytesReader (rq_Body rq) limit) with
  | inl TooBig => reply (writeError 413 (MText "body too large"))
  | inl e => reply (writeError 400 (MReadBody e))
  | inr raw => match dec raw with
               | inl msg => reply (writeError 400 (MDecode msg))
               | inr v => mret v
               end
  end.
Definition decodeRunnerBody {T} (rq : Request) (dec : list N → string + T) : H T := decodeBody rq dec MaxRunnerBodyBytes.

(** [discard]: best effort. *)
Definition discard (f : F) (key : string) : H unit := λ s, (inr tt, mkState (st_w s) (blob_Delete f key (st_blob s)).2).

(** A non-negative integer of the query string. *)
Definition query_int (rq : Request) (k : string) (dflt : Z) (msg : string) : H Z :=
  let v := Query rq k in
  if bool_decide (v = "") then mret dflt
  else match ParseInt v with
       | Some n => if bool_decide (n < 0) then reply (writeError 400 (MText msg)) else mret n
       | None => reply (writeError 400 (MText msg))
       end.

(** *** api.go *)

Definition handleHealthz : H Response := mret (writeJSON 200 (PText "ok")).

Inductive SubmitErr :=
  | SERead (e : ReadErr)
  | SEBlob (e : BlobError)
  | SEField (name : string)
  | SENoPipeline
  | SENotMultipart.
Definition tooBig (e : SubmitErr) : bool :=
  match e with SERead TooBig | SEBlob (BlobRead TooBig) => true | _ => false end.
Definition submit_msg (e : SubmitErr) : Msg :=
  match e with
  | SERead e => MReadBody e
  | SEBlob _ => MSubmit "store"
  | SEField name => MSubmit name
  | SENoPipeline => MSubmit "multipart body has no pipeline part"
  | SENotMultipart => MSubmit "not multipart"
  end.

(** The loop of [readMultipartSubmit]: the result, whether a bundle was written,
    and the state. *)
Fixpoint read_parts (f : F) (runID : string) (src : option (list N)) (stored : bool) (m : Multi) (s : State) :
    (SubmitErr + list N) * bool * State :=
  match m with
  | MEnd => (match src with Some b => inr b | None => inl SENoPipeline end, stored, s)
  | MFail e => (inl (SERead e), stored, s)
  | MPart name body rest =>
      if bool_decide (name = "pipeline") then
        match ReadAll (LimitReader body (MaxPipelineBytes + 1)) with
        | inl e => (inl (SERead e), stored, s)
        | inr b => if bool_decide (Z.of_nat (length b) > MaxPipelineBytes) then (inl (SERead TooBig), stored, s)
                   else read_parts f runID (Some b) stored rest s
        end
      else if bool_decide (name = "source") then
        match blob_Put f (SourceKey runID) body (-1) (st_blob s) with
        | (Some e, b') => (inl (SEBlob e), true, mkState (st_w s) b')
        | (None, b') => read_parts f runID src true rest (mkState (st_w s) b')
        end
      else (inl (SEField name), stored, s)
  end.

Definition readMultipartSubmit (rq : Request) (runID : string) (s : State) : (SubmitErr + list N) * bool * State :=
  match cd_multipart cd (Header rq "Content-Type") (MaxBytesReader (rq_Body rq) (MaxPipelineBytes + MaxSourceBytes)) with
  | None => (inl SENotMultipart, false, s)
  | Some m => read_parts (rq_blob rq) runID None false m s
  end.

Definition read_submit (rq : Request) (runID : string) (s : State) : (SubmitErr + list N) * bool * State :=
  if bool_decide (cd_media cd (Header rq "Content-Type") = "multipart/form-data") then readMultipartSubmit rq runID s
  else (match ReadAll (MaxBytesReader (rq_Body rq) MaxPipelineBytes) with inl e => inl (SERead e) | inr b => inr b end, false, s).

Definition discard_if (stored : bool) (rq : Request) (runID : string) : H unit :=
  if stored then discard (rq_discard rq) (SourceKey runID) else mret tt.

(** The roots entered queued. *)
Definition count_queued (jobs : list Job) : W unit :=
  with_metrics (λ m, m <| m_JobsTotal := foldl (λ t j,
    if bool_decide (j_State j = JobQueued) then add_counts {[JobQueued := 1]} t else t) (m_JobsTotal m) jobs |>).

Definition handleSubmitRun (rq : Request) : H Response :=
  runID ← try_ (newID 8) (λ _, internalError);
  r ← (λ s, let '(res, stored, s') := read_submit rq runID s in (inr (res, stored), s'));
  let '(res, stored) := r in
  match res with
  | inl e =>
      discard_if stored rq runID;;
      reply (if tooBig e then writeError 413 (MText "pipeline exceeds 1048576 bytes") else writeError 400 (submit_msg e))
  | inr src =>
      match Parse (cd_yaml cd) (to_string src) with
      | inl e => discard_if stored rq runID;; reply (writeError 400 (MParse e))
      | inr p =>
          out ← run_w (submitRun runID p (to_string src) (s_maxAttempts (sv_sched srv)));
          match out with
          | inl e => discard_if stored rq runID;; reply internalError
          | inr (run, jobs) =>
              try_ (count_queued jobs) (λ _, internalError);;
              mret (writeJSON 201 (runDetail run jobs))
          end
      end
  end.

Definition handleListRuns (rq : Request) : H Response :=
  limit ← query_int rq "limit" 50 "limit must be a non-negative integer";
  runs ← try_ (ListRuns limit) (λ _, internalError);
  mret (writeJSON 200 (PRuns (toRunJSON <$> runs))).

Definition handleGetRun (rq : Request) : H Response :=
  let id := PathValue rq "id" in
  run ← try_ (GetRun id) (storeError "run");
  jobs ← try_ (ListJobs id) (λ _, internalError);
  mret (writeJSON 200 (runDetail run jobs)).

Definition handleCancelRun (rq : Request) : H Response :=
  let id := PathValue rq "id" in
  run ← try_ (CancelRun id) (λ e,
    if bool_decide (e = ErrRunFinished) then writeError 409 (MText "run is already finished") else storeError "run" e);
  jobs ← try_ (ListJobs id) (λ _, internalError);
  mret (writeJSON 202 (runDetail run jobs)).

Definition handleListEvents (rq : Request) : H Response :=
  let id := PathValue rq "id" in
  try_ (GetRun id) (storeError "run");;
  after ← query_int rq "after" 0 "after must be a non-negative integer";
  evs ← try_ (ListEvents id after 0) (λ _, internalError);
  mret (writeJSON 200 (PEvents (toEventJSON <$> evs))).

Definition handleGetJob (rq : Request) : H Response :=
  job ← try_ (GetJob (PathValue rq "id")) (storeError "job");
  mret (writeJSON 200 (PJob_ (toJobJSON job))).

Definition handleListRunners : H Response :=
  rs ← try_ ListRunners (λ _, internalError);
  mret (writeJSON 200 (PRunners (toRunnerJSON <$> rs))).

(** *** runner.go *)

Definition handleClaim (rq : Request) : H Response :=
  req ← decodeRunnerBody rq (cd_claim cd);
  if bool_decide (cq_RunnerID req = "") then reply (writeError 400 (MText "runner_id is required"))
  else
    job ← try_ (Claim (sv_sched srv) (mkRunnerInfo (cq_RunnerID req) (cq_Name req) (cq_Labels req) (cq_Capacity req)
                   (cq_Version req))) (λ _, internalError);
    match job with
    | None => reply no_content
    | Some j => mret (writeJSON 200 (PClaimed (toJobJSON j) (Milliseconds (LeaseTTL (sv_sched srv)))))
    end.

Definition handleHeartbeat (rq : Request) : H Response :=
  req ← decodeRunnerBody rq (cd_heartbeat cd);
  if bool_decide (hq_RunnerID req = "") then reply (writeError 400 (MText "runner_id is required"))
  else
    ds ← try_ (Heartbeat (sv_sched srv) (hq_RunnerID req) ((λ j, mkJobRef (jq_JobID j) (jq_Attempt j)) <$> hq_Jobs req))
           (λ _, internalError);
    mret (writeJSON 200 (PDirectives ((λ d, mkDirectiveJSON (dv_JobID d) (dv_Attempt d) (directive_str (dv_Directive d))) <$> ds))).

Definition isBadResult (e : Err) : bool :=
  match e with InvalidStatus _ | InvalidFailureKind _ | InvalidSeq _ => true | _ => false end.

(** The error switch shared by complete and logs. *)
Definition runner_error (e : Err) : Response :=
  if bool_decide (e = ErrFenced) then writeError 409 (MText "attempt is not the running attempt")
  else if bool_decide (e = ErrNotFound) then writeError 404 (MText "job not found")
  else if isBadResult e then writeError 400 (MErr e)
  else internalError.

Definition handleComplete (rq : Request) : H Response :=
  req ← decodeRunnerBody rq (cd_complete cd);
  if bool_decide (pq_RunnerID req = "") || bool_decide (pq_Attempt req <= 0)
  then reply (writeError 400 (MText "runner_id and a positive attempt are required"))
  else
    job ← try_ (Complete (PathValue rq "id") (pq_Attempt req)
                  (mkResult (pq_Status req) (pq_FailureKind req) (pq_ExitCode req) (pq_Error req))) runner_error;
    mret (writeJSON 200 (PJob_ (toJobJSON job))).

Definition register_tx (req : registerRequest) : W string := Tx (
  λ w, (match GetRunnerByName (gq_Name req) w with
        | (inr existing, w1) =>
            UpsertRunner (rn_ID existing) (gq_Name req) (gq_Labels req) (gq_Capacity req) None (rn_Version existing);;
            mret (rn_ID existing)
        | (inl ErrNotFound, w1) =>
            id ← newID 8;
            UpsertRunner id (gq_Name req) (gq_Labels req) (gq_Capacity req) None "";; mret id
        | (inl e, w1) => fail e
        end) w).

Definition handleRegister (rq : Request) : H Response :=
  req ← decodeRunnerBody rq (cd_register cd);
  if bool_decide (gq_Name req = "") then reply (writeError 400 (MText "name is required"))
  else if bool_decide (gq_Capacity req < 0) then reply (writeError 400 (MText "capacity must not be negative"))
  else
    id ← try_ (register_tx req) (λ _, internalError);
    mret (writeJSON 200 (PRunnerID id)).

(** *** logs.go *)

Definition handleAppendLogs (rq : Request) : H Response :=
  req ← decodeBody rq (cd_logs cd) MaxLogBodyBytes;
  if bool_decide (lq_RunnerID req = "") || bool_decide (lq_Attempt req <= 0)
  then reply (writeError 400 (MText "runner_id and a positive attempt are required"))
  else
    try_ (AppendLogs (sv_sched srv) (PathValue rq "id") (lq_Attempt req)
            ((λ c, mkLogChunk (lc_Seq c) (lc_Data c)) <$> lq_Chunks req)) runner_error;;
    mret no_content.

(** A positive attempt of the query string, the job's own by default. *)
Definition attemptParam (rq : Request) (job : Job) : H Z :=
  let v := Query rq "attempt" in
  let bad := reply (writeError 400 (MText "attempt must be a positive integer")) in
  if bool_decide (v = "") then mret (j_Attempt job)
  else match ParseInt v with
       | Some n => if bool_decide (n <= 0) then bad else mret n
       | None => bad
       end.

Definition logs_response (attempt after : Z) (chunks : list LogChunk) : logsResponse :=
  foldl (λ out c, mkLogsResponse (ls_Attempt out) (ls_Chunks out ++ [mkLogChunkJSON (c_Seq c) (c_Data c)]) (c_Seq c))
    (mkLogsResponse attempt [] after) chunks.

Definition handleGetLogs (rq : Request) : H Response :=
  job ← try_ (GetJob (PathValue rq "id")) (storeError "job");
  attempt ← attemptParam rq job;
  after ← query_int rq "after" 0 "after must be a non-negative integer";
  chunks ← try_ (ListLogChunks (j_ID job) attempt after) (λ _, internalError);
  mret (writeJSON 200 (PLogs (logs_response attempt after chunks))).

(** *** artifacts.go *)

Definition fenced_msg : Msg := MText "attempt is not the running attempt".

Definition not_running (job : Job) (attempt : Z) : bool :=
  bool_decide (j_State job ≠ JobRunning ∨ j_Attempt job ≠ attempt).

(** The transaction that records the row. *)
Definition record_tx (jobID : string) (attempt : Z) (path : string) (size : Z) (sha ct : string) : W Artifact := Tx (
  job ← GetJob jobID;
  if not_running job attempt then fail ErrFenced
  else UpsertArtifact jobID attempt path size sha ct).

Definition put_blob (f : F) (key : string) (body : Body) (size : Z) : H (option BlobError) := λ s,
  let '(r, b) := blob_Put f key body size (st_blob s) in (inr r, mkState (st_w s) b).

(** [during] is what the other requests of the server did while the body was read. *)
Definition handleUploadArtifact (during : State → State) (rq : Request) : H Response :=
  let jobID := PathValue rq "id" in
  let bad := reply (writeError 400 (MText "attempt must be a positive integer")) in
  attempt ← match ParseInt (PathValue rq "attempt") with
            | Some n => if bool_decide (n <= 0) then bad else mret n
            | None => bad
            end;
  let path := PathValue rq "path" in
  match ValidatePath path with
  | Some e => reply (writeError 400 (MPath e))
  | None =>
    let size := rq_ContentLength rq in
    if bool_decide (size < 0) then reply (writeError 411 (MText "Content-Length is required"))
    else if bool_decide (size > MaxArtifactBytes) then reply (writeError 413 (MText "artifact exceeds 1073741824 bytes"))
    else
      let ct := if bool_decide (Header rq "Content-Type" = "") then DefaultContentType else Header rq "Content-Type" in
      job ← try_ (GetJob jobID) (storeError "job");
      if not_running job attempt then reply (writeError 409 fenced_msg)
      else
        let key := JobKey (j_RunID job) jobID attempt path in
        let body := MaxBytesReader (rq_Body rq) size in
        r ← put_blob (rq_blob rq) key body size;
        match r with
        | Some (BlobRead TooBig) => reply (writeError 400 (MText "body longer than Content-Length"))
        | Some _ => reply internalError
        | None =>
            mmodify during;;
            let sha := hex_encode (cd_sha256 cd (bd_bytes body)) in
            out ← run_w (record_tx jobID attempt path size sha ct);
            match out with
            | inl e =>
                discard (rq_discard rq) key;;
                reply (if bool_decide (e = ErrFenced) then writeError 409 fenced_msg
                       else if bool_decide (e = ErrNotFound) then writeError 404 (MText "job not found")
                       else internalError)
            | inr row => mret (writeJSON 201 (PArtifact (toArtifactJSON row)))
            end
        end
  end.

Definition handleListArtifacts (rq : Request) : H Response :=
  job ← try_ (GetJob (PathValue rq "id")) (storeError "job");
  attempt ← attemptParam rq job;
  rows ← try_ (ListArtifacts (j_ID job) attempt) (λ _, internalError);
  mret (writeJSON 200 (PArtifacts attempt (toArtifactJSON <$> rows))).

(** A read of the blob store: not found is 404 with the given text. *)
Definition get_blob (f : F) (key : string) (missing : string) : H (list N) := λ s,
  match blob_Get f key (st_blob s) with
  | inr data => (inr data, s)
  | inl BlobNotFound => (inl (writeError 404 (MText missing)), s)
  | inl _ => (inl internalError, s)
  end.

Definition handleGetArtifact (rq : Request) : H Response :=
  job ← try_ (GetJob (PathValue rq "id")) (storeError "job");
  attempt ← attemptParam rq job;
  let path := PathValue rq "path" in
  match ValidatePath path with
  | Some e => reply (writeError 400 (MPath e))
  | None =>
      row ← try_ (GetArtifact (j_ID job) attempt path) (storeError "artifact");
      data ← get_blob (rq_blob rq) (JobKey (j_RunID job) (j_ID job) attempt path) "artifact not found";
      mret (mkResponse 200 [("Content-Type", a_ContentType row); ("Content-Length", Itoa (a_SizeBytes row));
                            ("ETag", quoted (a_SHA256 row))] (PBytes data))
  end.

Definition handleGetSource (rq : Request) : H Response :=
  let id := PathValue rq "id" in
  try_ (GetRun id) (storeError "run");;
  data ← get_blob (rq_blob rq) (SourceKey id) "run has no source bundle";
  mret (mkResponse 200 [("Content-Type", "application/x-tar")] (PBytes data)).

(** *** Dispatch *)

Definition handle (during : State → State) (h : Handler) (rq : Request) : H Response :=
  match h with
  | HSubmitRun => handleSubmitRun rq
  | HListRuns => handleListRuns rq
  | HGetRun => handleGetRun rq
  | HCancelRun => handleCancelRun rq
  | HListEvents => handleListEvents rq
  | HGetSource => handleGetSource rq
  | HGetJob => handleGetJob rq
  | HGetLogs => handleGetLogs rq
  | HListArtifacts => handleListArtifacts rq
  | HGetArtifact => handleGetArtifact rq
  | HListRunners => handleListRunners
  | HRegister => handleRegister rq
  | HClaim => handleClaim rq
  | HHeartbeat => handleHeartbeat rq
  | HComplete => handleComplete rq
  | HAppendLogs => handleAppendLogs rq
  | HUploadArtifact => handleUploadArtifact during rq
  | HApiMiss status => reply (mkResponse status [] PNone)
  end.

(** [requireToken]; [subtle.ConstantTimeCompare] is equality of byte strings. *)
Definition authorized (rq : Request) : bool :=
  match CutPrefix (Header rq "Authorization") "Bearer " with
  | Some tok => negb (bool_decide (sv_token srv = "")) && bool_decide (tok = sv_token srv)
  | None => false
  end.
Definition requireToken (next : H Response) (rq : Request) : H Response :=
  if authorized rq then next
  else
    let r := writeError 401 (MText "missing or invalid bearer token") in
    reply (mkResponse (rp_Status r) (("WWW-Authenticate", "Bearer realm=" +:+ quoted "quarry") :: rp_Headers r) (rp_Body r)).

Definition mux (during : State → State) (rq : Request) : H Response :=
  match rq_Endpoint rq with
  | EHealthz => handleHealthz
  | EMetrics => mret (mkResponse 200 [] (PText "metrics"))
  | ENotFound status => reply (mkResponse status [] PNone)
  | EApi h => requireToken (handle during h rq) rq
  end.
End handlers.

(** [withRequestID] and [ServeHTTP]: the response written, and the state after. *)
Definition request_id (rq : Request) (s : State) : string * State :=
  if bool_decide (Header rq "X-Request-ID" = "") then
    match newID 8 (st_w s) with
    | (inr id, w) => (id, mkState w (st_blob s))
    | (inl _, w) => ("", mkState w (st_blob s))
    end
  else (Header rq "X-Request-ID", s).

Definition finish (r : (Response + Response) * State) : Response * State :=
  match r with (inl a, s) => (a, s) | (inr a, s) => (a, s) end.

Definition ServeHTTP (srv : Server) (during : State → State) (rq : Request) (s : State) : Response * State :=
  let '(rid, s1) := request_id rq s in
  let '(r, s2) := finish (mux srv rid during rq s1) in
  (mkResponse (rp_Status r) (("X-Request-ID", rid) :: rp_Headers r) (rp_Body r), s2).
End api.

Arguments Request F : clear implicits.
Arguments State B : clear implicits.
