(* ===== verification/Router.v ===== *)
(** * The request patterns of internal/api and the URLs of its clients

    The pattern table of [api.New] and how [http.ServeMux] (Go 1.22 and later)
    matches a method and an escaped path against it; [url.PathEscape] and the
    unescaping of the mux.  Theorems: the URLs the runner builds reach the handler
    they are meant for with the path values they were built from. *)

From Stdlib Require Import Ascii.
From stdpp Require Import pretty.
From S2P Require Import Prelude GoLib Artifact Api.

Local Open Scope Z_scope.

(** ** Percent-encoding *)

Definition upper_hex (n : N) : ascii := if bool_decide (n < 10)%N then chr (48 + n) else chr (55 + n).
Definition unhex (c : ascii) : option N :=
  let n := byte_of c in
  if bool_decide (48 ≤ n ≤ 57)%N then Some (n - 48)%N
  else if bool_decide (97 ≤ n ≤ 102)%N then Some (n - 87)%N
  else if bool_decide (65 ≤ n ≤ 70)%N then Some (n - 55)%N
  else None.

(** [shouldEscape] in the mode of a path segment. *)
Definition shouldEscape (c : ascii) : bool :=
  let n := byte_of c in
  negb (bool_decide (97 ≤ n ≤ 122)%N || bool_decide (65 ≤ n ≤ 90)%N || bool_decide (48 ≤ n ≤ 57)%N ||
        bool_decide (c ∈ ["-"; "_"; "."; "~"; "$"; "&"; "+"; ":"; "="; "@"]%char)).

(** [url.PathEscape]. *)
Fixpoint PathEscape (s : string) : string :=
  match s with
  | EmptyString => EmptyString
  | String c s' =>
      if shouldEscape c
      then String "%" (String (upper_hex (byte_of c / 16)) (String (upper_hex (byte_of c mod 16)) (PathEscape s')))
      else String c (PathEscape s')
  end.

(** [url.PathUnescape]; the mux keeps a segment it cannot unescape as it is. *)
Fixpoint PathUnescape (s : string) : option string :=
  match s with
  | EmptyString => Some EmptyString
  | String c s' =>
      if bool_decide (c = "%"%char) then
        match s' with
        | String a (String b s'') =>
            match unhex a, unhex b with
            | Some x, Some y => String (chr (16 * x + y)) <$> PathUnescape s''
            | _, _ => None
            end
        | _ => None
        end
      else String c <$> PathUnescape s'
  end.
Definition pathUnescape (s : string) : string := default s (PathUnescape s).

(** [escapePath] of the runner's client: each segment of a slash path. *)
Definition escapePath (p : string) : string := Join (PathEscape <$> Split p "/") "/".

(** ** Patterns *)

Inductive Seg := Lit (s : string) | Wild (name : string) | Rest (name : string).

(** The segment of a pattern: a literal, [{name}] or [{name...}]. *)
Fixpoint strip_close (s : string) : string * bool :=
  match s with
  | EmptyString => (EmptyString, false)
  | String c s' =>
      if bool_decide (s = "}") then (EmptyString, false)
      else if bool_decide (s = "...}") then (EmptyString, true)
      else let '(n, more) := strip_close s' in (String c n, more)
  end.
Definition seg_of (s : string) : Seg :=
  match s with
  | String "{" s' => let '(n, more) := strip_close s' in if (more : bool) then Rest n else Wild n
  | _ => Lit s
  end.

(** What [New] registers on the inner mux. *)
Definition patterns : list (string * string * Handler) := [
  ("POST", "/api/runs", HSubmitRun);
  ("GET", "/api/runs", HListRuns);
  ("GET", "/api/runs/{id}", HGetRun);
  ("POST", "/api/runs/{id}/cancel", HCancelRun);
  ("GET", "/api/runs/{id}/events", HListEvents);
  ("GET", "/api/runs/{id}/source", HGetSource);
  ("GET", "/api/jobs/{id}", HGetJob);
  ("GET", "/api/jobs/{id}/logs", HGetLogs);
  ("GET", "/api/jobs/{id}/artifacts", HListArtifacts);
  ("GET", "/api/jobs/{id}/artifacts/{path...}", HGetArtifact);
  ("GET", "/api/runners", HListRunners);
  ("POST", "/api/runner/register", HRegister);
  ("POST", "/api/runner/claim", HClaim);
  ("POST", "/api/runner/heartbeat", HHeartbeat);
  ("POST", "/api/runner/jobs/{id}/complete", HComplete);
  ("POST", "/api/runner/jobs/{id}/logs", HAppendLogs);
  ("POST", "/api/runner/jobs/{id}/attempts/{attempt}/artifacts/{path...}", HUploadArtifact) ].

Definition segs_of (pattern : string) : list Seg := seg_of <$> tail (Split pattern "/").

(** ** Matching *)

(** The segments of an escaped path against those of a pattern: the path values. *)
Fixpoint match_segs (ps : list Seg) (ss : list string) : option (list (string * string)) :=
  match ps, ss with
  | [], [] => Some []
  | [Rest n], _ :: _ => Some [(n, pathUnescape (Join ss "/"))]
  | Lit l :: ps', s :: ss' => if bool_decide (pathUnescape s = l) then match_segs ps' ss' else None
  | Wild n :: ps', s :: ss' =>
      if bool_decide (s = "") then None else cons (n, pathUnescape s) <$> match_segs ps' ss'
  | _, _ => None
  end.

Definition method_ok (pattern method : string) : bool :=
  bool_decide (method = pattern) || bool_decide (pattern = "GET" ∧ method = "HEAD").

Fixpoint find_pattern (tbl : list (string * string * Handler)) (method : string) (ss : list string) :
    option (Handler * list (string * string)) :=
  match tbl with
  | [] => None
  | (pm, pat, h) :: tbl' =>
      match match_segs (segs_of pat) ss with
      | Some vs => if method_ok pm method then Some (h, vs) else find_pattern tbl' method ss
      | None => find_pattern tbl' method ss
      end
  end.

Definition path_known (ss : list string) : bool :=
  existsb (λ '(_, pat, _), match match_segs (segs_of pat) ss with Some _ => true | None => false end) patterns.

(** A path the mux serves as it is: no empty segment but the last, no dot segment. *)
Definition clean_seg (s : string) : bool := negb (bool_decide (s = "" ∨ s = "." ∨ s = "..")).
Fixpoint clean_segs (ss : list string) : bool :=
  match ss with
  | [] => true
  | [s] => bool_decide (s = "") || clean_seg s
  | s :: ss' => clean_seg s && clean_segs ss'
  end.

Definition to_values (l : list (string * string)) : gmap string string := list_to_map l.

(** [None]: the mux answers with a redirect, to the cleaned path or to the path with a
    slash appended. *)
Definition route (method path : string) : option (Endpoint * gmap string string) :=
  match Split path "/" with
  | "" :: ss =>
      if negb (clean_segs ss) then None
      else
        let us := pathUnescape <$> ss in
        if bool_decide (us = ["healthz"]) then Some (if method_ok "GET" method then EHealthz else ENotFound 405, ∅)
        else if bool_decide (us = ["metrics"]) then Some (if method_ok "GET" method then EMetrics else ENotFound 405, ∅)
        else if bool_decide (us = ["api"]) then None
        else if bool_decide (head us = Some "api") then
          match find_pattern patterns method ss with
          | Some (h, vs) => Some (EApi h, to_values vs)
          | None =>
              if bool_decide (is_Some (find_pattern patterns method (ss ++ [""]))) then None
              else Some (EApi (HApiMiss (if path_known ss then 405 else 404)), ∅)
          end
        else Some (ENotFound 404, ∅)
  | _ => Some (ENotFound 404, ∅)
  end.

(** ** The URLs of the runner *)

Definition completeURL (jobID : string) : string := "/api/runner/jobs/" +:+ jobID +:+ "/complete".
Definition logsURL (jobID : string) : string := "/api/runner/jobs/" +:+ jobID +:+ "/logs".
Definition sourceURL (runID : string) : string := "/api/runs/" +:+ runID +:+ "/source".
Definition uploadURL (jobID : string) (attempt : Z) (path : string) : string :=
  "/api/runner/jobs/" +:+ jobID +:+ "/attempts/" +:+ Itoa attempt +:+ "/artifacts/" +:+ escapePath path.

(** ** Escaping *)

Lemma unescape_char c s :
  shouldEscape c = true →
  PathUnescape (String "%" (String (upper_hex (byte_of c / 16)) (String (upper_hex (byte_of c mod 16)) s))) =
  String c <$> PathUnescape s.
Proof.
  intros _. simpl.
  assert (H : unhex (upper_hex (byte_of c / 16)) = Some (byte_of c / 16)%N ∧ unhex (upper_hex (byte_of c mod 16)) = Some (byte_of c mod 16)%N ∧
              chr (16 * (byte_of c / 16) + byte_of c mod 16) = c).
  { destruct c as [[] [] [] [] [] [] [] []]; vm_compute; done. }
  destruct H as (-> & -> & ->). done.
Qed.

Lemma escape_keeps c : shouldEscape c = false → c ≠ "%"%char ∧ c ≠ "/"%char.
Proof. destruct c as [[] [] [] [] [] [] [] []]; vm_compute; done. Qed.

Lemma append_cons c (a b : string) : String c a +:+ b = String c (a +:+ b).
Proof. done. Qed.

Lemma PathUnescape_app a s : PathUnescape (PathEscape a +:+ s) = String.append a <$> PathUnescape s.
Proof.
  induction a as [|c a IH].
  { change (PathUnescape s = String.append "" <$> PathUnescape s). by destruct (PathUnescape s). }
  cbn [PathEscape].
  destruct (shouldEscape c) eqn:E.
  - rewrite !append_cons, unescape_char by done. rewrite IH. by destruct (PathUnescape s).
  - destruct (escape_keeps c E) as [Hc _]. rewrite append_cons. cbn [PathUnescape]. rewrite bool_decide_false by done. rewrite IH.
    by destruct (PathUnescape s).
Qed.

Lemma append_nil_r s : s +:+ "" = s.
Proof. induction s as [|c s IH]; [done|]. by rewrite append_cons, IH. Qed.

Lemma PathUnescape_escape s : PathUnescape (PathEscape s) = Some s.
Proof.
  pose proof (PathUnescape_app s "") as H. rewrite !append_nil_r in H. simpl in H. by rewrite append_nil_r in H.
Qed.

Lemma pathUnescape_escape s : pathUnescape (PathEscape s) = s.
Proof. unfold pathUnescape. by rewrite PathUnescape_escape. Qed.

Lemma PathEscape_plain s : plain (PathEscape s).
Proof.
  induction s as [|c s IH]; [done|]. cbn [PathEscape]. destruct (shouldEscape c) eqn:E.
  - rewrite !plain_cons. split_and!; try done; destruct c as [[] [] [] [] [] [] [] []]; vm_compute; done.
  - apply plain_cons. split; [by apply escape_keeps|done].
Qed.

Lemma PathEscape_inj s t : PathEscape s = PathEscape t → s = t.
Proof. intros E. apply (f_equal PathUnescape) in E. rewrite !PathUnescape_escape in E. congruence. Qed.

Lemma clean_escape s : s ≠ "" ∧ s ≠ "." ∧ s ≠ ".." → clean_seg (PathEscape s) = true.
Proof.
  intros (H1 & H2 & H3). unfold clean_seg. rewrite bool_decide_false; [done|]. intros [H|[H|H]].
  - by apply H1, PathEscape_inj.
  - by apply H2, PathEscape_inj.
  - by apply H3, PathEscape_inj.
Qed.

Lemma clean_segs_forall ss : ss ≠ [] → Forall (λ s, clean_seg s = true) ss → clean_segs ss = true.
Proof.
  intros _. induction 1 as [|s ss Hs _ IH]; [done|]. destruct ss; simpl.
  - by rewrite Hs, orb_true_r.
  - by rewrite Hs.
Qed.

Lemma unescape_join l : l ≠ [] → PathUnescape (Join (PathEscape <$> l) "/") = Some (Join l "/").
Proof.
  induction l as [|x l IH]; [done|]. intros _. destruct l as [|y l]; [apply PathUnescape_escape|].
  change (Join (PathEscape <$> x :: y :: l) "/") with (PathEscape x +:+ String "/" (Join (PathEscape <$> y :: l) "/")).
  rewrite PathUnescape_app. cbn [PathUnescape]. rewrite bool_decide_false by done. by rewrite IH.
Qed.

Lemma unescape_path p : pathUnescape (escapePath p) = p.
Proof.
  unfold pathUnescape, escapePath. destruct (Split_join p "/") as [Hj Hne]. rewrite unescape_join by done. exact Hj.
Qed.

Lemma Split_escapePath p : Split (escapePath p) "/" = PathEscape <$> Split p "/".
Proof.
  unfold escapePath. apply Split_join_plain.
  - destruct (Split_join p "/") as [_ Hne]. by destruct (Split p "/").
  - apply Forall_fmap, Forall_true. intros s. apply PathEscape_plain.
Qed.

(** ** The query string *)

(** [url.QueryUnescape]. *)
Fixpoint plus_to_space (s : string) : string :=
  match s with
  | EmptyString => EmptyString
  | String c s' => String (if bool_decide (c = "+"%char) then " "%char else c) (plus_to_space s')
  end.
Definition QueryUnescape (s : string) : option string := PathUnescape (plus_to_space s).

(** [url.ParseQuery]: a pair that is malformed is left out, [Get] sees the first value. *)
Definition query_pair (kv : string) : option (string * string) :=
  if bool_decide (kv = "") || ContainsByte kv ";" then None
  else let '(k, v, _) := Cut kv "=" in
       match QueryUnescape k, QueryUnescape v with
       | Some k, Some v => Some (k, v)
       | _, _ => None
       end.
Definition ParseQuery (q : string) : gmap string string := list_to_map (omap query_pair (Split q "&")).

Lemma Cut_none s c : ContainsByte s c = false → Cut s c = (s, "", false).
Proof. induction s as [|a s IH]; [done|]. simpl. intros [-> H]%orb_false_iff. by rewrite IH. Qed.
Lemma Cut_at a c b : ContainsByte a c = false → Cut (a +:+ String c b) c = (a, b, true).
Proof.
  induction a as [|x a IH]; simpl; [by rewrite bool_decide_true|]. intros [-> H]%orb_false_iff. by rewrite IH.
Qed.
Lemma ContainsByte_app a b c : ContainsByte (a +:+ b) c = ContainsByte a c || ContainsByte b c.
Proof. induction a as [|x a IH]; [done|]. rewrite append_cons. simpl. by rewrite IH, orb_assoc. Qed.
Lemma PathEscape_no_query s : ContainsByte (PathEscape s) "?" = false.
Proof.
  induction s as [|c s IH]; [done|]. cbn [PathEscape]. destruct (shouldEscape c) eqn:E; cbn [ContainsByte].
  - rewrite IH. destruct c as [[] [] [] [] [] [] [] []]; by vm_compute.
  - rewrite IH, bool_decide_false; [done|]. by intros ->.
Qed.

(** An identifier that goes into a URL as it is, such as the hex ids of the server. *)
Definition url_safe (s : string) : Prop := PathEscape s = s ∧ s ≠ "" ∧ s ≠ "." ∧ s ≠ "..".

Lemma url_safe_plain s : url_safe s → plain s.
Proof. intros [<- _]. apply PathEscape_plain. Qed.
Lemma url_safe_unescape s : url_safe s → pathUnescape s = s.
Proof. intros [H _]. rewrite <-H at 1. apply pathUnescape_escape. Qed.
Lemma url_safe_clean s : url_safe s → clean_seg s = true.
Proof. intros [H Hs]. rewrite <-H. by apply clean_escape. Qed.

(** ** Decimal numbers *)

Lemma pretty_char_spec n : (n < 10)%N →
  digit_of (pretty_N_char n) = Some (Z.of_N n) ∧ shouldEscape (pretty_N_char n) = false ∧ pretty_N_char n ≠ "-"%char ∧ pretty_N_char n ≠ "+"%char ∧ pretty_N_char n ≠ "."%char.
Proof. intros H. assert (n ∈ [0;1;2;3;4;5;6;7;8;9]%N) as Hn by (rewrite !elem_of_cons; lia). repeat (apply elem_of_cons in Hn as [->|Hn]; [by vm_compute|]). by apply elem_of_nil in Hn. Qed.

Lemma digits_pretty_go n : ∀ s, digits 0 (pretty_N_go n s) = digits (Z.of_N n) s.
Proof.
  induction (N.lt_wf_0 n) as [n _ IH]; intros s. destruct (decide (0 < n)%N) as [Hn|Hn].
  - rewrite pretty_N_go_step by done. rewrite IH by (by apply N.div_lt). cbn [digits].
    destruct (pretty_char_spec (n mod 10)) as [-> _]; [by apply N.mod_lt|]. f_equal.
    pose proof (N.div_mod n 10 ltac:(done)). lia.
  - assert (n = 0)%N as -> by lia. by rewrite pretty_N_go_0.
Qed.

Lemma escape_pretty_go n : ∀ s, PathEscape s = s → PathEscape (pretty_N_go n s) = pretty_N_go n s.
Proof.
  induction (N.lt_wf_0 n) as [n _ IH]; intros s Hs. destruct (decide (0 < n)%N) as [Hn|Hn].
  - rewrite pretty_N_go_step by done. apply IH; [by apply N.div_lt|]. cbn [PathEscape].
    destruct (pretty_char_spec (n mod 10)) as (_ & -> & _); [by apply N.mod_lt|]. by rewrite Hs.
  - assert (n = 0)%N as -> by lia. by rewrite pretty_N_go_0.
Qed.

(** The first character of a number that is not zero is one of its digits. *)
Lemma pretty_go_head n : ∀ s, (0 < n)%N → ∃ d s', (d < 10)%N ∧ pretty_N_go n s = String (pretty_N_char d) s'.
Proof.
  induction (N.lt_wf_0 n) as [n _ IH]; intros s Hn. rewrite pretty_N_go_step by done.
  destruct (N.eq_0_gt_0_cases (n / 10)) as [->|Hd]; [|apply IH; [by apply N.div_lt|done]]. rewrite pretty_N_go_0. eexists _, _. split; [by apply (N.mod_lt n 10)|done].
Qed.

Lemma Itoa_pos z : 0 < z → Itoa z = pretty_N_go (Z.to_N z) "".
Proof.
  destruct z as [|p|p]; [done| |done]. intros _. unfold Itoa, pretty, pretty_Z, pretty, pretty_positive, pretty, pretty_N.
  by rewrite decide_False.
Qed.

Lemma to_N_pos z : 0 < z → (0 < Z.to_N z)%N.
Proof. by destruct z. Qed.

Lemma ParseInt_Itoa z : 0 < z < 2 ^ 63 → ParseInt (Itoa z) = Some z.
Proof.
  intros Hz. rewrite Itoa_pos by lia. pose proof (digits_pretty_go (Z.to_N z) "") as Hd. cbn [digits] in Hd.
  destruct (pretty_go_head (Z.to_N z) "") as (d & s' & Hd10 & E); [apply to_N_pos; lia|]. rewrite E in *.
  destruct (pretty_char_spec d Hd10) as (_ & _ & H1 & H2 & _). unfold ParseInt.
  rewrite (bool_decide_false (_ = "-"%char)), (bool_decide_false (_ = "+"%char)) by done.
  rewrite Hd, Z2N.id by lia. rewrite bool_decide_true; [done|]. unfold in_int64, int64_min, int64_max. lia.
Qed.

Lemma url_safe_Itoa z : 0 < z → url_safe (Itoa z).
Proof.
  intros Hz. rewrite Itoa_pos by lia. split; [by apply escape_pretty_go|].
  destruct (pretty_go_head (Z.to_N z) "") as (d & s' & Hd10 & ->); [by apply to_N_pos|].
  destruct (pretty_char_spec d Hd10) as (_ & _ & _ & _ & H). split_and!; [done|congruence..].
Qed.

(** ** Routing *)

Lemma route_api method path ss h vs :
  Split path "/" = "" :: "api" :: ss → ss ≠ [] → clean_segs ("api" :: ss) = true →
  find_pattern patterns method ("api" :: ss) = Some (h, vs) → route method path = Some (EApi h, to_values vs).
Proof.
  intros Hs Hne Hc Hf. unfold route. rewrite Hs, Hc. cbn [negb].
  assert (Hu : pathUnescape <$> "api" :: ss = "api" :: (pathUnescape <$> ss)) by done. rewrite Hu.
  destruct ss as [|s ss]; [done|]. rewrite !bool_decide_false by (rewrite fmap_cons; congruence).
  rewrite bool_decide_true by done. by rewrite Hf.
Qed.

(** The table, on the segments of each URL of the runner. *)
Lemma find_complete id : id ≠ "" →
  find_pattern patterns "POST" ["api"; "runner"; "jobs"; id; "complete"] = Some (HComplete, [("id", pathUnescape id)]).
Proof. destruct id as [|c id]; [done|]. reflexivity. Qed.
Lemma find_logs id : id ≠ "" →
  find_pattern patterns "POST" ["api"; "runner"; "jobs"; id; "logs"] = Some (HAppendLogs, [("id", pathUnescape id)]).
Proof. destruct id as [|c id]; [done|]. reflexivity. Qed.
Lemma find_source id : id ≠ "" →
  find_pattern patterns "GET" ["api"; "runs"; id; "source"] = Some (HGetSource, [("id", pathUnescape id)]).
Proof. destruct id as [|c id]; [done|]. reflexivity. Qed.
Lemma find_upload id a p ps : id ≠ "" → a ≠ "" →
  find_pattern patterns "POST" ("api" :: "runner" :: "jobs" :: id :: "attempts" :: a :: "artifacts" :: p :: ps) =
  Some (HUploadArtifact, [("id", pathUnescape id); ("attempt", pathUnescape a); ("path", pathUnescape (Join (p :: ps) "/"))]).
Proof. destruct id as [|c id]; [done|]. destruct a as [|d a]; [done|]. reflexivity. Qed.

Lemma ValidatePath_segments p : ValidatePath p = None → Forall (λ s, s ≠ "" ∧ s ≠ "." ∧ s ≠ "..") (Split p "/").
Proof. unfold ValidatePath. intros H. repeat case_match; try done. by apply check_segments_ok. Qed.

Lemma Split_slash s : Split (String "/" s) "/" = "" :: Split s "/".
Proof. done. Qed.

Lemma Split_last s : plain s → Split s "/" = [s].
Proof. intros H. pose proof (Split_join_plain [s] ltac:(done)) as E. apply E. by constructor. Qed.

Lemma route_id method path ss id h :
  Split path "/" = "" :: "api" :: ss → ss ≠ [] → Forall (λ s, clean_seg s = true) ss → url_safe id →
  find_pattern patterns method ("api" :: ss) = Some (h, [("id", pathUnescape id)]) →
  route method path = Some (EApi h, {["id" := id]}).
Proof.
  intros Hs Hne Hc Hid Hf. rewrite (route_api method path ss h [("id", pathUnescape id)] Hs Hne); [|by apply clean_segs_forall; [|constructor]|exact Hf].
  by rewrite (url_safe_unescape _ Hid).
Qed.

Lemma route_upload id attempt path :
  url_safe id → 0 < attempt → ValidatePath path = None →
  route "POST" (uploadURL id attempt path) =
    Some (EApi HUploadArtifact, to_values [("id", id); ("attempt", Itoa attempt); ("path", path)]).
Proof.
  intros Hid Ha Hp. pose proof (url_safe_Itoa attempt Ha) as Hat. destruct (Split_join path "/") as [_ Hnil].
  pose proof (Split_escapePath path) as Hes. pose proof (unescape_path path) as Hup. unfold escapePath in Hup.
  apply ValidatePath_segments in Hp. destruct (Split path "/") as [|p ps]; [done|].
  erewrite route_api; [| |  | |apply (find_upload id (Itoa attempt) (PathEscape p) (PathEscape <$> ps)); [apply Hid|apply Hat]].
  - rewrite (url_safe_unescape id Hid), (url_safe_unescape _ Hat). change (PathEscape p :: (PathEscape <$> ps)) with (PathEscape <$> p :: ps).
    by rewrite Hup.
  - change (uploadURL id attempt path) with (String "/" ("api" +:+ String "/" ("runner" +:+ String "/" ("jobs" +:+ String "/" (id +:+ String "/"
      ("attempts" +:+ String "/" (Itoa attempt +:+ String "/" ("artifacts" +:+ String "/" (escapePath path))))))))).
    rewrite Split_slash, !Split_app by (done || by apply url_safe_plain). by rewrite Hes.
  - done.
  - apply clean_segs_forall; [done|]. repeat (constructor; [done || by apply url_safe_clean|]).
    change (Forall (λ s, clean_seg s = true) (PathEscape <$> p :: ps)). apply Forall_fmap. eapply Forall_impl; [exact Hp|].
    intros s. apply clean_escape.
Qed.

Lemma route_completeURL id : url_safe id → route "POST" (completeURL id) = Some (EApi HComplete, {["id" := id]}).
Proof.
  intros Hid. pose proof (url_safe_plain _ Hid) as Hpl. pose proof (url_safe_clean _ Hid) as Hc.
  eapply (route_id _ _ ["runner"; "jobs"; id; "complete"]); [|done|by repeat constructor|done|by apply find_complete, Hid].
  change (completeURL id) with (String "/" ("api" +:+ String "/" ("runner" +:+ String "/" ("jobs" +:+ String "/" (id +:+ String "/" "complete"))))).
  by rewrite Split_slash, !Split_app.
Qed.

Lemma route_logsURL id : url_safe id → route "POST" (logsURL id) = Some (EApi HAppendLogs, {["id" := id]}).
Proof.
  intros Hid. pose proof (url_safe_plain _ Hid) as Hpl. pose proof (url_safe_clean _ Hid) as Hc.
  eapply (route_id _ _ ["runner"; "jobs"; id; "logs"]); [|done|by repeat constructor|done|by apply find_logs, Hid].
  change (logsURL id) with (String "/" ("api" +:+ String "/" ("runner" +:+ String "/" ("jobs" +:+ String "/" (id +:+ String "/" "logs"))))).
  by rewrite Split_slash, !Split_app.
Qed.

Lemma route_sourceURL id : url_safe id → route "GET" (sourceURL id) = Some (EApi HGetSource, {["id" := id]}).
Proof.
  intros Hid. pose proof (url_safe_plain _ Hid) as Hpl. pose proof (url_safe_clean _ Hid) as Hc.
  eapply (route_id _ _ ["runs"; id; "source"]); [|done|by repeat constructor|done|by apply find_source, Hid].
  change (sourceURL id) with (String "/" ("api" +:+ String "/" ("runs" +:+ String "/" (id +:+ String "/" "source")))).
  by rewrite Split_slash, !Split_app.
Qed.

(** C27: the URLs the runner builds reach the handlers they are meant for, and the
    handler reads back exactly the job, attempt and path they were built from: for
    every id that needs no escaping, every positive attempt and every path that
    ValidatePath accepts, whatever bytes it contains. *)
Theorem runner_urls_reach_their_handlers id attempt path :
  url_safe id → 0 < attempt < 2 ^ 63 → ValidatePath path = None →
  route "POST" (completeURL id) = Some (EApi HComplete, {["id" := id]}) ∧
  route "POST" (logsURL id) = Some (EApi HAppendLogs, {["id" := id]}) ∧
  route "GET" (sourceURL id) = Some (EApi HGetSource, {["id" := id]}) ∧
  ∃ vs, route "POST" (uploadURL id attempt path) = Some (EApi HUploadArtifact, vs) ∧
    vs !! "id" = Some id ∧ (vs !! "attempt" ≫= ParseInt) = Some attempt ∧ vs !! "path" = Some path.
Proof.
  intros Hid Ha Hp. split_and!; [by apply route_completeURL|by apply route_logsURL|by apply route_sourceURL|].
  eexists. split; [by apply route_upload; [|lia|]|]. unfold to_values. cbn [list_to_map].
  split_and!; [by simplify_map_eq| |by simplify_map_eq]. simplify_map_eq. by apply ParseInt_Itoa.
Qed.

Lemma runner_urls_reach_their_handlers_witness :
  ∃ vs, route "POST" (uploadURL "0af3" 2 "out/100% done?.txt") = Some (EApi HUploadArtifact, vs) ∧ vs !! "path" = Some "out/100% done?.txt".
Proof.
  destruct (runner_urls_reach_their_handlers "0af3" 2 "out/100% done?.txt") as (_ & _ & _ & vs & H1 & _ & _ & H2).
  - repeat split; try (vm_compute; reflexivity); discriminate.
  - lia.
  - vm_compute. reflexivity.
  - exists vs. split; [exact H1|exact H2].
Defined.
