(* ===== verification/ApiSpec.v ===== *)
(** * Theorems about the HTTP surface

    The token guard, the invariant across requests, the artifact upload fence and
    its round trip, registration, log paging, completion statuses and the bundle
    of a failed submission.  The blob store is any store that meets the contract. *)

From S2P Require Import Prelude GoLib Pipeline Types Store Scheduler Protocol Advance Consistency Refinement Logs Ops InvCheck Demo PipelineSpec Submit Artifact Api.
From stdpp Require Import relations.

Local Open Scope Z_scope.

(** ** Which calls are protocol steps *)

Definition sound (w w' : World) : Prop := PSteps (w_db w) (w_db w') ∧ Inv (w_db w') ∧ clock_pos w'.

Class SoundW {A} (m : W A) : Prop := sound_w w : Inv (w_db w) → clock_pos w → sound w (m w).2.

Lemma sound_refl w w' : w_db w' = w_db w → w_clock w' = w_clock w → Inv (w_db w) → clock_pos w → sound w w'.
Proof. intros E1 E2 Hi Hc. split_and!; rewrite ?E1; try done. intros n. rewrite E2. apply Hc. Qed.

Lemma sound_trans w1 w2 w3 : sound w1 w2 → sound w2 w3 → sound w1 w3.
Proof. intros (? & _ & _) (? & ? & ?). split_and!; try done. by etrans. Qed.

(** A method that only reads. *)
Lemma sound_read {A} (m : W A) : (∀ w, (m w).2 = w) → SoundW m.
Proof. intros Hm w Hi Hc. apply sound_refl; by rewrite ?Hm. Qed.

Lemma sound_op {A} s op (m : W A) : (∀ w, (exec s op w).2 = (m w).2) → SoundW m.
Proof.
  intros E w Hi Hc. destruct (after_exec_ok s op w Hi Hc) as (H1 & H2 & H3). unfold after in *. rewrite E in *. done.
Qed.

Lemma drop_result {A} (m : W A) w : ((m ≫= λ _, mret tt) w).2 = (m w).2.
Proof. unfold mbind, M_bind. by destruct (m w) as [[?|?] ?]. Qed.

Ltac read_only := apply sound_read; intros w; unfold get_db, mbind, M_bind; simpl; repeat case_match; done.

#[export] Instance sound_GetJob id : SoundW (GetJob id).
Proof. unfold GetJob. read_only. Qed.
#[export] Instance sound_GetRun id : SoundW (GetRun id).
Proof. unfold GetRun. read_only. Qed.
#[export] Instance sound_ListRuns n : SoundW (ListRuns n).
Proof. unfold ListRuns. read_only. Qed.
#[export] Instance sound_ListJobs k : SoundW (ListJobs k).
Proof. unfold ListJobs. read_only. Qed.
#[export] Instance sound_ListEvents k a n : SoundW (ListEvents k a n).
Proof. unfold ListEvents. read_only. Qed.
#[export] Instance sound_ListRunners : SoundW ListRunners.
Proof. unfold ListRunners. read_only. Qed.
#[export] Instance sound_ListLogChunks id a n : SoundW (ListLogChunks id a n).
Proof. unfold ListLogChunks. read_only. Qed.
#[export] Instance sound_GetArtifact id a p : SoundW (GetArtifact id a p).
Proof. unfold GetArtifact. read_only. Qed.
#[export] Instance sound_ListArtifacts id a : SoundW (ListArtifacts id a).
Proof. unfold ListArtifacts. read_only. Qed.
#[export] Instance sound_Claim s r : SoundW (Claim s r).
Proof. apply (sound_op s (OpClaim r)). intros. apply drop_result. Qed.
#[export] Instance sound_Heartbeat s k l : SoundW (Heartbeat s k l).
Proof. apply (sound_op s (OpHeartbeat k l)). intros. apply drop_result. Qed.
#[export] Instance sound_Complete id a res : SoundW (Complete id a res).
Proof. apply (sound_op demo_s (OpComplete id a res)). intros. apply drop_result. Qed.
#[export] Instance sound_CancelRun k : SoundW (CancelRun k).
Proof. apply (sound_op demo_s (OpCancelRun k)). intros. apply drop_result. Qed.
#[export] Instance sound_AppendLogs s id a l : SoundW (AppendLogs s id a l).
Proof. by apply (sound_op s (OpAppendLogs id a l)). Qed.
#[export] Instance sound_newID n : SoundW (newID n).
Proof. intros w Hi Hc. by apply sound_refl. Qed.

Lemma soft_sound w w' : soft w w' → Inv (w_db w) → clock_pos w → sound w w'.
Proof.
  intros Hs Hi Hc. destruct (soft_good _ _ Hs Hi) as [He Hi']. split_and!; [apply He|done|].
  intros n. rewrite (evo_clock _ _ He). apply Hc.
Qed.

#[export] Instance sound_register_tx req : SoundW (register_tx req).
Proof.
  intros w Hi Hc. destruct (register_tx req w) as [[e|id] w'] eqn:E.
  - apply sound_refl; [by eapply Tx_err| |done..]. unfold register_tx, Tx in E. destruct (GetRunnerByName _ w) as [r w1] eqn:Eg.
    revert E. unfold mbind, M_bind. pose proof (clock_UpsertRunner) as Hcl. unfold ClockSafe in Hcl.
    destruct r as [e0|ex].
    + destruct e0; try by intros [= <- <-].
      pose proof (Hcl (hex_encode ((λ i, w_rand w (w_rands w + i)%nat) <$> seq 0 8)) (gq_Name req) (gq_Labels req)
        (gq_Capacity req) None "" (w <| w_rands := (w_rands w + 8)%nat |>)) as Hx. simpl in *.
      destruct (UpsertRunner _ _ _ _ _ _ _) as [[?|?] ?]; intros [=]; by subst.
    + pose proof (Hcl (rn_ID ex) (gq_Name req) (gq_Labels req) (gq_Capacity req) None (rn_Version ex) w) as Hx. simpl in *.
      destruct (UpsertRunner _ _ _ _ _ _ _) as [[?|?] ?]; intros [=]; by subst.
  - unfold register_tx in E. rewrite Tx_ok in E. destruct (GetRunnerByName _ w) as [[e0|ex] w1] eqn:Eg.
    + destruct e0; try done. apply mbind_ok in E as (id' & w2 & [= <- <-] & E). minv E.
      apply UpsertRunner_soft in Hm as [Hs _].
      exact (soft_sound _ _ Hs Hi Hc).
    + minv E. apply UpsertRunner_soft in Hm as [Hs _]. by apply soft_sound.
Qed.

(** Recording an artifact is a protocol step, by the fence. *)
Lemma record_tx_ok id a p size sha ct w x w' :
  record_tx id a p size sha ct w = (inr x, w') →
  ∃ r, job_at (w_db w) id = Some r ∧ jr_state r = JobRunning ∧ jr_attempt r = a ∧
    x = mkArtifact id a p size sha ct (now_of w) ∧
    w' = upd ((w_db w) <| db_artifacts :=
      match sql_row (is_artifact id a p) (db_artifacts (w_db w)) with
      | Some _ => sql_update (is_artifact id a p) (λ _, x) (db_artifacts (w_db w))
      | None => db_artifacts (w_db w) ++ [x]
      end |>) (tick w).
Proof.
  unfold record_tx. rewrite Tx_ok. destruct (job_at (w_db w) id) as [r|] eqn:Hr.
  2:{ rewrite (mbind_err _ _ _ _ _ (GetJob_none _ _ Hr)). done. }
  rewrite (mbind_step _ _ _ _ _ (GetJob_ok _ _ _ Hr)). unfold not_running. case_bool_decide as Hn; [done|].
  intros E. exists r. split; [done|].
  assert (jr_state r = JobRunning ∧ jr_attempt r = a) as [Hs Ha].
  { destruct (decide (jr_state r = JobRunning)), (decide (jr_attempt r = a)); try done; destruct Hn; simpl; auto. }
  unfold UpsertArtifact, mbind, M_bind in E; simpl in E. unfold job_at in Hr.
  destruct (sql_row (is_artifact id a p) (db_artifacts (w_db w))); [|rewrite Hr in E];
    unfold mret, M_ret in E; injection E as <- <-; by split_and!.
Qed.

#[export] Instance sound_record_tx id a p size sha ct : SoundW (record_tx id a p size sha ct).
Proof.
  intros w Hi Hc. destruct (record_tx id a p size sha ct w) as [[e|x] w'] eqn:E.
  - apply sound_refl; [by eapply Tx_err| |done..].
    assert (ClockSafe (record_tx id a p size sha ct)) as Hcl by (unfold record_tx, UpsertArtifact; clock_solve).
    specialize (Hcl w). rewrite E in Hcl. done.
  - apply record_tx_ok in E as (r & Hr & Hs & <- & -> & ->). simpl. apply (sound_trans _ (tick w)); [by apply sound_refl|].
    apply soft_sound; [|done|done]. apply soft_same; [apply evo_upd|done..]. eapply P_artifact; [exact Hr|done|].
    intros y Hy. destruct (sql_row _ _).
    + intros (z & Hz & E)%elem_of_sql_update. destruct (is_artifact _ _ _ z); subst; done.
    + intros [?|Hz%list_elem_of_singleton]%elem_of_app; [done|]. by subst y.
Qed.

Lemma CutPrefix_app s p t : CutPrefix s p = Some t ↔ s = p +:+ t.
Proof.
  revert s. induction p as [|a p IH]; intros s.
  { destruct s; (split; [by intros [= <-]|]); intros E; exact (f_equal Some E). }
  destruct s as [|b s]; simpl; [split; [done|]; intros E; discriminate E|].
  case_bool_decide as Hab.
  - rewrite IH. subst b. change (String a p +:+ t) with (String a (p +:+ t)). split; [by intros ->|by intros [= ->]].
  - split; [done|]. intros E. change (String a p +:+ t) with (String a (p +:+ t)) in E. by injection E as ->.
Qed.

(** A submission that fails before or in its transaction changed no table. *)
Lemma mfor_submit_db roots m l : ∀ acc w r w',
  mfor l acc (submit_job roots m) w = (r, w') → w_db w' = w_db w.
Proof.
  induction l as [|pj l IH]; intros acc w r w' E; simpl in E; [by injection E as _ <-|].
  unfold mbind, M_bind in E. unfold submit_job in E at 1. destruct (marshal_ok pj); [|by injection E as _ <-].
  unfold mbind, M_bind in E. simpl in E. apply IH in E. by rewrite E.
Qed.

Lemma submitRun_err id p src m w e w' : submitRun id p src m w = (inl e, w') → w_db w' = w_db w.
Proof.
  unfold submitRun. unfold mbind at 1, M_bind at 1.
  destruct (mfor (p_Jobs p) _ _ w) as [[e1|acc] w1] eqn:E1; apply mfor_submit_db in E1.
  - intros [= _ <-]. done.
  - intros E%Tx_err. congruence.
Qed.

(** ** Handlers *)

Section spec.
Context {B F : Type} `{Store : BlobStore B F}.
Implicit Types (s : State B) (rq : Request F).

Class SoundH {A} (m : M (State B) Response A) : Prop :=
  sound_h s : Inv (w_db (st_w s)) → clock_pos (st_w s) → sound (st_w s) (st_w (m s).2).

#[local] Instance h_ret {A} (a : A) : SoundH (mret a).
Proof. intros s Hi Hc. by apply sound_refl. Qed.
#[local] Instance h_reply {A} r : SoundH (@reply B A r).
Proof. intros s Hi Hc. by apply sound_refl. Qed.
#[local] Instance h_bind {A C} (m : M (State B) Response A) (f : A → M (State B) Response C) :
  SoundH m → (∀ a, SoundH (f a)) → SoundH (m ≫= f).
Proof.
  intros Hm Hf s Hi Hc. specialize (Hm s Hi Hc). unfold mbind, M_bind. destruct (m s) as [[r|a] s1]; [done|].
  simpl in *. destruct Hm as (? & Hi1 & Hc1). eapply sound_trans; [by split_and!|]. by apply Hf.
Qed.
#[local] Instance h_try {A} (m : W A) onerr : SoundW m → SoundH (@try_ B A m onerr).
Proof. intros Hm s Hi Hc. specialize (Hm (st_w s) Hi Hc). unfold try_. by destruct (m (st_w s)) as [[?|?] ?]. Qed.
#[local] Instance h_run {A} (m : W A) : SoundW m → SoundH (@run_w B A m).
Proof. intros Hm s Hi Hc. specialize (Hm (st_w s) Hi Hc). unfold run_w. by destruct (m (st_w s)) as [? ?]. Qed.
#[local] Instance h_discard f k : SoundH (discard f k).
Proof. intros s Hi Hc. by apply sound_refl. Qed.
#[local] Instance h_put f k b n : SoundH (put_blob f k b n).
Proof. intros s Hi Hc. unfold put_blob. destruct (blob_Put _ _ _ _ _). by apply sound_refl. Qed.
#[local] Instance h_get rid f k m : SoundH (get_blob rid f k m).
Proof. intros s Hi Hc. unfold get_blob. destruct (blob_Get f k (st_blob s)) as [[]|]; by apply sound_refl. Qed.

(** Split a handler's body until an instance applies. *)
Ltac sound_solve :=
  repeat first
    [ apply _
    | apply h_bind; [|intros ?]
    | case_match
    | progress cbv zeta beta ].

(** The HTTP surface preserves the control plane's invariant: whatever request
    arrives (any endpoint, token, body and store failure), a request other than a
    submission moves the database by protocol steps only and leaves it consistent,
    also when other requests that do the same run while an upload is streaming. *)
Theorem requests_keep_the_invariant srv during rq s :
  Inv (w_db (st_w s)) → clock_pos (st_w s) → rq_Endpoint rq ≠ EApi HSubmitRun →
  (∀ s, Inv (w_db (st_w s)) → clock_pos (st_w s) → sound (st_w s) (st_w (during s))) →
  let s' := (ServeHTTP srv during rq s).2 in
  PSteps (w_db (st_w s)) (w_db (st_w s')) ∧ Inv (w_db (st_w s')).
Proof.
  intros Hi Hc Hne Hd. cbv zeta.
  assert (Hmux : ∀ rid, SoundH (mux srv rid during rq)).
  { intros rid. unfold mux. destruct (rq_Endpoint rq) as [| | |h]; try apply _.
    unfold requireToken. destruct (authorized srv rq); [|apply _].
    assert (SoundH (mmodify (E := Response) during)) by (intros s0 ? ?; by apply Hd).
    destruct h; [done|..]; unfold handle, handleListRuns, handleGetRun, handleCancelRun, handleListEvents, handleGetSource,
      handleGetJob, handleGetLogs, handleListArtifacts, handleGetArtifact, handleListRunners, handleRegister, handleClaim,
      handleHeartbeat, handleComplete, handleAppendLogs, handleUploadArtifact, decodeRunnerBody, decodeBody, query_int,
      attemptParam; sound_solve. }
  unfold ServeHTTP. destruct (request_id rq s) as [rid s1] eqn:Er.
  assert (sound (st_w s) (st_w s1)) as Hs1.
  { unfold request_id in Er. case_bool_decide; [|injection Er as <- <-; by apply sound_refl].
    pose proof (sound_newID 8 (st_w s) Hi Hc) as Hn. destruct (newID 8 (st_w s)) as [[?|?] ?]; injection Er as <- <-; done. }
  destruct Hs1 as (Hp1 & Hi1 & Hc1). destruct (Hmux rid s1 Hi1 Hc1) as (Hp2 & Hi2 & _).
  destruct (mux srv rid during rq s1) as [[r|r] s2]; simpl in *; (split; [by etrans|done]).
Qed.

(** ** The token *)

(** C18: No request under /api/ is served without the token: unless a token is
    configured and the Authorization header is exactly "Bearer " followed by it,
    the response is 401 and neither the database, the metrics nor the blob store
    change; with the right header the endpoint's handler answers. *)
Theorem api_requires_the_token srv during rq s h :
  rq_Endpoint rq = EApi h →
  let '(r, s') := ServeHTTP srv during rq s in
  let '(rid, s1) := request_id rq s in
  (sv_token srv = "" ∨ Header rq "Authorization" ≠ "Bearer " +:+ sv_token srv →
     rp_Status r = 401 ∧ w_db (st_w s') = w_db (st_w s) ∧ w_metrics (st_w s') = w_metrics (st_w s) ∧ st_blob s' = st_blob s) ∧
  (sv_token srv ≠ "" ∧ Header rq "Authorization" = "Bearer " +:+ sv_token srv →
     let '(r', s2) := finish (handle srv rid during h rq s1) in
     r = mkResponse (rp_Status r') (("X-Request-ID", rid) :: rp_Headers r') (rp_Body r') ∧ s' = s2).
Proof.
  intros He. unfold ServeHTTP. destruct (request_id rq s) as [rid s1] eqn:Er. unfold mux. rewrite He.
  destruct (finish (requireToken srv rid (handle srv rid during h rq) rq s1)) as [r s'] eqn:Ef. split.
  - intros Ht. unfold requireToken in Ef. assert (authorized srv rq = false) as Ha.
    { unfold authorized. destruct (CutPrefix (Header rq "Authorization") "Bearer ") as [t|] eqn:Ec; [|done].
      apply CutPrefix_app in Ec. apply andb_false_iff. destruct Ht as [Ht|Ht]; [left; by rewrite bool_decide_true|].
      right. apply bool_decide_eq_false. by intros ->. }
    rewrite Ha in Ef. simpl in Ef. injection Ef as <- <-. unfold request_id in Er.
    case_bool_decide; [|injection Er as <- <-; done]. simpl in Er. injection Er as <- <-. done.
  - intros [Ht Hh]. assert (authorized srv rq = true) as Ha.
    { unfold authorized. rewrite (proj2 (CutPrefix_app _ _ (sv_token srv)) Hh).
      rewrite bool_decide_false, bool_decide_true by done. done. }
    unfold requireToken in Ef. rewrite Ha in Ef. by rewrite Ef.
Qed.
(** ** Uploads *)

Lemma sql_row_update_const {R} (P : R → bool) x (t : list R) :
  P x = true → is_Some (sql_row P t) → sql_row P (sql_update P (λ _, x) t) = Some x.
Proof.
  intros Hx. unfold sql_row, sql_update. induction t as [|y t IH]; simpl; [by intros [? ?]|].
  destruct (P y) eqn:E; [by rewrite Hx|]. rewrite E. auto.
Qed.

(** What the parameters of an upload must satisfy to reach the store. *)
Record upload_ok rq (a : Z) : Prop := {
  uo_attempt : ParseInt (PathValue rq "attempt") = Some a;
  uo_pos : 0 < a;
  uo_path : ValidatePath (PathValue rq "path") = None;
  uo_size : 0 ≤ rq_ContentLength rq ≤ MaxArtifactBytes
}.

Definition upload_type rq : string :=
  if bool_decide (Header rq "Content-Type" = "") then DefaultContentType else Header rq "Content-Type".

Lemma upload_parse srv rid during rq s :
  (∃ a, upload_ok rq a ∧
    handleUploadArtifact srv rid during rq s =
    (job ← try_ (GetJob (PathValue rq "id")) (storeError rid "job");
     if not_running job a then reply (writeError rid 409 fenced_msg)
     else
       r ← put_blob (rq_blob rq) (JobKey (j_RunID job) (PathValue rq "id") a (PathValue rq "path"))
             (MaxBytesReader (rq_Body rq) (rq_ContentLength rq)) (rq_ContentLength rq);
       match r with
       | Some (BlobRead TooBig) => reply (writeError rid 400 (MText "body longer than Content-Length"))
       | Some _ => reply (internalError rid)
       | None =>
           mmodify during;;
           out ← run_w (record_tx (PathValue rq "id") a (PathValue rq "path") (rq_ContentLength rq)
             (hex_encode (cd_sha256 (sv_codecs srv) (bd_bytes (MaxBytesReader (rq_Body rq) (rq_ContentLength rq)))))
             (upload_type rq));
           match out with
           | inl e =>
               discard (rq_discard rq) (JobKey (j_RunID job) (PathValue rq "id") a (PathValue rq "path"));;
               reply (if bool_decide (e = ErrFenced) then writeError rid 409 fenced_msg
                      else if bool_decide (e = ErrNotFound) then writeError rid 404 (MText "job not found")
                      else internalError rid)
           | inr row => mret (writeJSON 201 (PArtifact (toArtifactJSON row)))
           end
       end) s) ∨
  (¬ (∃ a, upload_ok rq a) ∧
   ∃ r, handleUploadArtifact srv rid during rq s = (inl r, s) ∧ rp_Status r ∈ [400; 411; 413]).
Proof.
  unfold handleUploadArtifact. set (bad := reply _). unfold mbind at 1, M_bind at 1.
  destruct (ParseInt (PathValue rq "attempt")) as [a|] eqn:Ea.
  2:{ right. split; [intros (a & []); congruence|]. eexists. split; [done|by left]. }
  case_bool_decide as Ha. { right. split; [intros (a' & []); assert (a = a') by congruence; lia|]. eexists. split; [done|by left]. }
  simpl. destruct (ValidatePath (PathValue rq "path")) as [e|] eqn:Ev.
  { right. split; [intros (a' & []); congruence|]. eexists. split; [done|by left]. }
  case_bool_decide as H1. { right. split; [intros (a' & [_ _ _ [? _]]); lia|]. eexists. split; [done|by right; left]. }
  case_bool_decide as H2. { right. split; [intros (a' & [_ _ _ [_ ?]]); lia|]. eexists. split; [done|by right; right; left]. }
  left. exists a. split; [|done]. split; [done|lia|done|lia].
Qed.

Lemma not_running_false row a : not_running (scanJob row) a = false ↔ jr_state row = JobRunning ∧ jr_attempt row = a.
Proof.
  unfold not_running. rewrite bool_decide_eq_false. simpl.
  destruct (decide (jr_state row = JobRunning)), (decide (jr_attempt row = a)); naive_solver.
Qed.

Lemma try_GetJob_ok s id row onerr :
  job_at (w_db (st_w s)) id = Some row → try_ (GetJob id) onerr s = (inr (scanJob row), s).
Proof. intros Hr. unfold try_. rewrite (GetJob_ok _ _ _ Hr). by destruct s. Qed.
Lemma try_GetJob_none s id onerr :
  job_at (w_db (st_w s)) id = None → try_ (GetJob id) onerr s = (inl (onerr ErrNotFound), s).
Proof. intros Hr. unfold try_. rewrite (GetJob_none _ _ Hr). by destruct s. Qed.

(** A late upload changes nothing: when the named attempt is not the job's
    running attempt (requeued, finished, cancelled, never claimed, or no such job),
    the request is refused with a 4xx status before a byte is stored, and the
    database, the blob store and the metrics stay as they were. *)
Theorem late_upload_changes_nothing srv rid during rq s :
  (∀ row, job_at (w_db (st_w s)) (PathValue rq "id") = Some row → jr_state row = JobRunning →
     ParseInt (PathValue rq "attempt") ≠ Some (jr_attempt row)) →
  ∃ r, handleUploadArtifact srv rid during rq s = (inl r, s) ∧ rp_Status r ∈ [400; 404; 409; 411; 413].
Proof.
  intros Hno. destruct (upload_parse srv rid during rq s) as [(a & Ha & ->)|(_ & r & E & Hr)].
  - destruct (job_at (w_db (st_w s)) (PathValue rq "id")) as [row|] eqn:Hrow.
    + rewrite (mbind_step _ _ _ _ _ (try_GetJob_ok _ _ _ _ Hrow)).
      destruct (not_running (scanJob row) a) eqn:Hn; [eexists; split; [done|set_solver]|].
      apply not_running_false in Hn as [Hs Hat]. destruct (Hno row eq_refl Hs). rewrite Hat. apply Ha.
    + rewrite (mbind_err _ _ _ _ _ (try_GetJob_none _ _ _ Hrow)). eexists. split; [done|set_solver].
  - exists r. split; [done|set_solver].
Qed.

Lemma MaxBytesReader_ok b n : bd_err (MaxBytesReader b n) = None → MaxBytesReader b n = b.
Proof. unfold MaxBytesReader. by case_bool_decide. Qed.

(** A 201 went through the store and the fenced transaction. *)
Lemma upload_created srv rid during rq s r s' :
  blob_inv (st_blob s) → handleUploadArtifact srv rid during rq s = (inr r, s') →
  ∃ a row w1, upload_ok rq a ∧ job_at (w_db (st_w s)) (PathValue rq "id") = Some row ∧
    jr_state row = JobRunning ∧ jr_attempt row = a ∧
    let key := JobKey (jr_run_id row) (PathValue rq "id") a (PathValue rq "path") in
    ∃ b1, blob_Put (rq_blob rq) key (MaxBytesReader (rq_Body rq) (rq_ContentLength rq)) (rq_ContentLength rq) (st_blob s) = (None, b1) ∧
      MaxBytesReader (rq_Body rq) (rq_ContentLength rq) = rq_Body rq ∧
      let s1 := during (mkState (st_w s) b1) in
      let x := mkArtifact (PathValue rq "id") a (PathValue rq "path") (rq_ContentLength rq)
        (hex_encode (cd_sha256 (sv_codecs srv) (bd_bytes (rq_Body rq)))) (upload_type rq) (now_of (st_w s1)) in
      record_tx (PathValue rq "id") a (PathValue rq "path") (rq_ContentLength rq)
        (hex_encode (cd_sha256 (sv_codecs srv) (bd_bytes (rq_Body rq)))) (upload_type rq) (st_w s1) = (inr x, w1) ∧
      r = writeJSON 201 (PArtifact (toArtifactJSON x)) ∧ s' = mkState w1 (st_blob s1).
Proof.
  intros Hinv. destruct (upload_parse srv rid during rq s) as [(a & Ha & ->)|(_ & r0 & E & _)]; [|by rewrite E].
  destruct (job_at (w_db (st_w s)) (PathValue rq "id")) as [row|] eqn:Hrow.
  2:{ rewrite (mbind_err _ _ _ _ _ (try_GetJob_none _ _ _ Hrow)). done. }
  rewrite (mbind_step _ _ _ _ _ (try_GetJob_ok _ _ _ _ Hrow)).
  destruct (not_running (scanJob row) a) eqn:Hn; [done|]. apply not_running_false in Hn as [Hs Hat].
  change (j_RunID (scanJob row)) with (jr_run_id row). set (key := JobKey _ _ _ _).
  unfold put_blob, mbind, M_bind. simpl.
  destruct (blob_Put (rq_blob rq) key (MaxBytesReader (rq_Body rq) (rq_ContentLength rq)) (rq_ContentLength rq) (st_blob s))
    as [e b1] eqn:Ep.
  destruct e as [e|]. { destruct e as [| | | |[]|]; done. }
  destruct (put_ok _ _ _ _ _ _ Hinv Ep) as (_ & Hbe & _). apply MaxBytesReader_ok in Hbe. rewrite Hbe in *.
  unfold mmodify, run_w. simpl. set (s1 := during (mkState (st_w s) b1)).
  destruct (record_tx _ _ _ _ _ _ (st_w s1)) as [out w1] eqn:Er. destruct out as [e|x]; [done|].
  intros [= <- <-]. pose proof (record_tx_ok _ _ _ _ _ _ _ _ _ Er) as (row1 & _ & _ & _ & -> & _).
  exists a, row, w1. split_and!; try done. exists b1. by split_and!.
Qed.

Lemma recorded_row id a p x t :
  is_artifact id a p x = true →
  sql_row (is_artifact id a p)
    match sql_row (is_artifact id a p) t with
    | Some _ => sql_update (is_artifact id a p) (λ _, x) t
    | None => t ++ [x]
    end = Some x.
Proof.
  intros Hx. destruct (sql_row (is_artifact id a p) t) as [y|] eqn:E.
  - apply sql_row_update_const; [done|by rewrite E].
  - unfold sql_row in *. rewrite find_app, E. simpl. by rewrite Hx.
Qed.

Lemma delete_gone key b : blob_inv b →
  blob_at (blob_Delete calm key b).2 key = None ∧
  ∀ k, k ≠ key → blob_at (blob_Delete calm key b).2 k = blob_at b k.
Proof.
  intros Hinv. destruct (blob_Delete calm key b) as [[e|] b'] eqn:E; simpl.
  - pose proof (delete_err _ _ _ _ _ Hinv E) as Hd. split; [|by intros; apply Hd]. rewrite Hd.
    destruct (blob_at b key) eqn:Hat; [|done]. pose proof (delete_calm key b Hinv) as Hc. rewrite E, Hat in Hc.
    discriminate Hc. by exists l.
  - by apply (delete_ok _ _ _ _ Hinv E).
Qed.

Lemma delete_other f key b k : blob_inv b → k ≠ key → blob_at (blob_Delete f key b).2 k = blob_at b k.
Proof.
  intros Hi Hk. destruct (blob_Delete f key b) as [[e|] b'] eqn:E; simpl; [by eapply delete_err|]. by apply (delete_ok _ _ _ _ Hi E).
Qed.

(** An upload that loses the fence while its body streams is undone.  When the
    attempt was running at the first check but is not any more in the transaction,
    the answer is 409, no row is recorded, the database is as the other requests
    left it, the object is gone and no other object is touched. *)
Theorem fenced_upload_is_discarded srv rid during rq s a row row1 b1 :
  let key := JobKey (jr_run_id row) (PathValue rq "id") a (PathValue rq "path") in
  let s1 := during (mkState (st_w s) b1) in
  upload_ok rq a → job_at (w_db (st_w s)) (PathValue rq "id") = Some row →
  jr_state row = JobRunning → jr_attempt row = a →
  blob_Put (rq_blob rq) key (MaxBytesReader (rq_Body rq) (rq_ContentLength rq)) (rq_ContentLength rq) (st_blob s) = (None, b1) →
  job_at (w_db (st_w s1)) (PathValue rq "id") = Some row1 →
  ¬ (jr_state row1 = JobRunning ∧ jr_attempt row1 = a) → blob_inv (st_blob s1) → rq_discard rq = calm →
  ∃ r s', handleUploadArtifact srv rid during rq s = (inl r, s') ∧ rp_Status r = 409 ∧
    w_db (st_w s') = w_db (st_w s1) ∧ blob_at (st_blob s') key = None ∧
    ∀ k, k ≠ key → blob_at (st_blob s') k = blob_at (st_blob s1) k.
Proof.
  intros key s1 Ha Hrow Hst Hat Ep Hrow1 Hn1 Hinv1 Hcalm.
  destruct (upload_parse srv rid during rq s) as [(a' & Ha' & ->)|(Hno & _)]; [|by destruct Hno; exists a].
  assert (a' = a) as -> by (destruct Ha, Ha'; congruence).
  rewrite (mbind_step _ _ _ _ _ (try_GetJob_ok _ _ _ _ Hrow)).
  rewrite (proj2 (not_running_false row a)) by done. change (j_RunID (scanJob row)) with (jr_run_id row). fold key.
  unfold put_blob, mbind, M_bind. simpl. rewrite Ep. unfold mmodify, run_w. simpl. fold s1.
  assert (Hrec : ∀ n sha ct, record_tx (PathValue rq "id") a (PathValue rq "path") n sha ct (st_w s1) =
    (inl ErrFenced, (st_w s1) <| w_db := w_db (st_w s1) |>)).
  { intros. unfold record_tx, Tx. rewrite (mbind_step _ _ _ _ _ (GetJob_ok _ _ _ Hrow1)).
    destruct (not_running (scanJob row1) a) eqn:E; [done|]. by apply not_running_false in E. }
  rewrite Hrec. unfold discard, reply. simpl. rewrite Hcalm. destruct (delete_gone key (st_blob s1) Hinv1).
  eexists _, _. split_and!; done.
Qed.

(** ** Registration *)

Definition runners_ok (d : DB) : Prop := keys_unique nr_id (db_runners d) ∧ keys_unique nr_name (db_runners d).

Lemma GetRunnerByName_run name w : GetRunnerByName name w =
  (match sql_row (by_key nr_name name) (db_runners (w_db w)) with Some r => inr (scanRunner r) | None => inl ErrNotFound end, w).
Proof. unfold GetRunnerByName, mbind, M_bind, get_db. simpl. by destruct (sql_row _ _). Qed.

Lemma update_names_unique id name f t :
  keys_unique nr_id t → keys_unique nr_name t → (∀ r, r ∈ t → nr_name r = name → nr_id r = id) →
  (∀ r, nr_name (f r) = name) → keys_unique nr_name (sql_update (by_key nr_id id) f t).
Proof.
  unfold keys_unique, sql_update. intros Hid Hnm Ho Hf. induction t as [|x t IH]; [done|].
  rewrite !fmap_cons in *. apply NoDup_cons in Hid as [Hx Hid], Hnm as [Hnx Hnm].
  assert (Ho' : ∀ r, r ∈ t → nr_name r = name → nr_id r = id) by (intros; apply Ho; [by right|done]).
  apply NoDup_cons. split; [|by apply IH]. intros (y & Ey & (z & -> & Hz)%list_elem_of_fmap)%list_elem_of_fmap.
  simpl in Ey. case_bool_decide as Hxi; case_bool_decide as Hzi.
  - destruct Hx. rewrite Hxi, <-Hzi. by apply list_elem_of_fmap_2.
  - rewrite Hf in Ey. by apply Hzi, Ho'.
  - rewrite Hf in Ey. apply Hxi, Ho; [by left|done].
  - destruct Hnx. rewrite Ey. by apply list_elem_of_fmap_2.
Qed.

(** A successful upsert leaves exactly one row under the name, with the given id. *)
Lemma UpsertRunner_row id name labels cap ver w x w' :
  runners_ok (w_db w) → UpsertRunner id name labels cap None ver w = (inr x, w') →
  id ≠ "" ∧ runners_ok (w_db w') ∧
  ∃ r, sql_row (by_key nr_name name) (db_runners (w_db w')) = Some r ∧ nr_id r = id ∧ nr_labels r = labels ∧
    nr_capacity r = Z.max 1 cap ∧ nr_version r = ver ∧ nr_state r = RunnerOnline.
Proof.
  intros [Hid Hname]. unfold UpsertRunner. case_bool_decide; [done|]. intros Hm. minv Hm.
  unfold Now in Hm0. injection Hm0 as <- <-. unfold get_db in Hm1. injection Hm1 as <- <-.
  split; [done|]. destruct (List.existsb _ _) eqn:Ex; [done|]. simpl in *.
  assert (Hcap : (if bool_decide (cap ≤ 0) then 1 else cap) = Z.max 1 cap) by (case_bool_decide; lia).
  assert (Hother : ∀ r, r ∈ db_runners (w_db w) → nr_name r = name → nr_id r = id).
  { intros r Hr Hn. destruct (decide (nr_id r = id)) as [|Hne]; [done|]. apply not_true_iff_false in Ex. destruct Ex.
    apply existsb_exists. exists r. split; [by apply list_elem_of_In|].
    by rewrite bool_decide_true, bool_decide_true. }
  rewrite Hcap in Hm. destruct (sql_row (by_key nr_id id) (db_runners (w_db w))) as [r0|] eqn:Er; minv Hm;
    unfold put_db in *; simplify_eq; simpl.
  - set (f := λ r, mkRunnerRow id name labels (Z.max 1 cap) RunnerOnline ver (w_clock w (w_reads w)) (nr_registered_at r)).
    assert (Hu : keys_unique nr_name (sql_update (by_key nr_id id) f (db_runners (w_db w)))) by (by apply (update_names_unique id name)).
    split; [split; [|done]|].
    + change (keys_unique nr_id (sql_update (by_key nr_id id) f (db_runners (w_db w)))).
      unfold keys_unique. rewrite sql_update_keys; [done|]. intros r Hr. by apply bool_decide_eq_true in Hr.
    + apply sql_row_key in Er as [Hr0 Hr0id]. exists (f r0). split; [|done]. apply sql_row_iff; [done|]. split; [|done].
      apply elem_of_sql_update. exists r0. split; [done|]. unfold by_key. by rewrite bool_decide_true.
  - set (r := mkRunnerRow _ _ _ _ _ _ _ _).
    assert (Hnew : ∀ x, x ∈ db_runners (w_db w) → nr_id x ≠ id).
    { intros x Hx E. pose proof (sql_row_None _ _ Er x Hx) as Hk. simpl in Hk. by apply bool_decide_eq_false in Hk. }
    assert (Hu : keys_unique nr_name (db_runners (w_db w) ++ [r])).
    { unfold keys_unique. rewrite fmap_app. apply NoDup_app. split_and!; [done| |by apply NoDup_singleton].
      intros y (x & -> & Hx)%list_elem_of_fmap Hy%list_elem_of_singleton. by apply (Hnew x), Hother. }
    split; [split; [|done]|].
    + change (keys_unique nr_id (db_runners (w_db w) ++ [r])).
      unfold keys_unique. rewrite fmap_app. apply NoDup_app. split_and!; [done| |by apply NoDup_singleton].
      intros y (x & -> & Hx)%list_elem_of_fmap Hy%list_elem_of_singleton. by apply (Hnew x).
    + exists r. split; [|done]. apply sql_row_iff; [done|]. split; [|done]. apply elem_of_app. right. by left.
Qed.

(** Registration is idempotent: once a name has been registered, registering
    it again succeeds with the same runner id, refreshes the labels and the capacity
    (at least one), keeps the recorded version, and leaves one row per name and id. *)
Theorem register_is_idempotent req1 req2 w id w1 :
  runners_ok (w_db w) → gq_Name req2 = gq_Name req1 → register_tx req1 w = (inr id, w1) →
  ∃ w2 r1 r2, register_tx req2 w1 = (inr id, w2) ∧ runners_ok (w_db w2) ∧
    sql_row (by_key nr_name (gq_Name req1)) (db_runners (w_db w1)) = Some r1 ∧ nr_id r1 = id ∧
    sql_row (by_key nr_name (gq_Name req1)) (db_runners (w_db w2)) = Some r2 ∧ nr_id r2 = id ∧
    nr_labels r2 = gq_Labels req2 ∧ nr_capacity r2 = Z.max 1 (gq_Capacity req2) ∧ nr_version r2 = nr_version r1.
Proof.
  intros Hok En H1.
  assert (Hfirst : id ≠ "" ∧ runners_ok (w_db w1) ∧
    ∃ r, sql_row (by_key nr_name (gq_Name req1)) (db_runners (w_db w1)) = Some r ∧ nr_id r = id).
  { unfold register_tx in H1. rewrite Tx_ok in H1. rewrite GetRunnerByName_run in H1.
    destruct (sql_row (by_key nr_name (gq_Name req1)) (db_runners (w_db w))) as [r0|].
    - minv H1. apply UpsertRunner_row in Hm as (? & ? & r & ? & ? & _); [|done]. eauto.
    - apply mbind_ok in H1 as (id' & w' & [= <- <-] & H1). minv H1.
      apply UpsertRunner_row in Hm as (? & ? & r & ? & ? & _); [|done]. eauto. }
  destruct Hfirst as (Hne & Hok1 & r1 & Hr1 & Hid1).
  assert (Hup : ∃ x w2, UpsertRunner id (gq_Name req1) (gq_Labels req2) (gq_Capacity req2) None (nr_version r1) w1 = (inr x, w2)).
  { unfold UpsertRunner. rewrite bool_decide_false by done. unfold mbind, M_bind. simpl.
    destruct (List.existsb _ _) eqn:Ex.
    - exfalso. apply existsb_exists in Ex as (y & Hy%list_elem_of_In & [Hn%bool_decide_eq_true Hi%bool_decide_eq_true]%andb_true_iff).
      rewrite (proj2 (sql_row_iff nr_name _ _ y (proj2 Hok1)) (conj Hy Hn)) in Hr1. simplify_eq.
    - destruct (sql_row (by_key nr_id id) _); eexists _, _; reflexivity. }
  destruct Hup as (x & w2 & Hup). pose proof Hup as Hup'. apply UpsertRunner_row in Hup' as (_ & Hok2 & r2 & Hr2 & ? & ? & ? & ? & _); [|done].
  exists w2, r1, r2. split_and!; try done. unfold register_tx. apply Tx_step. rewrite GetRunnerByName_run, En, Hr1. simpl.
  rewrite Hid1. by rewrite (mbind_step _ _ _ _ _ Hup).
Qed.
(** ** Log pages *)

Section pages.
Context {A : Type} (leb : A → A → bool) (P : A → bool).
Context (leb_total : ∀ x y, leb x y = true ∨ leb y x = true)
        (leb_trans : ∀ x y z, leb x y = true → leb y z = true → leb x z = true).
Let R x y := leb x y = true.

Lemma insert_by_filter x l : StronglySorted R l →
  List.filter P (insert_by leb x l) = if P x then insert_by leb x (List.filter P l) else List.filter P l.
Proof.
  induction 1 as [|y l Hs IH Hf]; simpl; [by destruct (P x)|].
  destruct (leb x y) eqn:E; simpl.
  - destruct (P x) eqn:Px; [|done]. destruct (P y); simpl; [by rewrite E|].
    assert (Hall : Forall (λ z, leb x z = true) (List.filter P l)).
    { apply Forall_forall. intros z [Hz _]%list_elem_of_In%filter_In. rewrite Forall_forall in Hf.
      eapply leb_trans; [exact E|]. apply Hf. by apply list_elem_of_In. }
    destruct (List.filter P l); simpl; [done|]. apply Forall_cons in Hall as [-> _]. done.
  - rewrite IH. destruct (P x) eqn:Px, (P y) eqn:Py; simpl; try done. by rewrite E.
Qed.

Lemma order_by_filter l : List.filter P (order_by leb l) = order_by leb (List.filter P l).
Proof.
  induction l as [|x l IH]; simpl; [done|]. rewrite insert_by_filter by (by apply order_by_sorted).
  rewrite IH. by destruct (P x).
Qed.

(** A sorted list splits at a predicate closed under smaller elements. *)
Lemma sorted_split l : StronglySorted R l → (∀ x y, leb x y = true → P y = true → P x = true) →
  l = List.filter P l ++ List.filter (λ x, negb (P x)) l.
Proof.
  intros Hs Hdown. induction Hs as [|x l Hs IH Hf]; simpl; [done|]. destruct (P x) eqn:Px; simpl; [by f_equal|].
  assert (Hnone : ∀ y, y ∈ l → P y = false).
  { intros y Hy. rewrite Forall_forall in Hf. destruct (P y) eqn:Py; [|done].
    by rewrite (Hdown x y) in Px by (by apply Hf || done). }
  assert (E1 : List.filter P l = []).
  { clear -Hnone. induction l as [|y l IH]; simpl; [done|]. rewrite Hnone by (by left). apply IH. intros; apply Hnone; by right. }
  rewrite E1 in IH |- *. simpl in *. by rewrite <-IH.
Qed.
End pages.

(** The cursor and the attempt a request names. *)
Definition cursor rq (a : Z) : Prop :=
  (Query rq "after" = "" ∧ a = 0) ∨ (Query rq "after" ≠ "" ∧ ParseInt (Query rq "after") = Some a ∧ 0 ≤ a).
Definition asks rq (row : JobRow) (n : Z) : Prop :=
  (Query rq "attempt" = "" ∧ n = jr_attempt row) ∨ (Query rq "attempt" ≠ "" ∧ ParseInt (Query rq "attempt") = Some n ∧ 0 < n).

Definition page (d : DB) (id : string) (n after : Z) : list LogRow :=
  order_by seq_leb (sql_select (λ r, is_chunk id n r && bool_decide (after < lr_seq r)) (db_log_chunks d)).
Definition chunk_of (r : LogRow) : logChunkJSON := mkLogChunkJSON (lr_seq r) (lr_data r).

Lemma seq_leb_total a b : seq_leb a b = true ∨ seq_leb b a = true.
Proof. unfold seq_leb. rewrite !bool_decide_eq_true. lia. Qed.
Lemma seq_leb_trans a b c : seq_leb a b = true → seq_leb b c = true → seq_leb a c = true.
Proof. unfold seq_leb. rewrite !bool_decide_eq_true. lia. Qed.

Lemma logs_response_eq n after (l : list LogRow) :
  logs_response n after ((λ r, mkLogChunk (lr_seq r) (lr_data r)) <$> l) =
  mkLogsResponse n (chunk_of <$> l) (default after (lr_seq <$> last l)).
Proof.
  unfold logs_response. induction l as [|x l IH] using rev_ind; [done|].
  rewrite !fmap_app, foldl_app, IH. simpl. by rewrite last_snoc.
Qed.

Lemma handleGetLogs_ok rid rq s row n a :
  job_at (w_db (st_w s)) (PathValue rq "id") = Some row → asks rq row n → cursor rq a →
  let l := page (w_db (st_w s)) (PathValue rq "id") n a in
  handleGetLogs rid rq s =
    (inr (writeJSON 200 (PLogs (mkLogsResponse n (chunk_of <$> l) (default a (lr_seq <$> last l))))), s).
Proof.
  intros Hr Hn Ha l. unfold handleGetLogs. rewrite (mbind_step _ _ _ _ _ (try_GetJob_ok _ _ _ _ Hr)).
  assert (Hat : attemptParam rid rq (scanJob row) s = (inr n, s)).
  { unfold attemptParam. destruct Hn as [[-> ->]|(Hq & -> & Hp)]; [done|].
    rewrite bool_decide_false by done. by rewrite bool_decide_false by lia. }
  rewrite (mbind_step _ _ _ _ _ Hat).
  assert (Haf : query_int rid rq "after" 0 "after must be a non-negative integer" s = (inr a, s)).
  { unfold query_int. destruct Ha as [[-> ->]|(Hq & -> & Hp)]; [done|].
    rewrite bool_decide_false by done. by rewrite bool_decide_false by lia. }
  rewrite (mbind_step _ _ _ _ _ Haf). change (j_ID (scanJob row)) with (jr_id row).
  assert (jr_id row = PathValue rq "id") as -> by (by apply sql_row_key in Hr as [_ ?]).
  unfold try_, ListLogChunks, mbind, M_bind, get_db. simpl. fold l. rewrite logs_response_eq. by destruct s.
Qed.

Lemma filter_chunks c (l : list LogRow) :
  filter (λ x, lc_Seq x ≤ c) (chunk_of <$> l) = chunk_of <$> List.filter (λ r, bool_decide (lr_seq r ≤ c)) l.
Proof.
  induction l as [|x l IH]; [done|]. rewrite fmap_cons, filter_cons, IH. cbn [List.filter].
  case_bool_decide; case_decide; done.
Qed.

(** Log paging neither repeats nor skips: a page holds, in sequence order,
    exactly the attempt's stored chunks beyond the cursor, its [next] is the last
    sequence number it holds (the cursor itself for an empty page), and for any later
    cursor the page is its own chunks up to that cursor followed by the page at that
    cursor, so following [next] yields every chunk once. *)
Theorem log_pages_compose rid rq rq' s row n a c :
  job_at (w_db (st_w s)) (PathValue rq "id") = Some row → PathValue rq' "id" = PathValue rq "id" →
  asks rq row n → asks rq' row n → cursor rq a → cursor rq' c →
  ∃ p p',
    handleGetLogs rid rq s = (inr (writeJSON 200 (PLogs p)), s) ∧
    handleGetLogs rid rq' s = (inr (writeJSON 200 (PLogs p')), s) ∧
    (∀ x, x ∈ ls_Chunks p ↔ ∃ r, r ∈ db_log_chunks (w_db (st_w s)) ∧ lr_job_id r = PathValue rq "id" ∧
        lr_attempt r = n ∧ a < lr_seq r ∧ x = mkLogChunkJSON (lr_seq r) (lr_data r)) ∧
    StronglySorted (λ x y, lc_Seq x ≤ lc_Seq y) (ls_Chunks p) ∧
    ls_Next p = default a (lc_Seq <$> last (ls_Chunks p)) ∧
    (a ≤ c → ls_Chunks p = filter (λ x, lc_Seq x ≤ c) (ls_Chunks p) ++ ls_Chunks p').
Proof.
  intros Hr Eid Hn Hn' Ha Hc. set (d := w_db (st_w s)). set (id := PathValue rq "id").
  set (l := page d id n a). set (l' := page d id n c).
  exists (mkLogsResponse n (chunk_of <$> l) (default a (lr_seq <$> last l))).
  exists (mkLogsResponse n (chunk_of <$> l') (default c (lr_seq <$> last l'))). simpl.
  assert (Hsl : StronglySorted (λ x y, seq_leb x y = true) l)
    by (apply order_by_sorted; [apply seq_leb_total|apply seq_leb_trans]).
  split_and!.
  - by apply (handleGetLogs_ok rid rq s row n a).
  - rewrite (handleGetLogs_ok rid rq' s row n c); [by rewrite Eid|by rewrite Eid|done|done].
  - intros x. rewrite list_elem_of_fmap. split.
    + intros (r & -> & Hx). unfold l, page in Hx. rewrite elem_of_order_by, elem_of_sql_select in Hx. unfold is_chunk in Hx.
      rewrite !andb_true_iff, !bool_decide_eq_true in Hx. exists r. destruct Hx as [? [[? ?] ?]]. by split_and!.
    + intros (r & Hin & H1 & H2 & H3 & ->). exists r. split; [done|]. unfold l, page.
      rewrite elem_of_order_by, elem_of_sql_select. unfold is_chunk. rewrite !andb_true_iff, !bool_decide_eq_true. by split_and!.
  - clear -Hsl. induction Hsl as [|x l Hs IH Hf]; [constructor|]. rewrite fmap_cons. constructor; [done|].
    apply Forall_forall. intros y (r & -> & Hy)%list_elem_of_fmap. rewrite Forall_forall in Hf. specialize (Hf r Hy).
    unfold seq_leb in Hf. by apply bool_decide_eq_true in Hf.
  - rewrite fmap_last. by destruct (last l).
  - intros Hac. set (P := λ r, bool_decide (lr_seq r ≤ c)).
    assert (E : l = List.filter P l ++ l').
    { rewrite (sorted_split seq_leb P l Hsl) at 1.
      2:{ intros x y. unfold seq_leb, P. rewrite !bool_decide_eq_true. lia. }
      f_equal. unfold l, l', page. rewrite order_by_filter by (apply seq_leb_total || apply seq_leb_trans). f_equal.
      unfold sql_select. generalize (db_log_chunks d) as t. induction t as [|x t IH]; simpl; [done|].
      unfold P in *. destruct (is_chunk id n x); simpl; [|done].
      repeat case_bool_decide; simpl; repeat case_bool_decide; simpl; rewrite ?IH; done || lia. }
    rewrite E at 1. by rewrite fmap_app, filter_chunks.
Qed.
(** ** Completion *)

Definition complete_status (d : DB) (id : string) (req : completeRequest) : Z :=
  if bool_decide (pq_RunnerID req = "") || bool_decide (pq_Attempt req <= 0) then 400
  else match valid_result (mkResult (pq_Status req) (pq_FailureKind req) (pq_ExitCode req) (pq_Error req)) with
       | Some _ => 400
       | None =>
           match job_at d id with
           | None => 404
           | Some row => if bool_decide (jr_attempt row = pq_Attempt req ∧ (jr_state row = JobRunning ∨ terminal (jr_state row)))
                         then 200 else 409
           end
       end.

Lemma valid_result_bad res e : valid_result res = Some e → isBadResult e = true ∧ e ≠ ErrFenced ∧ e ≠ ErrNotFound.
Proof. unfold valid_result. intros H0. repeat case_match; simplify_eq; done. Qed.

(** A completion is answered by what the database says, and never with 500: 400
    for a missing runner id, a non-positive attempt or an unknown status or failure
    kind, 404 for an unknown job, 200 exactly when the attempt is the job's and the
    job is running it or has finished with it, 409 otherwise; whenever the answer
    is not 200 the database is unchanged. *)
Theorem complete_answers_by_the_fence srv rid rq s raw req :
  Inv (w_db (st_w s)) → ReadAll (MaxBytesReader (rq_Body rq) MaxRunnerBodyBytes) = inr raw →
  cd_complete (sv_codecs srv) raw = inr req →
  let '(r, s') := finish (handleComplete srv rid rq s) in
  rp_Status r = complete_status (w_db (st_w s)) (PathValue rq "id") req ∧
  (rp_Status r ≠ 200 → w_db (st_w s') = w_db (st_w s)).
Proof.
  intros Hinv Hraw Hreq. unfold handleComplete, decodeRunnerBody, decodeBody, complete_status. rewrite Hraw, Hreq, mbind_ret.
  destruct (bool_decide (pq_RunnerID req = "") || bool_decide (pq_Attempt req <= 0)); [done|].
  set (res := mkResult _ _ _ _). set (id := PathValue rq "id"). unfold try_, mbind, M_bind, Complete.
  destruct (valid_result res) as [e|] eqn:Hv.
  { simpl. destruct (valid_result_bad _ _ Hv) as (Hb & H1 & H2). unfold runner_error.
    rewrite !bool_decide_false, Hb by done. done. }
  destruct (job_at (w_db (st_w s)) id) as [row|] eqn:Hr.
  2:{ unfold mbind, M_bind, Tx, complete_tx. unfold mbind, M_bind. rewrite (GetJob_none _ _ Hr). done. }
  destruct (decide (jr_state row = JobRunning ∧ jr_attempt row = pq_Attempt req)) as [[Hs Hat]|Hno].
  - destruct (complete_tx_running (st_w s) id row res Hinv Hr Hs Hv) as (tr & w1 & w2 & out & E & _).
    rewrite Hat in E. unfold mbind, M_bind. rewrite (Tx_step _ _ _ _ E). simpl.
    rewrite bool_decide_true by auto. done.
  - assert (Hst : jr_state row ≠ JobRunning ∨ jr_attempt row ≠ pq_Attempt req)
      by (destruct (decide (jr_state row = JobRunning)), (decide (jr_attempt row = pq_Attempt req)); naive_solver).
    pose proof (complete_tx_stale (st_w s) id row (pq_Attempt req) res Hr Hst) as E.
    unfold mbind, M_bind, Tx. rewrite E. case_bool_decide as Hd.
    + simpl. rewrite bool_decide_true by naive_solver. done.
    + rewrite (bool_decide_false (_ ∧ _)) by naive_solver. done.
Qed.

(** ** Submission *)

(** The stored bundle is the only object a submission touches. *)
Record touched (key : string) (b b' : B) : Prop := {
  to_inv : blob_inv b';
  to_other : ∀ k, k ≠ key → blob_reserved k = false → blob_at b' k = blob_at b k;
  to_kept : ∀ k data, k ≠ key → blob_at b k = Some data → blob_at b' k = Some data
}.

Lemma touched_put f key body size b r b' :
  blob_inv b → blob_Put f key body size b = (r, b') → touched key b b'.
Proof.
  intros Hinv E. split; [pose proof (put_inv f key body size b Hinv) as Hp; by rewrite E in Hp| |];
    intros k; (destruct r as [e|]; [destruct (put_err _ _ _ _ _ _ _ Hinv E k) as [?|[? ?]]; congruence|]);
    destruct (put_ok _ _ _ _ _ _ Hinv E) as (_ & _ & _ & Ho); intros; rewrite Ho; done.
Qed.

Lemma read_parts_touched f id m : ∀ src stored s res stored' s',
  blob_inv (st_blob s) → read_parts f id src stored m s = (res, stored', s') →
  touched (SourceKey id) (st_blob s) (st_blob s') ∧ st_w s' = st_w s ∧ (stored' = false → st_blob s' = st_blob s).
Proof.
  induction m as [|e|name body rest IH]; intros src stored s res stored' s' Hinv E; simpl in E.
  1,2: injection E as <- <- <-; by split_and!.
  assert (Hsame : (res, stored', s') = (res, stored', s) → touched (SourceKey id) (st_blob s) (st_blob s') ∧
    st_w s' = st_w s ∧ (stored' = false → st_blob s' = st_blob s)) by (intros [= ->]; by split_and!).
  case_bool_decide as Hn1.
  { destruct (ReadAll _) as [e|b]; [apply Hsame; congruence|]. case_bool_decide; [apply Hsame; congruence|]. eauto. }
  case_bool_decide as Hn2; [|apply Hsame; congruence].
  destruct (blob_Put f (SourceKey id) body (-1) (st_blob s)) as [r b'] eqn:Ep. pose proof (touched_put _ _ _ _ _ _ _ Hinv Ep) as Ht.
  destruct r as [e|]; [by injection E as <- <- <-; split_and!|].
  assert (Hst : stored' = true).
  { clear -E. assert (Hg : ∀ m src s, (read_parts f id src true m s).1.2 = true).
    { intros m. induction m as [| |nm bd rs IHm]; intros; simpl; [done..|]. repeat case_match; simpl; done || apply IHm. }
    specialize (Hg rest src (mkState (st_w s) b')). by rewrite E in Hg. }
  apply IH in E as ([Hi Ho Hd] & Ew & _); [|apply Ht]. simpl in *. split_and!; [split; [done|..]|done|by rewrite Hst].
  - intros k Hk Hres. rewrite Ho by done. by apply Ht.
  - intros k data Hk Hdata. apply Hd; [done|]. by apply Ht.
Qed.

Lemma read_submit_touched srv rq id s res stored s' :
  blob_inv (st_blob s) → read_submit srv rq id s = (res, stored, s') →
  touched (SourceKey id) (st_blob s) (st_blob s') ∧ st_w s' = st_w s ∧ (stored = false → st_blob s' = st_blob s).
Proof.
  intros Hinv. unfold read_submit, readMultipartSubmit. case_bool_decide; [|intros [= <- <- <-]; by split_and!].
  destruct (cd_multipart _ _ _); [by apply read_parts_touched|]. intros [= <- <- <-]; by split_and!.
Qed.

(** The cleanup after a failure: the other objects are as before the submission, and so is
    the bundle's key if it was unused and the delete did not fail. *)
Lemma discard_if_ok stored rq id s b0 :
  blob_inv (st_blob s) → touched (SourceKey id) b0 (st_blob s) → (stored = false → st_blob s = b0) →
  ∃ s', discard_if stored rq id s = (inr tt, s') ∧ st_w s' = st_w s ∧ touched (SourceKey id) b0 (st_blob s') ∧
    (rq_discard rq = calm → blob_at b0 (SourceKey id) = None → blob_at (st_blob s') (SourceKey id) = None).
Proof.
  intros Hinv Ht Hsame. unfold discard_if. destruct stored.
  - destruct Ht as [Hi Ho Hk]. eexists. split; [done|]. split; [done|]. simpl. split; [split|].
    + by apply delete_inv.
    + intros k Hne Hres. rewrite delete_other by done. by apply Ho.
    + intros k data Hne Hd. rewrite delete_other by done. by apply Hk.
    + intros -> _. by apply delete_gone.
  - exists s. split; [done|]. split; [done|]. split; [done|]. by rewrite Hsame.
Qed.

(** C17: A failed submission is cleaned up.  When a submission is not answered 201
    (oversized or unreadable body, unexpected field, store failure, invalid pipeline, id
    collision), the answer is 400, 413 or 500 and the database is unchanged: there is no
    run.  In the blob store nothing but the object under the source key of the id that
    was drawn can differ: every other object is still there and, temporary names of the
    store apart, no other has appeared.  And if that key was unused and the delete of the
    cleanup does not fail, it is unused again, also when the bundle had been stored
    before the failure.  (When that delete fails, which the handler only logs, a stored
    bundle stays, under a key that belongs to no run.) *)
Theorem failed_submission_is_cleaned_up srv rid rq s r s' :
  let key := SourceKey (hex_encode ((λ i, w_rand (st_w s) (w_rands (st_w s) + i)%nat) <$> seq 0 8)) in
  blob_inv (st_blob s) → handleSubmitRun srv rid rq s = (inl r, s') →
  rp_Status r ∈ [400; 413; 500] ∧ w_db (st_w s') = w_db (st_w s) ∧
  (∀ k data, k ≠ key → blob_at (st_blob s) k = Some data → blob_at (st_blob s') k = Some data) ∧
  (∀ k, k ≠ key → blob_reserved k = false → blob_at (st_blob s') k = blob_at (st_blob s) k) ∧
  (rq_discard rq = calm → blob_at (st_blob s) key = None → blob_at (st_blob s') key = None).
Proof.
  cbv zeta. intros Hinv. unfold handleSubmitRun. set (id := hex_encode _) in *.
  set (s0 := mkState ((st_w s) <| w_rands := (w_rands (st_w s) + 8)%nat |>) (st_blob s)).
  assert (E0 : try_ (newID 8) (λ _, internalError rid) s = (inr id, s0)) by done.
  rewrite (mbind_step _ _ _ _ _ E0). clear E0. unfold mbind at 1, M_bind at 1.
  destruct (read_submit srv rq id s0) as [[res stored] s1] eqn:Er.
  destruct (read_submit_touched srv rq id s0 _ _ _ Hinv Er) as (Ht & Ew & Hsame). simpl in *.
  match goal with |- _ → ?G => assert (Hdone : ∀ s2 (resp : Response), st_blob s2 = st_blob s1 → w_db (st_w s2) = w_db (st_w s) →
    rp_Status resp ∈ [400; 413; 500] → (discard_if stored rq id;; reply resp) s2 = (inl r : Response + Response, s') → G) end.
  { intros s2 resp Eb Ed Hst E. destruct (discard_if_ok stored rq id s2 (st_blob s)) as (s3 & E3 & Ew3 & [_ Ho Hk] & Hg).
    - rewrite Eb. apply Ht.
    - by rewrite Eb.
    - by rewrite Eb.
    - rewrite (mbind_step _ _ _ _ _ E3) in E. injection E as <- <-. rewrite Ew3. by split_and!. }
  assert (Edb : w_db (st_w s1) = w_db (st_w s)) by (by rewrite Ew).
  destruct res as [e|src].
  { apply Hdone; [done|done|]. destruct (tooBig e); simpl; set_solver. }
  destruct (Parse (cd_yaml (sv_codecs srv)) (to_string src)) as [e|p]; [apply Hdone; [done|done|simpl; set_solver]|].
  unfold mbind at 1, M_bind at 1, run_w. simpl.
  destruct (submitRun id p (to_string src) (s_maxAttempts (sv_sched srv)) (st_w s1)) as [out w2] eqn:Es.
  destruct out as [e|[run jobs]]; [|done].
  apply Hdone; [done| |simpl; set_solver]. simpl. rewrite <-Edb. by eapply submitRun_err.
Qed.
End spec.
