(* ===== verification/ApiExamples.v ===== *)
(** * The HTTP surface on concrete requests

    A server over the demo database and the filesystem blob store: instances of
    the theorems of ApiSpec.v, and two requests whose outcome the documentation
    does not describe. *)

From S2P Require Import Prelude GoLib Pipeline Types Store Scheduler Protocol Advance Consistency Refinement Logs Ops InvCheck Demo PipelineSpec Submit Artifact LocalStore LocalSpec Api ApiSpec.
From Stdlib Require Import Ascii.

Local Open Scope Z_scope.

Definition demo_codecs : Codecs := mkCodecs (λ _, YamlEOF) (λ h, h)
  (λ _ b, Some (MPart "source" (mkBody [9%N] None) (MPart "pipeline" b MEnd)))
  (λ b, [N.of_nat (length b)])
  (λ _, inr (mkClaimRequest "rb" "rb" ∅ 1 "dev"))
  (λ _, inr (mkHeartbeatRequest "ra" [mkJobRefJSON "j1" 1]))
  (λ _, inr (mkCompleteRequest "ra" 1 "succeeded" "" (Some 0) ""))
  (λ _, inr (mkRegisterRequest "build-box" ∅ 2))
  (λ _, inr (mkLogsRequest "ra" 1 [mkLogChunkJSON 1 [104%N; 105%N]])).

Definition demo_srv : Server := mkServer "s3cret" demo_s demo_codecs.
Definition demo_state : State LocalStore.Store := mkState demo_w demo_store.

Definition demo_rq (e : Endpoint) (headers path query : gmap string string) (body : list N) : Request Faults :=
  mkRequest e headers path query (Z.of_nat (length body)) (mkBody body None) demo_faults no_faults.
Definition bearer : gmap string string := {["Authorization" := "Bearer s3cret"]}.
Definition j1_upload (body : list N) : Request Faults :=
  demo_rq (EApi HUploadArtifact) bearer (<["id" := "j1"]> (<["attempt" := "1"]> {["path" := "out/log.txt"]})) ∅ body.
Definition j1_get (query : gmap string string) : Request Faults :=
  demo_rq (EApi HGetArtifact) bearer (<["id" := "j1"]> {["path" := "out/log.txt"]}) query [].

(** The monitor expires j1's lease while the upload streams. *)
Definition tick_during (s : State LocalStore.Store) : State LocalStore.Store := mkState (after (exec demo_s OpTick) (st_w s)) (st_blob s).

Lemma requests_keep_the_invariant_witness :
  Inv (w_db (st_w (ServeHTTP demo_srv tick_during (j1_upload [1%N; 2%N]) demo_state).2)).
Proof.
  apply (requests_keep_the_invariant demo_srv tick_during (j1_upload [1%N; 2%N]) demo_state).
  - apply demo_inv.
  - apply demo_clock_pos.
  - discriminate.
  - intros s Hi Hc. exact (after_exec_ok demo_s OpTick (st_w s) Hi Hc).
Defined.

Lemma api_requires_the_token_witness :
  rp_Status (ServeHTTP demo_srv (λ s, s) (demo_rq (EApi HListRuns) {["Authorization" := "Bearer guess"]} ∅ ∅ []) demo_state).1 = 401.
Proof.
  pose proof (api_requires_the_token demo_srv (λ s, s) (demo_rq (EApi HListRuns) {["Authorization" := "Bearer guess"]} ∅ ∅ [])
    demo_state HListRuns eq_refl) as H.
  destruct (ServeHTTP demo_srv (λ s, s) (demo_rq (EApi HListRuns) {["Authorization" := "Bearer guess"]} ∅ ∅ []) demo_state).
  destruct (request_id (demo_rq (EApi HListRuns) {["Authorization" := "Bearer guess"]} ∅ ∅ []) demo_state) as [rid s1].
  destruct H as [H _]. apply H. right. vm_compute. discriminate.
Defined.

Lemma late_upload_changes_nothing_witness :
  ∃ r, handleUploadArtifact demo_srv "q" (λ s, s)
    (demo_rq (EApi HUploadArtifact) bearer (<["id" := "j1"]> (<["attempt" := "2"]> {["path" := "a"]})) ∅ [1%N]) demo_state
    = (inl r, demo_state) ∧ rp_Status r ∈ [400; 404; 409; 411; 413].
Proof.
  apply (late_upload_changes_nothing demo_srv "q" (λ s, s)).
  intros row Hrow _. vm_compute in Hrow. injection Hrow as <-. vm_compute. discriminate.
Defined.

Lemma fenced_upload_is_discarded_witness :
  ∃ r s', handleUploadArtifact demo_srv "q" tick_during (j1_upload [7%N]) demo_state = (inl r, s') ∧ rp_Status r = 409 ∧
    blob_at (st_blob s') "runs/r1/jobs/j1/1/out/log.txt" = None.
Proof.
  destruct (blob_Put (rq_blob (j1_upload [7%N])) "runs/r1/jobs/j1/1/out/log.txt" (mkBody [7%N] None) 1 demo_store)
    as [[e|] b1] eqn:Ep; [exfalso; vm_compute in Ep; discriminate|].
  destruct (job_at demo_db "j1") as [row|] eqn:Hrow; [|exfalso; vm_compute in Hrow; discriminate].
  destruct (job_at (w_db (after (exec demo_s OpTick) demo_w)) "j1") as [row1|] eqn:Hrow1; [|exfalso; vm_compute in Hrow1; discriminate].
  assert (Er : jr_run_id row = "r1" ∧ jr_state row = JobRunning ∧ jr_attempt row = 1).
  { vm_compute in Hrow. injection Hrow as <-. split_and!; reflexivity. }
  destruct Er as (Er & Hs & Ha).
  destruct (fenced_upload_is_discarded demo_srv "q" tick_during (j1_upload [7%N]) demo_state 1 row row1 b1)
    as (r & s' & E & H1 & _ & H2 & _).
  - split; [vm_compute; reflexivity|lia|vm_compute; reflexivity|vm_compute; split; discriminate].
  - exact Hrow.
  - exact Hs.
  - exact Ha.
  - rewrite Er. exact Ep.
  - exact Hrow1.
  - intros [Hx _]. vm_compute in Hrow1. injection Hrow1 as <-. discriminate Hx.
  - pose proof (put_inv (rq_blob (j1_upload [7%N])) "runs/r1/jobs/j1/1/out/log.txt" (mkBody [7%N] None) 1 demo_store demo_wf) as Hp.
    rewrite Ep in Hp. exact Hp.
  - reflexivity.
  - exists r, s'. rewrite Er in H2. split; [exact E|]. split; [exact H1|exact H2].
Defined.

Lemma register_is_idempotent_witness : ∃ id w1 w2,
  register_tx (mkRegisterRequest "build-box" ∅ 2) demo_w = (inr id, w1) ∧
  register_tx (mkRegisterRequest "build-box" {["os" := "linux"]} 0) w1 = (inr id, w2).
Proof.
  destruct (register_tx (mkRegisterRequest "build-box" ∅ 2) demo_w) as [[e|id] w1] eqn:E; [exfalso; vm_compute in E; discriminate|].
  destruct (register_is_idempotent (mkRegisterRequest "build-box" ∅ 2) (mkRegisterRequest "build-box" {["os" := "linux"]} 0) demo_w id w1)
    as (w2 & _ & _ & H & _).
  - split; constructor.
  - reflexivity.
  - exact E.
  - exists id, w1, w2. split; [reflexivity|exact H].
Defined.

(** j1's log after one batch of three chunks, and two requests for it. *)
Definition logged : State LocalStore.Store :=
  mkState (after (AppendLogs demo_s "j1" 1 [mkLogChunk 1 [97%N]; mkLogChunk 2 [98%N]; mkLogChunk 3 [99%N]]) demo_w) demo_store.
Definition j1_logs (query : gmap string string) : Request Faults := demo_rq (EApi HGetLogs) bearer {["id" := "j1"]} query [].

Lemma log_pages_compose_witness : ∃ p p',
  handleGetLogs "q" (j1_logs ∅) logged = (inr (writeJSON 200 (PLogs p)), logged) ∧
  handleGetLogs "q" (j1_logs {["after" := "2"]}) logged = (inr (writeJSON 200 (PLogs p')), logged) ∧
  ls_Chunks p = filter (λ x, lc_Seq x ≤ 2) (ls_Chunks p) ++ ls_Chunks p'.
Proof.
  destruct (job_at (w_db (st_w logged)) "j1") as [row|] eqn:Hrow; [|exfalso; vm_compute in Hrow; discriminate].
  destruct (log_pages_compose "q" (j1_logs ∅) (j1_logs {["after" := "2"]}) logged row (jr_attempt row) 0 2)
    as (p & p' & H1 & H2 & _ & _ & _ & H).
  - exact Hrow.
  - reflexivity.
  - left. split; reflexivity.
  - left. split; reflexivity.
  - left. split; reflexivity.
  - right. split_and!; [vm_compute; discriminate|vm_compute; reflexivity|lia].
  - exists p, p'. split; [exact H1|]. split; [exact H2|]. apply H. lia.
Defined.

Lemma complete_answers_by_the_fence_witness :
  rp_Status (finish (handleComplete demo_srv "q" (demo_rq (EApi HComplete) bearer {["id" := "j1"]} ∅ []) demo_state)).1 = 200.
Proof.
  pose proof (complete_answers_by_the_fence demo_srv "q" (demo_rq (EApi HComplete) bearer {["id" := "j1"]} ∅ []) demo_state []
    (mkCompleteRequest "ra" 1 "succeeded" "" (Some 0) "") demo_inv eq_refl eq_refl) as H.
  destruct (finish _) as [r s']. cbn [fst]. rewrite (proj1 H). vm_compute. reflexivity.
Defined.

Lemma failed_submission_is_cleaned_up_witness : ∃ r s',
  handleSubmitRun demo_srv "q" (demo_rq (EApi HSubmitRun) {["Content-Type" := "multipart/form-data"]} ∅ ∅ [120%N]) demo_state = (inl r, s') ∧
  blob_at (st_blob s') "sources/0001020304050607.tar" = None.
Proof.
  destruct (handleSubmitRun demo_srv "q" (demo_rq (EApi HSubmitRun) {["Content-Type" := "multipart/form-data"]} ∅ ∅ [120%N]) demo_state)
    as [[r|r] s'] eqn:E; [|exfalso; vm_compute in E; discriminate].
  destruct (failed_submission_is_cleaned_up demo_srv "q"
    (demo_rq (EApi HSubmitRun) {["Content-Type" := "multipart/form-data"]} ∅ ∅ [120%N]) demo_state r s') as (_ & _ & _ & _ & H).
  - apply demo_wf.
  - exact E.
  - exists r, s'. split; [reflexivity|]. apply H; vm_compute; reflexivity.
Defined.

(** The cleanup is best effort: when its delete fails, the stored bundle stays. *)
Example a_failed_cleanup_leaves_the_bundle :
  let rq := mkRequest (EApi HSubmitRun) {["Content-Type" := "multipart/form-data"]} ∅ ∅ 1 (mkBody [120%N] None) demo_faults
    (mkFaults (λ _, false) [] None None false false false true false false false) in
  let '(r, s') := finish (handleSubmitRun demo_srv "q" rq demo_state) in
  rp_Status r = 400 ∧ is_Some (blob_at (st_blob s') "sources/0001020304050607.tar").
Proof. vm_compute. split; [reflexivity|]. eexists. reflexivity. Qed.

(** ** Outcomes the documentation does not describe *)

(** A redelivered upload that loses the fence deletes the object of the delivery
    that had succeeded, whose row stays: the artifact is listed but a GET answers 404. *)
Example redelivery_can_lose_a_recorded_artifact :
  let s1 := (handleUploadArtifact demo_srv "q" (λ s, s) (j1_upload [7%N; 8%N]) demo_state).2 in
  let '(r2, s2) := finish (handleUploadArtifact demo_srv "q" tick_during (j1_upload [7%N; 8%N]) s1) in
  let list := finish (handleListArtifacts "q" (j1_get {["attempt" := "1"]}) s2) in
  let get := finish (handleGetArtifact "q" (j1_get {["attempt" := "1"]}) s2) in
  rp_Status r2 = 409 ∧ length (db_artifacts (w_db (st_w s2))) = 1%nat ∧
  rp_Status list.1 = 200 ∧ rp_Status get.1 = 404.
Proof. vm_compute. split_and!; reflexivity. Qed.

Fixpoint letters (n : nat) : string := match n with O => "" | S n => String "a"%char (letters n) end.

(** A path of 1020 bytes is valid, but its key is longer than a key may be: the
    upload is answered 500. *)
Example long_valid_path_is_an_internal_error :
  ValidatePath (letters 1020) = None ∧
  rp_Status (finish (handleUploadArtifact demo_srv "q" (λ s, s)
    (demo_rq (EApi HUploadArtifact) bearer (<["id" := "j1"]> (<["attempt" := "1"]> {["path" := letters 1020]})) ∅ [1%N])
    demo_state)).1 = 500.
Proof. vm_compute. split; reflexivity. Qed.
