(* ===== verification/Logship.v ===== *)
(** * internal/logship: the runner-side log shipper

    The operations that hold the mutex are functions of the shipper; the goroutines
    (any number of writers, the flush loop, Close and its context) are the events of
    a transition function, one event per critical section or channel operation, so
    that every interleaving is a sequence of events.  The batches the log endpoint
    accepted are recorded in the order it accepted them; what it makes of them (the first
    copy of a number, cut at the log cap) is AppendLogs, in Logs and LogshipServer. *)

From stdpp Require Import pretty.
From S2P Require Import Prelude GoLib.

Local Open Scope Z_scope.

Definition DefaultFlushInterval : Z := 250 * Millisecond.
Definition DefaultFlushBytes : Z := Z.shiftl 64 10.
Definition DefaultMaxPostBytes : Z := Z.shiftl 512 10.
Definition DefaultMaxBuffered : Z := Z.shiftl 16 20.
Definition DefaultBackoff : Z := 200 * Millisecond.
Definition maxBackoff : Z := 10 * Second.

Record Chunk := mkChunk { k_Seq : Z; k_Data : list N }.

(** OnStale is not a field: [y_stale_calls] of the system below counts how often
    markStale reaches it (the sync.Once is not even needed). *)
Record Config := mkConfig {
  c_FlushInterval : Z;
  c_FlushBytes : Z;
  c_MaxPostBytes : Z;
  c_MaxBuffered : Z;
  c_Backoff : Z
}.

Inductive SinkErr := ErrStale | ErrRejected.
#[export] Instance SinkErr_eq_dec : EqDecision SinkErr.
Proof. solve_decision. Defined.

Record Shipper := mkShipper {
  s_cfg : Config;
  s_cur : list N;
  s_pending : list Chunk;
  s_buffered : Z;
  s_dropped : Z;
  s_nextSeq : Z;
  s_closed : bool;
  s_stale : bool;
  s_err : option SinkErr;
  s_kick : bool;      (* the one-slot channel holds a value *)
  s_stop : bool;      (* the stop channel is closed *)
  s_done : bool;      (* the done channel is closed *)
  s_runDone : bool    (* runCtx is cancelled *)
}.
#[export] Instance set_s_cur : Setter s_cur := λ v s, mkShipper (s_cfg s) v (s_pending s) (s_buffered s) (s_dropped s) (s_nextSeq s) (s_closed s) (s_stale s) (s_err s) (s_kick s) (s_stop s) (s_done s) (s_runDone s).
#[export] Instance set_s_pending : Setter s_pending := λ v s, mkShipper (s_cfg s) (s_cur s) v (s_buffered s) (s_dropped s) (s_nextSeq s) (s_closed s) (s_stale s) (s_err s) (s_kick s) (s_stop s) (s_done s) (s_runDone s).
#[export] Instance set_s_buffered : Setter s_buffered := λ v s, mkShipper (s_cfg s) (s_cur s) (s_pending s) v (s_dropped s) (s_nextSeq s) (s_closed s) (s_stale s) (s_err s) (s_kick s) (s_stop s) (s_done s) (s_runDone s).
#[export] Instance set_s_dropped : Setter s_dropped := λ v s, mkShipper (s_cfg s) (s_cur s) (s_pending s) (s_buffered s) v (s_nextSeq s) (s_closed s) (s_stale s) (s_err s) (s_kick s) (s_stop s) (s_done s) (s_runDone s).
#[export] Instance set_s_nextSeq : Setter s_nextSeq := λ v s, mkShipper (s_cfg s) (s_cur s) (s_pending s) (s_buffered s) (s_dropped s) v (s_closed s) (s_stale s) (s_err s) (s_kick s) (s_stop s) (s_done s) (s_runDone s).
#[export] Instance set_s_closed : Setter s_closed := λ v s, mkShipper (s_cfg s) (s_cur s) (s_pending s) (s_buffered s) (s_dropped s) (s_nextSeq s) v (s_stale s) (s_err s) (s_kick s) (s_stop s) (s_done s) (s_runDone s).
#[export] Instance set_s_stale : Setter s_stale := λ v s, mkShipper (s_cfg s) (s_cur s) (s_pending s) (s_buffered s) (s_dropped s) (s_nextSeq s) (s_closed s) v (s_err s) (s_kick s) (s_stop s) (s_done s) (s_runDone s).
#[export] Instance set_s_err : Setter s_err := λ v s, mkShipper (s_cfg s) (s_cur s) (s_pending s) (s_buffered s) (s_dropped s) (s_nextSeq s) (s_closed s) (s_stale s) v (s_kick s) (s_stop s) (s_done s) (s_runDone s).
#[export] Instance set_s_kick : Setter s_kick := λ v s, mkShipper (s_cfg s) (s_cur s) (s_pending s) (s_buffered s) (s_dropped s) (s_nextSeq s) (s_closed s) (s_stale s) (s_err s) v (s_stop s) (s_done s) (s_runDone s).
#[export] Instance set_s_stop : Setter s_stop := λ v s, mkShipper (s_cfg s) (s_cur s) (s_pending s) (s_buffered s) (s_dropped s) (s_nextSeq s) (s_closed s) (s_stale s) (s_err s) (s_kick s) v (s_done s) (s_runDone s).
#[export] Instance set_s_done : Setter s_done := λ v s, mkShipper (s_cfg s) (s_cur s) (s_pending s) (s_buffered s) (s_dropped s) (s_nextSeq s) (s_closed s) (s_stale s) (s_err s) (s_kick s) (s_stop s) v (s_runDone s).
#[export] Instance set_s_runDone : Setter s_runDone := λ v s, mkShipper (s_cfg s) (s_cur s) (s_pending s) (s_buffered s) (s_dropped s) (s_nextSeq s) (s_closed s) (s_stale s) (s_err s) (s_kick s) (s_stop s) (s_done s) v.

Definition defaults (cfg : Config) : Config :=
  let fi := if bool_decide (c_FlushInterval cfg <= 0) then DefaultFlushInterval else c_FlushInterval cfg in
  let fb := if bool_decide (c_FlushBytes cfg <= 0) then DefaultFlushBytes else c_FlushBytes cfg in
  let mp := if bool_decide (c_MaxPostBytes cfg < fb) then Z.max DefaultMaxPostBytes fb else c_MaxPostBytes cfg in
  let mb := if bool_decide (c_MaxBuffered cfg <= 0) then DefaultMaxBuffered else c_MaxBuffered cfg in
  let bo := if bool_decide (c_Backoff cfg <= 0) then DefaultBackoff else c_Backoff cfg in
  mkConfig fi fb mp mb (Z.min bo maxBackoff).

Definition New (cfg : Config) : Shipper :=
  mkShipper (defaults cfg) [] [] 0 0 1 false false None false false false false.

(** ** Critical sections *)

Definition len {A} (l : list A) : Z := Z.of_nat (length l).

(** [seal n]: the first [n] bytes of [cur] become a pending chunk. *)
Definition seal (n : nat) (s : Shipper) : Shipper :=
  s <| s_cur := drop n (s_cur s) |>
    <| s_pending := s_pending s ++ [mkChunk (s_nextSeq s) (take n (s_cur s))] |>
    <| s_nextSeq := s_nextSeq s + 1 |>.

(** The loop of [append]; whether it sealed, and the shipper. *)
Fixpoint seal_full (fuel : nat) (sealed : bool) (s : Shipper) : bool * Shipper :=
  if bool_decide (c_FlushBytes (s_cfg s) <= len (s_cur s)) then
    match fuel with
    | O => (sealed, s)
    | S fuel' => seal_full fuel' true (seal (Z.to_nat (c_FlushBytes (s_cfg s))) s)
    end
  else (sealed, s).

Definition append (p : list N) (s : Shipper) : Shipper :=
  let s1 := s <| s_cur := s_cur s ++ p |> <| s_buffered := s_buffered s + len p |> in
  let '(sealed, s2) := seal_full (length (s_cur s1)) false s1 in
  if sealed then s2 <| s_kick := true |> else s2.

Definition bytes_of (t : string) : list N := byte_of <$> String.list_ascii_of_string t.
Definition marker (n : Z) : list N :=
  bytes_of ("[quarry] log shipper dropped " +:+ Itoa n +:+ " bytes" +:+ String (chr 10) "").

(** [Write]: the count it returns, and the shipper. *)
Definition Write (p : list N) (s : Shipper) : Z * Shipper :=
  if s_closed s || s_stale s then (len p, s)
  else
    let room := c_MaxBuffered (s_cfg s) - s_buffered s in
    let s1 := if bool_decide (s_dropped s > 0) && bool_decide (room > 0)
              then (append (marker (s_dropped s)) s) <| s_dropped := 0 |> else s in
    if bool_decide (room <= 0) then (len p, s1 <| s_dropped := s_dropped s1 + len p |>)
    else if bool_decide (len p > room) then
      let p' := take (Z.to_nat room) p in
      (len p', append p' (s1 <| s_dropped := s_dropped s1 + (len p - room) |>))
    else (len p, append p s1).

(** The batch loop of [take]: how many chunks fit in [size]. *)
Fixpoint fitting (maxPost : Z) (first : bool) (size : Z) (l : list Chunk) : nat :=
  match l with
  | [] => O
  | c :: l' =>
      if first || bool_decide (size + len (k_Data c) <= maxPost)
      then S (fitting maxPost false (size + len (k_Data c)) l')
      else O
  end.

Definition take_ (s : Shipper) : list Chunk * Shipper :=
  let s1 := if bool_decide (len (s_cur s) > 0) then seal (length (s_cur s)) s else s in
  (take (fitting (c_MaxPostBytes (s_cfg s)) true 0 (s_pending s1)) (s_pending s1), s1).

Definition data_len (l : list Chunk) : Z := foldr (λ c acc, len (k_Data c) + acc) 0 l.

Definition ack (n : nat) (s : Shipper) : Shipper :=
  s <| s_buffered := s_buffered s - data_len (take n (s_pending s)) |> <| s_pending := drop n (s_pending s) |>.

Definition markStale (s : Shipper) : Shipper :=
  s <| s_stale := true |> <| s_cur := [] |> <| s_pending := [] |> <| s_buffered := 0 |> <| s_dropped := 0 |>.

Definition setErr (e : SinkErr) (s : Shipper) : Shipper :=
  match s_err s with None => s <| s_err := Some e |> | Some _ => s end.

(** What Close returns once the loop has exited. *)
Inductive CloseResult :=
  | CloseNil
  | CloseStale
  | CloseErr (e : SinkErr)
  | CloseUnsent (buffered dropped : Z)
  | CloseDropped (dropped : Z).

Definition close_result (s : Shipper) : CloseResult :=
  if s_stale s then CloseStale
  else match s_err s with
       | Some e => CloseErr e
       | None => if bool_decide (s_buffered s > 0) then CloseUnsent (s_buffered s) (s_dropped s)
                 else if bool_decide (s_dropped s > 0) then CloseDropped (s_dropped s) else CloseNil
       end.

(** ** The system *)

(** Where the flush loop is; [final] is the argument of [drain]. *)
Inductive PC :=
  | Select                                        (* waiting in loop's select *)
  | WaitStop                                      (* runCtx is done: waiting for Close *)
  | Top (final : bool) (backoff : Z)              (* at the head of drain's loop *)
  | Taking (final : bool) (backoff : Z)           (* the context was live *)
  | Sending (final : bool) (backoff : Z) (batch : list Chunk)
  | Acked (final : bool) (n : nat)                (* send returned nil *)
  | Refused (final : bool) (backoff : Z) (n : nat)   (* send returned ErrRejected *)
  | Reporting (final : bool) (backoff : Z)        (* acked, before setErr *)
  | Superseded (final : bool)                     (* send returned ErrStale *)
  | Firing (final : bool)                         (* marked stale, before OnStale *)
  | Failed (final : bool) (backoff : Z)           (* transient failure, before the ctx check *)
  | Waiting (final : bool) (backoff : Z)          (* in the backoff select *)
  | Exited.

(** What one Sink call does: the answer, and for a failed call whether the server
    had accepted the batch before the answer was lost. *)
Inductive Outcome := ONil | OStale | ORejected | OTransient (arrived : bool).

Inductive ShipEvent :=
  | EWrite (p : list N)
  | ETick | EKick | EStop | ERunDone
  | EStep                       (* the loop's next deterministic step *)
  | ESend (o : Outcome)
  | ETimer | EWaitDone | EWaitStop
  | EClose | ECloseStop         (* Close: its critical section, then close(stop) *)
  | EClosectx | EAfterFunc.     (* Close's context ends; its AfterFunc cancels runCtx *)

(** The system with its history: every chunk sealed, how many the loop has
    acknowledged, the chunks refused, the bytes accepted into the buffer, the bytes
    written while the shipper took them, and how many of those were dropped. *)
Record Sys := mkSys {
  y_sh : Shipper;
  y_pc : PC;
  y_ctxDone : bool;             (* Close's context is done *)
  y_batches : list (list Chunk);   (* the batches the server has accepted, in order *)
  y_sealed : list Chunk;
  y_acked : nat;
  y_refused : list Chunk;
  y_accepted : list N;
  y_written : list N;
  y_lost : Z;
  y_stale_calls : nat
}.
#[export] Instance set_y_sh : Setter y_sh := λ v y, mkSys v (y_pc y) (y_ctxDone y) (y_batches y) (y_sealed y) (y_acked y) (y_refused y) (y_accepted y) (y_written y) (y_lost y) (y_stale_calls y).
#[export] Instance set_y_pc : Setter y_pc := λ v y, mkSys (y_sh y) v (y_ctxDone y) (y_batches y) (y_sealed y) (y_acked y) (y_refused y) (y_accepted y) (y_written y) (y_lost y) (y_stale_calls y).
#[export] Instance set_y_ctxDone : Setter y_ctxDone := λ v y, mkSys (y_sh y) (y_pc y) v (y_batches y) (y_sealed y) (y_acked y) (y_refused y) (y_accepted y) (y_written y) (y_lost y) (y_stale_calls y).
#[export] Instance set_y_batches : Setter y_batches := λ v y, mkSys (y_sh y) (y_pc y) (y_ctxDone y) v (y_sealed y) (y_acked y) (y_refused y) (y_accepted y) (y_written y) (y_lost y) (y_stale_calls y).
#[export] Instance set_y_sealed : Setter y_sealed := λ v y, mkSys (y_sh y) (y_pc y) (y_ctxDone y) (y_batches y) v (y_acked y) (y_refused y) (y_accepted y) (y_written y) (y_lost y) (y_stale_calls y).
#[export] Instance set_y_acked : Setter y_acked := λ v y, mkSys (y_sh y) (y_pc y) (y_ctxDone y) (y_batches y) (y_sealed y) v (y_refused y) (y_accepted y) (y_written y) (y_lost y) (y_stale_calls y).
#[export] Instance set_y_refused : Setter y_refused := λ v y, mkSys (y_sh y) (y_pc y) (y_ctxDone y) (y_batches y) (y_sealed y) (y_acked y) v (y_accepted y) (y_written y) (y_lost y) (y_stale_calls y).
#[export] Instance set_y_accepted : Setter y_accepted := λ v y, mkSys (y_sh y) (y_pc y) (y_ctxDone y) (y_batches y) (y_sealed y) (y_acked y) (y_refused y) v (y_written y) (y_lost y) (y_stale_calls y).
#[export] Instance set_y_written : Setter y_written := λ v y, mkSys (y_sh y) (y_pc y) (y_ctxDone y) (y_batches y) (y_sealed y) (y_acked y) (y_refused y) (y_accepted y) v (y_lost y) (y_stale_calls y).
#[export] Instance set_y_lost : Setter y_lost := λ v y, mkSys (y_sh y) (y_pc y) (y_ctxDone y) (y_batches y) (y_sealed y) (y_acked y) (y_refused y) (y_accepted y) (y_written y) v (y_stale_calls y).
#[export] Instance set_y_stale_calls : Setter y_stale_calls := λ v y, mkSys (y_sh y) (y_pc y) (y_ctxDone y) (y_batches y) (y_sealed y) (y_acked y) (y_refused y) (y_accepted y) (y_written y) (y_lost y) v.

Definition start (cfg : Config) : Sys := mkSys (New cfg) Select false [] [] 0 [] [] [] 0 0.

(** The chunks that have reached the server, in order, with their repetitions. *)
Definition received (y : Sys) : list Chunk := mjoin (y_batches y).

(** What a Write adds to the buffer, and how many bytes it drops. *)
Definition write_marker (s : Shipper) : list N :=
  if bool_decide (s_dropped s > 0) && bool_decide (c_MaxBuffered (s_cfg s) - s_buffered s > 0) then marker (s_dropped s) else [].
Definition write_kept (p : list N) (s : Shipper) : list N := take (Z.to_nat (c_MaxBuffered (s_cfg s) - s_buffered s)) p.

(** The shipper after a step that may seal chunks, and the history of the chunks. *)
Definition sealing (sh' : Shipper) (y : Sys) : Sys :=
  y <| y_sealed := y_sealed y ++ drop (length (s_pending (y_sh y))) (s_pending sh') |> <| y_sh := sh' |>.

Definition ctx_done (final : bool) (y : Sys) : bool := if final then y_ctxDone y else s_runDone (y_sh y).

(** drain returns: the loop goes back to its select, or exits after the final flush. *)
Definition drained (final : bool) (y : Sys) : Sys :=
  if final then y <| y_pc := Exited |> <| y_sh := (y_sh y) <| s_done := true |> <| s_runDone := true |> |>
  else y <| y_pc := Select |>.

Definition first_backoff (y : Sys) : Z := c_Backoff (s_cfg (y_sh y)).

Definition write_step (p : list N) (y : Sys) : Sys :=
  let s := y_sh y in
  let y1 := sealing (Write p s).2 y in
  if s_closed s || s_stale s then y1
  else y1 <| y_accepted := y_accepted y ++ write_marker s ++ write_kept p s |>
          <| y_written := y_written y ++ p |>
          <| y_lost := y_lost y + (len p - len (write_kept p s)) |>.

(** The deterministic steps of the flush loop. *)
Definition loop_step (y : Sys) : option Sys :=
  let s := y_sh y in
  match y_pc y with
  | Top f b => Some (if ctx_done f y then drained f y else y <| y_pc := Taking f b |>)
  | Taking f b =>
      let '(batch, s') := take_ s in
      let y1 := sealing s' y in
      Some (match batch with [] => drained f y1 | _ => y1 <| y_pc := Sending f b batch |> end)
  | Acked f n => Some (y <| y_sh := ack n s |> <| y_acked := (y_acked y + n)%nat |> <| y_pc := Top f (first_backoff y) |>)
  | Refused f b n =>
      Some (y <| y_refused := y_refused y ++ take n (s_pending s) |> <| y_sh := ack n s |>
              <| y_acked := (y_acked y + n)%nat |> <| y_pc := Reporting f b |>)
  | Reporting f b => Some (y <| y_sh := setErr ErrRejected s |> <| y_pc := Top f b |>)
  | Superseded f => Some (y <| y_sh := markStale s |> <| y_pc := Firing f |>)
  | Firing f => Some (drained f (y <| y_sh := s <| s_runDone := true |> |> <| y_stale_calls := S (y_stale_calls y) |>))
  | Failed f b => Some (if ctx_done f y then drained f y else y <| y_pc := Waiting f b |>)
  | _ => None
  end.

Definition send_step (o : Outcome) (y : Sys) : option Sys :=
  match y_pc y with
  | Sending f b batch =>
      Some match o with
           | ONil => y <| y_batches := y_batches y ++ [batch] |> <| y_pc := Acked f (length batch) |>
           | OStale => y <| y_pc := Superseded f |>
           | ORejected => y <| y_pc := Refused f b (length batch) |>
           | OTransient arrived =>
               (if arrived then y <| y_batches := y_batches y ++ [batch] |> else y) <| y_pc := Failed f b |>
           end
  | _ => None
  end.

Definition guard_ (b : bool) (y : Sys) : option Sys := if b then Some y else None.

Definition next (e : ShipEvent) (y : Sys) : option Sys :=
  let s := y_sh y in
  match e, y_pc y with
  | EWrite p, _ => Some (write_step p y)
  | ETick, Select => Some (y <| y_pc := Top false (first_backoff y) |>)
  | EKick, Select => guard_ (s_kick s) (y <| y_sh := s <| s_kick := false |> |> <| y_pc := Top false (first_backoff y) |>)
  | EStop, Select | EStop, WaitStop => guard_ (s_stop s) (y <| y_pc := Top true (first_backoff y) |>)
  | ERunDone, Select => guard_ (s_runDone s) (y <| y_pc := WaitStop |>)
  | EStep, _ => loop_step y
  | ESend o, _ => send_step o y
  | ETimer, Waiting f b => Some (y <| y_pc := Top f (Z.min (b * 2) maxBackoff) |>)
  | EWaitDone, Waiting f b => guard_ (ctx_done f y) (drained f y)
  | EWaitStop, Waiting false b => guard_ (s_stop s) (drained false y)
  | EClose, _ => guard_ (negb (s_closed s)) (y <| y_sh := s <| s_closed := true |> |>)
  | ECloseStop, _ => guard_ (s_closed s && negb (s_stop s)) (y <| y_sh := s <| s_stop := true |> |>)
  | EClosectx, _ => Some (y <| y_ctxDone := true |>)
  | EAfterFunc, _ => guard_ (s_closed s && y_ctxDone y) (y <| y_sh := s <| s_runDone := true |> |>)
  | _, _ => None
  end.

(** A run: the events in order, all enabled. *)
Fixpoint run_events (es : list ShipEvent) (y : Sys) : option Sys :=
  match es with
  | [] => Some y
  | e :: es' => y' ← next e y; run_events es' y'
  end.
Definition reachable (cfg : Config) (y : Sys) : Prop := ∃ es, run_events es (start cfg) = Some y.
