(* ===== verification/LogshipInv.v ===== *)
(** * The invariant of the log shipper

    What the buffer operations do to the buffer ([grew]), and an invariant of every
    interleaving of writers, flush loop and Close. *)

From stdpp Require Import pretty.
From S2P Require Import Prelude GoLib Logship.

Local Open Scope Z_scope.

(** ** Growing the buffer *)

(** The fields no buffer operation touches. *)
Record same_control (s s' : Shipper) : Prop := {
  sc_cfg : s_cfg s' = s_cfg s; sc_closed : s_closed s' = s_closed s; sc_stale : s_stale s' = s_stale s;
  sc_err : s_err s' = s_err s; sc_stop : s_stop s' = s_stop s;
  sc_done : s_done s' = s_done s; sc_runDone : s_runDone s' = s_runDone s
}.

#[export] Instance same_control_refl : Reflexive same_control.
Proof. by intros s. Qed.
#[export] Instance same_control_trans : Transitive same_control.
Proof. intros a b c [] []. split; congruence. Qed.

(** [x] has been added to the buffer, and the chunks [new] have been sealed. *)
Record grew (x : list N) (s s' : Shipper) (new : list Chunk) : Prop := {
  g_pending : s_pending s' = s_pending s ++ new;
  g_bytes : mjoin (k_Data <$> new) ++ s_cur s' = s_cur s ++ x;
  g_seq : ∀ i c, new !! i = Some c → k_Seq c = s_nextSeq s + Z.of_nat i;
  g_next : s_nextSeq s' = s_nextSeq s + len new;
  g_size : Forall (λ c, 0 < len (k_Data c) ≤ c_FlushBytes (s_cfg s)) new;
  g_buffered : s_buffered s' = s_buffered s + len x;
  g_control : same_control s s'
}.

Lemma len_app {A} (a b : list A) : len (a ++ b) = len a + len b.
Proof. unfold len. rewrite length_app. lia. Qed.
Lemma len_nonneg {A} (a : list A) : 0 ≤ len a.
Proof. unfold len. lia. Qed.
Lemma len_take {A} n (l : list A) : 0 ≤ n ≤ len l → len (take (Z.to_nat n) l) = n.
Proof. unfold len. intros. rewrite length_take. lia. Qed.
Lemma len_nil {A} (l : list A) : len l = 0 ↔ l = [].
Proof. unfold len. split; [|by intros ->]. intros. apply length_zero_iff_nil. lia. Qed.

Lemma grew_refl s : grew [] s s [].
Proof. split; try done; [by rewrite app_nil_r|by rewrite app_nil_r|unfold len; simpl; lia|unfold len; simpl; lia]. Qed.

Lemma grew_trans x1 x2 s1 s2 s3 n1 n2 :
  grew x1 s1 s2 n1 → grew x2 s2 s3 n2 → grew (x1 ++ x2) s1 s3 (n1 ++ n2).
Proof.
  intros [P1 B1 Q1 N1 Z1 U1 C1] [P2 B2 Q2 N2 Z2 U2 C2]. split.
  - by rewrite P2, P1, app_assoc.
  - rewrite fmap_app, join_app, <-app_assoc, B2, !app_assoc, B1. by rewrite <-!app_assoc.
  - intros i c [H|[Hl H]]%lookup_app_Some; [by apply Q1|]. apply Q2 in H. rewrite H, N1. unfold len. lia.
  - rewrite N2, N1, len_app. lia.
  - apply Forall_app. split; [done|]. by rewrite <-(sc_cfg _ _ C1).
  - rewrite U2, U1, len_app. lia.
  - by etrans.
Qed.

Lemma grew_seal n s :
  (0 < n)%nat → (n ≤ length (s_cur s))%nat → Z.of_nat n ≤ c_FlushBytes (s_cfg s) →
  grew [] s (seal n s) [mkChunk (s_nextSeq s) (take n (s_cur s))].
Proof.
  intros H0 Hn Hf. split; try done.
  - simpl. rewrite !app_nil_r. apply take_drop.
  - intros [|i] c; [|done]. intros [= <-]. simpl. lia.
  - constructor; [|done]. simpl. unfold len. rewrite length_take. lia.
  - unfold len. simpl. lia.
Qed.

Lemma seal_full_grew fuel : ∀ b s, 0 < c_FlushBytes (s_cfg s) → (length (s_cur s) ≤ fuel)%nat →
  ∃ new, grew [] s (seal_full fuel b s).2 new ∧ len (s_cur (seal_full fuel b s).2) < c_FlushBytes (s_cfg s) ∧
    s_dropped (seal_full fuel b s).2 = s_dropped s.
Proof.
  induction fuel as [|fuel IH]; intros b s Hf Hl; simpl.
  - case_bool_decide as Hc; [unfold len in Hc; lia|]. exists []. split; [apply grew_refl|]. split; [simpl; lia|done].
  - case_bool_decide as Hc; [|exists []; split; [apply grew_refl|]; split; [simpl; lia|done]].
    set (n := Z.to_nat (c_FlushBytes (s_cfg s))). unfold len in Hc.
    pose proof (grew_seal n s ltac:(lia) ltac:(lia) ltac:(lia)) as Hg.
    destruct (IH true (seal n s)) as (new & Hg' & Hlt & Hd); [done|simpl; rewrite length_drop; lia|].
    eexists. split; [exact (grew_trans _ _ _ _ _ _ _ Hg Hg')|]. done.
Qed.

Lemma append_grew p s : 0 < c_FlushBytes (s_cfg s) →
  ∃ new, grew p s (append p s) new ∧ len (s_cur (append p s)) < c_FlushBytes (s_cfg s) ∧ s_dropped (append p s) = s_dropped s.
Proof.
  intros Hf. unfold append. set (s1 := setf s_buffered _ _).
  destruct (seal_full_grew (length (s_cur s1)) false s1 Hf ltac:(lia)) as (new & Hg & Hl & Hd).
  destruct (seal_full (length (s_cur s1)) false s1) as [b s2]. simpl in *. exists new.
  assert (Hg2 : grew p s s2 new).
  { destruct Hg as [P B Q N Z U C]. rewrite app_nil_r in B.
    split; [exact P|exact B|exact Q|exact N|exact Z| |by destruct C; split].
    rewrite U. unfold s1. simpl. unfold len. simpl. lia. }
  destruct b; [|done]. split; [|done]. by destruct Hg2 as [? ? ? ? ? ? []].
Qed.

Lemma marker_ne n : marker n ≠ [].
Proof. unfold marker, bytes_of. simpl. discriminate. Qed.

Lemma grew_dropped x s s' new v : grew x s s' new → grew x s (s' <| s_dropped := v |>) new.
Proof. intros [? ? ? ? ? ? []]. by split. Qed.
Lemma grew_from_dropped x s s' new v : grew x (s <| s_dropped := v |>) s' new → grew x s s' new.
Proof. intros [? ? ? ? ? ? []]. by split. Qed.

(** The marker of a Write. *)
Lemma marker_grew s :
  0 < c_FlushBytes (s_cfg s) → len (s_cur s) < c_FlushBytes (s_cfg s) →
  let s1 := if bool_decide (s_dropped s > 0) && bool_decide (c_MaxBuffered (s_cfg s) - s_buffered s > 0)
            then (append (marker (s_dropped s)) s) <| s_dropped := 0 |> else s in
  ∃ new, grew (write_marker s) s s1 new ∧ len (s_cur s1) < c_FlushBytes (s_cfg s) ∧
    s_dropped s1 = (if bool_decide (write_marker s = []) then s_dropped s else 0).
Proof.
  intros Hf Hc. unfold write_marker. destruct (bool_decide (s_dropped s > 0) && _).
  - destruct (append_grew (marker (s_dropped s)) s Hf) as (new & Hg & Hl & _). exists new. split_and!.
    + by apply grew_dropped.
    + done.
    + rewrite bool_decide_false by apply marker_ne. done.
  - exists []. split_and!; [apply grew_refl|done|by rewrite bool_decide_true].
Qed.

(** The bytes a Write keeps, after the marker it may add. *)
Lemma Write_grew p s :
  0 < c_FlushBytes (s_cfg s) → len (s_cur s) < c_FlushBytes (s_cfg s) → s_closed s || s_stale s = false →
  ∃ new, grew (write_marker s ++ write_kept p s) s (Write p s).2 new ∧
    len (s_cur (Write p s).2) < c_FlushBytes (s_cfg s) ∧
    s_dropped (Write p s).2 = (if bool_decide (write_marker s = []) then s_dropped s else 0) + (len p - len (write_kept p s)).
Proof.
  intros Hf Hc Hopen. unfold Write. rewrite Hopen. pose proof (marker_grew s Hf Hc) as Hm. cbv zeta in Hm.
  set (s1 := if bool_decide (s_dropped s > 0) && _ then _ else s) in *. destruct Hm as (n1 & Hg1 & Hl1 & Hd1).
  set (room := c_MaxBuffered (s_cfg s) - s_buffered s) in *. unfold write_kept. fold room.
  assert (Hcfg : s_cfg s1 = s_cfg s) by apply Hg1.
  set (d0 := if bool_decide (write_marker s = []) then _ else _) in *. clearbody d0 s1.
  case_bool_decide as Hr; [|case_bool_decide as Hp]; simpl.
  - replace (Z.to_nat room) with O by lia. rewrite Hd1. exists n1. rewrite take_0, app_nil_r.
    split_and!; [by apply grew_dropped|done|]. change (len (A := N) []) with 0. lia.
  - rewrite len_take by (unfold room in *; lia).
    destruct (append_grew (take (Z.to_nat room) p) (s1 <| s_dropped := s_dropped s1 + (len p - room) |>)) as (n2 & Hg2 & Hl2 & Hd2).
    { simpl. by rewrite Hcfg. }
    apply grew_from_dropped in Hg2. exists (n1 ++ n2). split_and!.
    + by eapply grew_trans.
    + simpl in Hl2. by rewrite Hcfg in Hl2.
    + rewrite Hd2. simpl. by rewrite Hd1.
  - rewrite take_ge by (unfold len in Hp; lia).
    destruct (append_grew p s1) as (n2 & Hg2 & Hl2 & Hd2); [by rewrite Hcfg|]. exists (n1 ++ n2). split_and!.
    + by eapply grew_trans.
    + by rewrite Hcfg in Hl2.
    + rewrite Hd2, Hd1. lia.
Qed.

Lemma fitting_le maxPost first size l : (fitting maxPost first size l ≤ length l)%nat.
Proof.
  revert first size. induction l as [|c l IH]; intros first size; simpl; [lia|].
  destruct (first || _); [|lia]. specialize (IH false (size + len (k_Data c))). lia.
Qed.

(** A batch after its first chunk stays within the bound. *)
Lemma fitting_bound maxPost l : ∀ size, size ≤ maxPost →
  size + data_len (take (fitting maxPost false size l) l) ≤ maxPost.
Proof.
  induction l as [|c l IH]; intros size Hs; simpl; [lia|]. case_bool_decide as Hc; simpl; [|lia].
  specialize (IH _ Hc). lia.
Qed.

Lemma take_spec s :
  0 < c_FlushBytes (s_cfg s) → len (s_cur s) < c_FlushBytes (s_cfg s) →
  ∃ new n, grew [] s (take_ s).2 new ∧ s_cur (take_ s).2 = [] ∧ s_dropped (take_ s).2 = s_dropped s ∧
    (take_ s).1 = take n (s_pending (take_ s).2) ∧ length (take_ s).1 = n ∧
    (s_pending (take_ s).2 ≠ [] → (0 < n)%nat) ∧
    (c_FlushBytes (s_cfg s) ≤ c_MaxPostBytes (s_cfg s) →
     Forall (λ c, len (k_Data c) ≤ c_FlushBytes (s_cfg s)) (s_pending s) → data_len (take_ s).1 ≤ c_MaxPostBytes (s_cfg s)).
Proof.
  intros Hf Hc. unfold take_. set (s1 := if bool_decide (len (s_cur s) > 0) then seal (length (s_cur s)) s else s).
  assert (H1 : ∃ new, grew [] s s1 new ∧ s_cur s1 = [] ∧ s_dropped s1 = s_dropped s).
  { unfold s1. case_bool_decide as Hl; unfold len in *.
    - eexists. split_and!; [apply grew_seal; lia|simpl; apply drop_all|done].
    - exists []. split_and!; [apply grew_refl|apply length_zero_iff_nil; lia|done]. }
  destruct H1 as (new & Hg & Hcur & Hd). simpl. set (n := fitting (c_MaxPostBytes (s_cfg s)) true 0 (s_pending s1)).
  exists new, n. pose proof (fitting_le (c_MaxPostBytes (s_cfg s)) true 0 (s_pending s1)) as Hle. split_and!; try done.
  - rewrite length_take. lia.
  - unfold n. destruct (s_pending s1); [done|]. simpl. lia.
  - intros Hmp Hall. assert (Hall1 : Forall (λ c, len (k_Data c) ≤ c_FlushBytes (s_cfg s)) (s_pending s1)).
    { rewrite (g_pending _ _ _ _ Hg). apply Forall_app. split; [done|]. eapply Forall_impl; [apply Hg|]. simpl. lia. }
    unfold n. destruct (s_pending s1) as [|c l]; [simpl; lia|]. apply Forall_cons in Hall1 as [Hc1 _].
    cbn [fitting orb take data_len foldr]. rewrite Z.add_0_l. fold (data_len (take (fitting (c_MaxPostBytes (s_cfg s)) false (len (k_Data c)) l) l)).
    pose proof (fitting_bound (c_MaxPostBytes (s_cfg s)) l (len (k_Data c)) ltac:(lia)). lia.
Qed.

(** ** The invariant *)

Definition seq_of (y : Sys) : Prop := ∀ i c, y_sealed y !! i = Some c → k_Seq c = Z.of_nat i + 1.

Definition on_server (y : Sys) (l : list Chunk) : Prop := ∀ c, c ∈ l → c ∈ received y.

(** What each place of the loop knows. *)
Definition pc_ok (y : Sys) : Prop :=
  let s := y_sh y in
  match y_pc y with
  | Sending _ _ b => s_stale s = false ∧ b = take (length b) (s_pending s) ∧ b ≠ [] ∧ data_len b ≤ c_MaxPostBytes (s_cfg s)
  | Acked _ n => s_stale s = false ∧ (n ≤ length (s_pending s))%nat ∧ on_server y (take n (s_pending s))
  | Refused _ _ n => s_stale s = false ∧ (n ≤ length (s_pending s))%nat
  | Superseded _ | Reporting _ _ | Failed _ _ | Waiting _ _ => s_stale s = false
  | Firing _ => s_stale s = true
  | _ => True
  end.

Definition is_Reporting (p : PC) : bool := match p with Reporting _ _ => true | _ => false end.
Definition is_Firing (p : PC) : bool := match p with Firing _ => true | _ => false end.
Definition is_Exited (p : PC) : bool := match p with Exited => true | _ => false end.

(** [noted w a d]: [a] is the stream [w] in which every run of dropped bytes has been
    replaced by the marker that states its length, [d] bytes being dropped since the
    last marker. *)
Inductive noted : list N → list N → Z → Prop :=
  | noted_nil : noted [] [] 0
  | noted_keep w a p : noted w a 0 → noted (w ++ p) (a ++ p) 0
  | noted_drop w a d p : noted w a d → noted (w ++ p) a (d + len p)
  | noted_mark w a d : noted w a d → 0 < d → noted w (a ++ marker d) 0.

Record ShipInv (y : Sys) : Prop := {
  v_cfg : 0 < c_FlushBytes (s_cfg (y_sh y)) ≤ c_MaxPostBytes (s_cfg (y_sh y)) ∧ 0 < c_MaxBuffered (s_cfg (y_sh y));
  v_cur : len (s_cur (y_sh y)) < c_FlushBytes (s_cfg (y_sh y));
  v_seq : seq_of y;
  v_next : s_nextSeq (y_sh y) = len (y_sealed y) + 1;
  v_size : Forall (λ c, 0 < len (k_Data c) ≤ c_FlushBytes (s_cfg (y_sh y))) (y_sealed y);
  v_acked_le : (y_acked y ≤ length (y_sealed y))%nat;
  v_prefix : mjoin (k_Data <$> y_sealed y) `prefix_of` y_accepted y;
  v_live : s_stale (y_sh y) = false →
    s_pending (y_sh y) = drop (y_acked y) (y_sealed y) ∧
    mjoin (k_Data <$> y_sealed y) ++ s_cur (y_sh y) = y_accepted y ∧
    s_buffered (y_sh y) = len (s_cur (y_sh y)) + data_len (s_pending (y_sh y));
  v_stale : s_stale (y_sh y) = true →
    s_cur (y_sh y) = [] ∧ s_pending (y_sh y) = [] ∧ s_buffered (y_sh y) = 0 ∧ s_dropped (y_sh y) = 0;
  v_received : ∀ c, c ∈ received y → c ∈ y_sealed y;
  v_acked : ∀ c, c ∈ take (y_acked y) (y_sealed y) → c ∉ y_refused y → c ∈ received y;
  v_refused : y_refused y ≠ [] → s_err (y_sh y) ≠ None ∨ is_Reporting (y_pc y) = true;
  v_lost : 0 ≤ s_dropped (y_sh y) ≤ y_lost y ∧ (y_lost y = 0 → y_accepted y = y_written y) ∧
    (s_stale (y_sh y) = false → noted (y_written y) (y_accepted y) (s_dropped (y_sh y)));
  v_bound : s_buffered (y_sh y) ≤ c_MaxBuffered (s_cfg (y_sh y)) ∨
    ∃ d, 0 < d ≤ y_lost y ∧ s_buffered (y_sh y) ≤ c_MaxBuffered (s_cfg (y_sh y)) + len (marker d);
  v_calls : y_stale_calls y = (if s_stale (y_sh y) && negb (is_Firing (y_pc y)) then 1 else 0)%nat;
  v_done : s_done (y_sh y) = is_Exited (y_pc y);
  v_pc : pc_ok y
}.

Lemma start_inv cfg : ShipInv (start cfg).
Proof.
  assert (DefaultFlushBytes = 65536) as E1 by done. assert (DefaultMaxBuffered = 16777216) as E2 by done.
  split; try done; simpl.
  - unfold defaults. simpl. repeat case_bool_decide; lia.
  - unfold len, defaults. simpl. case_bool_decide; lia.
  - split_and!; [lia|lia|done|intros _; apply noted_nil].
  - left. unfold defaults. simpl. case_bool_decide; lia.
Qed.

(** ** Steps that leave the buffer alone *)

Record same_data (s s' : Shipper) : Prop := {
  sd_cfg : s_cfg s' = s_cfg s; sd_cur : s_cur s' = s_cur s; sd_pending : s_pending s' = s_pending s;
  sd_buffered : s_buffered s' = s_buffered s; sd_dropped : s_dropped s' = s_dropped s;
  sd_next : s_nextSeq s' = s_nextSeq s; sd_stale : s_stale s' = s_stale s; sd_err : s_err s' = s_err s;
  sd_done : s_done s' = s_done s
}.

Lemma flags_inv y s' : ShipInv y → same_data (y_sh y) s' → ShipInv (y <| y_sh := s' |>).
Proof.
  intros [] []. destruct y as [s pc ctx batches sealed acked refused accepted written lost calls]. simpl in *.
  unfold seq_of, on_server, received in *. simpl in *.
  split; simpl in *; unfold seq_of, pc_ok, on_server, received in *; simpl in *;
    rewrite ?sd_cfg0, ?sd_cur0, ?sd_pending0, ?sd_buffered0, ?sd_dropped0, ?sd_next0, ?sd_stale0, ?sd_err0, ?sd_done0; done.
Qed.

Lemma ctxDone_inv y b : ShipInv y → ShipInv (y <| y_ctxDone := b |>).
Proof. by intros []. Qed.

(** Places the invariant says nothing special about. *)
Definition neutral (p : PC) : bool := negb (is_Reporting p || is_Firing p || is_Exited p).

Lemma neutral_spec p : neutral p = true → is_Reporting p = false ∧ is_Firing p = false ∧ is_Exited p = false.
Proof. by destruct p. Qed.

Lemma move_inv y p :
  ShipInv y → neutral (y_pc y) = true → neutral p = true → pc_ok (y <| y_pc := p |>) → ShipInv (y <| y_pc := p |>).
Proof.
  intros [] (E1 & E2 & E3)%neutral_spec (E4 & E5 & E6)%neutral_spec Hp.
  split; try done; simpl; rewrite ?E1, ?E2, ?E3, ?E4, ?E5, ?E6 in *; done.
Qed.

Lemma drained_inv f y : ShipInv y → neutral (y_pc y) = true → ShipInv (drained f y).
Proof.
  intros Hi Hn. destruct f; simpl; [|by apply move_inv]. destruct (neutral_spec _ Hn) as (E1 & E2 & E3). destruct Hi.
  split; try done; simpl; rewrite ?E1, ?E2, ?E3 in *; done.
Qed.

(** ** Steps that grow the buffer *)

Lemma data_len_app a b : data_len (a ++ b) = data_len a + data_len b.
Proof. induction a as [|c a IH]; simpl; [done|]. rewrite IH. lia. Qed.
Lemma data_len_join l : len (mjoin (k_Data <$> l)) = data_len l.
Proof. induction l as [|c l IH]; [done|]. cbn [fmap list_fmap mjoin list_join]. rewrite len_app. simpl. rewrite <-IH. done. Qed.
Lemma data_len_nonneg l : 0 ≤ data_len l.
Proof. rewrite <-data_len_join. apply len_nonneg. Qed.

Lemma sealing_eq y x s' new : grew x (y_sh y) s' new → sealing s' y = y <| y_sealed := y_sealed y ++ new |> <| y_sh := s' |>.
Proof. intros Hg. unfold sealing. rewrite (g_pending _ _ _ _ Hg), drop_app_length. done. Qed.

Lemma pc_ok_grow y y' new :
  pc_ok y → y_pc y' = y_pc y → s_pending (y_sh y') = s_pending (y_sh y) ++ new →
  s_cfg (y_sh y') = s_cfg (y_sh y) → s_stale (y_sh y') = s_stale (y_sh y) → y_batches y' = y_batches y → pc_ok y'.
Proof.
  unfold pc_ok, on_server, received. intros H Ep Epd Ec Es Esv. rewrite Ep, Es, Esv. destruct (y_pc y); try done.
  - destruct H as (? & Hb & ? & ?). rewrite Ec. split_and!; try done. rewrite Epd.
    assert (length batch ≤ length (s_pending (y_sh y)))%nat by (rewrite Hb at 1; rewrite length_take; lia).
    by rewrite take_app_le.
  - destruct H as (? & ? & Hs). split_and!; [done|rewrite Epd, length_app; lia|]. by rewrite Epd, take_app_le.
  - destruct H as (? & ?). split; [done|]. rewrite Epd, length_app. lia.
Qed.

(** The buffer has grown by [x] and everything else is where it was. *)
Lemma grow_inv y x s' new acc' wr' lost' :
  ShipInv y → s_stale (y_sh y) = false → grew x (y_sh y) s' new → len (s_cur s') < c_FlushBytes (s_cfg (y_sh y)) →
  acc' = y_accepted y ++ x →
  (0 ≤ s_dropped s' ≤ lost' ∧ (lost' = 0 → acc' = wr') ∧ noted wr' acc' (s_dropped s')) →
  (s_buffered s' ≤ c_MaxBuffered (s_cfg s') ∨ ∃ d, 0 < d ≤ lost' ∧ s_buffered s' ≤ c_MaxBuffered (s_cfg s') + len (marker d)) →
  ShipInv ((sealing s' y) <| y_accepted := acc' |> <| y_written := wr' |> <| y_lost := lost' |>).
Proof.
  intros Hi Hst Hg Hc -> Hl Hb. rewrite (sealing_eq _ _ _ _ Hg).
  destruct Hi. destruct Hg as [P B Q N Z U [Cc Ccl Cs Ce Cst Cd Cr]]. destruct (v_live0 Hst) as (Lp & Lb & Lu).
  assert (Hacc : mjoin (k_Data <$> (y_sealed y ++ new)) ++ s_cur s' = y_accepted y ++ x).
  { rewrite fmap_app, join_app, <-app_assoc, B, app_assoc. by rewrite Lb. }
  split; simpl; rewrite ?Cc, ?Cs, ?Ce; try done.
  - unfold seq_of in *. simpl. intros i c [H|[Hle H]]%lookup_app_Some; [by apply v_seq0|].
    apply Q in H. rewrite H, v_next0. unfold len. lia.
  - rewrite N, v_next0, len_app. lia.
  - by apply Forall_app.
  - rewrite length_app. lia.
  - exists (s_cur s'). done.
  - intros _. split_and!; [|done|].
    + rewrite P, Lp, drop_app_le; [done|lia].
    + apply (f_equal len) in B. rewrite !len_app, data_len_join in B. rewrite U, Lu, P, data_len_app. lia.
  - by rewrite Hst.
  - intros c H. apply elem_of_app. left. by apply v_received0.
  - intros c Hc1. apply v_acked0. by rewrite take_app_le in Hc1.
  - destruct Hl as (? & ? & ?). done.
  - by rewrite Cc in Hb.
  - by rewrite Cd.
  - by eapply pc_ok_grow.
Qed.

Lemma Write_closed p s : s_closed s || s_stale s = true → (Write p s).2 = s.
Proof. unfold Write. by intros ->. Qed.

Lemma sealing_same y : sealing (y_sh y) y = y.
Proof. unfold sealing. rewrite drop_all, app_nil_r. by destruct y. Qed.

Lemma write_kept_len p s : len (write_kept p s) = Z.min (len p) (Z.max 0 (c_MaxBuffered (s_cfg s) - s_buffered s)).
Proof. unfold write_kept, len. rewrite length_take. lia. Qed.

Lemma write_kept_all p s : len (write_kept p s) = len p → write_kept p s = p.
Proof. intros H. unfold write_kept, len in *. apply take_ge. rewrite length_take in H. lia. Qed.

(** A Write notes what was dropped before it keeps anything. *)
Lemma write_noted w a p s : 0 ≤ s_dropped s → noted w a (s_dropped s) →
  noted (w ++ p) (a ++ write_marker s ++ write_kept p s)
    ((if bool_decide (write_marker s = []) then s_dropped s else 0) + (len p - len (write_kept p s))).
Proof.
  intros Hd Hn.
  assert (Hm : noted w (a ++ write_marker s) (if bool_decide (write_marker s = []) then s_dropped s else 0)).
  { unfold write_marker. destruct (bool_decide (s_dropped s > 0) && _) eqn:E.
    - apply andb_true_iff in E as [E%bool_decide_eq_true _]. rewrite bool_decide_false by apply marker_ne. apply noted_mark; [done|lia].
    - by rewrite bool_decide_true, app_nil_r. }
  set (d := if bool_decide (write_marker s = []) then _ else _) in *. rewrite app_assoc.
  assert (Hk : write_kept p s = [] ∨ d = 0).
  { unfold d, write_marker, write_kept. destruct (decide (c_MaxBuffered (s_cfg s) - s_buffered s > 0)) as [Hr|Hr].
    - right. rewrite (bool_decide_true _ Hr), andb_true_r. destruct (decide (s_dropped s > 0)) as [H0|H0].
      + rewrite (bool_decide_true _ H0). by rewrite bool_decide_false by apply marker_ne.
      + rewrite (bool_decide_false _ H0). rewrite bool_decide_true by done. lia.
    - left. replace (Z.to_nat _) with O by lia. done. }
  rewrite <-(take_drop (length (write_kept p s)) p) at 1. 
  assert (Htk : take (length (write_kept p s)) p = write_kept p s).
  { unfold write_kept. rewrite length_take. destruct (decide (Z.to_nat (c_MaxBuffered (s_cfg s) - s_buffered s) ≤ length p)%nat);
      [by rewrite Nat.min_l|rewrite Nat.min_r by lia; by rewrite !take_ge by lia]. }
  assert (Hln : len p - len (write_kept p s) = len (drop (length (write_kept p s)) p)).
  { pose proof (f_equal length Htk) as Hl. rewrite length_take in Hl. unfold len. rewrite length_drop. lia. }
  rewrite Htk, app_assoc, Hln. apply noted_drop. destruct Hk as [-> | ->]; [by rewrite !app_nil_r|by apply noted_keep].
Qed.

Lemma write_step_inv p y : ShipInv y → ShipInv (write_step p y).
Proof.
  intros Hi. unfold write_step. destruct (s_closed (y_sh y) || s_stale (y_sh y)) eqn:Ho.
  - by rewrite Write_closed, sealing_same.
  - destruct (orb_false_elim _ _ Ho) as [_ Hst]. pose proof Hi as [[[Hf ?] Hm] Hc].
    destruct (Write_grew p (y_sh y) Hf Hc Ho) as (new & Hg & Hl & Hd).
    pose proof (write_kept_len p (y_sh y)) as Hk. pose proof (len_nonneg p).
    pose proof v_lost0 as (Hd1 & Hd2 & Hnote).
    assert (Hcfg : s_cfg (Write p (y_sh y)).2 = s_cfg (y_sh y)) by apply Hg.
    eapply grow_inv; [done..| |].
    + rewrite Hd. split; [case_bool_decide; lia|]. split; [|apply write_noted; [lia|by apply Hnote]]. intros Hz.
      assert (Hlost : y_lost y = 0) by lia. assert (s_dropped (y_sh y) = 0) as E0 by lia.
      unfold write_marker. rewrite E0. simpl. rewrite (write_kept_all p) by lia. by rewrite Hd2.
    + rewrite Hcfg, (g_buffered _ _ _ _ Hg), len_app, Hk. unfold write_marker.
      destruct (decide (s_dropped (y_sh y) > 0 ∧ c_MaxBuffered (s_cfg (y_sh y)) - s_buffered (y_sh y) > 0)) as [[D1 D2]|D].
      * rewrite !bool_decide_true by done. right. exists (s_dropped (y_sh y)). simpl. lia.
      * assert (Em : bool_decide (s_dropped (y_sh y) > 0) && bool_decide (c_MaxBuffered (s_cfg (y_sh y)) - s_buffered (y_sh y) > 0) = false).
        { apply not_true_iff_false. by rewrite andb_true_iff, !bool_decide_eq_true. }
        rewrite Em. change (len (A := N) []) with 0.
        destruct (decide (s_buffered (y_sh y) ≤ c_MaxBuffered (s_cfg (y_sh y)))); [left; lia|].
        destruct v_bound0 as [?|(d & ? & ?)]; [lia|]. right. exists d. lia.
Qed.

Lemma Taking_inv f b y : ShipInv y → y_pc y = Taking f b → ∃ y', loop_step y = Some y' ∧ ShipInv y'.
Proof.
  intros Hi Hp. unfold loop_step. rewrite Hp. destruct (s_stale (y_sh y)) eqn:Hst.
  - destruct (v_stale _ Hi Hst) as (E1 & E2 & _). unfold take_. rewrite E1. simpl. rewrite E2. simpl.
    rewrite sealing_same. eexists. split; [done|]. apply drained_inv; [done|]. by rewrite Hp.
  - pose proof Hi as [[[Hf Hfp] _] Hc]. destruct (take_spec (y_sh y) Hf Hc) as (new & n & Hg & Hcur & Hd & Ht & Hn & Hpos & Hb).
    destruct (take_ (y_sh y)) as [batch s']. simpl in *.
    assert (Hi' : ShipInv ((sealing s' y) <| y_accepted := y_accepted y |> <| y_written := y_written y |> <| y_lost := y_lost y |>)).
    { eapply grow_inv; [done..| | | |].
      - rewrite Hcur. unfold len. simpl. lia.
      - by rewrite app_nil_r.
      - rewrite Hd. destruct v_lost0 as (? & ? & Hnote). split_and!; try done; [lia..|by apply Hnote].
      - rewrite (g_buffered _ _ _ _ Hg). change (len (A := N) []) with 0. rewrite Z.add_0_r.
        by rewrite (sc_cfg _ _ (g_control _ _ _ _ Hg)). }
    assert (Hi2 : ShipInv (sealing s' y)) by exact Hi'. clear Hi'.
    assert (Hp2 : y_pc (sealing s' y) = Taking f b) by done.
    eexists. split; [done|]. destruct batch as [|c batch]; [apply drained_inv; [done|by rewrite Hp2]|].
    apply move_inv; [done|by rewrite Hp2|done|]. unfold pc_ok. simpl. split_and!.
    + by rewrite (sc_stale _ _ (g_control _ _ _ _ Hg)).
    + by rewrite Ht at 1; rewrite <-Hn.
    + done.
    + rewrite (sc_cfg _ _ (g_control _ _ _ _ Hg)). apply Hb; [done|].
      destruct (v_live _ Hi Hst) as (-> & _). apply Forall_drop. eapply Forall_impl; [apply Hi|]. simpl. lia.
Qed.

(** ** Answers of the sink *)

Lemma sealed_unique y c c' : seq_of y → c ∈ y_sealed y → c' ∈ y_sealed y → k_Seq c = k_Seq c' → c = c'.
Proof.
  intros Hs [i Hi]%list_elem_of_lookup [j Hj]%list_elem_of_lookup He. apply Hs in Hi as E1. apply Hs in Hj as E2.
  assert (i = j) as -> by lia. congruence.
Qed.

Lemma pending_sealed y c : ShipInv y → c ∈ s_pending (y_sh y) → c ∈ y_sealed y.
Proof.
  intros Hi Hc. destruct (s_stale (y_sh y)) eqn:Hst.
  - destruct (v_stale _ Hi Hst) as (_ & E & _). rewrite E in Hc. by apply elem_of_nil in Hc.
  - destruct (v_live _ Hi Hst) as (E & _). rewrite E in Hc. by eapply subseteq_drop.
Qed.

Lemma received_snoc y b : received (y <| y_batches := y_batches y ++ [b] |>) = received y ++ b.
Proof. unfold received. simpl. rewrite join_app. simpl. by rewrite app_nil_r. Qed.

(** The server has accepted a batch of sealed chunks; nothing else moved. *)
Lemma stored_inv y b f bo : ShipInv y → y_pc y = Sending f bo b → ShipInv (y <| y_batches := y_batches y ++ [b] |>).
Proof.
  intros Hi Hp. pose proof (v_pc _ Hi) as Hk. unfold pc_ok in Hk. rewrite Hp in Hk. destruct Hk as (Hst & Hb & Hrest).
  assert (Hbs : ∀ c, c ∈ b → c ∈ y_sealed y).
  { intros c Hc. apply pending_sealed; [done|]. rewrite Hb in Hc. by eapply subseteq_take. }
  destruct Hi. split; try done.
  - intros c. rewrite received_snoc. intros [Hc|Hc]%elem_of_app; [by apply v_received0|by apply Hbs].
  - intros c Hc Hr. rewrite received_snoc. apply elem_of_app. left. by apply v_acked0.
  - unfold pc_ok. simpl. by rewrite Hp.
Qed.

Lemma send_inv o y y' : ShipInv y → send_step o y = Some y' → ShipInv y'.
Proof.
  intros Hi Hs. unfold send_step in Hs. destruct (y_pc y) as [| | | |f b batch| | | | | | | |] eqn:Hp; try done. injection Hs as <-.
  pose proof (v_pc _ Hi) as Hk. unfold pc_ok in Hk. rewrite Hp in Hk. destruct Hk as (Hst & Hb & Hne & _).
  assert (Hle : (length batch ≤ length (s_pending (y_sh y)))%nat) by (rewrite Hb at 1; rewrite length_take; lia).
  assert (Hbs : ∀ c, c ∈ batch → c ∈ y_sealed y).
  { intros c Hc. apply pending_sealed; [done|]. rewrite Hb in Hc. by eapply subseteq_take. }
  destruct o as [| | |arrived].
  - apply move_inv; [by eapply stored_inv|simpl; by rewrite Hp|done|]. unfold pc_ok, on_server. simpl.
    rewrite <-Hb. split_and!; [done|done|]. intros c Hc.
    change (c ∈ received (y <| y_batches := y_batches y ++ [batch] |>)). rewrite received_snoc. apply elem_of_app. by right.
  - apply move_inv; [done|by rewrite Hp|done|done].
  - apply move_inv; [done|by rewrite Hp|done|done].
  - destruct arrived; (apply move_inv; [|simpl; by rewrite Hp|done|done]); [by eapply stored_inv|done].
Qed.

Lemma ack_bounds y n : ShipInv y → s_stale (y_sh y) = false → (n ≤ length (s_pending (y_sh y)))%nat →
  (y_acked y + n ≤ length (y_sealed y))%nat ∧ drop n (s_pending (y_sh y)) = drop (y_acked y + n) (y_sealed y) ∧
  take (y_acked y + n) (y_sealed y) = take (y_acked y) (y_sealed y) ++ take n (s_pending (y_sh y)).
Proof.
  intros Hi Hst Hn. destruct (v_live _ Hi Hst) as (E & _). pose proof (v_acked_le _ Hi). rewrite E in *.
  rewrite length_drop in Hn. split_and!; [lia|by rewrite drop_drop|]. by rewrite take_take_drop.
Qed.

(** Acknowledging the first [n] pending chunks, delivered or refused. *)
Lemma ack_inv y n p refused' :
  ShipInv y → neutral (y_pc y) = true → s_stale (y_sh y) = false → (n ≤ length (s_pending (y_sh y)))%nat →
  (∀ c, c ∈ y_refused y → c ∈ refused') →
  (∀ c, c ∈ take n (s_pending (y_sh y)) → c ∈ refused' ∨ c ∈ received y) →
  (is_Reporting p = true ∨ refused' = y_refused y) → is_Firing p = false → is_Exited p = false →
  pc_ok (y <| y_refused := refused' |> <| y_sh := ack n (y_sh y) |> <| y_acked := (y_acked y + n)%nat |> <| y_pc := p |>) →
  ShipInv (y <| y_refused := refused' |> <| y_sh := ack n (y_sh y) |> <| y_acked := (y_acked y + n)%nat |> <| y_pc := p |>).
Proof.
  intros Hi Hn0 Hst Hn Hsub Hdel Hrep Hfi Hex Hp. destruct (ack_bounds y n Hi Hst Hn) as (Hle & Hdrop & Htake).
  destruct (neutral_spec _ Hn0) as (E1 & E2 & E3). destruct Hi. destruct (v_live0 Hst) as (Lp & Lb & Lu).
  pose proof (data_len_nonneg (take n (s_pending (y_sh y)))).
  split; try done; simpl.
  - intros _. split_and!; [done|done|]. rewrite Lu.
    pose proof (data_len_app (take n (s_pending (y_sh y))) (drop n (s_pending (y_sh y)))) as Hd. rewrite take_drop in Hd. lia.
  - by rewrite Hst.
  - intros c. rewrite Htake. intros [Hc|Hc]%elem_of_app Hr.
    + apply v_acked0; [done|]. intros H'. by apply Hr, Hsub.
    + by destruct (Hdel c Hc).
  - intros Hr. destruct Hrep as [->|Er]; [by right|]. left. rewrite Er in Hr. destruct (v_refused0 Hr) as [?|Hx]; [done|]. by rewrite E1 in Hx.
  - destruct v_bound0 as [?|(d & ? & ?)]; [left; lia|]. right. exists d. lia.
  - rewrite Hst. simpl. rewrite Hst in v_calls0. done.
  - by rewrite Hex, v_done0.
Qed.

(** ** Every event *)

(** A stale answer: the buffer is dropped, the chunks sealed so far stay history. *)
Lemma markStale_inv f y : ShipInv y → y_pc y = Superseded f → ShipInv (y <| y_sh := markStale (y_sh y) |> <| y_pc := Firing f |>).
Proof.
  intros Hi Hp. pose proof (v_pc _ Hi) as Hst. unfold pc_ok in Hst. rewrite Hp in Hst. destruct Hi.
  rewrite Hp in *. rewrite Hst in v_calls0. split; try done; simpl.
  - unfold len. simpl. lia.
  - split_and!; [lia|lia|apply v_lost0|done].
  - left. lia.
Qed.

Lemma fired_inv f y : ShipInv y → y_pc y = Firing f →
  ShipInv (drained f (y <| y_sh := (y_sh y) <| s_runDone := true |> |> <| y_stale_calls := S (y_stale_calls y) |>)).
Proof.
  intros Hi Hp. pose proof (v_pc _ Hi) as Hst. unfold pc_ok in Hst. rewrite Hp in Hst.
  destruct f, Hi; rewrite Hp in *; rewrite Hst in v_calls0; split; try done; simpl; by rewrite Hst, v_calls0.
Qed.

Lemma setErr_inv y f b : ShipInv y → y_pc y = Reporting f b → ShipInv (y <| y_sh := setErr ErrRejected (y_sh y) |> <| y_pc := Top f b |>).
Proof.
  intros Hi Hp. destruct Hi. rewrite Hp in *. unfold setErr. destruct (s_err (y_sh y)) eqn:He; split; try done; simpl.
  - intros _. left. by rewrite He.
  - intros _. by left.
Qed.

Lemma loop_inv y y' : ShipInv y → loop_step y = Some y' → ShipInv y'.
Proof.
  intros Hi Hs. destruct (y_pc y) as [| |f b|f b|f b batch|f n|f b n|f b|f|f|f b|f b|] eqn:Hp;
    try (unfold loop_step in Hs; rewrite Hp in Hs; (discriminate Hs || injection Hs as <-)).
  - destruct (ctx_done f y); [apply drained_inv|apply move_inv]; by rewrite ?Hp.
  - destruct (Taking_inv f b y Hi Hp) as (y2 & E & ?).
    unfold loop_step in E. rewrite Hp in E. by injection E as <-.
  - pose proof (v_pc _ Hi) as Hk. unfold pc_ok in Hk. rewrite Hp in Hk. destruct Hk as (Hst & Hn & Hon).
    assert (Hx : ShipInv (y <| y_refused := y_refused y |> <| y_sh := ack n (y_sh y) |> <| y_acked := (y_acked y + n)%nat |> <| y_pc := Top f (first_backoff y) |>));
      [|by destruct y].
    apply ack_inv; try done; [by rewrite Hp|by right; apply Hon|by right].
  - pose proof (v_pc _ Hi) as Hk. unfold pc_ok in Hk. rewrite Hp in Hk. destruct Hk as (Hst & Hn).
    apply ack_inv; try done; [by rewrite Hp| | |by left].
    + intros c Hc. apply elem_of_app. by left.
    + intros c Hc. left. apply elem_of_app. by right.
  - by apply setErr_inv.
  - by apply markStale_inv.
  - by apply fired_inv.
  - pose proof (v_pc _ Hi) as Hk. unfold pc_ok in Hk. rewrite Hp in Hk.
    destruct (ctx_done f y); [apply drained_inv|apply move_inv]; by rewrite ?Hp.
Qed.

Lemma guard_Some b y y' : guard_ b y = Some y' → b = true ∧ y' = y.
Proof. unfold guard_. destruct b; [|done]. by intros [= ->]. Qed.

Lemma next_inv e y y' : ShipInv y → next e y = Some y' → ShipInv y'.
Proof.
  intros Hi Hs. destruct e; simpl in Hs.
  - injection Hs as <-. by apply write_step_inv.
  - destruct (y_pc y) eqn:Hp; try done. injection Hs as <-. apply move_inv; by rewrite ?Hp.
  - destruct (y_pc y) eqn:Hp; try done. apply guard_Some in Hs as [_ ->].
    apply move_inv; [by apply flags_inv|simpl; by rewrite Hp|done|done].
  - destruct (y_pc y) eqn:Hp; try done; apply guard_Some in Hs as [_ ->]; apply move_inv; by rewrite ?Hp.
  - destruct (y_pc y) eqn:Hp; try done; apply guard_Some in Hs as [_ ->]; apply move_inv; by rewrite ?Hp.
  - by eapply loop_inv.
  - by eapply send_inv.
  - destruct (y_pc y) eqn:Hp; try done. injection Hs as <-. apply move_inv; by rewrite ?Hp.
  - destruct (y_pc y) eqn:Hp; try done. apply guard_Some in Hs as [_ ->]. apply drained_inv; by rewrite ?Hp.
  - destruct (y_pc y) as [| | | | | | | | | | |[]|] eqn:Hp; try done. apply guard_Some in Hs as [_ ->].
    apply (drained_inv false); by rewrite ?Hp.
  - apply guard_Some in Hs as [_ ->]. by apply flags_inv.
  - apply guard_Some in Hs as [_ ->]. by apply flags_inv.
  - injection Hs as <-. by apply ctxDone_inv.
  - apply guard_Some in Hs as [_ ->]. by apply flags_inv.
Qed.

Lemma run_inv es y y' : ShipInv y → run_events es y = Some y' → ShipInv y'.
Proof.
  revert y. induction es as [|e es IH]; intros y Hi; simpl; [by intros [= <-]|].
  intros (y1 & H1 & H2)%bind_Some. eapply IH, H2. by eapply next_inv.
Qed.

Lemma reachable_inv cfg y : reachable cfg y → ShipInv y.
Proof. intros [es He]. eapply run_inv, He. apply start_inv. Qed.
