(* ===== verification/LogshipSpec.v ===== *)
(** * Theorems about the log shipper

    What follows from the invariant of LogshipInv: no chunk is altered or lost in
    silence, after a Close that returns nil every chunk has reached the server, sends are
    bounded, a stale attempt sends nothing, the final flush ends. *)

From stdpp Require Import pretty.
From S2P Require Import Prelude GoLib Logship LogshipInv.

Local Open Scope Z_scope.

(** ** Faithful delivery *)

(** What an event does to the history of the chunks. *)
Inductive chunk_effect (y y' : Sys) : Prop :=
  | ce_quiet : y_batches y' = y_batches y → y_acked y' = y_acked y → y_refused y' = y_refused y →
      (∃ new, y_sealed y' = y_sealed y ++ new) → (∀ f n, y_pc y' = Acked f n → y_pc y = Acked f n) → chunk_effect y y'
  | ce_accepted f b batch : y_pc y = Sending f b batch → y_batches y' = y_batches y ++ [batch] → y_acked y' = y_acked y →
      y_refused y' = y_refused y → y_sealed y' = y_sealed y → (∀ f n, y_pc y' = Acked f n → n = length batch) → chunk_effect y y'
  | ce_acked f n : y_pc y = Acked f n → y_batches y' = y_batches y → y_acked y' = (y_acked y + n)%nat →
      y_refused y' = y_refused y → y_sealed y' = y_sealed y → (∀ f n, y_pc y' ≠ Acked f n) → chunk_effect y y'
  | ce_refused f b n : y_pc y = Refused f b n → y_batches y' = y_batches y → y_acked y' = (y_acked y + n)%nat →
      y_refused y' = y_refused y ++ take n (s_pending (y_sh y)) → y_sealed y' = y_sealed y → (∀ f n, y_pc y' ≠ Acked f n) → chunk_effect y y'.

Lemma quiet_same y y' : y_batches y' = y_batches y → y_acked y' = y_acked y → y_refused y' = y_refused y → y_sealed y' = y_sealed y →
  (∀ f n, y_pc y' = Acked f n → y_pc y = Acked f n) → chunk_effect y y'.
Proof. intros H1 H2 H3 H4 H5. apply ce_quiet; try done. exists []. by rewrite app_nil_r. Qed.

Lemma next_effect e y y' : next e y = Some y' → chunk_effect y y'.
Proof.
  intros H. assert (Hdr : ∀ f z, y_batches z = y_batches y → y_acked z = y_acked y → y_refused z = y_refused y →
    (∃ new, y_sealed z = y_sealed y ++ new) → chunk_effect y (drained f z)) by (intros [] z; by intros; apply ce_quiet).
  assert (Hs0 : ∃ new, y_sealed y = y_sealed y ++ new) by (exists []; by rewrite app_nil_r).
  destruct e; simpl in H.
  - injection H as <-. unfold write_step. destruct (_ || _); apply ce_quiet; try done; by eexists.
  - destruct (y_pc y) eqn:Hp; try done. injection H as <-. by apply quiet_same.
  - destruct (y_pc y); try done. apply guard_Some in H as [_ ->]. by apply quiet_same.
  - destruct (y_pc y); try done; apply guard_Some in H as [_ ->]; by apply quiet_same.
  - destruct (y_pc y); try done. apply guard_Some in H as [_ ->]. by apply quiet_same.
  - unfold loop_step in H. destruct (y_pc y) as [| |f b|f b|f b batch|f n|f b n|f b|f|f|f b|f b|] eqn:Hp; try done; injection H as <-.
    + destruct (ctx_done f y); [by apply Hdr|by apply quiet_same].
    + case_match; [apply Hdr; try done; by eexists|apply ce_quiet; try done; by eexists].
    + by eapply ce_acked.
    + by eapply ce_refused.
    + by apply quiet_same.
    + by apply quiet_same.
    + by apply Hdr.
    + destruct (ctx_done f y); [by apply Hdr|by apply quiet_same].
  - unfold send_step in H. destruct (y_pc y) eqn:Hp; try done. injection H as <-.
    destruct o as [| | |[]]; try (by apply quiet_same); (eapply ce_accepted; try done; by intros ? ? [= -> ->]).
  - destruct (y_pc y); try done. injection H as <-. by apply quiet_same.
  - destruct (y_pc y); try done. apply guard_Some in H as [_ ->]. by apply Hdr.
  - destruct (y_pc y) as [| | | | | | | | | | |[]|]; try done. apply guard_Some in H as [_ ->]. by apply quiet_same.
  - apply guard_Some in H as [_ ->]. by apply quiet_same.
  - apply guard_Some in H as [_ ->]. by apply quiet_same.
  - injection H as <-. by apply quiet_same.
  - apply guard_Some in H as [_ ->]. by apply quiet_same.
Qed.

Lemma batches_grow es y y' : run_events es y = Some y' → y_batches y `prefix_of` y_batches y'.
Proof.
  revert y. induction es as [|e es IH]; intros y; simpl; [by intros [= <-]|].
  intros (y1 & H1 & H2)%bind_Some. etrans; [|by apply IH]. destruct (next_effect _ _ _ H1); rewrite ?H, ?H0; [done|by eexists|done|done].
Qed.

(** in every interleaving of writers, flush loop and Close, whatever the sink
    answers and however often a batch is resent, a chunk numbered [q] that reached the
    server is the [q]-th chunk that was sealed, what reached it once has reached it for
    good, and the sealed chunks in order are a prefix of the bytes taken into the buffer,
    in which every run of dropped bytes is replaced by a marker that states its length. *)
Theorem chunks_arrive_unaltered cfg y es y' :
  reachable cfg y → run_events es y = Some y' →
  (∀ c, c ∈ received y → y_sealed y !! Z.to_nat (k_Seq c - 1) = Some c ∧ 1 ≤ k_Seq c ∧ c ∈ received y') ∧
  mjoin (k_Data <$> y_sealed y) `prefix_of` y_accepted y ∧
  (s_stale (y_sh y) = false → noted (y_written y) (y_accepted y) (s_dropped (y_sh y))).
Proof.
  intros Hr%reachable_inv Hrun. split_and!; [|apply Hr|apply Hr].
  intros c Hc. pose proof (v_received _ Hr _ Hc) as [i Hi]%list_elem_of_lookup.
  pose proof (v_seq _ Hr _ _ Hi) as Hs. replace (Z.to_nat (k_Seq c - 1)) with i by lia.
  split_and!; [done|lia|]. destruct (batches_grow _ _ _ Hrun) as [l E]. unfold received. rewrite E, join_app. apply elem_of_app. by left.
Qed.

(** ** Close *)

Lemma data_len_zero l : Forall (λ c, 0 < len (k_Data c)) l → data_len l = 0 → l = [].
Proof. intros H E. destruct H as [|c l Hc _]; [done|]. simpl in E. pose proof (data_len_nonneg l). lia. Qed.

(** Nothing buffered means that every sealed chunk has been acknowledged. *)
Lemma nothing_buffered y : ShipInv y → s_stale (y_sh y) = false → s_buffered (y_sh y) ≤ 0 →
  s_cur (y_sh y) = [] ∧ take (y_acked y) (y_sealed y) = y_sealed y ∧ mjoin (k_Data <$> y_sealed y) = y_accepted y.
Proof.
  intros Hi Hst Hb. destruct (v_live _ Hi Hst) as (Lp & Lb & Lu).
  pose proof (len_nonneg (s_cur (y_sh y))). pose proof (data_len_nonneg (s_pending (y_sh y))).
  assert (Hcur : s_cur (y_sh y) = []) by (apply len_nil; lia).
  assert (Hp : s_pending (y_sh y) = []).
  { apply data_len_zero; [|lia]. rewrite Lp. apply Forall_drop. eapply Forall_impl; [apply Hi|]. simpl. lia. }
  split_and!; [done| |by rewrite Hcur, app_nil_r in Lb].
  rewrite Lp in Hp. apply (f_equal length) in Hp. rewrite length_drop in Hp. simpl in Hp. apply take_ge. lia.
Qed.

(** What a nil result of Close means for a shipper whose loop has exited. *)
Lemma closed_nil y :
  ShipInv y → s_done (y_sh y) = true → close_result (y_sh y) = CloseNil →
  y_refused y = [] ∧ y_acked y = length (y_sealed y) ∧ mjoin (k_Data <$> y_sealed y) = y_accepted y ∧
  noted (y_written y) (y_accepted y) 0 ∧ (y_lost y = 0 → y_accepted y = y_written y).
Proof.
  intros Hi Hd Hc. unfold close_result in Hc.
  destruct (s_stale (y_sh y)) eqn:Hst; [done|]. destruct (s_err (y_sh y)) eqn:He; [done|].
  case_bool_decide as Hb; [done|]. case_bool_decide as Hdr; [done|].
  destruct (nothing_buffered y Hi Hst) as (_ & Hall & Hacc); [lia|]. destruct (v_lost _ Hi) as (Hl1 & Hl2 & Hn).
  split_and!; [|  |done| |done].
  - destruct (y_refused y) eqn:Er; [done|]. destruct (v_refused _ Hi) as [?|Hx]; [by rewrite Er|done|].
    rewrite (v_done _ Hi) in Hd. by destruct (y_pc y).
  - apply (f_equal length) in Hall. rewrite length_take in Hall. pose proof (v_acked_le _ Hi). lia.
  - replace 0 with (s_dropped (y_sh y)) by lia. by apply Hn.
Qed.

(** ** Bounds *)

(** no send carries more than MaxPostBytes, no chunk is empty or larger than
    FlushBytes, and the unsent bytes exceed MaxBuffered by at most one marker. *)
Theorem shipper_is_bounded cfg y :
  reachable cfg y →
  (∀ f b batch, y_pc y = Sending f b batch → batch ≠ [] ∧ data_len batch ≤ c_MaxPostBytes (s_cfg (y_sh y))) ∧
  Forall (λ c, 0 < len (k_Data c) ≤ c_FlushBytes (s_cfg (y_sh y))) (y_sealed y) ∧
  (s_buffered (y_sh y) ≤ c_MaxBuffered (s_cfg (y_sh y)) ∨
   ∃ d, 0 < d ≤ y_lost y ∧ s_buffered (y_sh y) ≤ c_MaxBuffered (s_cfg (y_sh y)) + len (marker d)).
Proof.
  intros Hi%reachable_inv. split_and!; [|apply Hi|apply Hi]. intros f b batch Hp.
  pose proof (v_pc _ Hi) as Hk. unfold pc_ok in Hk. rewrite Hp in Hk. by destruct Hk as (_ & _ & ? & ?).
Qed.

(** ** Stale attempts *)

Lemma drained_stale f y : s_stale (y_sh (drained f y)) = s_stale (y_sh y).
Proof. by destruct f. Qed.

Lemma stale_next e y y' : ShipInv y → s_stale (y_sh y) = true → next e y = Some y' →
  s_stale (y_sh y') = true ∧ y_batches y' = y_batches y ∧ (∀ o, e ≠ ESend o).
Proof.
  intros Hi Hst H. assert (Hs : s_closed (y_sh y) || s_stale (y_sh y) = true) by (rewrite Hst; apply orb_true_r).
  pose proof (v_pc _ Hi) as Hk. unfold pc_ok in Hk. rewrite Hst in Hk.
  destruct (v_stale _ Hi Hst) as (Ec & Ep & _).
  destruct e; simpl in H; try (apply guard_Some in H as [_ ->]; done).
  - injection H as <-. unfold write_step. rewrite Hs, Write_closed, sealing_same by done. done.
  - destruct (y_pc y); try done. by injection H as <-.
  - destruct (y_pc y); try done. by apply guard_Some in H as [_ ->].
  - destruct (y_pc y); try done; by apply guard_Some in H as [_ ->].
  - destruct (y_pc y); try done. by apply guard_Some in H as [_ ->].
  - unfold loop_step in H. destruct (y_pc y) as [| |f b|f b|f b batch|f n|f b n|f b|f|f|f b|f b|]; try done; try (by destruct Hk).
    + injection H as <-. destruct (ctx_done f y), f; done.
    + unfold take_ in H. rewrite Ec in H. simpl in H. rewrite Ep in H. simpl in H. rewrite sealing_same in H. injection H as <-. by destruct f.
    + injection H as <-. by destruct f.
  - unfold send_step in H. destruct (y_pc y); try done. by destruct Hk.
  - destruct (y_pc y); try done.
  - destruct (y_pc y); try done.
  - destruct (y_pc y) as [| | | | | | | | | | |[]|]; try done.
  - by injection H as <-.
Qed.

(** once an attempt is stale it stays so, the loop never calls the sink again, the
    server gets no further batch, nothing is buffered, Close answers ErrStale and
    OnStale has been reached at most once. *)
Theorem stale_attempt_sends_nothing cfg y es y' :
  reachable cfg y → s_stale (y_sh y) = true → run_events es y = Some y' →
  s_stale (y_sh y') = true ∧ y_batches y' = y_batches y ∧ (∀ o, ESend o ∉ es) ∧
  s_buffered (y_sh y') = 0 ∧ close_result (y_sh y') = CloseStale ∧ (y_stale_calls y' ≤ 1)%nat.
Proof.
  intros Hi%reachable_inv Hst Hrun.
  assert (H : s_stale (y_sh y') = true ∧ y_batches y' = y_batches y ∧ (∀ o, ESend o ∉ es) ∧ ShipInv y').
  { revert y Hi Hst Hrun. induction es as [|e es IH]; intros y Hi Hst; simpl.
    - intros [= <-]. split_and!; try done. intros o. apply not_elem_of_nil.
    - intros (y1 & H1 & H2)%bind_Some. destruct (stale_next _ _ _ Hi Hst H1) as (A1 & A2 & A3).
      destruct (IH y1) as (B1 & B2 & B3 & B4); [by eapply next_inv|done|done|].
      split_and!; [done|by rewrite B2|intros o [?|?]%elem_of_cons; [by eapply A3|by eapply B3]|done]. }
  destruct H as (Hst' & Hsv & He & Hi'). destruct (v_stale _ Hi' Hst') as (_ & _ & Hb & _).
  split_and!; try done; [unfold close_result; by rewrite Hst'|]. rewrite (v_calls _ Hi'). by destruct (_ && _); lia.
Qed.

(** ** The final flush *)

(** The loop driven by a list of answers of the sink, writers being shut out. *)
Fixpoint drive (fuel : nat) (os : list Outcome) (y : Sys) : Sys :=
  match fuel with
  | O => y
  | S k =>
      match y_pc y, os with
      | Exited, _ => y
      | Sending _ _ _, o :: os' => match send_step o y with Some y' => drive k os' y' | None => y end
      | Sending _ _ _, [] => y
      | _, _ => match loop_step y with Some y' => drive k os y' | None => y end
      end
  end.

(** What is driven is a run of the system. *)
Lemma drive_runs fuel : ∀ os y, ∃ es, run_events es y = Some (drive fuel os y).
Proof.
  assert (Hstep : ∀ y k os (IH : ∀ os y, ∃ es, run_events es y = Some (drive k os y)),
    ∃ es, run_events es y = Some (match loop_step y with Some y' => drive k os y' | None => y end)).
  { intros y k os IH. destruct (loop_step y) as [y1|] eqn:E; [|by exists []].
    destruct (IH os y1) as [es He]. exists (EStep :: es). simpl. by rewrite E. }
  induction fuel as [|k IH]; intros os y; [by exists []|]. simpl.
  destruct (y_pc y) eqn:Hp; try (by apply Hstep); [|by exists []].
  destruct os as [|o os]; [by exists []|]. destruct (send_step o y) as [y1|] eqn:E; [|by exists []].
  destruct (IH os y1) as [es He]. exists (ESend o :: es). simpl. by rewrite E.
Qed.

Definition transient (o : Outcome) : bool := match o with OTransient _ => true | _ => false end.

(** The sends the flush can still need. *)
Definition need (y : Sys) : nat := length (s_pending (y_sh y)) + (if bool_decide (s_cur (y_sh y) = []) then 0 else 1).

(** What the flush leaves alone when every answer is nil. *)
Definition settled (y y' : Sys) : Prop :=
  s_buffered (y_sh y') = 0 ∧ s_dropped (y_sh y') = s_dropped (y_sh y) ∧ s_err (y_sh y') = s_err (y_sh y) ∧
  s_stale (y_sh y') = s_stale (y_sh y).

Lemma take_need y : ShipInv y → (length (s_pending (take_ (y_sh y)).2) = need y)%nat.
Proof.
  intros Hi. unfold take_, need. simpl. pose proof (len_nil (s_cur (y_sh y))).
  destruct (decide (s_cur (y_sh y) = [])) as [E|E]; [rewrite (bool_decide_true _ E)|rewrite (bool_decide_false _ E)].
  - rewrite E. simpl. lia.
  - rewrite bool_decide_true; [simpl; rewrite length_app; simpl; lia|]. pose proof (len_nonneg (s_cur (y_sh y))).
    destruct (decide (len (s_cur (y_sh y)) = 0)) as [E0|]; [by apply H in E0|lia].
Qed.

(** One pass of the loop: it ends, or reaches a send. *)
Lemma taking_step f b y : ShipInv y → y_pc y = Taking f b →
  ∃ y1, loop_step y = Some y1 ∧ s_cur (y_sh y1) = [] ∧ length (s_pending (y_sh y1)) = need y ∧
    s_dropped (y_sh y1) = s_dropped (y_sh y) ∧ s_err (y_sh y1) = s_err (y_sh y) ∧ s_stale (y_sh y1) = s_stale (y_sh y) ∧
    y_ctxDone y1 = y_ctxDone y ∧
    ((y1 = drained f (sealing (take_ (y_sh y)).2 y) ∧ s_pending (y_sh y1) = []) ∨
     ∃ batch, y_pc y1 = Sending f b batch ∧ batch ≠ []).
Proof.
  intros Hi Hp. pose proof Hi as [[[Hf _] _] Hc]. destruct (take_spec (y_sh y) Hf Hc) as (new & n & Hg & Hcur & Hd & Ht & Hn & Hpos & _).
  pose proof (take_need y Hi) as Hlen. unfold loop_step. rewrite Hp. destruct (take_ (y_sh y)) as [batch s'] eqn:Et. simpl in *.
  destruct (g_control _ _ _ _ Hg) as [_ _ Es Ee _ _ _]. eexists. split; [done|]. destruct batch as [|c batch].
  - assert (Hnil : s_pending s' = []). { destruct (s_pending s'); [done|]. rewrite <-Hn in Hpos. specialize (Hpos ltac:(done)). simpl in Hpos. lia. }
    destruct f; simpl; split_and!; try done; left; by split.
  - simpl. split_and!; try done. right. by eexists.
Qed.

Definition stepping (p : PC) : bool := match p with Exited | Sending _ _ _ => false | _ => true end.

Lemma drive_step k os y y' : stepping (y_pc y) = true → loop_step y = Some y' → drive (S k) os y = drive k os y'.
Proof. intros Hs H. simpl. rewrite H. by destruct (y_pc y). Qed.
Lemma drive_send k o os y y' f b batch : y_pc y = Sending f b batch → send_step o y = Some y' → drive (S k) (o :: os) y = drive k os y'.
Proof. intros Hp H. simpl. by rewrite Hp, H. Qed.
Lemma drive_exited k os y : y_pc y = Exited → drive k os y = y.
Proof. intros Hp. destruct k; simpl; by rewrite ?Hp. Qed.

Lemma need_after_ack y n : s_cur (y_sh y) = [] → (n ≤ length (s_pending (y_sh y)))%nat →
  need (y <| y_sh := ack n (y_sh y) |>) = (length (s_pending (y_sh y)) - n)%nat.
Proof. intros Hc Hn. unfold need. simpl. rewrite Hc, bool_decide_true by done. rewrite length_drop. lia. Qed.

(** After a send that was not transient: the loop has exited, or is back at its head
    with fewer chunks pending, in at most three steps. *)
Lemma after_send o y y1 b batch :
  ShipInv y → y_pc y = Sending true b batch → s_cur (y_sh y) = [] → transient o = false → send_step o y = Some y1 →
  ∃ n y2, (n ≤ 3)%nat ∧ (∀ k os, drive (n + k) os y1 = drive k os y2) ∧ ShipInv y2 ∧
    (y_pc y2 = Exited ∧ o ≠ ONil ∨
     ∃ b', y_pc y2 = Top true b' ∧ (need y2 < length (s_pending (y_sh y)))%nat ∧
       (o = ONil → s_dropped (y_sh y2) = s_dropped (y_sh y) ∧ s_err (y_sh y2) = s_err (y_sh y) ∧
          s_stale (y_sh y2) = s_stale (y_sh y) ∧ y_ctxDone y2 = y_ctxDone y)).
Proof.
  intros Hi Hp Hc Ht Hs. pose proof (send_inv _ _ _ Hi Hs) as Hi1. unfold send_step in Hs. rewrite Hp in Hs. injection Hs as Hs.
  pose proof (v_pc _ Hi) as Hk. unfold pc_ok in Hk. rewrite Hp in Hk. destruct Hk as (Hst & Hb & Hne & _).
  assert (Hle : (0 < length batch ≤ length (s_pending (y_sh y)))%nat).
  { split; [destruct batch; [done|simpl; lia]|]. rewrite Hb at 1. rewrite length_take. lia. }
  pose proof (need_after_ack y (length batch) Hc ltac:(lia)) as Hneed. unfold need in Hneed.
  destruct o as [| | |stored]; [| | |done]; subst y1.
  - set (y1 := (y <| y_batches := _ |>) <| y_pc := _ |>) in *. destruct (loop_step y1) as [y2|] eqn:E2; [|done].
    exists 1%nat, y2. split; [lia|]. split; [intros k os; by apply drive_step|]. split; [by eapply loop_inv|].
    injection E2 as <-. right. eexists. split; [done|]. split; [unfold need; simpl in *; lia|done].
  - set (y1 := y <| y_pc := _ |>) in *. destruct (loop_step y1) as [y2|] eqn:E2; [|done].
    destruct (loop_step y2) as [y3|] eqn:E3; [|by injection E2 as <-]. exists 2%nat, y3. split; [lia|].
    split; [intros k os; etrans; [by apply (drive_step (S k) os y1 y2)|]; apply drive_step; [by injection E2 as <-|done]|].
    split; [eapply loop_inv; [|exact E3]; by eapply loop_inv|]. left. injection E2 as <-. by injection E3 as <-.
  - set (y1 := y <| y_pc := _ |>) in *. destruct (loop_step y1) as [y2|] eqn:E2; [|done].
    destruct (loop_step y2) as [y3|] eqn:E3; [|by injection E2 as <-]. exists 2%nat, y3. split; [lia|].
    split; [intros k os; etrans; [by apply (drive_step (S k) os y1 y2)|]; apply drive_step; [by injection E2 as <-|done]|].
    split; [eapply loop_inv; [|exact E3]; by eapply loop_inv|]. right. injection E2 as <-. injection E3 as <-.
    eexists. split; [done|]. split; [|done]. unfold need, setErr. simpl in *. destruct (s_err (y_sh y)); simpl in *; lia.
Qed.

Lemma flush_ends m : ∀ y b os fuel,
  ShipInv y → y_pc y = Top true b → (need y < m)%nat → Forall (λ o, transient o = false) os →
  (need y ≤ length os)%nat → (6 * need y + 2 ≤ fuel)%nat →
  y_pc (drive fuel os y) = Exited ∧
  (Forall (λ o, o = ONil) os → y_ctxDone y = false → s_stale (y_sh y) = false → settled y (drive fuel os y)).
Proof.
  induction m as [|m IH]; intros y b os fuel Hi Hp Hm Hos Hl Hf; [lia|]. destruct fuel as [|[|fuel]]; [lia..|].
  destruct (y_ctxDone y) eqn:Hx.
  { erewrite drive_step; [|by rewrite Hp|unfold loop_step; rewrite Hp; simpl; by rewrite Hx]. rewrite drive_exited; done. }
  set (yt := y <| y_pc := Taking true b |>).
  assert (Ht : loop_step y = Some yt) by (unfold loop_step; rewrite Hp; simpl; by rewrite Hx).
  assert (Hit : ShipInv yt) by (by eapply loop_inv).
  erewrite drive_step; [|by rewrite Hp|exact Ht].
  destruct (taking_step true b yt Hit eq_refl) as (y1 & E1 & Ec & En & Ed & Ee & Es & Ex & Hcase).
  assert (Hi1 : ShipInv y1) by (by eapply loop_inv). change (need yt) with (need y) in En. simpl in Ed, Ee, Es, Ex.
  erewrite drive_step; [|done|exact E1]. destruct Hcase as [[Hdr Hnil]|(batch & Hpc & Hne)].
  - assert (Hpc1 : y_pc y1 = Exited) by (by rewrite Hdr). rewrite drive_exited by done. split; [done|]. intros _ _ Hst.
    split; [|done]. destruct (v_live _ Hi1) as (_ & _ & ->); [by rewrite Es|]. by rewrite Ec, Hnil.
  - pose proof (v_pc _ Hi1) as Hk. unfold pc_ok in Hk. rewrite Hpc in Hk. destruct Hk as (_ & Hb & _).
    assert (Hn0 : (0 < need y)%nat).
    { rewrite <-En. destruct (s_pending (y_sh y1)); [|simpl; lia]. by rewrite take_nil in Hb. }
    destruct os as [|o os]; [simpl in Hl; lia|]. apply Forall_cons in Hos as [Ho Hos].
    assert (∃ y2, send_step o y1 = Some y2) as [y2 E2] by (unfold send_step; rewrite Hpc; by eexists).
    destruct (after_send o y1 y2 b batch Hi1 Hpc Ec Ho E2) as (n & y3 & Hn3 & Hdrive & Hi3 & Hcase).
    destruct fuel as [|fuel]; [lia|]. erewrite drive_send; [|done|exact E2].
    replace fuel with (n + (fuel - n))%nat by lia. rewrite Hdrive. destruct Hcase as [[Hp3 Hnn]|(b' & Hp3 & Hneed & Hsame)].
    + rewrite drive_exited by done. split; [done|]. by intros [? _]%Forall_cons.
    + simpl in Hl. destruct (IH y3 b' os (fuel - n)%nat) as [HX HS]; [done|done|lia|done|lia|lia|].
      split; [done|]. intros [-> Hall]%Forall_cons _ Hst. destruct (Hsame eq_refl) as (S1 & S2 & S3 & S4).
      destruct HS as (T1 & T2 & T3 & T4); [done|by rewrite S4, Ex|by rewrite S3, Es|].
      unfold settled. rewrite T1, T2, T3, T4, S1, S2, S3, Ed, Ee, Es. done.
Qed.

(** C22: the final flush ends.  From the head of the final drain, with writers shut out
    and as long as the sink's answers are nil, stale or rejected (a transient failure is
    retried, without a limit, until Close's context ends), at most one send per pending
    chunk, and one for the bytes not yet sealed, makes the loop exit.  If moreover every
    answer is nil, Close's context is alive, and before the flush the attempt was not
    stale, no batch had been refused and no dropped bytes were unreported, Close returns
    nil. *)
Theorem final_flush_terminates cfg y b os :
  reachable cfg y → y_pc y = Top true b → Forall (λ o, transient o = false) os → (need y ≤ length os)%nat →
  ∃ es y', run_events es y = Some y' ∧ y' = drive (6 * need y + 2) os y ∧ y_pc y' = Exited ∧ s_done (y_sh y') = true ∧
    (Forall (λ o, o = ONil) os → y_ctxDone y = false → s_stale (y_sh y) = false → s_err (y_sh y) = None →
     s_dropped (y_sh y) = 0 → close_result (y_sh y') = CloseNil).
Proof.
  intros Hi%reachable_inv Hp Hos Hl. destruct (drive_runs (6 * need y + 2) os y) as [es He].
  destruct (flush_ends (S (need y)) y b os (6 * need y + 2)) as [Hx Hs]; [done|done|lia|done|done|lia|].
  eexists es, _. split_and!; [done|done|done| |].
  - rewrite (v_done _ (run_inv _ _ _ Hi He)). by rewrite Hx.
  - intros Hall Hcd Hst Herr Hd. destruct (Hs Hall Hcd Hst) as (T1 & T2 & T3 & T4).
    unfold close_result. rewrite T4, Hst, T3, Herr, T1, T2, Hd. done.
Qed.

(** ** Concrete runs *)

Definition ship_cfg : Config := mkConfig 1 2 4 6 1.
Definition run_to (es : list ShipEvent) : Sys := default (start ship_cfg) (run_events es (start ship_cfg)).

(** Three bytes are written and sent twice, the first answer being lost. *)
Definition resend : list ShipEvent :=
  [EWrite [104; 105; 33]%N; EKick; EStep; EStep; ESend (OTransient true)].
Definition resent : list ShipEvent := [EStep; ETimer; EStep; EStep; ESend ONil; EStep].

Definition enabled (o : option Sys) : bool := match o with Some _ => true | None => false end.
Lemma run_to_reachable es : enabled (run_events es (start ship_cfg)) = true → reachable ship_cfg (run_to es).
Proof. unfold run_to. destruct (run_events es (start ship_cfg)) as [y|] eqn:E; [|done]. by exists es. Qed.

Lemma chunks_arrive_unaltered_witness :
  mkChunk 2 [33]%N ∈ received (run_to (resend ++ resent)) ∧ y_sealed (run_to resend) !! 1%nat = Some (mkChunk 2 [33]%N).
Proof.
  destruct (chunks_arrive_unaltered ship_cfg (run_to resend) resent (run_to (resend ++ resent))) as (H & _).
  - apply run_to_reachable. vm_compute. reflexivity.
  - vm_compute. reflexivity.
  - destruct (H (mkChunk 2 [33]%N)) as (H1 & _ & H2); [vm_compute; right; left|]. split; [exact H2|exact H1].
Defined.

(** A writer overruns the cap, the loop drains, the loss is noted, and Close flushes. *)
Definition overrun_and_close : list ShipEvent :=
  [EWrite [1; 2; 3; 4; 5; 6; 7]%N; ETick; EStep; EStep; ESend ONil; EStep; EStep; EStep; ESend ONil; EStep; EStep; EStep;
   EWrite [8]%N; EClose; ECloseStop; EStop].
Definition flushed : Sys := drive 200 (replicate 20 ONil) (run_to overrun_and_close).

Lemma run_events_app es1 es2 y y1 y2 : run_events es1 y = Some y1 → run_events es2 y1 = Some y2 → run_events (es1 ++ es2) y = Some y2.
Proof.
  revert y. induction es1 as [|e es1 IH]; intros y; simpl; [by intros [= ->]|].
  intros (y' & H1 & H2)%bind_Some Hr. rewrite H1. simpl. by apply IH.
Qed.

Lemma flushed_reachable : reachable ship_cfg flushed.
Proof.
  destruct (drive_runs 200 (replicate 20 ONil) (run_to overrun_and_close)) as [es He].
  exists (overrun_and_close ++ es). eapply run_events_app; [|exact He]. vm_compute. reflexivity.
Qed.

Lemma shipper_is_bounded_witness :
  ∃ f b batch, y_pc (run_to (take 4 overrun_and_close)) = Sending f b batch ∧ data_len batch ≤ 4.
Proof.
  destruct (shipper_is_bounded ship_cfg (run_to (take 4 overrun_and_close))) as (H & _); [apply run_to_reachable; vm_compute; reflexivity|].
  eexists _, _, _. split; [vm_compute; reflexivity|]. eapply (H false 1 [mkChunk 1 [1; 2]%N; mkChunk 2 [3; 4]%N]). vm_compute. reflexivity.
Defined.

Definition superseded : list ShipEvent := [EWrite [1]%N; ETick; EStep; EStep; ESend OStale; EStep; EStep].

Lemma stale_attempt_sends_nothing_witness :
  close_result (y_sh (run_to (superseded ++ [EWrite [2]%N; EClose; ECloseStop; EStop; EStep; EStep]))) = CloseStale.
Proof.
  destruct (stale_attempt_sends_nothing ship_cfg (run_to superseded) [EWrite [2]%N; EClose; ECloseStop; EStop; EStep; EStep]
    (run_to (superseded ++ [EWrite [2]%N; EClose; ECloseStop; EStop; EStep; EStep]))) as (_ & _ & _ & _ & H & _).
  - apply run_to_reachable. vm_compute. reflexivity.
  - vm_compute. reflexivity.
  - vm_compute. reflexivity.
  - exact H.
Defined.

Lemma final_flush_terminates_witness :
  ∃ es y', run_events es (run_to [EWrite [1; 2; 3]%N; EClose; ECloseStop; EStop]) = Some y' ∧ close_result (y_sh y') = CloseNil.
Proof.
  destruct (final_flush_terminates ship_cfg (run_to [EWrite [1; 2; 3]%N; EClose; ECloseStop; EStop]) 1 [ONil; ONil])
    as (es & y' & H1 & _ & _ & _ & H2).
  - apply run_to_reachable. vm_compute. reflexivity.
  - vm_compute. reflexivity.
  - repeat constructor.
  - vm_compute. lia.
  - exists es, y'. split; [exact H1|]. apply H2; [by repeat constructor|vm_compute; reflexivity..].
Defined.

(** Write does not always report its argument as written: at the cap it returns the
    count of the bytes it kept, fewer than it was given and without an error, which
    io.Copy takes for a short write. *)
Example write_can_report_short : (Write [1; 2; 3]%N (New (mkConfig 0 0 0 2 0))).1 = 2.
Proof. vm_compute. reflexivity. Qed.
