(* ===== verification/LogshipServer.v ===== *)
(** * The shipped log on the server

    The shipper's batches meet AppendLogs: whatever else the server is asked in between,
    an attempt's rows hold the first copy of each chunk number, in the order of arrival,
    cut at the log cap ([server_log]).  The shipper's chunks arrive in order
    ([OrderInv]), so that after a Close that returned nil the server holds what the
    shipper took in, up to the cap. *)

From S2P Require Import Prelude GoLib Pipeline Types Store Scheduler Protocol Advance Consistency Refinement Logs Ops LogOrder InvCheck Demo SchedulerSpec Logship LogshipInv LogshipSpec.

Local Open Scope Z_scope.

(** ** The server *)

(** The bytes the server holds for an attempt, and the chunk numbers. *)
Definition stored_log (d : DB) (id : string) (a : Z) : list N := mjoin (lr_data <$> attempt_rows d id a).

(** The batches of an attempt that were accepted among the calls [ops], in order. *)
Fixpoint accepted_batches (s : Scheduler) (id : string) (a : Z) (ops : list Op) (w : World) : list (list LogChunk) :=
  match ops with
  | [] => []
  | op :: ops' =>
      let rest := accepted_batches s id a ops' (after (exec s op) w) in
      match op, (exec s op w).1 with
      | OpAppendLogs id' a' chunks, inr _ => if bool_decide (id' = id ∧ a' = a) then chunks :: rest else rest
      | _, _ => rest
      end
  end.

Lemma sum_len_stored d id a : log_total d id a = Z.of_nat (length (stored_log d id a)).
Proof.
  unfold log_total, stored_log. generalize (attempt_rows d id a). intros l. induction l as [|r l IH]; [done|].
  rewrite fmap_cons. simpl. rewrite length_app, IH. lia.
Qed.

Lemma take_within (cap t : Z) (x y : list N) :
  take (Z.to_nat (cap - t)) (x ++ y) =
  take (Z.to_nat (cap - t)) x ++ take (Z.to_nat (cap - (t + Z.of_nat (length (take (Z.to_nat (cap - t)) x))))) y.
Proof. rewrite take_app. f_equal. f_equal. rewrite length_take. lia. Qed.

(** What one call does to the rows of an attempt. *)
Lemma exec_rows s op w id a r w2 : Inv (w_db w) → clock_pos w → exec s op w = (r, w2) →
  let new := match op, r with
             | OpAppendLogs id' a' chunks, inr _ =>
                 if bool_decide (id' = id ∧ a' = a) then new_chunks (log_seqs (w_db w) id a) chunks else []
             | _, _ => []
             end in
  log_seqs (w_db w2) id a = log_seqs (w_db w) id a ++ (c_Seq <$> new) ∧
  stored_log (w_db w2) id a = stored_log (w_db w) id a ++ take (Z.to_nat (s_logCap s - log_total (w_db w) id a)) (mjoin (c_Data <$> new)).
Proof.
  intros Hinv Hclk E new.
  assert (Hsame : attempt_rows (w_db w2) id a = attempt_rows (w_db w) id a → new = [] →
    log_seqs (w_db w2) id a = log_seqs (w_db w) id a ++ (c_Seq <$> new) ∧
    stored_log (w_db w2) id a = stored_log (w_db w) id a ++ take (Z.to_nat (s_logCap s - log_total (w_db w) id a)) (mjoin (c_Data <$> new))).
  { intros Er ->. unfold log_seqs, stored_log. rewrite Er. simpl. by rewrite take_nil, !app_nil_r. }
  destruct (exec_ok s op w r w2 Hinv Hclk E) as (_ & _ & Herr).
  assert (Hkeep : (∀ id a cs, op ≠ OpAppendLogs id a cs) → attempt_rows (w_db w2) id a = attempt_rows (w_db w) id a).
  { intros Hop. pose proof (keeps_exec db_log_chunks (db_log_chunks (w_db w)) s op Hop w eq_refl) as Hk. rewrite E in Hk. simpl in Hk.
    unfold attempt_rows. by rewrite Hk. }
  destruct op as [ri|k js|j b res|k|j b cs|]; try (by apply Hsame; [apply Hkeep|]).
  destruct r as [e|[]]; [apply Hsame; [by rewrite (Herr e eq_refl)|done]|].
  destruct (AppendLogs_new _ _ _ _ _ _ Hinv E) as (rows & Hd & Hrows & Hseq & Hdata & _). unfold new. case_bool_decide as Hk.
  - destruct Hk as [-> ->]. unfold log_seqs at 1, stored_log. by rewrite Hrows, !fmap_app, join_app, Hseq, Hdata.
  - apply Hsame; [|done].
    rewrite <-(attempt_rows_other (w_db w) rows id a j b); [unfold attempt_rows; simpl; by rewrite Hd| |].
    + intros x Hx. assert (x ∈ attempt_rows (w_db w2) j b) as [_ Hp]%elem_of_sql_select by (rewrite Hrows; set_solver).
      unfold is_chunk in Hp. by apply andb_true_iff in Hp as [?%bool_decide_eq_true ?%bool_decide_eq_true].
    + intros [= -> ->]. by apply Hk.
Qed.

(** The rows of an attempt, over any calls: one for each new chunk of the accepted
    batches, in order, and together the prefix of their bytes that fits. *)
Lemma server_log s id a ops : ∀ w, Inv (w_db w) → clock_pos w →
  let new := new_chunks (log_seqs (w_db w) id a) (mjoin (accepted_batches s id a ops w)) in
  log_seqs (w_db (run_ops s ops w)) id a = log_seqs (w_db w) id a ++ (c_Seq <$> new) ∧
  stored_log (w_db (run_ops s ops w)) id a =
    stored_log (w_db w) id a ++ take (Z.to_nat (s_logCap s - log_total (w_db w) id a)) (mjoin (c_Data <$> new)).
Proof.
  induction ops as [|op ops IH]; intros w Hinv Hclk new.
  { unfold new. simpl. by rewrite take_nil, !app_nil_r. }
  destruct (after_exec_ok s op w Hinv Hclk) as (_ & Hi1 & Hc1). destruct (IH _ Hi1 Hc1) as [IHs IHd].
  change (run_ops s (op :: ops) w) with (run_ops s ops (after (exec s op) w)). rewrite IHs, IHd. clear IHs IHd.
  set (rest := accepted_batches s id a ops (after (exec s op) w)) in *. destruct (exec s op w) as [r w1] eqn:E.
  assert (Ew : after (exec s op) w = w1) by (unfold after; by rewrite E). rewrite Ew in *.
  destruct (exec_rows s op w id a r w1 Hinv Hclk E) as [Hs Hd]. set (n1 := match op with OpAppendLogs _ _ _ => _ | _ => _ end) in Hs, Hd.
  assert (En : new = n1 ++ new_chunks (log_seqs (w_db w1) id a) (mjoin rest)).
  { unfold new, n1 in *. cbn [accepted_batches]. fold rest.
    destruct op as [ri|k js|j b res|k|j b cs|]; try (simpl in *; by rewrite Hs, app_nil_r).
    rewrite E. destruct r; [simpl in *; by rewrite Hs, app_nil_r|]. cbn [fst].
    case_bool_decide; [|simpl in *; by rewrite Hs, app_nil_r]. cbn [mjoin list_join]. by rewrite new_chunks_app, Hs. }
  rewrite En, !fmap_app, join_app, Hs, app_assoc. split; [done|].
  rewrite Hd, <-app_assoc. f_equal. rewrite take_within. f_equal. f_equal. f_equal.
  rewrite (sum_len_stored (w_db w1)), Hd, length_app, Nat2Z.inj_add, (sum_len_stored (w_db w)). done.
Qed.

(** ** The order of arrival *)

Definition as_log (c : Chunk) : LogChunk := mkLogChunk (k_Seq c) (k_Data c).
Definition as_logs (b : list Chunk) : list LogChunk := as_log <$> b.
Definition arrived (y : Sys) : list LogChunk := new_chunks [] (as_log <$> received y).

(** Unless a batch was refused, what has arrived is a prefix of the sealed chunks, and it
    holds everything acknowledged. *)
Definition OrderInv (y : Sys) : Prop :=
  y_refused y = [] →
  arrived y = as_log <$> take (length (arrived y)) (y_sealed y) ∧ (y_acked y ≤ length (arrived y))%nat ∧
  ∀ f n, y_pc y = Acked f n → (y_acked y + n ≤ length (arrived y))%nat.

(** A batch that starts within what has arrived adds what lies beyond. *)
Lemma new_chunks_segment (sealed : list Chunk) m k n :
  (∀ i c, sealed !! i = Some c → k_Seq c = Z.of_nat i + 1) → (k ≤ m)%nat →
  (as_log <$> take m sealed) ++ new_chunks (c_Seq <$> (as_log <$> take m sealed)) (as_log <$> take n (drop k sealed)) =
  as_log <$> take (Nat.max m (k + n)) sealed.
Proof.
  intros Hq Hk. rewrite <-(take_drop (m - k) (take n (drop k sealed))), fmap_app, new_chunks_app.
  assert (Hseen : ∀ c, c ∈ as_log <$> take (m - k) (take n (drop k sealed)) → c_Seq c ∈ c_Seq <$> (as_log <$> take m sealed)).
  { intros c (x & -> & (i & Hi & Hlt)%elem_of_take)%list_elem_of_fmap. apply list_elem_of_fmap_2, list_elem_of_fmap_2.
    apply lookup_take_Some in Hi as [Hi _]. rewrite lookup_drop in Hi. apply elem_of_take. exists (k + i)%nat. split; [done|lia]. }
  rewrite new_chunks_seen by done. simpl. rewrite app_nil_r.
  assert (Hidx : ∀ i x, drop (m - k) (take n (drop k sealed)) !! i = Some x → k_Seq x = Z.of_nat (m + i) + 1).
  { intros i x Hi. rewrite lookup_drop in Hi. apply lookup_take_Some in Hi as [Hi _]. rewrite lookup_drop in Hi.
    apply Hq in Hi. rewrite Hi. f_equal. f_equal. lia. }
  rewrite new_chunks_all.
  - rewrite <-fmap_app. f_equal. replace (drop (m - k) (take n (drop k sealed))) with (drop m (take (Nat.max m (k + n)) sealed)).
    { rewrite <-(take_drop m (take (Nat.max m (k + n)) sealed)) at 2. by rewrite take_take, Nat.min_l by lia. }
    rewrite !skipn_firstn_comm, drop_drop. f_equal; [lia|]. f_equal. lia.
  - rewrite <-list_fmap_compose. apply NoDup_alt. intros i j q Hi Hj. rewrite list_lookup_fmap in Hi, Hj.
    destruct (drop (m - k) (take n (drop k sealed)) !! i) as [x|] eqn:Ei; [|done].
    destruct (drop (m - k) (take n (drop k sealed)) !! j) as [z|] eqn:Ej; [|done].
    apply Hidx in Ei, Ej. simpl in *. simplify_eq. lia.
  - intros c (x & -> & [i Hi]%list_elem_of_lookup)%list_elem_of_fmap. rewrite <-list_fmap_compose.
    intros (z & Ez & (j & Hj & Hlt)%elem_of_take)%list_elem_of_fmap. simpl in Ez. apply Hidx in Hi. apply Hq in Hj. lia.
Qed.

Lemma order_next e y y' : ShipInv y → OrderInv y → next e y = Some y' → OrderInv y'.
Proof.
  intros Hi Ho Hn Href. destruct (next_effect _ _ _ Hn) as [Eb Ea Er [new Es] Hp|f b batch Hpc Eb Ea Er Es Hp|f n Hpc Eb Ea Er Es Hp|f b n Hpc Eb Ea Er Es Hp].
  - destruct Ho as (H1 & H2 & H3); [congruence|]. assert (Earr : arrived y' = arrived y) by (unfold arrived, received; by rewrite Eb).
    rewrite Earr, Es, Ea. split; [|split; [done|by intros f n ?%Hp; eapply H3]].
    assert (length (arrived y) ≤ length (y_sealed y))%nat by (rewrite H1, length_fmap, length_take; lia). by rewrite take_app_le.
  - destruct Ho as (H1 & H2 & H3); [congruence|]. pose proof (v_pc _ Hi) as Hk. unfold pc_ok in Hk. rewrite Hpc in Hk. destruct Hk as (Hst & Hb & _).
    destruct (v_live _ Hi Hst) as (Epd & _). rewrite Epd in Hb.
    assert (Earr : arrived y' = as_log <$> take (Nat.max (length (arrived y)) (y_acked y + length batch)) (y_sealed y)).
    { unfold arrived at 1, received. rewrite Eb, join_app. simpl. rewrite app_nil_r, fmap_app, new_chunks_app. fold (received y). fold (arrived y). simpl.
      rewrite <-(new_chunks_segment (y_sealed y) (length (arrived y)) (y_acked y) (length batch) (v_seq _ Hi) H2). by rewrite <-H1, <-Hb. }
    assert (Hlen : length (arrived y') = Nat.max (length (arrived y)) (y_acked y + length batch)).
    { rewrite Earr, length_fmap, length_take. assert (length (arrived y) ≤ length (y_sealed y))%nat by (rewrite H1, length_fmap, length_take; lia).
      apply (f_equal length) in Hb. rewrite length_take, length_drop in Hb. pose proof (v_acked_le _ Hi). lia. }
    rewrite Hlen, Es, Ea. split; [done|]. split; [lia|]. intros f' n ->%Hp. lia.
  - destruct Ho as (H1 & H2 & H3); [congruence|]. assert (Earr : arrived y' = arrived y) by (unfold arrived, received; by rewrite Eb).
    rewrite Earr, Es, Ea. split; [done|]. split; [by eapply H3|]. by intros f' n' ?%Hp.
  - rewrite Er in Href. apply app_eq_nil in Href as [Href Hnil]. destruct Ho as (H1 & H2 & H3); [done|].
    assert (Earr : arrived y' = arrived y) by (unfold arrived, received; by rewrite Eb).
    pose proof (v_pc _ Hi) as Hk. unfold pc_ok in Hk. rewrite Hpc in Hk. destruct Hk as (_ & Hle).
    apply (f_equal length) in Hnil. rewrite length_take in Hnil. simpl in Hnil. rewrite Earr, Es, Ea.
    split; [done|]. split; [lia|]. by intros f' n' ?%Hp.
Qed.

Lemma order_reachable cfg y : reachable cfg y → OrderInv y.
Proof.
  intros [es He]. assert (H0 : ShipInv (start cfg) ∧ OrderInv (start cfg)) by (split; [apply start_inv|intros _; done]).
  revert He H0. generalize (start cfg). induction es as [|e es IH]; intros y0; simpl; [by intros [= <-] [_ ?]|].
  intros (y1 & H1 & H2)%bind_Some [Hi Ho]. eapply IH; [done|]. split; [by eapply next_inv|by eapply order_next].
Qed.

(** ** After Close *)

(** What reached the server, when Close has returned nil. *)
Lemma closed_arrived cfg y : reachable cfg y → s_done (y_sh y) = true → close_result (y_sh y) = CloseNil →
  arrived y = as_log <$> y_sealed y ∧ mjoin (k_Data <$> y_sealed y) = y_accepted y ∧
  noted (y_written y) (y_accepted y) 0 ∧ (y_lost y = 0 → y_accepted y = y_written y).
Proof.
  intros Hr Hd Hc. destruct (closed_nil y (reachable_inv _ _ Hr) Hd Hc) as (Href & Hack & Hacc & Hn & Hl).
  destruct (order_reachable _ _ Hr Href) as (Ha & Hle & _). rewrite Hack in Hle. split; [|done]. by rewrite Ha, take_ge by done.
Qed.

Lemma as_log_data (l : list Chunk) : c_Data <$> (as_log <$> l) = k_Data <$> l.
Proof. rewrite <-list_fmap_compose. by apply list_fmap_ext. Qed.

(** The server's log of an attempt whose batches are those the shipper saw accepted. *)
Lemma shipped_log cfg y s id a ops w :
  reachable cfg y → s_done (y_sh y) = true → close_result (y_sh y) = CloseNil →
  Inv (w_db w) → clock_pos w → attempt_rows (w_db w) id a = [] →
  accepted_batches s id a ops w = as_logs <$> y_batches y →
  stored_log (w_db (run_ops s ops w)) id a = take (Z.to_nat (s_logCap s)) (y_accepted y) ∧
  log_seqs (w_db (run_ops s ops w)) id a = k_Seq <$> y_sealed y.
Proof.
  intros Hr Hd Hc Hinv Hclk Hempty Hacc. destruct (closed_arrived cfg y Hr Hd Hc) as (Harr & Hdata & _).
  destruct (server_log s id a ops w Hinv Hclk) as [Hs Hl]. rewrite Hacc in Hs, Hl.
  assert (E : mjoin (as_logs <$> y_batches y) = as_log <$> received y).
  { unfold received. generalize (y_batches y). intros l. induction l as [|b l IH]; [done|]. rewrite fmap_cons. simpl. rewrite fmap_app, <-IH. done. }
  unfold log_seqs, stored_log, log_total in Hs, Hl. rewrite Hempty in Hs, Hl. simpl in Hs, Hl. rewrite E in Hs, Hl.
  fold (arrived y) in Hs, Hl. rewrite Harr in Hs, Hl. rewrite Z.sub_0_r in Hl. unfold log_seqs, stored_log.
  rewrite Hs, Hl, as_log_data, Hdata. split; [done|]. rewrite <-list_fmap_compose. by apply list_fmap_ext.
Qed.

(** C21: a nil Close means that the server has the log.  Take any interleaving of writers,
    flush loop and Close after which Close has returned nil, and any calls on a server
    that held no log of the attempt, in which the batches of the attempt that were
    accepted are those of the shipper's run, in that order, among any others.  Then the
    server holds, for the attempt, exactly the bytes the shipper took in, up to the log
    cap, as the chunks 1, 2, ..., n; every byte the job wrote and the shipper did not take
    in is accounted for by a marker among them; and if the shipper dropped nothing at its
    buffer's bound, these are exactly the bytes the job wrote, up to the log cap. *)
Theorem close_nil_means_delivered cfg y s id a ops w :
  reachable cfg y → s_done (y_sh y) = true → close_result (y_sh y) = CloseNil →
  Inv (w_db w) → clock_pos w → attempt_rows (w_db w) id a = [] →
  accepted_batches s id a ops w = as_logs <$> y_batches y →
  let d := w_db (run_ops s ops w) in
  stored_log d id a = take (Z.to_nat (s_logCap s)) (y_accepted y) ∧
  log_seqs d id a = (λ i, Z.of_nat i + 1) <$> seq 0 (length (y_sealed y)) ∧
  noted (y_written y) (y_accepted y) 0 ∧
  (y_lost y = 0 → stored_log d id a = take (Z.to_nat (s_logCap s)) (y_written y)).
Proof.
  intros Hr Hd Hc Hinv Hclk Hempty Hacc d.
  destruct (shipped_log cfg y s id a ops w Hr Hd Hc Hinv Hclk Hempty Hacc) as [Hl Hs].
  destruct (closed_arrived cfg y Hr Hd Hc) as (_ & _ & Hn & Hlost). split_and!; [done| |done|].
  - unfold d. rewrite Hs. apply list_eq_same_length with (length (y_sealed y)); rewrite ?length_fmap, ?length_seq; [done..|].
    intros i p q _ Hp Hq. rewrite list_lookup_fmap in Hp. rewrite list_lookup_fmap in Hq. destruct (y_sealed y !! i) as [c|] eqn:Ec; [|done].
    rewrite lookup_seq_lt in Hq by (by apply lookup_lt_Some in Ec). simpl in *. simplify_eq.
    by apply (v_seq _ (reachable_inv _ _ Hr)).
  - intros H0. unfold d. by rewrite Hl, (Hlost H0).
Qed.

(** A writer overruns the buffer, the answer to the first batch is lost and the batch is
    resent, Close flushes; the demo server's cap of 20 bytes cuts the log, and other calls
    come in between. *)
Definition lossy_events : list ShipEvent :=
  take 4 overrun_and_close ++ [ESend (OTransient true); EStep; ETimer; EStep; EStep] ++ drop 4 overrun_and_close.
Definition lossy : Sys := drive 200 (replicate 20 ONil) (run_to lossy_events).
Definition ship_ops (y : Sys) : list Op :=
  OpHeartbeat "ra" [mkJobRef "j1" 1] :: ((λ b, OpAppendLogs "j1" 1 (as_logs b)) <$> y_batches y) ++ [OpClaim demo_runner].

Lemma lossy_reachable : reachable ship_cfg lossy.
Proof.
  destruct (drive_runs 200 (replicate 20 ONil) (run_to lossy_events)) as [es He].
  exists (lossy_events ++ es). eapply run_events_app; [|exact He]. vm_compute. reflexivity.
Qed.

Lemma close_nil_means_delivered_witness :
  take 2 (y_batches lossy) = [[mkChunk 1 [1; 2]; mkChunk 2 [3; 4]]; [mkChunk 1 [1; 2]; mkChunk 2 [3; 4]]]%N ∧
  stored_log (w_db (run_ops demo_s (ship_ops lossy) demo_w)) "j1" 1 = take 20 ([1; 2; 3; 4; 5; 6]%N ++ marker 1 ++ [8]%N).
Proof.
  split; [vm_compute; reflexivity|].
  destruct (close_nil_means_delivered ship_cfg lossy demo_s "j1" 1 (ship_ops lossy) demo_w lossy_reachable) as (H & _).
  - vm_compute. reflexivity.
  - vm_compute. reflexivity.
  - exact demo_inv.
  - exact demo_clock_pos.
  - vm_compute. reflexivity.
  - vm_compute. reflexivity.
  - rewrite H. vm_compute. reflexivity.
Defined.
