(* ===== verification/Client.v ===== *)
(** * internal/agent/client.go: the runner's HTTP client

    One definition per method.  The world outside the process (the network, the
    contexts and timers, local files) is a state [V] with the operations of the class
    [Net]; a call is a function of that state, and [None] stands for a retry loop
    that has not returned within [fuel] rounds.  JSON and SHA-256 are the record
    [Wire]. *)

From S2P Require Import Prelude GoLib Pipeline Artifact Api Router.

Local Open Scope Z_scope.

Definition DefaultCompleteBackoff : Z := 500 * Millisecond.
Definition maxCompleteBackoff : Z := 10 * Second.

(** ** Wire types *)

Record wire_registerRequest := mkWRegister { wr_Name : string; wr_Labels : gmap string string; wr_Capacity : Z }.
Record wire_claimRequest := mkWClaim {
  wc_RunnerID : string; wc_Name : string; wc_Labels : gmap string string; wc_Capacity : Z; wc_Version : string }.
Record claimedJob := mkClaimedJob {
  cj_ID : string; cj_RunID : string; cj_Name : string; cj_Attempt : Z; cj_LeaseExpiresAt : Z;
  cj_LeaseTTLMillis : Z; cj_Spec : list N }.
Record jobRef := mkWJobRef { wj_JobID : string; wj_Attempt : Z }.
Record wire_heartbeatRequest := mkWHeartbeat { wh_RunnerID : string; wh_Jobs : list jobRef }.
Record wire_directive := mkDirective { wd_JobID : string; wd_Attempt : Z; wd_Directive : string }.
Record wire_completeRequest := mkWComplete {
  wp_RunnerID : string; wp_Attempt : Z; wp_Status : string; wp_FailureKind : string;
  wp_ExitCode : option Z; wp_Error : string }.
Record logChunk := mkWLogChunk { wl_Seq : Z; wl_Data : list N }.
Record wire_logsRequest := mkWLogs { wq_RunnerID : string; wq_Attempt : Z; wq_Chunks : list logChunk }.
Record artifactReply := mkArtifactReply { ap_Path : string; ap_SizeBytes : Z; ap_SHA256 : string }.

(** Encoders and decoders of the standard library; a decoder's error is text. *)
Record Wire := mkWire {
  enc_register : wire_registerRequest → list N;
  enc_claim : wire_claimRequest → list N;
  enc_heartbeat : wire_heartbeatRequest → list N;
  enc_complete : wire_completeRequest → list N;
  enc_logs : wire_logsRequest → list N;
  dec_register : list N → string + string;
  dec_claim : list N → string + option claimedJob;
  dec_heartbeat : list N → string + list wire_directive;
  dec_artifact : list N → string + artifactReply;
  dec_spec : list N → string + PJob;
  wire_sha256 : list N → list N
}.

(** ** Errors *)

Inductive CErr :=
  | ECtx                                (* ctx.Err() *)
  | EConn                               (* *connectionError *)
  | EStatus (code : Z) (body : string)  (* *statusError *)
  | EFenced                             (* errFenced *)
  | EStale                              (* logship.ErrStale *)
  | ERejected (msg : CErr)              (* logship.ErrRejected; the cause only as text *)
  | EDecode (what msg : string)
  | ENoRunnerID
  | ELocal (what : string)              (* a local file, or a URL that does not parse *)
  | EMismatch (path : string)
  | EGiveUp (tries : Z) (e : CErr)      (* wraps *)
  | EWrap (what : string) (e : CErr).   (* fmt.Errorf with %w *)

(** errors.As and errors.Is. *)
Fixpoint as_status (e : CErr) : option (Z * string) :=
  match e with EStatus c b => Some (c, b) | EGiveUp _ e | EWrap _ e => as_status e | _ => None end.
Fixpoint is_conn (e : CErr) : bool :=
  match e with EConn => true | EGiveUp _ e | EWrap _ e => is_conn e | _ => false end.
Fixpoint is_fenced (e : CErr) : bool :=
  match e with EFenced => true | EGiveUp _ e | EWrap _ e => is_fenced e | _ => false end.

Definition Retryable (code : Z) : bool := bool_decide (code >= 500).
(** [errors.As(err, &se) && !se.Retryable()]. *)
Definition final_status (e : CErr) : bool := match as_status e with Some (c, _) => negb (Retryable c) | None => false end.
Definition conflict (e : CErr) : bool := match as_status e with Some (c, _) => bool_decide (c = 409) | None => false end.

(** ** The world *)

Record HttpRequest := mkHttpRequest {
  hr_method : string; hr_url : string; hr_auth : string; hr_ctype : string; hr_length : Z; hr_body : list N }.
(** A reply, with how many bytes of the request body the transport read. *)
Inductive HttpReply :=
  | BadURL
  | NoReply
  | Reply (status : Z) (body : Body) (sent : nat).

Class Net (C V : Type) := {
  ctx_Err : C → V → bool;
  http_Do : C → HttpRequest → V → HttpReply * V;
  timer : C → Z → V → bool * V;               (* the timer fired before the context ended *)
  open_file : string → V → option (Z * list N);   (* Size of Stat, and the bytes a reader yields *)
  local_op : string → V → bool * V            (* a local file operation succeeded *)
}.

Definition bytes_to_string (b : list N) : string := foldr (λ n s, String (chr n) s) EmptyString b.

Section client.
Context {C V : Type} `{Net C V}.

Definition Cm (A : Type) : Type := V → option ((CErr + A) * V).

#[export] Instance Cm_ret : MRet Cm := λ A a n, Some (inr a, n).
#[export] Instance Cm_bind : MBind Cm := λ A B f m n,
  match m n with
  | None => None
  | Some (inl e, n') => Some (inl e, n')
  | Some (inr a, n') => f a n'
  end.
Definition cfail {A} (e : CErr) : Cm A := λ n, Some (inl e, n).
(** The result of a call as a value, for the code that switches on it. *)
Definition attempt_ {A} (m : Cm A) : Cm (CErr + A) := λ n,
  match m n with None => None | Some (r, n') => Some (inr r, n') end.
Definition lift {A} (f : V → A * V) : Cm A := λ n, let '(a, n') := f n in Some (inr a, n').
Definition local (what : string) : Cm unit := ok ← lift (local_op what); if (ok : bool) then mret tt else cfail (ELocal what).

Record client := mkClient { cl_base : string; cl_token : string; cl_backoff : Z }.

Context (wire : Wire) (fuel : nat) (c : client).

(** [reconnect]. *)
Fixpoint reconnect_loop {A} (k : nat) (ctx : C) (delay : Z) (call : Cm A) : Cm A := λ n,
  if ctx_Err ctx n then Some (inl ECtx, n)
  else match k with
       | O => None
       | S k' =>
           match call n with
           | None => None
           | Some (inl e, n1) =>
               if is_conn e then
                 let '(fired, n2) := timer ctx delay n1 in
                 if fired then reconnect_loop k' ctx (Z.min (delay * 2) maxCompleteBackoff) call n2
                 else Some (inl ECtx, n2)
               else Some (inl e, n1)
           | r => r
           end
       end.
Definition reconnect {A} (ctx : C) (call : Cm A) : Cm A :=
  let delay := if bool_decide (cl_backoff c <= 0) then DefaultCompleteBackoff else cl_backoff c in
  reconnect_loop fuel ctx (Z.min delay maxCompleteBackoff) call.

(** One exchange: the status and the first mebibyte of the body. *)
Definition exchange (ctx : C) (rq : HttpRequest) : Cm (Z * list N * nat) :=
  r ← lift (http_Do ctx rq);
  match r with
  | BadURL => cfail (ELocal "url")
  | NoReply => cfail EConn
  | Reply status body sent =>
      match ReadAll (LimitReader body (Z.shiftl 1 20)) with
      | inl _ => cfail EConn
      | inr raw => mret (status, raw, sent)
      end
  end.

Definition not_2xx (status : Z) : bool := bool_decide (status < 200) || bool_decide (status >= 300).
Definition statusError {A} (status : Z) (raw : list N) : Cm A := cfail (EStatus status (TrimSpace (bytes_to_string raw))).

Definition json_post (path : string) (body : list N) : HttpRequest :=
  mkHttpRequest "POST" (cl_base c +:+ path) ("Bearer " +:+ cl_token c) "application/json" (Z.of_nat (length body)) body.

(** [postOnce]; [None] is the 204, [dec] fills [out]. *)
Definition postOnce {T} (ctx : C) (path : string) (body : list N) (dec : list N → string + T) : Cm (option T) :=
  r ← exchange ctx (json_post path body);
  let '(status, raw, _) := r in
  if bool_decide (status = 204) then mret None
  else if not_2xx status then statusError status raw
  else match dec raw with
       | inl msg => cfail (EDecode path msg)
       | inr v => mret (Some v)
       end.
(** [out] is nil. *)
Definition no_out (raw : list N) : string + unit := inr tt.

Definition post {T} (ctx : C) (path : string) (body : list N) (dec : list N → string + T) : Cm (option T) :=
  reconnect ctx (postOnce ctx path body dec).

Definition register (ctx : C) (req : wire_registerRequest) : Cm string :=
  reply ← post ctx "/api/runner/register" (enc_register wire req) (dec_register wire);
  let id := default "" reply in
  if bool_decide (id = "") then cfail ENoRunnerID else mret id.

Definition claim (ctx : C) (req : wire_claimRequest) : Cm (option claimedJob) :=
  reply ← post ctx "/api/runner/claim" (enc_claim wire req) (dec_claim wire);
  mret (default None reply).

Definition heartbeat (ctx : C) (runnerID : string) (refs : list jobRef) : Cm (list wire_directive) :=
  reply ← post ctx "/api/runner/heartbeat" (enc_heartbeat wire (mkWHeartbeat runnerID refs)) (dec_heartbeat wire);
  mret (default [] reply).

Definition complete (ctx : C) (jobID : string) (req : wire_completeRequest) : Cm unit :=
  r ← attempt_ (post ctx (completeURL jobID) (enc_complete wire req) no_out);
  match r with
  | inl e => cfail (if conflict e then EFenced else e)
  | inr _ => mret tt
  end.

Definition logs (ctx : C) (jobID : string) (req : wire_logsRequest) : Cm unit :=
  r ← attempt_ (postOnce ctx (logsURL jobID) (enc_logs wire req) no_out);
  match r with
  | inr _ => mret tt
  | inl e => cfail (if conflict e then EStale else if final_status e then ERejected e else e)
  end.

(** The loop of [completeWithRetry]: [i] tries done, [last] the error of the last one. *)
Fixpoint complete_loop (left : nat) (first : bool) (ctx : C) (jobID : string) (req : wire_completeRequest)
    (tries backoff : Z) (last : option CErr) : Cm unit := λ n,
  match left with
  | O => cfail (EGiveUp tries (default (ELocal "nil") last)) n
  | S left' =>
      let '(fired, n1) := if first then (true, n) else timer ctx backoff n in
      if negb fired then cfail ECtx n1
      else
        let backoff' := if first then backoff else Z.min (backoff * 2) maxCompleteBackoff in
        match complete ctx jobID req n1 with
        | None => None
        | Some (inr tt, n2) => Some (inr tt, n2)
        | Some (inl e, n2) =>
            if is_fenced e || final_status e || ctx_Err ctx n2 then Some (inl e, n2)
            else complete_loop left' false ctx jobID req tries backoff' (Some e) n2
        end
  end.
Definition completeWithRetry (ctx : C) (jobID : string) (req : wire_completeRequest) (attempts backoff : Z) : Cm unit :=
  complete_loop (Z.to_nat attempts) true ctx jobID req attempts (Z.min backoff maxCompleteBackoff) None.

(** [sourceOnce]: the body of the 200, [None] for a 404. *)
Definition sourceOnce (ctx : C) (runID : string) : Cm (option Body) :=
  r ← lift (http_Do ctx (mkHttpRequest "GET" (cl_base c +:+ sourceURL runID) ("Bearer " +:+ cl_token c) "" 0 []));
  match r with
  | BadURL => cfail (ELocal "url")
  | NoReply => cfail EConn
  | Reply status body _ =>
      if bool_decide (status = 200) then mret (Some body)
      else if bool_decide (status = 404) then mret None
      else statusError status (bd_bytes (LimitReader body (Z.shiftl 1 20)))
  end.

(** One round of [source]: the spool is emptied, then filled from the body; a failed
    read is a connection error, a failed write is not. *)
Definition source_round (ctx : C) (runID : string) : Cm (option (list N)) :=
  local "truncate";;
  local "seek";;
  body ← sourceOnce ctx runID;
  match body with
  | None => mret None
  | Some b =>
      local "write";;
      match ReadAll b with inl _ => cfail EConn | inr data => mret (Some data) end
  end.

(** [source]: what the executor reads, [None] when the run has no bundle. *)
Definition source (ctx : C) (runID : string) : Cm (option (list N)) :=
  local "create";;
  found ← reconnect ctx (source_round ctx runID);
  match found with
  | None => mret None
  | Some data => local "seek";; mret (Some data)
  end.

Definition uploadArtifactOnce (ctx : C) (jobID : string) (attempt : Z) (path file : string) : Cm unit := λ n,
  match open_file file n with
  | None => cfail (ELocal file) n
  | Some (size, content) =>
      (r ← exchange ctx (mkHttpRequest "POST" (cl_base c +:+ uploadURL jobID attempt path) ("Bearer " +:+ cl_token c)
             "application/octet-stream" size content);
       let '(status, raw, sent) := r in
       if bool_decide (status = 409) then cfail EFenced
       else if not_2xx status then statusError status raw
       else match dec_artifact wire raw with
            | inl msg => cfail (EDecode "upload reply" msg)
            | inr reply =>
                let want := hex_encode (wire_sha256 wire (take sent content)) in
                if negb (bool_decide (ap_SHA256 reply = want)) || negb (bool_decide (ap_SizeBytes reply = size))
                then cfail (EMismatch path) else mret tt
            end) n
  end.

Definition uploadArtifact (ctx : C) (jobID : string) (attempt : Z) (path file : string) : Cm unit :=
  reconnect ctx (uploadArtifactOnce ctx jobID attempt path file).

(** [spec] of a claimed job. *)
Definition spec (j : claimedJob) : CErr + PJob :=
  match dec_spec wire (cj_Spec j) with
  | inl msg => inl (EDecode ("spec of job " +:+ cj_ID j) msg)
  | inr pj => inr pj
  end.
End client.
