(* ===== verification/ClientSpec.v ===== *)
(** * Theorems about the runner's client

    The retry loops, for any network; and the client against the modelled server
    behind a network that loses requests and replies while other calls interfere. *)

From S2P Require Import Prelude GoLib Pipeline Types Store Scheduler Protocol Advance Consistency Refinement Ops Demo SchedulerSpec Artifact LocalStore Api ApiSpec Router Client.

Local Open Scope Z_scope.

(** ** Reconnecting *)

Section reconnecting.
Context {C V : Type} `{Net C V} {A : Type} (ctx : C) (call : Cm (V := V) A).

(** [k] rounds in which the call failed for want of a connection and the backoff
    timer fired, each delay the double of the one before up to the cap. *)
Inductive outage : nat → Z → V → V → Prop :=
  | outage_none d v : outage 0 d v v
  | outage_round k d v e v1 v2 v3 :
      ctx_Err ctx v = false → call v = Some (inl e, v1) → is_conn e = true → timer ctx d v1 = (true, v2) →
      outage k (Z.min (d * 2) maxCompleteBackoff) v2 v3 → outage (S k) d v v3.

(** How a loop ends after an outage: the context ended, before a round or during the
    wait, or the call answered. *)
Definition ends (d : Z) (v : V) (r : CErr + A) (v' : V) : Prop :=
  (ctx_Err ctx v = true ∧ r = inl ECtx ∧ v' = v) ∨
  (ctx_Err ctx v = false ∧ call v = Some (r, v') ∧ match r with inl e => is_conn e = false | inr _ => True end) ∨
  (ctx_Err ctx v = false ∧ r = inl ECtx ∧ ∃ e v1, call v = Some (inl e, v1) ∧ is_conn e = true ∧ timer ctx d v1 = (false, v')).

(** The delay after [k] rounds. *)
Fixpoint delay_after (k : nat) (d : Z) : Z :=
  match k with O => d | S k' => delay_after k' (Z.min (d * 2) maxCompleteBackoff) end.

Lemma reconnect_loop_spec k : ∀ d v r v',
  reconnect_loop k ctx d call v = Some (r, v') ↔
  ∃ j v1, (j < k ∨ j = k ∧ ctx_Err ctx v1 = true)%nat ∧ outage j d v v1 ∧ ends (delay_after j d) v1 r v'.
Proof.
  induction k as [|k IH]; intros d v r v'; split.
  - simpl. destruct (ctx_Err ctx v) eqn:Ec; [|done]. intros [= <- <-]. exists 0%nat, v. split; [by right|]. split; [constructor|]. by left.
  - intros (j & v1 & [?|[-> Hc]] & Ho & He); [lia|]. inversion Ho; subst. simpl. rewrite Hc.
    destruct He as [(_ & -> & ->)|[(? & _)|(? & _)]]; [done|congruence..].
  - simpl. destruct (ctx_Err ctx v) eqn:Ec.
    { intros [= <- <-]. exists 0%nat, v. split; [left; lia|]. split; [constructor|]. by left. }
    destruct (call v) as [[[e|a] v1]|] eqn:Hcall; [|intros [= <- <-]|done].
    + destruct (is_conn e) eqn:Hconn.
      2:{ intros [= <- <-]. exists 0%nat, v. split; [left; lia|]. split; [constructor|]. right. left. by rewrite Hcall. }
      destruct (timer ctx d v1) as [[] v2] eqn:Ht.
      * intros (j & v3 & Hj & Ho & He)%IH. exists (S j), v3. split; [destruct Hj as [?|[-> ?]]; [left; lia|by right]|].
        split; [by econstructor|done].
      * intros [= <- <-]. exists 0%nat, v. split; [left; lia|]. split; [constructor|]. right. right. split_and!; [done|done|].
        by exists e, v1.
    + exists 0%nat, v. split; [left; lia|]. split; [constructor|]. right. left. by rewrite Hcall.
  - intros (j & v1 & Hj & Ho & He). simpl. inversion Ho as [|j' d' w e w1 w2 w3 Hc Hcall Hconn Ht Ho']; subst.
    + cbn [delay_after] in He. destruct He as [(-> & -> & ->)|[(-> & -> & Hr)|(-> & -> & e & w1 & -> & -> & ->)]]; [done| |done].
      destruct r as [e|a]; [by rewrite Hr|done].
    + rewrite Hc, Hcall, Hconn, Ht. apply IH. exists j', v1. split; [destruct Hj as [?|[? ?]]; [left; lia|right; split; [lia|done]]|done].
Qed.

End reconnecting.

(** [reconnect] is exactly this: while the call fails for want of a connection and
    the context lives it waits, doubling the delay up to the cap, and calls again; it
    returns the first other outcome of the call, or the context's error as soon as the
    context has ended.  So an outage of any length is outlasted and no connection error
    is ever returned. *)
Theorem reconnect_outlasts_outages {C V : Type} `{Net C V} {A : Type} (c : client) (fuel : nat) (ctx : C) (call : Cm (V := V) A) v r v' :
  let d := Z.min (if bool_decide (cl_backoff c <= 0) then DefaultCompleteBackoff else cl_backoff c) maxCompleteBackoff in
  (reconnect fuel c ctx call v = Some (r, v') ↔
   ∃ k v1, (k < fuel ∨ k = fuel ∧ ctx_Err ctx v1 = true)%nat ∧ outage ctx call k d v v1 ∧ ends ctx call (delay_after k d) v1 r v') ∧
  (reconnect fuel c ctx call v = Some (r, v') → ∀ e, r = inl e → is_conn e = false).
Proof.
  intros d. assert (Hs : reconnect fuel c ctx call v = Some (r, v') ↔
    ∃ k v1, (k < fuel ∨ k = fuel ∧ ctx_Err ctx v1 = true)%nat ∧ outage ctx call k d v v1 ∧ ends ctx call (delay_after k d) v1 r v')
    by apply reconnect_loop_spec.
  split; [exact Hs|]. intros (k & v1 & _ & _ & He)%Hs e ->.
  destruct He as [(_ & [= ->] & _)|[(_ & _ & ?)|(_ & [= ->] & _)]]; done.
Qed.
