(* ===== verification/EndToEnd.v ===== *)
(** * The runner's client and the server, over a lossy network

    The client of Client.v talks to the handlers of Api.v through a network that
    loses requests, loses replies, answers 502 in the server's place, or sees the
    caller's context end; between two deliveries any other scheduler calls happen.
    A result that is reported this way is applied at most once, and reporting ends. *)

From S2P Require Import Prelude GoLib Pipeline Types Store Scheduler Protocol Advance Consistency Refinement Ops Demo SchedulerSpec Artifact LocalStore Api ApiSpec ApiExamples Router Client ClientSpec.

From Stdlib Require Import Ascii.

Local Open Scope Z_scope.

(** What happens to one exchange, after the scheduler calls [ops] of others. *)
Inductive Fault :=
  | Deliver (ops : list Op)
  | LoseRequest (ops : list Op)
  | LoseReply (ops : list Op)
  | BadGateway (ops : list Op)
  | CtxEnds.

Section lossy.
Context {B F : Type} `{BlobStore B F}.

(** The exchanges to come, and the database before and after each delivery. *)
Record Lossy := mkLossy {
  v_st : State B;
  v_script : list Fault;
  v_ended : bool;
  v_hist : list (DB * DB)
}.

Context (srv : Server) (base : string) (enc_payload : Payload → list N).

Definition to_request (rq : HttpRequest) (ep : Endpoint) (vals query : gmap string string) : Request F :=
  mkRequest ep {["Authorization" := hr_auth rq; "Content-Type" := hr_ctype rq]} vals query (hr_length rq)
    (mkBody (hr_body rq) None) calm calm.

(** The interference is between exchanges, not during one. *)
Definition alone (s : State B) : State B := s.

(** The server behind the mux; a redirect carries no body. *)
Definition serve (rq : HttpRequest) (st : State B) : HttpReply * State B :=
  match CutPrefix (hr_url rq) base with
  | None => (NoReply, st)
  | Some uri =>
      let '(path, query, _) := Cut uri "?"%char in
      match route (hr_method rq) path with
      | None => (Reply 307 (mkBody [] None) 0, st)
      | Some (ep, vals) =>
          let '(resp, st') := ServeHTTP srv alone (to_request rq ep vals (ParseQuery query)) st in
          (Reply (rp_Status resp) (mkBody (enc_payload (rp_Body resp)) None) (length (hr_body rq)), st')
      end
  end.

Definition interfere (ops : list Op) (st : State B) : State B := mkState (run_ops (sv_sched srv) ops (st_w st)) (st_blob st).

Definition lossy_do (_ : unit) (rq : HttpRequest) (v : Lossy) : HttpReply * Lossy :=
  if v_ended v then (NoReply, v)
  else
    let deliver ops rest :=
      let st1 := interfere ops (v_st v) in
      let '(rep, st2) := serve rq st1 in
      (rep, mkLossy st2 rest false (v_hist v ++ [(w_db (st_w st1), w_db (st_w st2))])) in
    match v_script v with
    | [] => deliver [] []
    | Deliver ops :: rest => deliver ops rest
    | LoseReply ops :: rest => (NoReply, (deliver ops rest).2)
    | LoseRequest ops :: rest => (NoReply, mkLossy (interfere ops (v_st v)) rest false (v_hist v))
    | BadGateway ops :: rest => (Reply 502 (mkBody [] None) 0, mkLossy (interfere ops (v_st v)) rest false (v_hist v))
    | CtxEnds :: rest => (NoReply, mkLossy (v_st v) rest true (v_hist v))
    end.

(** A timer fires unless the context has ended; there are no local files here. *)
#[local] Instance lossy_net : Net unit Lossy := {
  ctx_Err := λ _ v, v_ended v;
  http_Do := lossy_do;
  timer := λ _ _ v, (negb (v_ended v), v);
  open_file := λ _ _, None;
  local_op := λ _ v, (true, v)
}.

(** ** The request *)

Definition api_of (req : wire_completeRequest) : completeRequest :=
  mkCompleteRequest (wp_RunnerID req) (wp_Attempt req) (wp_Status req) (wp_FailureKind req) (wp_ExitCode req) (wp_Error req).
Definition result_of (req : wire_completeRequest) : Result :=
  mkResult (wp_Status req) (wp_FailureKind req) (wp_ExitCode req) (wp_Error req).

(** What the request and the configuration of both sides have to satisfy: the runner
    has the server's address and token, and its JSON means to the server what it
    encodes. *)
Record well_addressed (wire : Wire) (c : client) (id : string) (req : wire_completeRequest) : Prop := {
  wa_id : url_safe id;
  wa_base : cl_base c = base;
  wa_token : cl_token c = sv_token srv;
  wa_secret : sv_token srv ≠ "";
  wa_runner : wp_RunnerID req ≠ "";
  wa_attempt : 0 < wp_Attempt req;
  wa_valid : valid_result (result_of req) = None;
  wa_json : cd_complete (sv_codecs srv) (enc_complete wire req) = inr (api_of req);
  wa_size : Z.of_nat (length (enc_complete wire req)) ≤ MaxRunnerBodyBytes
}.

Context (wire : Wire) (c : client) (id : string) (req : wire_completeRequest) (Hreq : well_addressed wire c id req).

Definition complete_rq : HttpRequest := json_post c (completeURL id) (enc_complete wire req).

Lemma CutPrefix_base s : CutPrefix (base +:+ s) base = Some s.
Proof. by apply CutPrefix_app. Qed.

Lemma route_complete : route "POST" (completeURL id) = Some (EApi HComplete, {["id" := id]}).
Proof. destruct Hreq. by apply route_completeURL. Qed.

(** A request with the token is served by its handler, the database being what it was. *)
Lemma serve_authorized (rq : HttpRequest) (h : Handler) (vals query : gmap string string) (st : State B) :
  hr_auth rq = "Bearer " +:+ sv_token srv → sv_token srv ≠ "" →
  ∃ rid (s1 : State B), w_db (st_w s1) = w_db (st_w st) ∧ w_clock (st_w s1) = w_clock (st_w st) ∧
    let '(r, s2) := finish (handle srv rid alone h (to_request rq (EApi h) vals query) s1) in
    ServeHTTP srv alone (to_request rq (EApi h) vals query) st = (mkResponse (rp_Status r) (("X-Request-ID", rid) :: rp_Headers r) (rp_Body r), s2).
Proof.
  intros Ha Ht. unfold ServeHTTP. set (q := to_request rq (EApi h) vals query).
  assert (Haut : authorized srv q = true).
  { unfold authorized, Header. simpl. simplify_map_eq. rewrite Ha, (proj2 (CutPrefix_app _ _ (sv_token srv)) eq_refl).
    by rewrite bool_decide_false, bool_decide_true. }
  assert (Hid : ∃ rid (s1 : State B), request_id q st = (rid, s1) ∧ w_db (st_w s1) = w_db (st_w st) ∧ w_clock (st_w s1) = w_clock (st_w st)).
  { unfold request_id. case_bool_decide; [|by exists (Header q "X-Request-ID"), st]. simpl. by eexists _, _. }
  destruct Hid as (rid & s1 & Er & Hd & Hc). exists rid, s1. split_and!; [done|done|]. rewrite Er. unfold mux. simpl.
  unfold requireToken. rewrite Haut. by destruct (finish (handle srv rid alone h q s1)).
Qed.

(** A completion that decodes is answered by the scheduler. *)
Lemma handleComplete_decoded rid (rq : Request F) (s : State B) :
  ReadAll (MaxBytesReader (rq_Body rq) MaxRunnerBodyBytes) = inr (enc_complete wire req) → PathValue rq "id" = id →
  finish (handleComplete srv rid rq s) =
  match Complete id (wp_Attempt req) (result_of req) (st_w s) with
  | (inl e, w) => (runner_error rid e, mkState w (st_blob s))
  | (inr j, w) => (writeJSON 200 (PJob_ (toJobJSON j)), mkState w (st_blob s))
  end.
Proof.
  intros Hraw Hid. destruct Hreq. unfold handleComplete, decodeRunnerBody, decodeBody. rewrite Hraw, wa_json0, mbind_ret. simpl.
  rewrite bool_decide_false by done. rewrite bool_decide_false by lia. simpl. rewrite Hid. unfold try_, mbind, M_bind.
  by destruct (Complete id (wp_Attempt req) _ (st_w s)) as [[e|j] w].
Qed.

Let a := wp_Attempt req.

(** What one delivery of the request does. *)
Lemma serve_complete st row :
  Inv (w_db (st_w st)) → clock_pos (st_w st) → job_at (w_db (st_w st)) id = Some row →
  ∃ status body n st', serve complete_rq st = (Reply status (mkBody body None) n, st') ∧
    Inv (w_db (st_w st')) ∧ clock_pos (st_w st') ∧ (status = 200 ∨ status = 409) ∧
    ((jr_state row = JobRunning ∧ jr_attempt row = a ∧ ∃ row', job_at (w_db (st_w st')) id = Some row' ∧ lost a row') ∨
     (¬ (jr_state row = JobRunning ∧ jr_attempt row = a) ∧ w_db (st_w st') = w_db (st_w st))).
Proof.
  intros Hinv Hclk Hrow. pose proof Hreq as [Hu Hb Ht Hs Hr Ha Hv Hj Hz]. unfold serve.
  assert (Hcut : CutPrefix (hr_url complete_rq) base = Some (completeURL id)) by (unfold complete_rq, json_post; simpl; rewrite Hb; apply CutPrefix_base).
  rewrite Hcut, Cut_none by (unfold completeURL; destruct Hu as [<- _]; by rewrite !ContainsByte_app, PathEscape_no_query).
  change (hr_method complete_rq) with "POST". rewrite route_complete.
  destruct (serve_authorized complete_rq HComplete {["id" := id]} (ParseQuery "") st) as (rid & s1 & Hd & Hc & HS); [simpl; by rewrite Ht|done|].
  simpl handle in HS. rewrite handleComplete_decoded in HS.
  2:{ simpl. unfold MaxBytesReader. simpl. rewrite bool_decide_false by lia. done. }
  2:{ unfold PathValue. simpl. by rewrite lookup_singleton_eq. }
  assert (Hinv1 : Inv (w_db (st_w s1))) by (by rewrite Hd). assert (Hclk1 : clock_pos (st_w s1)) by (intros n; rewrite Hc; apply Hclk).
  rewrite <-Hd in Hrow. change (wp_Attempt req) with a in HS. pose proof (sound_w (st_w s1) Hinv1 Hclk1 : sound _ (Complete id a (result_of req) (st_w s1)).2) as (_ & Hi2 & Hc2).
  destruct (decide (jr_state row = JobRunning ∧ jr_attempt row = a)) as [[Hrun Hat]|Hno].
  - destruct (Complete_running (st_w s1) id row (result_of req) Hinv1 Hrow Hrun Hv) as (w' & E & Hrow' & _).
    rewrite Hat in E. rewrite E in HS, Hi2, Hc2. rewrite HS. eexists _, _, _, _. split; [done|]. split_and!; [done|done|by left|].
    left. split_and!; [done|done|]. eexists. split; [exact Hrow'|].
    destruct (complete_row_settles row (result_of req) (now_of (st_w s1))) as (_ & _ & E1 & E2). split; [rewrite E1; unfold a; lia|naive_solver].
  - destruct (Complete_stale (st_w s1) id row a (result_of req) Hv Hrow Hno) as (w' & E & Hdb & _). rewrite E in HS, Hi2, Hc2.
    case_bool_decide; rewrite HS; eexists _, _, _, _; (split; [done|]); split_and!; try done; [by left| |by right|]; right; (split; [done|]); simpl; by rewrite Hdb, Hd.
Qed.

(** ** The network *)

Definition changed (p : DB * DB) : Prop := p.1 ≠ p.2.
Definition at_most_one (h : list (DB * DB)) : Prop :=
  ∀ i j p q, h !! i = Some p → h !! j = Some q → changed p → changed q → i = j.
Definition quiet (h : list (DB * DB)) : Prop := Forall (λ p, p.1 = p.2) h.

(** The server is done with the attempt. *)
Definition over (v : Lossy) : Prop := ∃ row, job_at (w_db (st_w (v_st v))) id = Some row ∧ lost a row.

Record NInv (v : Lossy) : Prop := {
  n_inv : Inv (w_db (st_w (v_st v)));
  n_clock : clock_pos (st_w (v_st v));
  n_row : ∃ row, job_at (w_db (st_w (v_st v))) id = Some row ∧ a ≤ jr_attempt row;
  n_once : quiet (v_hist v) ∨ at_most_one (v_hist v) ∧ over v
}.

Lemma quiet_once h : quiet h → at_most_one h.
Proof. intros Hq i j p q Hi _ Hp. destruct Hp. by apply (Forall_lookup_1 _ _ _ _ Hq Hi). Qed.

Lemma once_snoc h p : quiet h → at_most_one (h ++ [p]).
Proof.
  intros Hq i j x y Hi Hj Hx Hy.
  assert (Hlast : ∀ k z, (h ++ [p]) !! k = Some z → changed z → k = length h).
  { intros k z [H1|[H1 H2]]%lookup_app_Some Hz; [destruct Hz; by apply (Forall_lookup_1 _ _ _ _ Hq H1)|].
    apply list_lookup_singleton_Some in H2 as [? _]. lia. }
  by rewrite (Hlast i x), (Hlast j y).
Qed.

Lemma once_snoc_same h p : at_most_one h → p.1 = p.2 → at_most_one (h ++ [p]).
Proof.
  intros Ho Hp i j x y [Hi|[_ Hi]]%lookup_app_Some [Hj|[_ Hj]]%lookup_app_Some Hx Hy; [by eapply Ho|..];
    repeat match goal with Hl : [p] !! _ = Some _ |- _ => apply list_lookup_singleton_Some in Hl as [_ <-] end; done.
Qed.

Lemma interfere_ninv ops v rest e : NInv v → NInv (mkLossy (interfere ops (v_st v)) rest e (v_hist v)).
Proof.
  intros [Hi Hc (row & Hr & Ha) Ho]. destruct (run_ops_ok (sv_sched srv) ops _ Hi Hc) as (_ & Hi' & Hc').
  destruct (history_row (sv_sched srv) ops _ id row Hi Hc Hr) as (row' & Hr' & He). split; simpl; try done.
  - exists row'. split; [done|]. pose proof (ev_attempt _ _ He). lia.
  - destruct Ho as [?|[? (row1 & Hr1 & Hl)]]; [by left|right]. split; [done|]. rewrite Hr in Hr1. injection Hr1 as <-.
    exists row'. split; [done|]. by eapply evolves_lost.
Qed.

(** A delivery to a server in state [st1]. *)
Lemma deliver_ninv st1 rest h rep st2 :
  NInv (mkLossy st1 rest false h) → serve complete_rq st1 = (rep, st2) →
  NInv (mkLossy st2 rest false (h ++ [(w_db (st_w st1), w_db (st_w st2))])) ∧
  over (mkLossy st2 rest false (h ++ [(w_db (st_w st1), w_db (st_w st2))])) ∧
  ∃ status body n, rep = Reply status (mkBody body None) n ∧ (status = 200 ∨ status = 409).
Proof.
  intros [Hi Hc (row & Hr & Ha) Ho] E. simpl in *. destruct (serve_complete st1 row Hi Hc Hr) as (status & body & n & st' & E' & Hi' & Hc' & Hst & Hcase).
  rewrite E' in E. injection E as <- <-.
  assert (Hov : ∃ row', job_at (w_db (st_w st')) id = Some row' ∧ lost a row').
  { destruct Hcase as [(_ & _ & ?)|[Hn ->]]; [done|]. exists row. by split. }
  split_and!; [|done|by eexists _, _, _]. split; simpl; try done.
  - destruct Hov as (row' & ? & ? & _). by exists row'.
  - right. split; [|done]. destruct Ho as [Hq|[Ho (row1 & Hr1 & _ & Hl)]]; [by apply once_snoc|]. destruct Hcase as [(Hrun & Hat & _)|[_ Hd]]; [|by apply once_snoc_same].
    simpl in Hr1. rewrite Hr in Hr1. injection Hr1 as <-. by destruct Hl.
Qed.

(** ** One exchange *)

Fixpoint gateways (l : list Fault) : nat :=
  match l with [] => 0 | BadGateway _ :: l' => S (gateways l') | _ :: l' => gateways l' end.
Definition no_end (l : list Fault) : Prop := CtxEnds ∉ l.

(** What an exchange of the request yields. *)
Definition answered (rep : HttpReply) (v : Lossy) : Prop :=
  rep = NoReply ∨ (∃ n, rep = Reply 502 (mkBody [] None) n) ∨
  (over v ∧ ∃ status body n, rep = Reply status (mkBody body None) n ∧ (status = 200 ∨ status = 409)).

Lemma exchange_ninv v rep v' : NInv v → lossy_do tt complete_rq v = (rep, v') →
  NInv v' ∧ answered rep v' ∧
  (v_ended v = false → no_end (v_script v) →
   v_ended v' = false ∧ no_end (v_script v') ∧ (length (v_script v') ≤ length (v_script v))%nat ∧
   (gateways (v_script v') ≤ gateways (v_script v))%nat ∧
   (rep = NoReply → (length (v_script v') < length (v_script v))%nat) ∧
   ((∃ n, rep = Reply 502 (mkBody [] None) n) → (gateways (v_script v') < gateways (v_script v))%nat)).
Proof.
  intros Hn E. unfold lossy_do in E. destruct (v_ended v) eqn:He.
  { injection E as <- <-. split_and!; [done|by left|done]. }
  assert (Hrest : ∀ ops rest, NInv (mkLossy (interfere ops (v_st v)) rest false (v_hist v))) by (intros; by apply interfere_ninv).
  assert (Hsub : ∀ f rest, v_script v = f :: rest → no_end (v_script v) → no_end rest).
  { intros f rest -> Hne Hx. apply Hne. by right. }
  assert (Hdel : ∀ ops rest rep0 st2, serve complete_rq (interfere ops (v_st v)) = (rep0, st2) →
    NInv (mkLossy st2 rest false (v_hist v ++ [(w_db (st_w (interfere ops (v_st v))), w_db (st_w st2))])) ∧
    answered rep0 (mkLossy st2 rest false (v_hist v ++ [(w_db (st_w (interfere ops (v_st v))), w_db (st_w st2))])) ∧
    rep0 ≠ NoReply ∧ (∀ n, rep0 ≠ Reply 502 (mkBody [] None) n)).
  { intros ops rest rep0 st2 Es. destruct (deliver_ninv _ rest _ _ _ (Hrest ops rest) Es) as (H1 & H2 & status & body & n & -> & Hst).
    split_and!; [done| |done|intros n' [=]; lia]. right. right. split; [done|]. by eexists _, _, _. }
  destruct (v_script v) as [|[ops|ops|ops|ops|] rest] eqn:Hs; simpl in E.
  - destruct (serve complete_rq (interfere [] (v_st v))) as [rep0 st2] eqn:Es. injection E as <- <-.
    destruct (Hdel [] [] _ _ Es) as (H1 & H2 & H3 & H4). split_and!; [done|done|]. intros _ _. simpl. split_and!; try done; [apply not_elem_of_nil|by intros [n ?%H4]].
  - destruct (serve complete_rq (interfere ops (v_st v))) as [rep0 st2] eqn:Es. injection E as <- <-.
    destruct (Hdel ops rest _ _ Es) as (H1 & H2 & H3 & H4). split_and!; [done|done|]. intros _ Hne. simpl.
    split_and!; try done; [by eapply Hsub|lia|by intros [n ?%H4]].
  - injection E as <- <-. split_and!; [done|by left|]. intros _ Hne. simpl.
    split_and!; try done; [by eapply Hsub|lia|lia|by intros [n ?]].
  - destruct (serve complete_rq (interfere ops (v_st v))) as [rep0 st2] eqn:Es. injection E as <- <-.
    destruct (Hdel ops rest _ _ Es) as (H1 & H2 & H3 & H4). split_and!; [done|by left|]. intros _ Hne. simpl.
    split_and!; try done; [by eapply Hsub|lia|lia|by intros [n ?]].
  - injection E as <- <-. split_and!; [done|right; left; by eexists|]. intros _ Hne. simpl.
    split_and!; try done; [by eapply Hsub|lia|lia|lia].
  - injection E as <- <-. split_and!; [|by left|].
    + by destruct Hn.
    + intros _ []. left.
Qed.

(** ** The retry loops *)

Definition live (v : Lossy) : Prop := v_ended v = false ∧ no_end (v_script v).
(** The script has not grown; [strict] says which part of it has shrunk. *)
Record shrunk (v v' : Lossy) : Prop := {
  sk_live : live v';
  sk_length : (length (v_script v') ≤ length (v_script v))%nat;
  sk_gateways : (gateways (v_script v') ≤ gateways (v_script v))%nat
}.
Lemma shrunk_trans v1 v2 v3 : shrunk v1 v2 → shrunk v2 v3 → shrunk v1 v3.
Proof. intros [] []. split; [done|lia|lia]. Qed.

Definition bad_gateway {A} (r : CErr + A) : Prop := ∃ b, r = inl (EStatus 502 b).
Definition conclusive (r : CErr + option unit) : Prop := r = inr (Some tt) ∨ ∃ b, r = inl (EStatus 409 b).

Definition once : Cm (V := Lossy) (option unit) := postOnce c tt (completeURL id) (enc_complete wire req) no_out.

Lemma once_spec v : NInv v →
  ∃ r v', once v = Some (r, v') ∧ NInv v' ∧ (r = inl EConn ∨ bad_gateway r ∨ conclusive r ∧ over v') ∧
    (live v → shrunk v v' ∧ (r = inl EConn → (length (v_script v') < length (v_script v))%nat) ∧
              (bad_gateway r → (gateways (v_script v') < gateways (v_script v))%nat)).
Proof.
  intros Hn. destruct (lossy_do tt complete_rq v) as [rep v'] eqn:E. destruct (exchange_ninv v rep v' Hn E) as (Hn' & Hans & Hpr).
  assert (Eo : once v = match rep with
    | BadURL => Some (inl (ELocal "url"), v') | NoReply => Some (inl EConn, v')
    | Reply status body sent =>
        match ReadAll (LimitReader body (Z.shiftl 1 20)) with
        | inl _ => Some (inl EConn, v')
        | inr raw => (if bool_decide (status = 204) then mret None else if not_2xx status then statusError status raw else mret (Some tt)) v'
        end end).
  { unfold once, postOnce, exchange, lift, mbind, Cm_bind. simpl. fold complete_rq. rewrite E. destruct rep as [| |status body sent]; [done|done|].
    unfold mret, Cm_ret. by destruct (ReadAll (LimitReader body (Z.shiftl 1 20))). }
  rewrite Eo. clear Eo. destruct Hans as [->|[[n ->]|(Hov & status & body & n & -> & Hst)]].
  - eexists _, _. split; [done|]. split_and!; [done|by left|]. intros [He Hne]. destruct (Hpr He Hne) as (P1 & P2 & P3 & P4 & P5 & P6).
    split_and!; [by repeat split| |by intros [? ?]]. intros _. by apply P5.
  - eexists _, _. split; [vm_compute; reflexivity|]. split_and!; [done|right; left; by eexists|]. intros [He Hne].
    destruct (Hpr He Hne) as (P1 & P2 & P3 & P4 & P5 & P6). split_and!; [by repeat split|done|]. intros _. apply P6. by eexists.
  - assert (Hraw : ∃ raw, ReadAll (LimitReader (mkBody body None) (Z.shiftl 1 20)) = inr raw).
    { unfold LimitReader. simpl. case_bool_decide; by eexists. }
    destruct Hraw as [raw ->].
    assert (Hr : ∃ r, (if bool_decide (status = 204) then mret None else if not_2xx status then statusError status raw else mret (Some tt)) v' = Some (r, v') ∧ conclusive r).
    { destruct Hst as [-> | ->]; eexists; (split; [done|]); [by left|right; by eexists]. }
    destruct Hr as (r & -> & Hcon). eexists _, _. split; [done|]. split_and!; [done|by right; right|]. intros [He Hne].
    destruct (Hpr He Hne) as (P1 & P2 & P3 & P4 & P5 & P6). split_and!; [by repeat split| |].
    + intros ->. by destruct Hcon as [|[? ?]].
    + intros [b ->]. destruct Hcon as [|[? [=]]]; done.
Qed.

Lemma reconnect_safe k : ∀ d v r v', NInv v → reconnect_loop k tt d once v = Some (r, v') →
  NInv v' ∧ (r = inl ECtx ∧ v_ended v' = true ∨ bad_gateway r ∨ conclusive r ∧ over v').
Proof.
  induction k as [|k IH]; intros d v r v' Hn; simpl.
  { destruct (v_ended v) eqn:E; [|done]. intros [= <- <-]. auto. }
  destruct (v_ended v) eqn:E; [intros [= <- <-]; auto|].
  destruct (once_spec v Hn) as (r1 & v1 & E1 & Hn1 & Hc & _). rewrite E1. destruct Hc as [->|[[b ->]|[Hcon Hov]]]; simpl.
  - destruct (v_ended v1) eqn:E2; simpl; [intros [= <- <-]; auto|]. by apply IH.
  - intros [= <- <-]. split; [done|]. right. left. by eexists.
  - destruct r1 as [e|x]; [|intros [= <- <-]; auto]. destruct Hcon as [|[b [= ->]]]; [done|]. simpl.
    intros [= <- <-]. split; [done|]. right. right. split; [right; by eexists|done].
Qed.

Lemma reconnect_live k : ∀ d v, NInv v → live v → (length (v_script v) < k)%nat →
  ∃ r v', reconnect_loop k tt d once v = Some (r, v') ∧ shrunk v v' ∧
    (bad_gateway r → (gateways (v_script v') < gateways (v_script v))%nat) ∧ (bad_gateway r ∨ conclusive r).
Proof.
  induction k as [|k IH]; intros d v Hn Hl Hk; [lia|]. simpl. rewrite (proj1 Hl).
  destruct (once_spec v Hn) as (r1 & v1 & E1 & Hn1 & Hc & Hp). rewrite E1. destruct (Hp Hl) as (Hs & Hlen & Hg).
  destruct Hc as [->|[[b ->]|[Hcon Hov]]]; simpl.
  - rewrite (proj1 (sk_live _ _ Hs)). simpl. specialize (Hlen eq_refl).
    destruct (IH (Z.min (d * 2) maxCompleteBackoff) v1 Hn1 (sk_live _ _ Hs) ltac:(lia)) as (r & v' & E & Hs' & Hg' & Hc').
    eexists _, _. split; [exact E|]. split_and!; [by eapply shrunk_trans| |done]. intros Hb. pose proof (sk_gateways _ _ Hs). specialize (Hg' Hb). lia.
  - eexists _, _. split; [done|]. split_and!; [done|done|left; by eexists].
  - destruct Hcon as [->|[b ->]]; simpl; (eexists _, _; split; [done|]; split_and!; [done|done|right]); [by left|right; by eexists].
Qed.

(** [complete]: accepted, fenced, a gateway's 502, or the context ended. *)
Definition final (r : CErr + unit) : Prop := r = inr tt ∨ r = inl EFenced.

Lemma complete_eq fuel v :
  complete wire fuel c tt id req v =
  match reconnect fuel c tt once v with
  | None => None
  | Some (inl e, v') => Some (inl (if conflict e then EFenced else e), v')
  | Some (inr _, v') => Some (inr tt, v')
  end.
Proof.
  unfold complete, attempt_, post, mbind, Cm_bind. fold once. by destruct (reconnect fuel c tt once v) as [[[e|x] v']|].
Qed.

Lemma complete_safe fuel v r v' : NInv v → complete wire fuel c tt id req v = Some (r, v') →
  NInv v' ∧ (r = inl ECtx ∧ v_ended v' = true ∨ bad_gateway r ∨ final r ∧ over v').
Proof.
  intros Hn. rewrite complete_eq. unfold reconnect. destruct (reconnect_loop fuel tt _ once v) as [[r1 v1]|] eqn:E; [|done].
  destruct (reconnect_safe _ _ _ _ _ Hn E) as (Hn1 & [[-> He]|[[b ->]|[[->|[b ->]] Ho]]]); simpl; intros [= <- <-]; (split; [done|]).
  - by left.
  - right. left. by eexists.
  - right. right. split; [by left|done].
  - right. right. split; [by right|done].
Qed.

Lemma complete_live fuel v : NInv v → live v → (length (v_script v) < fuel)%nat →
  ∃ r v', complete wire fuel c tt id req v = Some (r, v') ∧ shrunk v v' ∧
    (bad_gateway r → (gateways (v_script v') < gateways (v_script v))%nat) ∧ (bad_gateway r ∨ final r).
Proof.
  intros Hn Hl Hf. rewrite complete_eq. unfold reconnect.
  destruct (reconnect_live fuel (Z.min (if bool_decide (cl_backoff c <= 0) then DefaultCompleteBackoff else cl_backoff c) maxCompleteBackoff) v Hn Hl Hf)
    as (r & v' & -> & Hs & Hg & Hc).
  destruct Hc as [[b ->]|[->|[b ->]]]; simpl; (eexists _, _; split; [done|]; split_and!; [done| |]).
  - intros _. apply Hg. by eexists.
  - left. by eexists.
  - by intros [? ?].
  - right. by left.
  - by intros [? ?].
  - right. by right.
Qed.

Lemma loop_safe fuel left : ∀ first tries backoff last v r v', NInv v →
  complete_loop wire fuel c left first tt id req tries backoff last v = Some (r, v') →
  NInv v' ∧ (final r → over v' ∨ ∃ e, last = Some e ∧ is_fenced e = true).
Proof.
  induction left as [|left IH]; intros first tries backoff last v r v' Hn; simpl.
  - intros [= <- <-]. split; [done|]. intros [|]; done.
  - assert (Ht : (if first then (true, v) else (negb (v_ended v), v)) = (first || negb (v_ended v), v)) by (by destruct first).
    rewrite Ht. destruct (first || negb (v_ended v)); simpl; [|intros [= <- <-]; split; [done|]; by intros [|]].
    destruct (complete wire fuel c tt id req v) as [[[e|[]] v1]|] eqn:E; [| |done].
    + destruct (complete_safe _ _ _ _ Hn E) as (Hn1 & Hc). destruct (is_fenced e || final_status e || v_ended v1) eqn:Hd.
      * intros [= <- <-]. split; [done|]. intros Hf. left. destruct Hc as [[[= ->] _]|[[b [= ->]]|[_ ?]]]; [by destruct Hf|by destruct Hf|done].
      * intros Hr. destruct (IH _ _ _ _ _ _ _ Hn1 Hr) as [Hn2 Hf]. split; [done|]. intros Hx. destruct (Hf Hx) as [?|(e' & [= <-] & Hfe)]; [by left|].
        by rewrite Hfe in Hd.
    + intros [= <- <-]. destruct (complete_safe _ _ _ _ Hn E) as (Hn1 & Hc). split; [done|]. intros _. left.
      by destruct Hc as [[? _]|[[? ?]|[_ ?]]].
Qed.

Lemma loop_live fuel left : ∀ first tries backoff last v, NInv v → live v →
  (length (v_script v) < fuel)%nat → (gateways (v_script v) < left)%nat →
  ∃ r v', complete_loop wire fuel c left first tt id req tries backoff last v = Some (r, v') ∧ final r.
Proof.
  induction left as [|left IH]; intros first tries backoff last v Hn Hl Hf Hg; [lia|]. simpl.
  assert (Ht : (if first then (true, v) else (negb (v_ended v), v)) = (true, v)) by (rewrite (proj1 Hl); by destruct first).
  rewrite Ht. simpl. destruct (complete_live fuel v Hn Hl Hf) as (r & v1 & E & [Hlv Hlen Hgt] & Hb & Hc). rewrite E.
  destruct (complete_safe _ _ _ _ Hn E) as (Hn1 & _).
  destruct Hc as [[b ->]|[->| ->]]; simpl; [|by eexists _, _; split; [|left]|by eexists _, _; split; [|right]].
  rewrite (proj1 Hlv). simpl. specialize (Hb (ex_intro _ b eq_refl)). apply IH; [done|done|lia|lia].
Qed.

(** C26: a result the runner reports over a network that loses requests and replies and
    answers 502 now and then, while any other scheduler calls happen in between, is
    applied at most once: at most one of the deliveries changes the database, and when
    the report ends with success or with a fence the server is done with the attempt.
    The report does end so, unless its context ends first, as long as fewer 502 replies
    come than it has tries: lost connections cost no try. *)
Theorem reported_result_is_applied_once attempts backoff fuel v row :
  Inv (w_db (st_w (v_st v))) → clock_pos (st_w (v_st v)) → v_hist v = [] →
  job_at (w_db (st_w (v_st v))) id = Some row → wp_Attempt req ≤ jr_attempt row →
  (∀ r v', completeWithRetry wire fuel c tt id req attempts backoff v = Some (r, v') →
     at_most_one (v_hist v') ∧
     (r = inr tt ∨ r = inl EFenced → ∃ row', job_at (w_db (st_w (v_st v'))) id = Some row' ∧ lost (wp_Attempt req) row')) ∧
  (v_ended v = false → CtxEnds ∉ v_script v → (length (v_script v) < fuel)%nat → Z.of_nat (gateways (v_script v)) < attempts →
   ∃ r v', completeWithRetry wire fuel c tt id req attempts backoff v = Some (r, v') ∧ (r = inr tt ∨ r = inl EFenced)).
Proof.
  intros Hi Hc Hh Hr Ha. assert (Hn : NInv v).
  { split; try done; [by exists row|]. left. rewrite Hh. constructor. }
  split.
  - intros r v' E. destruct (loop_safe _ _ _ _ _ _ _ _ _ Hn E) as [[_ _ _ Ho] Hf]. split.
    + destruct Ho as [?|[? _]]; [by apply quiet_once|done].
    + intros Hx. destruct (Hf Hx) as [?|(? & ? & _)]; [done|congruence].
  - intros He Hne Hl Hg. apply loop_live; [done|done|done|lia].
Qed.
End lossy.

(** ** A run *)

Definition demo_wire : Wire := mkWire (λ _, []) (λ _, []) (λ _, []) (λ _, [123; 125]%N) (λ _, [])
  (λ _, inr "ra") (λ _, inr None) (λ _, inr []) (λ _, inl "artifact") (λ _, inl "spec") (λ b, [N.of_nat (length b)]).
Definition demo_client : client := mkClient "http://ci" "s3cret" 0.
Definition demo_report : wire_completeRequest := mkWComplete "ra" 1 "succeeded" "" (Some 0) "".
(** The first reply is lost, a gateway answers 502 and the monitor ticks, a request is
    lost, and then the network works. *)
Definition rough : Lossy := mkLossy demo_state [LoseReply []; BadGateway [OpTick]; LoseRequest []] false [].

Lemma demo_addressed : well_addressed demo_srv "http://ci" demo_wire demo_client "j1" demo_report.
Proof. by split. Qed.

Lemma reported_result_is_applied_once_witness :
  ∃ r v', completeWithRetry (H := lossy_net demo_srv "http://ci" (λ _, [])) demo_wire 4 demo_client tt "j1" demo_report 2 0 rough = Some (r, v') ∧
    at_most_one (v_hist v').
Proof.
  destruct (reported_result_is_applied_once demo_srv "http://ci" (λ _, []) demo_wire demo_client "j1" demo_report demo_addressed
    2 0 4 rough (default (demo_job "" "" [] JobPending) (job_at demo_db "j1"))) as [Hs Hl].
  - apply demo_inv.
  - apply demo_clock_pos.
  - reflexivity.
  - vm_compute. reflexivity.
  - vm_compute. discriminate.
  - destruct Hl as (r & v' & E & _).
    + reflexivity.
    + intros Hx. repeat (apply elem_of_cons in Hx as [Hx|Hx]; [discriminate|]). by apply elem_of_nil in Hx.
    + vm_compute. lia.
    + vm_compute. reflexivity.
    + exists r, v'. split; [exact E|]. exact (proj1 (Hs r v' E)).
Defined.
