(* ===== verification/Serving.v ===== *)
(** * The server over its whole life

    Requests of every kind, submissions included, and passes of the lease monitor, in any
    order, with other events happening while an upload is streaming.  Starting from a
    consistent database the server stays consistent as long as crypto/rand does not repeat
    an id, rows only evolve as the protocol allows, and the source bundle of a run is what
    was submitted with it.  A submission itself is one event: nothing else happens while
    its own body is read. *)

From S2P Require Import Prelude GoLib Pipeline Types Store Scheduler Protocol Advance Consistency Refinement Logs Ops Monitor InvCheck Demo SchedulerSpec PipelineSpec Submit Artifact LocalStore LocalSpec Api ApiSpec ApiExamples.
From stdpp Require Import relations.
From Stdlib Require Import Ascii.

Local Open Scope Z_scope.

(** ** The random source only moves forward, an id at a time *)

Record ahead (w w' : World) : Prop := {
  ah_clock : w_clock w' = w_clock w;
  ah_rand : w_rand w' = w_rand w;
  ah_rands : ∃ k, w_rands w' = (w_rands w + 8 * k)%nat
}.
#[export] Instance ahead_refl : Reflexive ahead.
Proof. intros w. split; [done..|]. exists 0%nat. lia. Qed.
#[export] Instance ahead_trans : Transitive ahead.
Proof. intros a b c [? ? [k ?]] [? ? [l ?]]. split; [congruence..|]. exists (k + l)%nat. lia. Qed.

Class Ahead {A} (m : W A) : Prop := ahead_w w : ahead w (m w).2.

Lemma ahead_same {A} (m : W A) : (∀ w, w_clock (m w).2 = w_clock w ∧ w_rand (m w).2 = w_rand w ∧ w_rands (m w).2 = w_rands w) → Ahead m.
Proof. intros Hm w. destruct (Hm w) as (? & ? & ?). split; [done..|]. exists 0%nat. lia. Qed.

#[export] Instance ah_ret {A} (a : A) : Ahead (mret a).
Proof. by apply ahead_same. Qed.
#[export] Instance ah_fail {A} e : Ahead (@fail A e).
Proof. by apply ahead_same. Qed.
#[export] Instance ah_Now : Ahead Now.
Proof. by apply ahead_same. Qed.
#[export] Instance ah_get : Ahead get_db.
Proof. by apply ahead_same. Qed.
#[export] Instance ah_put d : Ahead (put_db d).
Proof. by apply ahead_same. Qed.
#[export] Instance ah_modify P f : Ahead (modify_jobs P f).
Proof. by apply ahead_same. Qed.
#[export] Instance ah_metrics f : Ahead (with_metrics f).
Proof. by apply ahead_same. Qed.
#[export] Instance ah_newID : Ahead (newID 8).
Proof. intros w. split; [done..|]. by exists 1%nat. Qed.
#[export] Instance ah_bind {A B} (m : W A) (f : A → W B) : Ahead m → (∀ a, Ahead (f a)) → Ahead (m ≫= f).
Proof.
  intros Hm Hf w. specialize (Hm w). unfold mbind, M_bind. destruct (m w) as [[e|a] w1]; [done|].
  simpl in *. etrans; [done|]. apply (Hf a).
Qed.
#[export] Instance ah_for {A B} (l : list A) (acc : B) f : (∀ x b, Ahead (f x b)) → Ahead (mfor l acc f).
Proof. intros Hf. revert acc. induction l as [|x l IH]; intros acc; simpl; apply _. Qed.
#[export] Instance ah_Tx {A} (m : W A) : Ahead m → Ahead (Tx m).
Proof. intros Hm w. specialize (Hm w). unfold Tx. destruct (m w) as [[?|?] ?]; [|done]. by destruct Hm. Qed.

Ltac ahead_solve :=
  repeat first
    [ apply _
    | apply ah_bind; [|intros ?]
    | apply ah_for; intros ??
    | apply ah_Tx
    | case_match
    | progress cbv zeta beta ].

#[export] Instance ah_event k id t d : Ahead (event k id t d).
Proof. unfold event, AppendEvent. ahead_solve. Qed.
#[export] Instance ah_AppendEvent k id t d : Ahead (AppendEvent k id t d).
Proof. unfold AppendEvent. ahead_solve. Qed.
#[export] Instance ah_UpsertRunner a b c d e f : Ahead (UpsertRunner a b c d e f).
Proof. unfold UpsertRunner. ahead_solve. Qed.
#[export] Instance ah_TouchRunner a : Ahead (TouchRunner a).
Proof. unfold TouchRunner. ahead_solve. Qed.
#[export] Instance ah_GetJob id : Ahead (GetJob id).
Proof. unfold GetJob. ahead_solve. Qed.
#[export] Instance ah_GetRun id : Ahead (GetRun id).
Proof. unfold GetRun. ahead_solve. Qed.
#[export] Instance ah_SetRunState k a b : Ahead (SetRunState k a b).
Proof. unfold SetRunState. ahead_solve. Qed.
#[export] Instance ah_ListRuns n : Ahead (ListRuns n).
Proof. unfold ListRuns. ahead_solve. Qed.
#[export] Instance ah_ListJobs k : Ahead (ListJobs k).
Proof. unfold ListJobs. ahead_solve. Qed.
#[export] Instance ah_ListEvents k a n : Ahead (ListEvents k a n).
Proof. unfold ListEvents. ahead_solve. Qed.
#[export] Instance ah_ListLogChunks id a n : Ahead (ListLogChunks id a n).
Proof. unfold ListLogChunks. ahead_solve. Qed.
#[export] Instance ah_GetArtifact id a p : Ahead (GetArtifact id a p).
Proof. unfold GetArtifact. ahead_solve. Qed.
#[export] Instance ah_ListArtifacts id a : Ahead (ListArtifacts id a).
Proof. unfold ListArtifacts. ahead_solve. Qed.
#[export] Instance ah_ListRunners : Ahead ListRunners.
Proof. unfold ListRunners. ahead_solve. Qed.
#[export] Instance ah_advance k tr : Ahead (advance k tr).
Proof.
  assert (∀ n jobs nm st tr, Ahead (advance_loop n k jobs nm st tr)) as Hl.
  { induction n; intros; simpl; [apply _|].
    apply ah_bind; [|intros ?; case_match; apply _]. apply ah_for. intros. unfold advance_job, TransitionPendingJob.
    ahead_solve. }
  unfold advance, ListJobs, ListJobDeps. ahead_solve.
Qed.
#[export] Instance ah_Claim s r : Ahead (Claim s r).
Proof.
  assert (∀ l, Ahead (claim_loop s r l)) as Hl.
  { induction l; simpl; [apply _|]. unfold specLabels, jobSpec, ClaimJob. ahead_solve. }
  unfold Claim, ListQueuedJobs. ahead_solve.
Qed.
#[export] Instance ah_Heartbeat s k js : Ahead (Heartbeat s k js).
Proof. unfold Heartbeat, heartbeat_job, ExtendLease. ahead_solve. Qed.
#[export] Instance ah_Complete id a res : Ahead (Complete id a res).
Proof.
  unfold Complete, complete_tx, complete_transition, complete_succeeded, complete_cancelled, complete_requeue,
    complete_failed, FinishJob, RequeueJob, tr_apply. ahead_solve.
Qed.
#[export] Instance ah_CancelRun k : Ahead (CancelRun k).
Proof.
  unfold CancelRun, cancel_tx, cancel_job, CancelJob, RequestJobCancel, ListEvents, ListJobs, tr_apply. ahead_solve.
Qed.
#[export] Instance ah_AppendLogs s id a cs : Ahead (AppendLogs s id a cs).
Proof. unfold AppendLogs, append_tx, append_chunk, InsertLogChunk, LogBytes, HasJobEvent. ahead_solve. Qed.
#[export] Instance ah_Tick s : Ahead (Tick s).
Proof.
  unfold Tick, tick_tx, expire_job, backstop_job, jobSpec, RequestJobCancel, FinishJob, RequeueJob, ListExpiredLeases,
    ListRunningJobs, MarkRunnersOffline, mark_offline, tr_apply. ahead_solve.
Qed.
#[export] Instance ah_register req : Ahead (register_tx req).
Proof.
  unfold register_tx. apply ah_Tx. intros w.
  destruct (GetRunnerByName _ w) as [[[]|] ?]; match goal with |- ahead _ (snd (?m _)) => assert (Hm : Ahead m) by ahead_solve; apply Hm end.
Qed.
#[export] Instance ah_record id a p size sha ct : Ahead (record_tx id a p size sha ct).
Proof. unfold record_tx, UpsertArtifact. ahead_solve. Qed.
#[export] Instance ah_submitRun id p src m : Ahead (submitRun id p src m).
Proof. unfold submitRun, submit_job, CreateRun, insert_run, create_job, insert_job, create_dep, insert_dep. ahead_solve. Qed.
#[export] Instance ah_count jobs : Ahead (count_queued jobs).
Proof. unfold count_queued. apply _. Qed.

(** ** Submissions that succeed *)

Lemma submit_loop_inr roots m l : ∀ acc w acc' w',
  mfor l acc (submit_job roots m) w = (inr acc', w') → Forall (λ pj, marshal_ok pj = true) l.
Proof.
  induction l as [|pj l IH]; intros acc w acc' w' E; [done|]. simpl in E. unfold mbind, M_bind in E. unfold submit_job in E at 1.
  destruct (marshal_ok pj) eqn:Em; [|done]. unfold mbind, M_bind in E. simpl in E. apply Forall_cons. eauto.
Qed.

Lemma submitRun_inr id p src m w out w' :
  submitRun id p src m w = (inr out, w') →
  Forall (λ pj, marshal_ok pj = true) (p_Jobs p) ∧ src ≠ "" ∧ (w_rands w + 8 * length (p_Jobs p) ≤ w_rands w')%nat.
Proof.
  intros E. unfold submitRun in E. apply mbind_ok in E as (acc & w1 & Hl & E). pose proof (submit_loop_inr _ _ _ _ _ _ _ Hl) as Hm.
  rewrite (submit_loop_ok _ _ _ _ _ Hm) in Hl. injection Hl as <- <-. split; [done|]. split.
  - intros ->. rewrite Tx_ok in E. apply mbind_ok in E as (x & w2 & E & _). unfold CreateRun in E. simpl in E.
    by case_bool_decide.
  - match type of E with Tx ?m ?w = _ => assert (Ahead (Tx m)) as Ha
      by (unfold CreateRun, insert_run, create_job, insert_job, create_dep, insert_dep; ahead_solve); specialize (Ha w) end.
    rewrite E in Ha. destruct Ha as [_ _ [k Hk]]. simpl in *. lia.
Qed.

Lemma with_ids_draws rand jobs : ∀ k, (with_ids rand k jobs).*1 = (λ i, gen_id rand (k + 8 * i)%nat) <$> seq 0 (length jobs).
Proof.
  induction jobs as [|pj l IH]; intros k; [done|]. simpl. rewrite IH, <-fmap_S_seq, <-list_fmap_compose.
  f_equal; [f_equal; lia|]. apply list_fmap_ext. intros i x _. simpl. f_equal. lia.
Qed.

(** ** Events *)

Section life.
Context {B F : Type} `{Store : BlobStore B F}.
Implicit Types (s : State B) (rq : Request F).

(** A request, with what happens while its body streams into the store, or the monitor. *)
Inductive Event := Serve (rq : Request F) (meanwhile : list Event) | Monitors (evs : list MonEvent).

Context (srv : Server).

Fixpoint happens (e : Event) (s : State B) : State B :=
  match e with
  | Serve rq l => (ServeHTTP srv (λ s, foldl (λ s e, happens e s) s l) rq s).2
  | Monitors evs => mkState (RunMonitor (sv_sched srv) evs (st_w s)).2 (st_blob s)
  end.
Definition history (es : list Event) (s : State B) : State B := foldl (λ s e, happens e s) s es.

Lemma Event_ind' (P : Event → Prop) :
  (∀ rq l, Forall P l → P (Serve rq l)) → (∀ evs, P (Monitors evs)) → ∀ e, P e.
Proof.
  intros Hs Hm. fix IH 1. intros [rq l|evs]; [|apply Hm]. apply Hs. induction l as [|e l IHl]; constructor; [apply IH|apply IHl].
Qed.

(** What of a state lasts: rows only evolve, a finished run keeps its state, and a stored
    source bundle of a run stays as it is. *)
Record Later (s s' : State B) : Prop := {
  lt_job : ∀ id r, job_at (w_db (st_w s)) id = Some r → ∃ r', job_at (w_db (st_w s')) id = Some r' ∧ evolves r r';
  lt_run : ∀ k x, run_at (w_db (st_w s)) k = Some x → ∃ x', run_at (w_db (st_w s')) k = Some x' ∧
    (run_terminal (rr_state x) → rr_state x' = rr_state x);
  lt_source : ∀ k data, is_Some (run_at (w_db (st_w s)) k) → blob_at (st_blob s) (SourceKey k) = Some data →
    blob_at (st_blob s') (SourceKey k) = Some data
}.
#[local] Instance Later_refl : Reflexive Later.
Proof. intros s. split; [intros id r Hr; by exists r|intros k x Hx; by exists x|done]. Qed.
#[local] Instance Later_trans : Transitive Later.
Proof.
  intros a b c [Ja Ra Sa] [Jb Rb Sb]. split.
  - intros id r (r1 & H1 & E1)%Ja. destruct (Jb _ _ H1) as (r2 & H2 & E2). exists r2. split; [done|]. by etrans.
  - intros k x (x1 & H1 & E1)%Ra. destruct (Rb _ _ H1) as (x2 & H2 & E2). exists x2. split; [done|].
    intros Ht. rewrite E2, E1; [done..|]. by rewrite E1.
  - intros k data Hk Hd. apply Sb; [|by apply Sa]. destruct Hk as [x Hx]. destruct (Ra _ _ Hx) as (x1 & -> & _). done.
Qed.

(** The ids drawn from a world: the [i]-th from now. *)
Definition draw (w : World) (i : nat) : string := gen_id (w_rand w) (w_rands w + 8 * i).

(** A consistent server with [hi] more ids that are new and pairwise different. *)
Record Good (hi : nat) (s : State B) : Prop := {
  g_inv : Inv (w_db (st_w s));
  g_acyclic : Acyclic (w_db (st_w s));
  g_clock : clock_pos (st_w s);
  g_blob : blob_inv (st_blob s);
  g_new : ∀ i, (i < hi)%nat → run_at (w_db (st_w s)) (draw (st_w s) i) = None ∧ job_at (w_db (st_w s)) (draw (st_w s) i) = None;
  g_distinct : ∀ i j, (i < j < hi)%nat → draw (st_w s) i ≠ draw (st_w s) j
}.

Lemma draw_shift w w' k i : w_rand w' = w_rand w → w_rands w' = (w_rands w + 8 * k)%nat → draw w' i = draw w (k + i).
Proof. intros E1 E2. unfold draw. rewrite E1, E2. f_equal. lia. Qed.

(** A piece of a handler: it draws [k] ids and, if those are new, keeps everything good. *)
Definition step_from (s s' : State B) (k : nat) : Prop :=
  w_rand (st_w s') = w_rand (st_w s) ∧ w_rands (st_w s') = (w_rands (st_w s) + 8 * k)%nat ∧
  ∀ hi, Good hi s → (k ≤ hi)%nat → Good (hi - k) s' ∧ Later s s'.
Class StepH {A} (m : M (State B) Response A) : Prop := step_h s : ∃ k, step_from s (m s).2 k.

Lemma step_from_refl s : step_from s s 0.
Proof. split_and!; [done|lia|]. intros hi Hg _. by rewrite Nat.sub_0_r. Qed.

Lemma step_from_trans s1 s2 s3 k l : step_from s1 s2 k → step_from s2 s3 l → step_from s1 s3 (k + l).
Proof.
  intros (R1 & N1 & G1) (R2 & N2 & G2). split_and!; [congruence|lia|]. intros hi Hg Hle.
  destruct (G1 hi Hg) as [Hg1 L1]; [lia|]. destruct (G2 _ Hg1) as [Hg2 L2]; [lia|].
  replace (hi - (k + l))%nat with (hi - k - l)%nat by lia. split; [done|]. by etrans.
Qed.

(** Protocol steps neither create rows nor edges. *)
Lemma step_from_sound s w' k :
  (Inv (w_db (st_w s)) → clock_pos (st_w s) → sound (st_w s) w') →
  w_rand w' = w_rand (st_w s) → w_rands w' = (w_rands (st_w s) + 8 * k)%nat → step_from s (mkState w' (st_blob s)) k.
Proof.
  intros Hs Er En. split_and!; [done..|]. intros hi [Gi Ga Gc Gb Gn Gd] Hle. destruct (Hs Gi Gc) as (Hp & Hi & Hc).
  destruct (PSteps_static _ _ Hp) as (Ej & Erun & Ed).
  assert (Hnone : ∀ id, (run_at (w_db (st_w s)) id = None → run_at (w_db w') id = None) ∧
    (job_at (w_db (st_w s)) id = None → job_at (w_db w') id = None)).
  { intros id. rewrite !eq_None_not_Some, !run_at_exists, !job_at_exists, Ej, Erun. done. }
  split; split; simpl; try done.
  - destruct Ga as [rank Hr]. exists rank. intros id n. unfold needs. rewrite Ed. apply Hr.
  - intros i Hlt. rewrite (draw_shift _ _ _ _ Er En). destruct (Gn (k + i)%nat) as [? ?]; [lia|]. split; by apply Hnone.
  - intros i j Hlt. rewrite !(draw_shift _ _ _ _ Er En). apply Gd. lia.
  - intros id r. by apply PSteps_evolves.
  - intros id x. by apply PSteps_run_terminal.
Qed.

(** A store call that leaves the source bundles of the runs alone. *)
Lemma step_from_blob s b' :
  (blob_inv (st_blob s) → blob_inv b') →
  (∀ k data, blob_inv (st_blob s) → is_Some (run_at (w_db (st_w s)) k) → blob_at (st_blob s) (SourceKey k) = Some data →
     blob_at b' (SourceKey k) = Some data) →
  step_from s (mkState (st_w s) b') 0.
Proof.
  intros Hb Hk. split_and!; [done|simpl; lia|]. intros hi [] _. rewrite Nat.sub_0_r.
  split; split; simpl; [auto..|intros id r Hr; by exists r|intros id x Hx; by exists x|auto].
Qed.

#[local] Instance s_ret {A} (a : A) : StepH (mret a).
Proof. intros s. exists 0%nat. apply step_from_refl. Qed.
#[local] Instance s_reply {A} r : StepH (@reply B A r).
Proof. intros s. exists 0%nat. apply step_from_refl. Qed.
#[local] Instance s_bind {A C} (m : M (State B) Response A) (f : A → M (State B) Response C) :
  StepH m → (∀ a, StepH (f a)) → StepH (m ≫= f).
Proof.
  intros Hm Hf s. destruct (Hm s) as [k Hk]. unfold mbind, M_bind. destruct (m s) as [[r|a] s1]; [by exists k|].
  destruct (Hf a s1) as [l Hl]. exists (k + l)%nat. by eapply step_from_trans.
Qed.
Lemma step_w {A} (m : W A) s : SoundW m → Ahead m → ∃ k, step_from s (mkState (m (st_w s)).2 (st_blob s)) k.
Proof.
  intros Hm Ha. destruct (Ha (st_w s)) as [_ Er [k Ek]]. exists k. apply step_from_sound; [|done..]. intros. by apply Hm.
Qed.
#[local] Instance s_try {A} (m : W A) onerr : SoundW m → Ahead m → StepH (@try_ B A m onerr).
Proof.
  intros Hm Ha s. pose proof (step_w m s Hm Ha) as Hs. unfold try_. by destruct (m (st_w s)) as [[?|?] ?].
Qed.
#[local] Instance s_run {A} (m : W A) : SoundW m → Ahead m → StepH (@run_w B A m).
Proof. intros Hm Ha s. pose proof (step_w m s Hm Ha) as Hs. unfold run_w. by destruct (m (st_w s)) as [? ?]. Qed.

Lemma JobKey_SourceKey run job a path k : SourceKey k ≠ JobKey run job a path.
Proof. unfold JobKey, JobPrefix, SourceKey. intros E. simpl in E. discriminate. Qed.
#[local] Instance s_discard f run job a path : StepH (discard f (JobKey run job a path)).
Proof.
  intros s. exists 0%nat. apply step_from_blob; [by apply delete_inv|]. intros k data Hi _ Hd.
  rewrite delete_other; [done|done|apply JobKey_SourceKey].
Qed.
#[local] Instance s_put f run job a path body n : StepH (put_blob f (JobKey run job a path) body n).
Proof.
  intros s. exists 0%nat. unfold put_blob. destruct (blob_Put f _ body n (st_blob s)) as [r b'] eqn:E.
  apply step_from_blob; [intros Hi|intros k data Hi _ Hd]; destruct (touched_put _ _ _ _ _ _ _ Hi E) as [Ti _ Tk]; [done|].
  apply Tk; [apply JobKey_SourceKey|done].
Qed.
#[local] Instance s_get rid f k m : StepH (get_blob rid f k m).
Proof. intros s. exists 0%nat. unfold get_blob. destruct (blob_Get f k (st_blob s)) as [[]|]; apply step_from_refl. Qed.

Ltac step_solve :=
  repeat first
    [ apply _
    | apply s_bind; [|intros ?]
    | case_match
    | progress cbv zeta beta ].

(** ** Submissions *)

Lemma append_length x y : String.length (x +:+ y) = (String.length x + String.length y)%nat.
Proof. induction x as [|a x IH]; [done|]. change (S (String.length (x +:+ y)) = S (String.length x + String.length y)). by rewrite IH. Qed.
Lemma append_tail_inj x y z : x +:+ z = y +:+ z → x = y.
Proof.
  revert y. induction x as [|a x IH]; intros [|b y] E; [done|..]; try (apply (f_equal String.length) in E;
    rewrite !append_length in E; simpl in E; lia).
  change (String a (x +:+ z) = String b (y +:+ z)) in E. injection E as -> E. f_equal. by apply IH.
Qed.
Lemma SourceKey_inj k k' : SourceKey k = SourceKey k' → k = k'.
Proof. unfold SourceKey. intros E%(inj (String.append "sources/"))%append_tail_inj. done. Qed.

(** The objects of the other keys. *)
Lemma discard_if_kept stored rq id s : blob_inv (st_blob s) →
  ∃ b, discard_if stored rq id s = (inr tt, mkState (st_w s) b) ∧ blob_inv b ∧
    ∀ k, k ≠ SourceKey id → blob_at b k = blob_at (st_blob s) k.
Proof.
  intros Hi. unfold discard_if. destruct stored.
  - eexists. split; [done|]. split; [by apply delete_inv|]. intros k Hk. by apply delete_other.
  - exists (st_blob s). by destruct s.
Qed.

(** What a submission did: the rows it added, or nothing but to draw ids; and it touched no
    source bundle but the one under the first id it drew. *)
Definition kept_but (id : string) (b b' : B) : Prop :=
  blob_inv b' ∧ ∀ k data, k ≠ SourceKey id → blob_at b k = Some data → blob_at b' k = Some data.

Ltac discarded_by Hfail :=
  match goal with |- context [(discard_if ?st ?rq ?id;; reply ?resp) ?s] =>
    let H := fresh in assert (rp_Status resp ≠ 201) as H by (by repeat case_match); apply (Hfail resp) in H; destruct ((discard_if st rq id;; reply resp) s); destruct H as (? & -> & ? & ?) end.

Lemma submit_cases rid rq s : blob_inv (st_blob s) →
  let id := draw (st_w s) 0 in let '(r, s') := handleSubmitRun srv rid rq s in
  kept_but id (st_blob s) (st_blob s') ∧
  match r with
  | inl e => w_db (st_w s') = w_db (st_w s) ∧ rp_Status e ≠ 201
  | inr r => ∃ src p run jobs w1 w2 stored, read_submit srv rq id (mkState ((st_w s) <| w_rands := (w_rands (st_w s) + 8)%nat |>) (st_blob s)) =
        (inr src, stored, mkState w1 (st_blob s')) ∧ w1 = (st_w s) <| w_rands := (w_rands (st_w s) + 8)%nat |> ∧
      Parse (cd_yaml (sv_codecs srv)) (to_string src) = inr p ∧
      submitRun id p (to_string src) (s_maxAttempts (sv_sched srv)) w1 = (inr (run, jobs), w2) ∧
      r = writeJSON 201 (runDetail run jobs) ∧ st_w s' = (count_queued jobs w2).2
  end.
Proof.
  intros Hinv. cbv zeta. unfold draw. rewrite Nat.mul_0_r, Nat.add_0_r. fold (hex_encode ((λ i, w_rand (st_w s) (w_rands (st_w s) + i)%nat) <$> seq 0 8)).
  set (id := gen_id _ _). set (w1 := (st_w s) <| w_rands := _ |>).
  unfold handleSubmitRun. assert (E0 : try_ (newID 8) (λ _, internalError rid) s = (inr id, mkState w1 (st_blob s))) by done.
  rewrite (mbind_step _ _ _ _ _ E0). clear E0. unfold mbind at 1, M_bind at 1.
  destruct (read_submit srv rq id (mkState w1 (st_blob s))) as [[res stored] s1] eqn:Er.
  destruct (read_submit_touched srv rq id (mkState w1 (st_blob s)) _ _ _ Hinv Er) as ([Ti _ Tk] & Ew & _). simpl in Ti, Tk, Ew. destruct s1 as [w1' b1]. simpl in *. subst w1'.
  assert (Hfail : ∀ w2 (resp : Response), w_db w2 = w_db (st_w s) → rp_Status resp ≠ 201 →
    let '(r, s') := (discard_if stored rq id;; reply (A:=Response) resp) (mkState w2 b1) in
    ∃ e, r = inl e ∧ kept_but id (st_blob s) (st_blob s') ∧ w_db (st_w s') = w_db (st_w s) ∧ rp_Status e ≠ 201).
  { intros w2 resp Ed Hne. destruct (discard_if_kept stored rq id (mkState w2 b1) Ti) as (b2 & E2 & Hb2 & Hk2).
    rewrite (mbind_step _ _ _ _ _ E2). eexists. split; [done|]. split; [|done]. split; [done|]. intros k data Hk Hd. simpl. rewrite Hk2 by done. by apply Tk. }
  destruct res as [e|src].
  { by discarded_by (λ resp, Hfail w1 resp eq_refl). }
  destruct (Parse (cd_yaml (sv_codecs srv)) (to_string src)) as [e|p] eqn:Ep.
  { by discarded_by (λ resp, Hfail w1 resp eq_refl). }
  unfold mbind at 1, M_bind at 1, run_w. simpl.
  destruct (submitRun id p (to_string src) (s_maxAttempts (sv_sched srv)) w1) as [out w2] eqn:Es. destruct out as [e|[run jobs]].
  - apply submitRun_err in Es.
    by discarded_by (λ resp, Hfail w2 resp Es).
  - simpl. split; [done|]. exists src, p, run, jobs, w1, w2, stored. done.
Qed.

Lemma read_parts_w f id m : ∀ src stored s, st_w (read_parts f id src stored m s).2 = st_w s.
Proof.
  induction m as [|e|name body rest IH]; intros src stored s; simpl; [done..|].
  repeat case_match; try done; by rewrite IH.
Qed.
(** The world after the run's id was drawn. *)
Definition drawn (w : World) : World := w <| w_rands := (w_rands w + 8)%nat |>.

Lemma submit_ahead rid rq s : ahead (drawn (st_w s)) (st_w (handleSubmitRun srv rid rq s).2).
Proof.
  unfold handleSubmitRun. set (w1 := drawn (st_w s)).
  assert (E0 : try_ (newID 8) (λ _, internalError rid) s = (inr (gen_id (w_rand (st_w s)) (w_rands (st_w s))), mkState w1 (st_blob s))) by done.
  rewrite (mbind_step _ _ _ _ _ E0). clear E0. set (id := gen_id _ _).
  unfold mbind at 1, M_bind at 1. destruct (read_submit srv rq id (mkState w1 (st_blob s))) as [[res stored] s1] eqn:Er.
  assert (Ew : st_w s1 = w1).
  { unfold read_submit, readMultipartSubmit in Er. case_bool_decide; [|by injection Er as <- <- <-].
    destruct (cd_multipart _ _ _) as [m|]; [|by injection Er as <- <- <-].
    pose proof (read_parts_w (rq_blob rq) id m None false (mkState w1 (st_blob s))) as Hw. by rewrite Er in Hw. }
  clear Er. rewrite <-Ew. clearbody id w1. clear Ew.
  assert (Hd : ∀ (resp : Response) s2, st_w ((discard_if stored rq id;; reply (A:=Response) resp) s2).2 = st_w s2) by (by destruct stored).
  destruct res as [e|src]; [by rewrite Hd|]. destruct (Parse _ _) as [e|p]; [by rewrite Hd|].
  unfold mbind at 1, M_bind at 1, run_w.
  pose proof (ah_submitRun id p (to_string src) (s_maxAttempts (sv_sched srv)) (st_w s1)) as Ha.
  destruct (submitRun id p (to_string src) (s_maxAttempts (sv_sched srv)) (st_w s1)) as [[e|[run jobs]] w2]; [by rewrite Hd|].
  simpl. etrans; [apply Ha|]. apply (ah_count jobs w2).
Qed.

Lemma job_ids w jobs : (with_ids (w_rand (drawn w)) (w_rands (drawn w)) jobs).*1 = (λ i, draw w (S i)) <$> seq 0 (length jobs).
Proof. rewrite with_ids_draws. apply list_fmap_ext. intros i x _. unfold draw. simpl. f_equal. lia. Qed.
Lemma job_ids_fresh hi s jobs : Good hi s → (length jobs < hi)%nat →
  NoDup (with_ids (w_rand (drawn (st_w s))) (w_rands (drawn (st_w s))) jobs).*1 ∧
  ∀ id, id ∈ (with_ids (w_rand (drawn (st_w s))) (w_rands (drawn (st_w s))) jobs).*1 → job_at (w_db (st_w s)) id = None.
Proof.
  intros [_ _ _ _ Gn Gd] Hlt. rewrite job_ids. split.
  - apply NoDup_fmap_2_strong; [|apply NoDup_seq]. intros i j Hi%elem_of_seq Hj%elem_of_seq E.
    destruct (decide (i < j)%nat); [by destruct (Gd (S i) (S j)); [lia|]|]. destruct (decide (j < i)%nat); [|lia].
    by destruct (Gd (S j) (S i)); [lia|].
  - intros x (i & -> & Hi%elem_of_seq)%list_elem_of_fmap. apply Gn. lia.
Qed.

(** An accepted submission from a good state. *)
Lemma submitted_good k id p src w' out s s' hi :
  Good hi s → id = draw (st_w s) 0 → accepted p →
  submitRun id p src (s_maxAttempts (sv_sched srv)) (drawn (st_w s)) = (inr out, w') → kept_but id (st_blob s) (st_blob s') →
  st_w s' = (count_queued out.2 w').2 → w_rand (st_w s') = w_rand (st_w s) → w_rands (st_w s') = (w_rands (st_w s) + 8 * k)%nat →
  (k ≤ hi)%nat → Good (hi - k) s' ∧ Later s s' ∧ is_Some (run_at (w_db (st_w s')) id) ∧ r_ID out.1 = id ∧
  ∃ rows, db_jobs (w_db (st_w s')) = db_jobs (w_db (st_w s)) ++ rows ∧
    ∀ r, r ∈ rows → jr_run_id r = id ∧ ∃ i, jr_id r = draw (st_w s) i.
Proof.
  intros HG Hid Hacc Es [Hb' Hkept] Ew' Er Ek Hk. destruct (submitRun_inr _ _ _ _ _ _ _ Es) as (Hmar & Hsrc & Hlen).
  assert (Ek' : w_rands w' = (w_rands (st_w s) + 8 * k)%nat) by (rewrite <-Ek, Ew'; done).
  rewrite Ek' in Hlen. simpl in Hlen. assert (Hn : (length (p_Jobs p) < k)%nat) by lia. clear Hlen Ek'.
  destruct (job_ids_fresh hi s (p_Jobs p) HG) as [Hnd Hfresh]; [lia|]. destruct HG as [Gi Ga Gc Gb Gn Gd].
  destruct (Gn 0%nat) as [Hrun _]; [lia|]. rewrite <-Hid in Hrun. assert (HidN : id ≠ "") by (rewrite Hid; apply gen_id_ne).
  destruct (submitRun_ok (drawn (st_w s)) p id src (s_maxAttempts (sv_sched srv)) Gi Hacc Hrun HidN Hsrc Hmar Hnd Hfresh)
    as (w2 & Es' & Hi2 & Hr2 & Hj2 & Hd2 & Hc2).
  rewrite Es in Es'. injection Es' as -> ->.
  assert (Edb : w_db (st_w s') = w_db w2) by (by rewrite Ew'). simpl w_db in Hr2, Hj2.
  assert (Hnr : ∀ j x, run_at (w_db (st_w s)) j = Some x → run_at (w_db (st_w s')) j = Some x).
  { intros j x Hx. rewrite Edb. unfold run_at, sql_row in *. by rewrite Hr2, find_app, Hx. }
  split; [split|split; [split|split; [|split; [done|]]]]; rewrite ?Edb; try done.
  - by apply (submit_acyclic (drawn (st_w s)) p).
  - intros n. rewrite Ew'. simpl. rewrite Hc2. apply Gc.
  - intros i Hlt. rewrite (draw_shift _ _ _ _ Er Ek). destruct (Gn (k + i)%nat) as [Hr Hj]; [lia|]. split.
    + unfold run_at, sql_row in *. rewrite Hr2, find_app, Hr. simpl. rewrite bool_decide_false; [done|]. rewrite Hid. apply Gd. lia.
    + rewrite eq_None_not_Some, job_at_exists in Hj |- *. rewrite Hj2, fmap_app, <-list_fmap_compose, elem_of_app. intros [Hold|Hnew]; [done|].
      change (draw (st_w s) (k + i) ∈ (with_ids (w_rand (drawn (st_w s))) (w_rands (drawn (st_w s))) (p_Jobs p)).*1) in Hnew. rewrite job_ids in Hnew.
      apply list_elem_of_fmap in Hnew as (j & E & Hj'%elem_of_seq). by destruct (Gd (S j) (k + i)%nat); [lia|].
  - intros i j Hlt. rewrite !(draw_shift _ _ _ _ Er Ek). apply Gd. lia.
  - intros j r Hr. exists r. split; [|done]. unfold job_at, sql_row in *. by rewrite Hj2, find_app, Hr.
  - intros j x Hx. exists x. split; [|done]. rewrite <-Edb. by apply Hnr.
  - intros j data [x Hx] Hd. apply Hkept; [|done]. intros E%SourceKey_inj. subst j. congruence.
  - unfold run_at, sql_row in *. rewrite Hr2, find_app, Hrun. simpl. by rewrite bool_decide_true.
  - eexists. split; [exact Hj2|]. intros r (x & -> & Hx)%list_elem_of_fmap. split; [done|].
    apply (list_elem_of_fmap_2 fst) in Hx. rewrite job_ids in Hx. apply list_elem_of_fmap in Hx as (i & E & _). by exists (S i).
Qed.

Lemma step_submit rid rq : StepH (handleSubmitRun srv rid rq).
Proof.
  intros s. destruct (submit_ahead rid rq s) as [Hc Er [k Ek]]. exists (S k).
  assert (Ek' : w_rands (st_w (handleSubmitRun srv rid rq s).2) = (w_rands (st_w s) + 8 * S k)%nat) by (rewrite Ek; simpl; lia). clear Ek.
  refine (conj Er (conj Ek' _)). intros hi HG Hle. pose proof (submit_cases rid rq s (g_blob _ _ HG)) as Hs. cbv zeta in Hs.
  destruct (handleSubmitRun srv rid rq s) as [r s']. destruct Hs as [Hkept Hs]. cbn [snd] in Hc, Er, Ek' |- *. simpl in Hc, Er. destruct r as [r|r].
  - destruct Hs as [Hs _]. destruct HG as [Gi Ga Gc Gb Gn Gd]. destruct Hkept as [Hb Hkept]. split; split; rewrite ?Hs; try done.
    + intros n. rewrite Hc. apply Gc.
    + intros i Hlt. rewrite (draw_shift _ _ _ _ Er Ek'). apply Gn. lia.
    + intros i j Hlt. rewrite !(draw_shift _ _ _ _ Er Ek'). apply Gd. lia.
    + intros id x Hx. by exists x.
    + intros id x Hx. by exists x.
    + intros j data [x Hx] Hd. apply Hkept; [|done]. intros E%SourceKey_inj. subst j. destruct (Gn 0%nat) as [? _]; [lia|congruence].
  - destruct Hs as (src & p & run & jobs & w1 & w2 & stored & _ & -> & Hp & Es & _ & Ew).
    destruct (submitted_good (S k) (draw (st_w s) 0) p (to_string src) w2 (run, jobs) s s' hi) as (? & ? & _); try done.
    by eapply Parse_accepted.
Qed.

(** ** Every request *)

Lemma step_handle rid during h rq : StepH (mmodify (E := Response) during) → StepH (handle srv rid during h rq).
Proof.
  intros Hd. destruct h; [apply step_submit|..]; unfold handle, handleListRuns, handleGetRun, handleCancelRun, handleListEvents, handleGetSource,
    handleGetJob, handleGetLogs, handleListArtifacts, handleGetArtifact, handleListRunners, handleRegister, handleClaim,
    handleHeartbeat, handleComplete, handleAppendLogs, handleUploadArtifact, decodeRunnerBody, decodeBody, query_int,
    attemptParam; step_solve.
Qed.

Lemma step_serve during rq s : StepH (mmodify (E := Response) during) → ∃ k, step_from s (ServeHTTP srv during rq s).2 k.
Proof.
  intros Hd. unfold ServeHTTP. destruct (request_id rq s) as [rid s1] eqn:Er.
  assert (∃ k, step_from s s1 k) as [k Hk].
  { unfold request_id in Er. case_bool_decide; [|injection Er as <- <-; exists 0%nat; apply step_from_refl].
    injection Er as <- <-. exact (step_w (newID 8) s _ _). }
  assert (StepH (mux srv rid during rq)) as Hm.
  { unfold mux. destruct (rq_Endpoint rq) as [| | |h]; try apply _. unfold requireToken.
    destruct (authorized srv rq); [by apply step_handle|apply _]. }
  destruct (Hm s1) as [l Hl]. exists (k + l)%nat. apply (step_from_trans _ s1); [done|].
  by destruct (mux srv rid during rq s1) as [[r|r] s2].
Qed.

Lemma step_happens e s : ∃ k, step_from s (happens e s) k.
Proof.
  revert s. induction e as [rq l IH|evs] using Event_ind'; intros s.
  - apply step_serve. intros s0. unfold mmodify. simpl. revert s0. induction IH as [|e l He _ IHl]; intros s0; simpl.
    + exists 0%nat. apply step_from_refl.
    + destruct (He s0) as [k Hk], (IHl (happens e s0)) as [j Hj]. exists (k + j)%nat. by eapply step_from_trans.
  - cbn [happens]. rewrite RunMonitor_ticks. generalize (ticks evs). intros n. destruct s as [w b]. simpl. revert w.
    induction n as [|n IHn]; intros w; [exists 0%nat; apply step_from_refl|].
    assert (SoundW (Tick (sv_sched srv))) as Ht by (apply (sound_op (sv_sched srv) OpTick); intros; apply drop_result).
    destruct (step_w (Tick (sv_sched srv)) (mkState w b) Ht _) as [k Hk].
    destruct (IHn (Tick (sv_sched srv) w).2) as [j Hj]. exists (k + j)%nat. eapply step_from_trans; [exact Hk|].
    simpl. unfold run_ops in *. simpl. unfold after at 2, exec. by rewrite drop_result.
Qed.

Lemma step_history es : ∀ s, ∃ k, step_from s (history es s) k.
Proof.
  induction es as [|e es IH]; intros s; [exists 0%nat; apply step_from_refl|].
  destruct (step_happens e s) as [k Hk], (IH (happens e s)) as [l Hl]. exists (k + l)%nat. by eapply step_from_trans.
Qed.

(** C37: The control plane is consistent for as long as the server lives.  Whatever happens
    (any requests with any bodies, tokens and store failures, submissions included, any
    passes of the monitor, and any of these again while an upload is streaming), from a
    consistent state and while crypto/rand yields ids that are new, every state satisfies
    the scheduler's invariant and has acyclic dependencies, rows only evolve as the protocol
    allows, finished runs keep their state, stored source bundles stay, and every run that
    is not finished has a job that is queued or running. *)
Theorem server_stays_consistent es s hi :
  Good hi s → (w_rands (st_w (history es s)) ≤ w_rands (st_w s) + 8 * hi)%nat →
  let s' := history es s in let d' := w_db (st_w s') in
  Inv d' ∧ Acyclic d' ∧ blob_inv (st_blob s') ∧ Later s s' ∧
  ∀ k run, run_at d' k = Some run → ¬ run_terminal (rr_state run) →
    ∃ r, r ∈ run_jobs d' k ∧ (jr_state r = JobQueued ∨ jr_state r = JobRunning).
Proof.
  intros HG Hle. destruct (step_history es s) as (k & _ & Ek & Hk). destruct (Hk hi HG) as [[Gi Ga _ Gb _ _] HL]; [lia|].
  refine (conj Gi (conj Ga (conj Gb (conj HL _)))). intros j run. by apply Inv_has_work.
Qed.

(** ** The source of a run *)

(** The bytes of the last source part of a body. *)
Fixpoint last_source (m : Multi) : option (list N) :=
  match m with
  | MPart name body rest => match last_source rest with
                            | Some d => Some d
                            | None => if bool_decide (name = "source") then Some (bd_bytes body) else None
                            end
  | _ => None
  end.

Lemma read_parts_source f id m : ∀ src stored s out stored' s',
  blob_inv (st_blob s) → read_parts f id src stored m s = (inr out, stored', s') →
  blob_at (st_blob s') (SourceKey id) = match last_source m with Some d => Some d | None => blob_at (st_blob s) (SourceKey id) end.
Proof.
  induction m as [|e|name body rest IH]; intros src stored s out stored' s' Hinv E; simpl in E.
  1: by injection E as _ _ <-.
  1: discriminate E.
  cbn [last_source]. case_bool_decide as Hn1.
  { destruct (ReadAll _) as [e|b]; [done|]. case_bool_decide; [done|]. rewrite (IH _ _ _ _ _ _ Hinv E), bool_decide_false by (by subst). by destruct (last_source rest). }
  case_bool_decide as Hn2; [|done]. destruct (blob_Put f (SourceKey id) body (-1) (st_blob s)) as [r b'] eqn:Ep. destruct r as [e|]; [done|].
  apply IH in E; [|exact (to_inv _ _ _ (touched_put _ _ _ _ _ _ _ Hinv Ep))]. rewrite E. destruct (last_source rest); [done|]. simpl.
  by apply (put_ok _ _ _ _ _ _ Hinv Ep).
Qed.

(** The request is a submission with a multipart body that holds [data] as its source. *)
Record submits (rq : Request F) (data : list N) : Prop := {
  sb_endpoint : rq_Endpoint rq = EApi HSubmitRun;
  sb_media : cd_media (sv_codecs srv) (Header rq "Content-Type") = "multipart/form-data";
  sb_source : ∃ m, cd_multipart (sv_codecs srv) (Header rq "Content-Type") (MaxBytesReader (rq_Body rq) (MaxPipelineBytes + MaxSourceBytes)) = Some m ∧
    last_source m = Some data
}.

Lemma submit_stores_source rid rq s data hi r s' :
  Good hi s → submits rq data → handleSubmitRun srv rid rq s = (r, s') → rp_Status (match r with inl a | inr a => a end) = 201 →
  (w_rands (st_w s') ≤ w_rands (st_w s) + 8 * hi)%nat →
  ∃ run jobs, r = inr (writeJSON 201 (PRunDetail run jobs)) ∧ rj_ID run = draw (st_w s) 0 ∧
    is_Some (run_at (w_db (st_w s')) (rj_ID run)) ∧ blob_at (st_blob s') (SourceKey (rj_ID run)) = Some data.
Proof.
  intros HG [_ Hmedia (m & Hm & Hsrc)] E H201 Hle. pose proof (submit_cases rid rq s (g_blob _ _ HG)) as Hs. cbv zeta in Hs.
  destruct (submit_ahead rid rq s) as [_ Er [k Ek]]. rewrite E in Hs, Er, Ek. simpl in Er, Ek. destruct Hs as [Hkept Hs]. destruct r as [e|r]; [by destruct Hs|].
  destruct Hs as (src & p & run & jobs & w1 & w2 & stored & Hread & -> & Hp & Es & -> & Ew).
  exists (toRunJSON run), (toJobJSON <$> jobs). split; [done|].
  destruct (submitted_good (S k) (draw (st_w s) 0) p (to_string src) w2 (run, jobs) s s' hi) as (_ & _ & Hrun & Hid & _); try done; try lia.
  { by eapply Parse_accepted. }
  simpl in Hid |- *. rewrite Hid. split; [done|]. split; [done|]. unfold read_submit, readMultipartSubmit in Hread. rewrite bool_decide_true, Hm in Hread by done.
  apply read_parts_source in Hread; [|apply HG]. by rewrite Hsrc in Hread.
Qed.

Lemma source_answer during get s k data :
  rq_Endpoint get = EApi HGetSource → authorized srv get = true → PathValue get "id" = k → rq_blob get = calm →
  is_Some (run_at (w_db (st_w s)) k) → blob_at (st_blob s) (SourceKey k) = Some data →
  rp_Status (ServeHTTP srv during get s).1 = 200 ∧ rp_Body (ServeHTTP srv during get s).1 = PBytes data.
Proof.
  intros Hep Hauth <- Hcalm [x Hx] Hd. unfold ServeHTTP. destruct (request_id get s) as [rid s1] eqn:Eid.
  assert (w_db (st_w s1) = w_db (st_w s) ∧ st_blob s1 = st_blob s) as [Edb Eb] by (unfold request_id in Eid; case_bool_decide; by injection Eid as <- <-).
  unfold mux. rewrite Hep. unfold requireToken. rewrite Hauth. cbn [handle]. unfold handleGetSource.
  assert (Eg : try_ (GetRun (PathValue get "id")) (storeError rid "run") s1 = (inr (scanRun x), s1)).
  { unfold try_, GetRun, mbind, M_bind, get_db. simpl. rewrite Edb. unfold run_at in Hx. rewrite Hx. by destruct s1. }
  rewrite (mbind_step _ _ _ _ _ Eg). unfold get_blob, mbind, M_bind. rewrite Hcalm, Eb. unfold blob_at in Hd.
  by destruct (blob_Get calm _ (st_blob s)); simplify_eq.
Qed.

(** A submission that was answered 201, from the request to the stored bundle. *)
Lemma submission_stored during rq s data hi resp s1 :
  Good hi s → submits rq data → ServeHTTP srv during rq s = (resp, s1) → rp_Status resp = 201 →
  (w_rands (st_w s1) ≤ w_rands (st_w s) + 8 * hi)%nat →
  ∃ k run jobs, w_rands (st_w s1) = (w_rands (st_w s) + 8 * k)%nat ∧ Good (hi - k) s1 ∧ rp_Body resp = PRunDetail run jobs ∧
    (∃ i, rj_ID run = draw (st_w s) i) ∧
    is_Some (run_at (w_db (st_w s1)) (rj_ID run)) ∧ blob_at (st_blob s1) (SourceKey (rj_ID run)) = Some data.
Proof.
  intros HG Hsub E H201 Hle. destruct (request_id rq s) as [rid s0] eqn:Eid.
  assert (∃ k, step_from s s0 k) as (k & Er & Ek & Hk).
  { unfold request_id in Eid. case_bool_decide; [|injection Eid as <- <-; exists 0%nat; apply step_from_refl].
    injection Eid as <- <-. exact (step_w (newID 8) s _ _). }
  unfold ServeHTTP in E. rewrite Eid in E. unfold mux in E. rewrite (sb_endpoint _ _ Hsub) in E. unfold requireToken in E.
  destruct (authorized srv rq); [|injection E as <- <-; discriminate H201]. cbn [handle] in E.
  destruct (step_submit rid rq s0) as (j & _ & Ej & Hj). pose proof (submit_stores_source rid rq s0 data (hi - k)) as Hstored.
  destruct (handleSubmitRun srv rid rq s0) as [r s2]. simpl in Ej, Hj.
  assert (rp_Status (match r with inl a | inr a => a end) = 201 ∧ s2 = s1 ∧ rp_Body resp = rp_Body (match r with inl a | inr a => a end)) as (Hr & -> & Hbody)
    by (destruct r; injection E as <- <-; done).
  destruct (Hk hi HG) as [HG0 _]; [lia|]. destruct (Hstored r s1 HG0 Hsub eq_refl Hr) as (run & jobs & -> & Hid & Hrun & Hblob); [lia|].
  destruct (Hj (hi - k)%nat HG0) as [HG1 _]; [lia|].
  exists (k + j)%nat, run, jobs. replace (hi - (k + j))%nat with (hi - k - j)%nat by lia. refine (conj _ (conj HG1 (conj Hbody (conj _ (conj Hrun Hblob))))); [lia|].
  exists (k + 0)%nat. by rewrite Hid, (draw_shift _ _ _ _ Er Ek).
Qed.

(** A run is executed on exactly the source it was submitted with.  If a multipart
    submission is answered 201, the answer names the run, and from then on, whatever else
    the server is asked and while ids are new, an authorised GET of that run's source
    is answered 200 with exactly the bytes of the source part. *)
Theorem submitted_source_is_served during rq s data hi resp s1 es :
  Good hi s → submits rq data → ServeHTTP srv during rq s = (resp, s1) → rp_Status resp = 201 →
  (w_rands (st_w (history es s1)) ≤ w_rands (st_w s) + 8 * hi)%nat →
  ∃ run jobs, rp_Body resp = PRunDetail run jobs ∧
    ∀ get during', rq_Endpoint get = EApi HGetSource → authorized srv get = true → PathValue get "id" = rj_ID run → rq_blob get = calm →
      let answer := (ServeHTTP srv during' get (history es s1)).1 in rp_Status answer = 200 ∧ rp_Body answer = PBytes data.
Proof.
  intros HG Hsub E H201 Hle. destruct (step_history es s1) as (l & _ & El & Hl).
  destruct (submission_stored during rq s data hi resp s1 HG Hsub E H201) as (k & run & jobs & Ek & HG1 & Hbody & _ & Hrun & Hblob); [lia|].
  exists run, jobs. split; [done|]. intros get during' Hep Hauth Hid Hcalm. destruct (Hl _ HG1) as [_ HL]; [lia|].
  apply (source_answer during' get _ (rj_ID run)); try done; [|by apply (lt_source _ _ HL)].
  destruct Hrun as [x Hx]. destruct (lt_run _ _ HL _ _ Hx) as (x' & -> & _). done.
Qed.
End life.

(** ** A day of the demo server *)

Definition day_srv : Server := mkServer "s3cret" demo_s (mkCodecs demo_yaml (cd_media demo_codecs) (cd_multipart demo_codecs)
  (cd_sha256 demo_codecs) (cd_claim demo_codecs) (cd_heartbeat demo_codecs) (cd_complete demo_codecs) (cd_register demo_codecs) (cd_logs demo_codecs)).
Definition post_run : Request Faults :=
  demo_rq (EApi HSubmitRun) (<["Content-Type" := "multipart/form-data"]> bearer) ∅ ∅ [120%N].
Definition get_source (id : string) : Request Faults :=
  mkRequest (EApi HGetSource) bearer {["id" := id]} ∅ 0 (mkBody [] None) no_faults no_faults.
(** An upload that streams while the monitor expires its lease and a runner registers; the
    run is claimed and cancelled, and another one is submitted. *)
Definition day : list (Event (F := Faults)) :=
  [ Serve (demo_rq (EApi HClaim) bearer ∅ ∅ [1%N]) [];
    Serve (j1_upload [7%N]) [Monitors [TickerFires false; ContextEnds]; Serve (demo_rq (EApi HRegister) bearer ∅ ∅ [1%N]) []];
    Serve post_run [];
    Serve (demo_rq (EApi HCancelRun) bearer {["id" := "r1"]} ∅ []) [] ].

Lemma demo_acyclic : Acyclic demo_db.
Proof.
  exists (λ id, if bool_decide (id = "j5") then 2%nat else if bool_decide (id = "j2") then 1%nat else 0%nat).
  intros id n Hn. unfold needs in Hn. simpl in Hn.
  apply elem_of_cons in Hn as [[= -> ->]|Hn]; [vm_compute; lia|].
  apply list_elem_of_singleton in Hn as [= -> ->]. vm_compute. lia.
Qed.

Definition ids_new (hi : nat) (w : World) : bool :=
  forallb (λ i, bool_decide (run_at (w_db w) (draw w i) = None) && bool_decide (job_at (w_db w) (draw w i) = None)) (seq 0 hi) &&
  forallb (λ j, forallb (λ i, negb (String.eqb (draw w i) (draw w j))) (seq 0 j)) (seq 0 hi).
Lemma ids_new_ok hi w : ids_new hi w = true →
  (∀ i, (i < hi)%nat → run_at (w_db w) (draw w i) = None ∧ job_at (w_db w) (draw w i) = None) ∧
  ∀ i j, (i < j < hi)%nat → draw w i ≠ draw w j.
Proof.
  unfold ids_new. rewrite andb_true_iff, !forallb_forall. intros [H1 H2]. split.
  - intros i Hi. specialize (H1 i). rewrite <-list_elem_of_In, elem_of_seq, andb_true_iff, !bool_decide_eq_true in H1. apply H1. lia.
  - intros i j Hij E. specialize (H2 j). rewrite <-list_elem_of_In, elem_of_seq, forallb_forall in H2. specialize (H2 ltac:(lia) i).
    rewrite <-list_elem_of_In, elem_of_seq, E, String.eqb_refl in H2. by discriminate H2; lia.
Qed.

Lemma demo_good : Good 20 demo_state.
Proof.
  destruct (ids_new_ok 20 demo_w) as [H1 H2]; [vm_compute; reflexivity|].
  split; [apply demo_inv|apply demo_acyclic|apply demo_clock_pos|apply demo_wf|exact H1|exact H2].
Qed.

Lemma server_stays_consistent_witness : Inv (w_db (st_w (history day_srv day demo_state))).
Proof. apply (server_stays_consistent day_srv day demo_state 20); [apply demo_good|vm_compute; lia]. Defined.

Lemma submitted_source_is_served_witness :
  let s1 := (ServeHTTP day_srv (λ s, s) post_run demo_state).2 in
  rp_Body (ServeHTTP day_srv (λ s, s) (get_source (draw demo_w 1)) (history day_srv day s1)).1 = PBytes [9%N].
Proof.
  cbv zeta. destruct (ServeHTTP day_srv (λ s, s) post_run demo_state) as [resp s1] eqn:E.
  destruct (submitted_source_is_served day_srv (λ s, s) post_run demo_state [9%N] 20 resp s1 day) as (run & jobs & Hb & H).
  - apply demo_good.
  - split; [reflexivity|vm_compute; reflexivity|]. eexists. split; reflexivity.
  - exact E.
  - vm_compute in E. injection E as <- _. reflexivity.
  - replace s1 with (ServeHTTP day_srv (λ s, s) post_run demo_state).2 by (by rewrite E). vm_compute. lia.
  - apply (H (get_source (draw demo_w 1)) (λ s, s)); try reflexivity.
    replace resp with (ServeHTTP day_srv (λ s, s) post_run demo_state).1 in Hb by (by rewrite E). vm_compute in Hb. injection Hb as <- _. reflexivity.
Defined.
