(* ===== verification/ArtifactTrip.v ===== *)
(** * An artifact, from the upload to the download

    An upload that was answered 201 is what a GET of the same job, attempt and path
    returns from then on, whatever happens on the server, as long as no further upload
    names the same job, attempt and path (a second one replaces the artifact, and one that
    loses its fence while it streams deletes the object).  Every other request leaves the
    artifact's row alone, and no other upload or submission writes under its key, since ids
    are hex and hold no slash. *)

From S2P Require Import Prelude GoLib Pipeline Types Store Scheduler Protocol Advance Consistency Refinement Logs Ops LogOrder Monitor InvCheck Demo SchedulerSpec PipelineSpec Submit Artifact LocalStore LocalSpec Api ApiSpec ApiExamples Serving.
From Stdlib Require Import Ascii.

Local Open Scope Z_scope.

(** ** The artifact rows, over the calls of the API *)

Section rows.
Context {T : Type} (tab : DB → T) `{!Apart tab} (c : T).
#[export] Instance keeps_newID n : KeepsRows tab c (newID n).
Proof. by intros w. Qed.
#[export] Instance keeps_register req : KeepsRows tab c (register_tx req).
Proof.
  unfold register_tx. apply keeps_Tx. intros w.
  destruct (GetRunnerByName _ w) as [[[]|] ?]; match goal with |- _ → tab (w_db (snd (?m _))) = _ => assert (Hm : KeepsRows tab c m) by keeps_solve; apply Hm end.
Qed.
#[export] Instance keeps_submitRun id p src m : KeepsRows tab c (submitRun id p src m).
Proof. unfold submitRun, submit_job, CreateRun, insert_run, create_job, insert_job, create_dep, insert_dep, AppendEvent. keeps_solve. Qed.
End rows.

#[export] Instance keeps_AppendLogs c s id a cs : KeepsRows db_artifacts c (AppendLogs s id a cs).
Proof.
  assert (∀ x n, KeepsRows db_artifacts c (append_chunk s id a x n)) as Hc.
  { intros. unfold append_chunk, InsertLogChunk. repeat first [apply keeps_put; assumption|progress keeps_solve]. }
  unfold AppendLogs, append_tx, LogBytes, HasJobEvent. keeps_solve.
Qed.

(** ** Ids without slashes *)

Definition unslashed (k : string) : Prop := ContainsByte k "/" = false.
Definition unslashed_jobs (d : DB) : Prop := Forall (λ r, unslashed (jr_id r) ∧ unslashed (jr_run_id r)) (db_jobs d).
#[export] Instance unslashed_dec k : Decision (unslashed k) := _.
#[export] Instance unslashed_jobs_dec d : Decision (unslashed_jobs d) := _.

Lemma hex_unslashed b : Forall (λ x, x < 256)%N b → unslashed (hex_encode b).
Proof.
  assert (Hd : ∀ n, (n < 16)%N → hex_digit n ≠ "/"%char).
  { intros n Hn. assert (Hall : forallb (λ k, negb (Ascii.eqb (hex_digit (N.of_nat k)) "/")) (seq 0 16) = true) by (vm_compute; reflexivity).
    rewrite forallb_forall in Hall. specialize (Hall (N.to_nat n) ltac:(apply in_seq; lia)).
    rewrite N2Nat.id, negb_true_iff in Hall. by apply Ascii.eqb_neq in Hall. }
  unfold unslashed. induction 1 as [|x b Hx _ IH]; [done|]. cbn [hex_encode ContainsByte].
  rewrite !bool_decide_false, IH; [done|..]; apply Hd; [by apply N.mod_lt|by apply N.Div0.div_lt_upper_bound].
Qed.
Lemma draw_unslashed w i : (∀ n, w_rand w n < 256)%N → unslashed (draw w i).
Proof. intros Hb. apply hex_unslashed, Forall_fmap, Forall_forall. intros x _. apply Hb. Qed.

Lemma PSteps_unslashed d d' : PSteps d d' → Inv d → Inv d' → unslashed_jobs d → unslashed_jobs d'.
Proof.
  intros Hp Hi Hi' Hu. destruct (PSteps_static _ _ Hp) as (Ej & _ & _). unfold unslashed_jobs in *. rewrite Forall_forall in *.
  intros r' Hr'. assert (jr_id r' ∈ jr_id <$> db_jobs d) as (r & E & Hr)%list_elem_of_fmap by (rewrite <-Ej; by apply list_elem_of_fmap_2).
  assert (job_at d (jr_id r) = Some r) as Hat by (apply job_at_iff; [apply Hi|done]).
  destruct (PSteps_evolves _ _ _ _ Hp Hat) as (r2 & Hat2 & He).
  assert (job_at d' (jr_id r) = Some r') as Hat' by (rewrite <-E; apply job_at_iff; [apply Hi'|done]).
  assert (r2 = r') as -> by congruence. destruct (Hu r Hr). rewrite (ev_run _ _ He), E. done.
Qed.

(** ** What happens to one artifact *)

#[export] Instance Handler_eq_dec : EqDecision Handler.
Proof. solve_decision. Defined.
#[export] Instance Endpoint_eq_dec : EqDecision Endpoint.
Proof. solve_decision. Defined.

Section trip.
Context {B F : Type} `{Store : BlobStore B F}.
Context (srv : Server) (run job path : string) (attempt : Z).
Context (Hrun : unslashed run) (Hjob : unslashed job).
Implicit Types (s : State B) (rq : Request F).

Definition art_at (d : DB) : option Artifact := sql_row (is_artifact job attempt path) (db_artifacts d).

(** The request uploads to the same job, attempt and path. *)
Definition reuploads rq : bool :=
  bool_decide (rq_Endpoint rq = EApi HUploadArtifact) && bool_decide (PathValue rq "id" = job) &&
  bool_decide (ParseInt (PathValue rq "attempt") = Some attempt) && bool_decide (PathValue rq "path" = path).
(** Neither the event nor anything that happens meanwhile does. *)
Fixpoint spares (e : Event (F := F)) : bool :=
  match e with
  | Serve rq meanwhile => negb (reuploads rq) && forallb spares meanwhile
  | Monitors _ => true
  end.

(** The row is the same, and the object is there if it was. *)
Record kept s s' : Prop := {
  kp_ids : unslashed_jobs (w_db (st_w s'));
  kp_row : art_at (w_db (st_w s')) = art_at (w_db (st_w s));
  kp_blob : ∀ data, blob_at (st_blob s) (JobKey run job attempt path) = Some data →
    blob_at (st_blob s') (JobKey run job attempt path) = Some data
}.
Definition keep_from s s' (k : nat) : Prop :=
  step_from s s' k ∧ ∀ hi, Good hi s → (k ≤ hi)%nat → (∀ n, w_rand (st_w s) n < 256)%N →
    unslashed_jobs (w_db (st_w s)) → kept s s'.
Class KeepH {A} (m : M (State B) Response A) : Prop := keep_h s : ∃ k, keep_from s (m s).2 k.

Lemma keep_refl s : keep_from s s 0.
Proof. split; [apply step_from_refl|]. by intros. Qed.
Lemma keep_trans s1 s2 s3 k l : keep_from s1 s2 k → keep_from s2 s3 l → keep_from s1 s3 (k + l).
Proof.
  intros [S1 K1] [S2 K2]. split; [by eapply step_from_trans|]. intros hi Hg Hle Hb Hu.
  destruct (K1 hi Hg ltac:(lia) Hb Hu) as [U1 R1 D1]. destruct S1 as (Er & _ & HG). destruct (HG hi Hg) as [Hg1 _]; [lia|].
  destruct (K2 _ Hg1 ltac:(lia) ltac:(by rewrite Er) U1) as [U2 R2 D2]. split; [done|congruence|auto].
Qed.

#[local] Instance k_ret {A} (a : A) : KeepH (mret a).
Proof. intros s. exists 0%nat. apply keep_refl. Qed.
#[local] Instance k_reply {A} r : KeepH (@reply B A r).
Proof. intros s. exists 0%nat. apply keep_refl. Qed.
#[local] Instance k_bind {A C} (m : M (State B) Response A) (f : A → M (State B) Response C) :
  KeepH m → (∀ a, KeepH (f a)) → KeepH (m ≫= f).
Proof.
  intros Hm Hf s. destruct (Hm s) as [k Hk]. unfold mbind, M_bind. destruct (m s) as [[r|a] s1]; [by exists k|].
  destruct (Hf a s1) as [l Hl]. exists (k + l)%nat. by eapply keep_trans.
Qed.
Lemma keep_w {A} (m : W A) s : SoundW m → Ahead m → (∀ w, art_at (w_db (m w).2) = art_at (w_db w)) →
  ∃ k, keep_from s (mkState (m (st_w s)).2 (st_blob s)) k.
Proof.
  intros Hm Ha Hrow. destruct (step_w m s Hm Ha) as [k Hk]. exists k. split; [done|]. intros hi Hg _ _ Hu.
  destruct (Hm (st_w s) (g_inv _ _ Hg) (g_clock _ _ Hg)) as (Hp & Hi & _).
  split; simpl; [by eapply PSteps_unslashed; [..|apply Hg| |]|done|done].
Qed.
Lemma keeps_art {A} (m : W A) : (∀ c, KeepsRows db_artifacts c m) → ∀ w, art_at (w_db (m w).2) = art_at (w_db w).
Proof. intros Hm w. unfold art_at. by rewrite (Hm _ w eq_refl). Qed.
#[local] Instance k_try {A} (m : W A) onerr : SoundW m → Ahead m → (∀ c, KeepsRows db_artifacts c m) → KeepH (@try_ B A m onerr).
Proof.
  intros Hm Ha Hr s. pose proof (keep_w m s Hm Ha (keeps_art m Hr)) as Hs. unfold try_. by destruct (m (st_w s)) as [[?|?] ?].
Qed.
#[local] Instance k_run {A} (m : W A) : SoundW m → Ahead m → (∀ c, KeepsRows db_artifacts c m) → KeepH (@run_w B A m).
Proof. intros Hm Ha Hr s. pose proof (keep_w m s Hm Ha (keeps_art m Hr)) as Hs. unfold run_w. by destruct (m (st_w s)) as [? ?]. Qed.
#[local] Instance k_get rid f k m : KeepH (get_blob rid f k m).
Proof. intros s. exists 0%nat. unfold get_blob. destruct (blob_Get f k (st_blob s)) as [[]|]; apply keep_refl. Qed.

(** *** Other uploads *)

Lemma keep_blob s b' : step_from s (mkState (st_w s) b') 0 →
  (∀ data, blob_inv (st_blob s) → blob_at (st_blob s) (JobKey run job attempt path) = Some data →
     blob_at b' (JobKey run job attempt path) = Some data) → keep_from s (mkState (st_w s) b') 0.
Proof. intros Hs Hb. split; [done|]. intros hi Hg _ _ Hu. split; simpl; [done|done|]. intros data. apply Hb, Hg. Qed.

Lemma keep_put f run' job' a path' body n s : JobKey run' job' a path' ≠ JobKey run job attempt path →
  keep_from s (put_blob f (JobKey run' job' a path') body n s).2 0.
Proof.
  intros Hne. unfold put_blob. destruct (blob_Put f _ body n (st_blob s)) as [r b'] eqn:E. apply keep_blob.
  - apply step_from_blob; [intros Hi|intros k data Hi _ Hd]; destruct (touched_put _ _ _ _ _ _ _ Hi E) as [Ti _ Tk]; [done|].
    apply Tk; [apply JobKey_SourceKey|done].
  - intros data Hi Hd. destruct (touched_put _ _ _ _ _ _ _ Hi E) as [_ _ Tk]. by apply Tk.
Qed.
Lemma keep_discard f run' job' a path' s : JobKey run' job' a path' ≠ JobKey run job attempt path →
  keep_from s (discard f (JobKey run' job' a path') s).2 0.
Proof.
  intros Hne. unfold discard. apply keep_blob.
  - apply step_from_blob; [by apply delete_inv|]. intros k data Hi _ Hd. rewrite delete_other; [done|done|apply JobKey_SourceKey].
  - intros data Hi Hd. by rewrite delete_other.
Qed.

Lemma recorded_other id a p x t : (id, a, p) ≠ (job, attempt, path) → is_artifact id a p x = true →
  sql_row (is_artifact job attempt path)
    match sql_row (is_artifact id a p) t with
    | Some _ => sql_update (is_artifact id a p) (λ _, x) t
    | None => t ++ [x]
    end = sql_row (is_artifact job attempt path) t.
Proof.
  intros Hne Hx. assert (Hdis : ∀ y, is_artifact id a p y = true → is_artifact job attempt path y = false).
  { intros y Hy. apply not_true_iff_false. intros Hz. unfold is_artifact in Hy, Hz.
    rewrite !andb_true_iff, !bool_decide_eq_true in Hy, Hz. naive_solver. }
  unfold sql_row. destruct (List.find (is_artifact id a p) t).
  - unfold sql_update. induction t as [|y t IH]; [done|]. csimpl. destruct (is_artifact id a p y) eqn:E; [|by rewrite IH].
    by rewrite !Hdis, IH.
  - rewrite find_app. destruct (List.find _ t); [done|]. simpl. by rewrite Hdis.
Qed.
Lemma record_other id a p size sha ct w : (id, a, p) ≠ (job, attempt, path) →
  art_at (w_db (record_tx id a p size sha ct w).2) = art_at (w_db w).
Proof.
  intros Hne. destruct (record_tx id a p size sha ct w) as [[e|x] w'] eqn:E.
  - simpl. by rewrite (Tx_err _ _ _ _ E).
  - apply record_tx_ok in E as (r & _ & _ & _ & -> & ->). unfold art_at. simpl. apply recorded_other; [done|].
    unfold is_artifact. by rewrite !bool_decide_true.
Qed.

Lemma keep_upload rid during rq : KeepH (mmodify (E := Response) during) → rq_Endpoint rq = EApi HUploadArtifact → reuploads rq = false →
  KeepH (handleUploadArtifact srv rid during rq).
Proof.
  intros Hd Hep Hre s. destruct (decide (unslashed_jobs (w_db (st_w s)))) as [Hu|Hu].
  2:{ destruct (step_handle srv rid during HUploadArtifact rq) with s as [k Hk]; [|exists k; split; done].
      intros s0. destruct (Hd s0) as (k & Hk & _). by exists k. }
  destruct (upload_parse srv rid during rq s) as [(a & Ha & ->)|(_ & r & -> & _)]; [|exists 0%nat; apply keep_refl].
  assert (Hne : (PathValue rq "id", a, PathValue rq "path") ≠ (job, attempt, path)).
  { intros [= E1 E2 E3]. unfold reuploads in Hre. rewrite Hep, E1, E3, (uo_attempt _ _ Ha), E2 in Hre. by rewrite !bool_decide_true in Hre. }
  destruct (job_at (w_db (st_w s)) (PathValue rq "id")) as [row|] eqn:Hrow.
  2:{ rewrite (mbind_err _ _ _ _ _ (try_GetJob_none _ _ _ Hrow)). exists 0%nat. apply keep_refl. }
  rewrite (mbind_step _ _ _ _ _ (try_GetJob_ok _ _ _ _ Hrow)). destruct (not_running (scanJob row) a); [exists 0%nat; apply keep_refl|].
  change (j_RunID (scanJob row)) with (jr_run_id row).
  assert (Hk : JobKey (jr_run_id row) (PathValue rq "id") a (PathValue rq "path") ≠ JobKey run job attempt path).
  { destruct (job_at_Some _ _ _ Hrow) as [Hin Hid]. unfold unslashed_jobs in Hu. rewrite Forall_forall in Hu. destruct (Hu row Hin) as [U1 U2].
    rewrite Hid in U1. intros E. apply Hne. destruct (keys_do_not_collide (jr_run_id row) (PathValue rq "id") a (PathValue rq "path") run job attempt path) as [Hc _];
      [done..|]. destruct (Hc E) as (_ & -> & -> & ->). done. }
  match goal with |- ∃ k, keep_from s (snd (?m s)) k => enough (KeepH m) as Hm by apply Hm end. clear s Hu Hrow.
  apply k_bind; [intros s; exists 0%nat; by apply keep_put|]. intros [e|]; [destruct e as [| | | |[]|]; apply _|].
  apply k_bind; [done|]. intros _. apply k_bind.
  - intros s. unfold run_w. pose proof (keep_w (record_tx (PathValue rq "id") a (PathValue rq "path") (rq_ContentLength rq)
      (hex_encode (cd_sha256 (sv_codecs srv) (bd_bytes (MaxBytesReader (rq_Body rq) (rq_ContentLength rq))))) (upload_type rq)) s _ _) as Hs.
    specialize (Hs ltac:(intros; by apply record_other)). by destruct (record_tx _ _ _ _ _ _ (st_w s)).
  - intros [e|x]; [|apply _]. apply k_bind; [|apply _]. intros s. exists 0%nat. by apply keep_discard.
Qed.

(** *** Submissions *)

Lemma keep_submit rid rq : KeepH (handleSubmitRun srv rid rq).
Proof.
  intros s. destruct (step_submit srv rid rq s) as [k Hk]. exists k. split; [done|]. intros hi HG Hle Hb Hu.
  pose proof (submit_cases srv rid rq s (g_blob _ _ HG)) as Hs. cbv zeta in Hs. destruct Hk as (Er & Ek & _).
  destruct (handleSubmitRun srv rid rq s) as [r s']. destruct Hs as [Hkept Hs]. cbn [snd] in *.
  assert (Hblob : ∀ data, blob_at (st_blob s) (JobKey run job attempt path) = Some data → blob_at (st_blob s') (JobKey run job attempt path) = Some data)
    by (intros data; apply Hkept; intros E; by eapply JobKey_SourceKey).
  destruct r as [r|r]; [destruct Hs as [Hs _]; split; rewrite ?Hs; done|].
  destruct Hs as (src & p & r0 & jobs & w1 & w2 & stored & _ & -> & Hp & Es & _ & Ew).
  destruct (submitted_good srv k (draw (st_w s) 0) p (to_string src) w2 (r0, jobs) s s' hi) as (_ & _ & _ & _ & rows & Ej & Hrows); try done.
  { by eapply Parse_accepted. }
  split; [| |done].
  - unfold unslashed_jobs. rewrite Ej. apply Forall_app. split; [done|]. apply Forall_forall. intros x Hx.
    destruct (Hrows x Hx) as [-> [i ->]]. split; by apply draw_unslashed.
  - rewrite Ew. simpl.
    pose proof (keeps_art _ (λ c, keeps_submitRun db_artifacts c (draw (st_w s) 0) p (to_string src) (s_maxAttempts (sv_sched srv))) (drawn (st_w s))) as Hart.
    unfold drawn in Hart. by rewrite Es in Hart.
Qed.

(** *** Everything *)

Ltac keep_solve :=
  repeat first
    [ apply _
    | apply k_bind; [|intros ?]
    | apply k_try; [apply _|apply _|intros ?; unfold ListRuns, ListJobs, ListEvents, ListRunners, ListLogChunks, GetArtifact, ListArtifacts, count_queued; keeps_solve]
    | case_match
    | progress cbv zeta beta ].

Lemma keep_handle rid during h rq : KeepH (mmodify (E := Response) during) → rq_Endpoint rq = EApi h → reuploads rq = false →
  KeepH (handle srv rid during h rq).
Proof.
  intros Hd Hep Hre. destruct h;
    lazymatch goal with
    | |- KeepH (handle _ _ _ HSubmitRun _) => apply keep_submit
    | |- KeepH (handle _ _ _ HUploadArtifact _) => by apply keep_upload
    | |- _ => clear Hre; unfold handle, handleListRuns, handleGetRun, handleCancelRun, handleListEvents, handleGetSource,
        handleGetJob, handleGetLogs, handleListArtifacts, handleGetArtifact, handleListRunners, handleRegister, handleClaim,
        handleHeartbeat, handleComplete, handleAppendLogs, decodeRunnerBody, decodeBody, query_int, attemptParam; keep_solve
    end.
Qed.

Lemma keep_request_id rq s rid s1 : request_id rq s = (rid, s1) → ∃ k, keep_from s s1 k.
Proof.
  unfold request_id. case_bool_decide; [|intros [= <- <-]; exists 0%nat; apply keep_refl].
  intros [= <- <-]. exact (keep_w (newID 8) s _ _ (keeps_art _ _)).
Qed.

Lemma keep_serve during rq s : KeepH (mmodify (E := Response) during) → reuploads rq = false →
  ∃ k, keep_from s (ServeHTTP srv during rq s).2 k.
Proof.
  intros Hd Hre. unfold ServeHTTP. destruct (request_id rq s) as [rid s1] eqn:Er. destruct (keep_request_id _ _ _ _ Er) as [k Hk].
  assert (KeepH (mux srv rid during rq)) as Hm.
  { unfold mux. destruct (rq_Endpoint rq) as [| | |h] eqn:Hep; try apply _. unfold requireToken.
    destruct (authorized srv rq); [by apply keep_handle|apply _]. }
  destruct (Hm s1) as [l Hl]. exists (k + l)%nat. apply (keep_trans _ s1); [done|].
  by destruct (mux srv rid during rq s1) as [[r|r] s2].
Qed.

Lemma keep_monitor evs s : ∃ k, keep_from s (happens srv (Monitors evs) s) k.
Proof.
  cbn [happens]. rewrite RunMonitor_ticks. generalize (ticks evs). intros n. destruct s as [w b]. simpl. revert w.
  induction n as [|n IHn]; intros w; [exists 0%nat; apply keep_refl|].
  assert (SoundW (Tick (sv_sched srv))) as Ht by (apply (sound_op (sv_sched srv) OpTick); intros; apply drop_result).
  destruct (keep_w (Tick (sv_sched srv)) (mkState w b) Ht _ (keeps_art _ _)) as [k Hk].
  destruct (IHn (Tick (sv_sched srv) w).2) as [j Hj]. exists (k + j)%nat. eapply keep_trans; [exact Hk|].
  simpl. unfold run_ops in *. simpl. unfold after at 2, exec. by rewrite drop_result.
Qed.

Lemma keep_happens e : spares e = true → ∀ s, ∃ k, keep_from s (happens srv e s) k.
Proof.
  induction e as [rq l IH|evs] using Event_ind'; intros Hsp s; [|apply keep_monitor].
  simpl in Hsp. apply andb_true_iff in Hsp as [Hre%negb_true_iff Hl]. apply keep_serve; [|done].
  intros s0. unfold mmodify. simpl. revert s0 Hl. induction IH as [|e l He _ IHl]; intros s0 Hl; simpl in *.
  - exists 0%nat. apply keep_refl.
  - apply andb_true_iff in Hl as [H1 H2]. destruct (He H1 s0) as [k Hk], (IHl (happens srv e s0) H2) as [j Hj].
    exists (k + j)%nat. by eapply keep_trans.
Qed.

Lemma keep_history es : forallb spares es = true → ∀ s, ∃ k, keep_from s (history srv es s) k.
Proof.
  induction es as [|e es IH]; intros Hsp s; [exists 0%nat; apply keep_refl|]. simpl in Hsp. apply andb_true_iff in Hsp as [H1 H2].
  destruct (keep_happens e H1 s) as [k Hk], (IH H2 (happens srv e s)) as [l Hl]. exists (k + l)%nat. by eapply keep_trans.
Qed.
End trip.

(** ** The download *)

Section download.
Context {B F : Type} `{Store : BlobStore B F}.
Implicit Types (s : State B) (rq get : Request F).

(** The request asks for that artifact, with the token, and no read of the store fails. *)
Record asks_for srv get (id path : string) (a : Z) : Prop := {
  af_endpoint : rq_Endpoint get = EApi HGetArtifact;
  af_auth : authorized srv get = true;
  af_id : PathValue get "id" = id;
  af_path : PathValue get "path" = path;
  af_attempt : ParseInt (Query get "attempt") = Some a;
  af_calm : rq_blob get = calm
}.

Lemma artifact_answer srv during get s id path a row x data :
  asks_for srv get id path a → 0 < a → ValidatePath path = None →
  job_at (w_db (st_w s)) id = Some row → art_at id path a (w_db (st_w s)) = Some x →
  blob_at (st_blob s) (JobKey (jr_run_id row) id a path) = Some data →
  let answer := (ServeHTTP srv during get s).1 in
  rp_Status answer = 200 ∧ rp_Body answer = PBytes data ∧
  ∃ rid, rp_Headers answer = [("X-Request-ID", rid); ("Content-Type", a_ContentType x);
    ("Content-Length", Itoa (a_SizeBytes x)); ("ETag", quoted (a_SHA256 x))].
Proof.
  intros [Hep Hauth Hid Hpath Hatt Hcalm] Hpos Hv Hrow Hx Hd. cbv zeta. unfold ServeHTTP. destruct (request_id get s) as [rid s1] eqn:Eid.
  assert (w_db (st_w s1) = w_db (st_w s) ∧ st_blob s1 = st_blob s) as [Edb Eb] by (unfold request_id in Eid; case_bool_decide; by injection Eid as <- <-).
  unfold mux. rewrite Hep. unfold requireToken. rewrite Hauth. cbn [handle]. unfold handleGetArtifact. rewrite Hid, Hpath. rewrite <-Edb in Hrow.
  rewrite (mbind_step _ _ _ _ _ (try_GetJob_ok _ _ _ _ Hrow)).
  assert (Ea : attemptParam rid get (scanJob row) s1 = (inr a, s1)).
  { unfold attemptParam. rewrite Hatt, bool_decide_false by (by intros E; rewrite E in Hatt). by rewrite bool_decide_false by lia. }
  rewrite (mbind_step _ _ _ _ _ Ea). cbv zeta. rewrite Hv. destruct (job_at_Some _ _ _ Hrow) as [_ Hjid].
  change (j_ID (scanJob row)) with (jr_id row). change (j_RunID (scanJob row)) with (jr_run_id row). rewrite Hjid.
  unfold try_, GetArtifact, mbind, M_bind, get_db. simpl. unfold art_at in Hx. rewrite Edb, Hx. simpl.
  unfold get_blob. simpl. rewrite Hcalm, Eb. unfold blob_at in Hd. destruct (blob_Get calm _ (st_blob s)); simplify_eq.
  split_and!; [done..|]. by exists rid.
Qed.

(** Only the last step of an upload answers 201. *)
Lemma upload_refused srv rid during rq s r s' : handleUploadArtifact srv rid during rq s = (inl r, s') → rp_Status r ≠ 201.
Proof.
  destruct (upload_parse srv rid during rq s) as [(a & Ha & ->)|(_ & r0 & -> & Hr)]; [|intros [= <- <-] E; rewrite E in Hr; set_solver].
  destruct (job_at (w_db (st_w s)) (PathValue rq "id")) as [row|] eqn:Hrow.
  2:{ rewrite (mbind_err _ _ _ _ _ (try_GetJob_none _ _ _ Hrow)). by intros [= <- <-]. }
  rewrite (mbind_step _ _ _ _ _ (try_GetJob_ok _ _ _ _ Hrow)). destruct (not_running (scanJob row) a); [by intros [= <- <-]|].
  unfold put_blob, mbind, M_bind. simpl. destruct (blob_Put _ _ _ _ _) as [[e|] b1]; [destruct e as [| | | |[]|]; by intros [= <- <-]|].
  unfold mmodify, run_w. simpl. destruct (record_tx _ _ _ _ _ _ _) as [[e|x] w1]; [|done]. unfold discard, reply. simpl.
  intros [= <- <-]. by repeat case_bool_decide.
Qed.

(** What an upload that was answered 201 left, from the handler's state to the next. *)
Lemma upload_stored srv rid rq s meanwhile hi a r s1 :
  let id := PathValue rq "id" in let path := PathValue rq "path" in
  Good hi s → (∀ n, w_rand (st_w s) n < 256)%N → unslashed_jobs (w_db (st_w s)) →
  ParseInt (PathValue rq "attempt") = Some a → forallb (spares id path a) meanwhile = true →
  handleUploadArtifact srv rid (history srv meanwhile) rq s = (inr r, s1) →
  (w_rands (st_w s1) ≤ w_rands (st_w s) + 8 * hi)%nat →
  upload_ok rq a ∧ Z.of_nat (length (bd_bytes (rq_Body rq))) = rq_ContentLength rq ∧ bd_err (rq_Body rq) = None ∧
  ∃ k row now, step_from s s1 k ∧ unslashed_jobs (w_db (st_w s1)) ∧
    job_at (w_db (st_w s1)) id = Some row ∧ unslashed id ∧ unslashed (jr_run_id row) ∧
    art_at id path a (w_db (st_w s1)) = Some (mkArtifact id a path (rq_ContentLength rq)
      (hex_encode (cd_sha256 (sv_codecs srv) (bd_bytes (rq_Body rq)))) (upload_type rq) now) ∧
    blob_at (st_blob s1) (JobKey (jr_run_id row) id a path) = Some (bd_bytes (rq_Body rq)).
Proof.
  intros id path HG Hb Hu Hatt Hsp Eu Hle.
  destruct (upload_created _ _ _ _ _ _ _ (g_blob _ _ HG) Eu) as (a' & row & w1 & Ha & Hrow & _ & _ & b1 & Ep & Ebody & Er & _ & ->).
  assert (a' = a) as -> by (destruct Ha; congruence). fold id path in Hrow, Ep, Er. rewrite Ebody in Ep.
  destruct (put_ok _ _ _ _ _ _ (g_blob _ _ HG) Ep) as (Hblob & Herr & Hlen & _).
  split; [done|]. split; [apply Hlen, Ha|]. split; [done|].
  destruct (job_at_Some _ _ _ Hrow) as [Hin Hid]. pose proof Hu as Hu'. unfold unslashed_jobs in Hu'. rewrite Forall_forall in Hu'.
  destruct (Hu' row Hin) as [U1 U2]. rewrite Hid in U1. clear Hu'.
  assert (S1 : step_from s (mkState (st_w s) b1) 0).
  { apply step_from_blob; [intros Hi|intros k data Hi _ Hd]; destruct (touched_put _ _ _ _ _ _ _ Hi Ep) as [Ti _ Tk]; [done|].
    apply Tk; [apply JobKey_SourceKey|done]. }
  destruct (keep_history srv (jr_run_id row) id path a U2 U1 meanwhile Hsp (mkState (st_w s) b1)) as (k2 & S2 & K2).
  set (s2 := history srv meanwhile (mkState (st_w s) b1)) in *.
  destruct (step_w (record_tx id a path (rq_ContentLength rq) (hex_encode (cd_sha256 (sv_codecs srv) (bd_bytes (rq_Body rq)))) (upload_type rq)) s2 _ _) as [k3 S3].
  rewrite Er in S3. cbn [snd] in S3. pose proof (step_from_trans _ _ _ _ _ (step_from_trans _ _ _ _ _ S1 S2) S3) as S. simpl in Hle.
  assert (k2 + k3 ≤ hi)%nat as Hk by (destruct S as (_ & E & _); simpl in E; lia).
  destruct S1 as (_ & _ & G1). destruct (G1 hi HG) as [HG1 _]; [lia|]. rewrite Nat.sub_0_r in HG1.
  destruct (K2 hi HG1 ltac:(lia) Hb Hu) as [V _ D]. specialize (D _ Hblob).
  destruct S2 as (_ & _ & G2). destruct (G2 hi HG1) as [HG2 HL]; [lia|].
  destruct (lt_job _ _ HL id row Hrow) as (row2 & Hrow2 & He). exists (0 + k2 + k3)%nat, row2, (now_of (st_w s2)).
  apply record_tx_ok in Er as (_ & _ & _ & _ & _ & ->). split; [done|]. split; [done|]. split; [done|]. rewrite (ev_run _ _ He).
  split; [done|]. split; [done|]. split; [|done]. unfold art_at. simpl. apply recorded_row. unfold is_artifact. by rewrite !bool_decide_true.
Qed.
End download.

(** C16: What an upload stored is what a download returns.  Let an upload be answered 201,
    with anything happening on the server while its body streams in.  Then the body had
    exactly the announced length and was read without error.  And whatever happens
    afterwards (any requests, submissions, monitor passes, store failures; ids are new and,
    like those of the jobs that are there, have no slash), provided no other upload to the
    same job, attempt and path is made meanwhile or later, an authorised GET of that
    artifact whose read of the store does not fail answers 200 with exactly those bytes, the
    announced length, the recorded content type and, as ETag, the SHA-256 of the bytes; also
    once the attempt has ended or the job runs again. *)
Theorem uploaded_artifact_is_served {B F : Type} `{Store : BlobStore B F} srv (rq : Request F) (s : State B) meanwhile es hi a resp s1 :
  let id := PathValue rq "id" in let path := PathValue rq "path" in
  Good hi s → (∀ n, w_rand (st_w s) n < 256)%N → unslashed_jobs (w_db (st_w s)) →
  rq_Endpoint rq = EApi HUploadArtifact → ParseInt (PathValue rq "attempt") = Some a →
  forallb (spares id path a) (meanwhile ++ es) = true →
  ServeHTTP srv (history srv meanwhile) rq s = (resp, s1) → rp_Status resp = 201 →
  (w_rands (st_w (history srv es s1)) ≤ w_rands (st_w s) + 8 * hi)%nat →
  Z.of_nat (length (bd_bytes (rq_Body rq))) = rq_ContentLength rq ∧ bd_err (rq_Body rq) = None ∧
  ∀ get during, asks_for srv get id path a →
    let answer := (ServeHTTP srv during get (history srv es s1)).1 in
    rp_Status answer = 200 ∧ rp_Body answer = PBytes (bd_bytes (rq_Body rq)) ∧
    ∃ rid, rp_Headers answer = [("X-Request-ID", rid); ("Content-Type", upload_type rq);
      ("Content-Length", Itoa (rq_ContentLength rq));
      ("ETag", quoted (hex_encode (cd_sha256 (sv_codecs srv) (bd_bytes (rq_Body rq)))))].
Proof.
  intros id path HG Hb Hu Hep Hatt Hsp E H201 Hle. rewrite forallb_app in Hsp. apply andb_true_iff in Hsp as [Hsp1 Hsp2].
  unfold ServeHTTP in E. destruct (request_id rq s) as [rid s0] eqn:Eid.
  destruct (keep_request_id "" "" "" 0 _ _ _ _ Eid) as (k0 & (Er0 & Ek0 & H0) & K0).
  unfold mux in E. rewrite Hep in E. unfold requireToken in E. destruct (authorized srv rq); [|injection E as <- <-; discriminate H201].
  cbn [handle] in E. destruct (handleUploadArtifact srv rid (history srv meanwhile) rq s0) as [[r|r] s1'] eqn:Eu.
  { apply upload_refused in Eu. by injection E as <- <-. }
  assert (s1' = s1) as -> by (by injection E). clear E.
  destruct (step_history srv es s1) as (k3 & _ & Ek3 & _).
  assert (∃ k, w_rands (st_w s1) = (w_rands (st_w s0) + 8 * k)%nat) as [k1 Ek1].
  { destruct (step_handle srv rid (history srv meanwhile) HUploadArtifact rq) with s0 as (k & _ & Ek & _);
      [intros s2; apply step_history|]. cbn [handle] in Ek. rewrite Eu in Ek. by exists k. }
  destruct (H0 hi HG) as [HG0 _]; [lia|]. destruct (K0 hi HG ltac:(lia) Hb Hu) as [Hu0 _ _].
  destruct (upload_stored srv rid rq s0 meanwhile (hi - k0) a r s1) as (Ha & Hlen & Herr & k & row & now & S1 & Hu1 & Hrow & U1 & U2 & Hx & Hd); try done.
  { by rewrite Er0. }
  { lia. }
  split; [done|]. split; [done|]. intros get during Hget.
  destruct S1 as (Er1 & Ek & H1). assert (k = k1) as -> by lia. destruct (H1 _ HG0) as [HG1 _]; [lia|].
  destruct (keep_history srv (jr_run_id row) id path a U2 U1 es Hsp2 s1) as (k3' & (_ & Ek3' & H3) & K3). assert (k3' = k3) as -> by lia.
  destruct (K3 _ HG1 ltac:(lia) ltac:(by rewrite Er1, Er0) Hu1) as [_ Hx3 Hd3]. destruct (H3 _ HG1) as [_ HL]; [lia|].
  destruct (lt_job _ _ HL id row Hrow) as (row3 & Hrow3 & He). specialize (Hd3 _ Hd). rewrite <-(ev_run _ _ He) in Hd3.
  exact (artifact_answer srv during get _ id path a row3 _ _ Hget (uo_pos _ _ Ha) (uo_path _ _ Ha) Hrow3 (eq_trans Hx3 Hx) Hd3).
Qed.

(** ** A trip *)

(** After the upload its job finishes, another artifact is uploaded while a run is
    submitted and the monitor passes, and the job's run is cancelled. *)
Definition evening : list (Event (F := Faults)) :=
  [ Serve (demo_rq (EApi HUploadArtifact) bearer (<["id" := "j1"]> (<["attempt" := "1"]> {["path" := "out/other.txt"]})) ∅ [1%N])
      [Serve post_run []];
    Serve (demo_rq (EApi HComplete) bearer {["id" := "j1"]} ∅ []) [];
    Monitors [TickerFires false; ContextEnds];
    Serve (demo_rq (EApi HCancelRun) bearer {["id" := "r1"]} ∅ []) [] ].
Definition trip_world : State LocalStore.Store := mkState (mkWorld demo_db demo_clock 0 (λ n, N.of_nat n mod 256)%N 0 no_metrics) demo_store.
Definition download_rq : Request Faults := mkRequest (EApi HGetArtifact) bearer (<["id" := "j1"]> {["path" := "out/log.txt"]})
  {["attempt" := "01"]} 0 (mkBody [] None) no_faults no_faults.

Lemma trip_world_good : Good 30 trip_world.
Proof.
  destruct (ids_new_ok 30 (st_w trip_world)) as [H1 H2]; [vm_compute; reflexivity|].
  split; [apply demo_inv|apply demo_acyclic|apply demo_clock_pos|apply demo_wf|exact H1|exact H2].
Qed.

Lemma uploaded_artifact_is_served_witness :
  let s1 := (ServeHTTP day_srv (history day_srv []) (j1_upload [7%N; 8%N]) trip_world).2 in
  rp_Body (ServeHTTP day_srv (λ s, s) download_rq (history day_srv evening s1)).1 = PBytes [7%N; 8%N].
Proof.
  cbv zeta. destruct (ServeHTTP day_srv (history day_srv []) (j1_upload [7%N; 8%N]) trip_world) as [resp s1] eqn:E.
  assert (Es1 : s1 = (ServeHTTP day_srv (history day_srv []) (j1_upload [7%N; 8%N]) trip_world).2) by (by rewrite E).
  assert (Er : resp = (ServeHTTP day_srv (history day_srv []) (j1_upload [7%N; 8%N]) trip_world).1) by (by rewrite E).
  destruct (uploaded_artifact_is_served day_srv (j1_upload [7%N; 8%N]) trip_world [] evening 30 1 resp s1) as (_ & _ & H).
  - apply trip_world_good.
  - intros n. simpl. by apply N.mod_lt.
  - apply (bool_decide_eq_true_1 (unslashed_jobs (w_db (st_w trip_world)))). vm_compute. reflexivity.
  - reflexivity.
  - vm_compute. reflexivity.
  - vm_compute. reflexivity.
  - exact E.
  - rewrite Er. vm_compute. reflexivity.
  - rewrite Es1. vm_compute. lia.
  - refine (proj1 (proj2 (H download_rq (λ s, s) _))). split; vm_compute; reflexivity.
Defined.
