(* ===== verification/SourceTrip.v ===== *)
(** * The source bundle, from the submission to the runner

    The client of the runner fetches the source of a run over a network that loses
    requests and replies, breaks bodies off, answers 502 in the server's place or sees the
    job's context end, while anything happens on the server.  It gets the bytes that were
    submitted with the run, or an error that names its cause. *)

From S2P Require Import Prelude GoLib Pipeline Types Store Scheduler Protocol Advance Consistency Refinement Ops Monitor Demo Submit Artifact LocalStore LocalSpec Api ApiSpec ApiExamples Router Client ClientSpec EndToEnd Serving.
From Stdlib Require Import Ascii.

Local Open Scope Z_scope.

(** The ids the server draws need no escaping. *)
Lemma hex_digit_plain n : (n < 16)%N → shouldEscape (hex_digit n) = false.
Proof.
  intros Hn. assert (Hall : forallb (λ k, negb (shouldEscape (hex_digit (N.of_nat k)))) (seq 0 16) = true) by (vm_compute; reflexivity).
  rewrite forallb_forall in Hall. specialize (Hall (N.to_nat n) ltac:(apply in_seq; lia)). by rewrite N2Nat.id, negb_true_iff in Hall.
Qed.
Lemma hex_plain b : Forall (λ x, x < 256)%N b → PathEscape (hex_encode b) = hex_encode b.
Proof.
  induction 1 as [|x b Hx _ IH]; [done|]. cbn [hex_encode PathEscape].
  rewrite hex_digit_plain by (by apply N.Div0.div_lt_upper_bound). rewrite hex_digit_plain by (by apply N.mod_lt). by rewrite IH.
Qed.
Lemma draw_url_safe w i : (∀ n, w_rand w n < 256)%N → url_safe (draw w i).
Proof.
  intros Hb. unfold draw, gen_id. split; [apply hex_plain, Forall_fmap, Forall_forall; intros x _; apply Hb|].
  cbn [seq fmap list_fmap hex_encode]. split_and!; by intros [=].
Qed.

(** ** The road *)

Section road.
Context {B F : Type} `{Store : BlobStore B F}.
Context (srv : Server) (base : string) (enc : Payload → list N).

(** What happens to one exchange, after the events of the server before it. *)
Inductive Weather :=
  | Delivered (es : list (Event (F := F)))
  | RequestLost (es : list (Event (F := F)))
  | ReplyLost (es : list (Event (F := F)))
  | BodyCut (es : list (Event (F := F))) (n : nat)
  | Gateway (es : list (Event (F := F)))
  | ContextGone.
Record Road := mkRoad { rd_st : State B; rd_script : list Weather; rd_ended : bool }.

Definition cut (n : nat) (rep : HttpReply) : HttpReply :=
  match rep with Reply st b k => Reply st (mkBody (take n (bd_bytes b)) (Some ReadFailed)) k | _ => rep end.

Definition road_do (_ : unit) (rq : HttpRequest) (v : Road) : HttpReply * Road :=
  if rd_ended v then (NoReply, v)
  else
    let deliver es rest := let '(rep, st) := serve srv base enc rq (history srv es (rd_st v)) in (rep, mkRoad st rest false) in
    match rd_script v with
    | [] => deliver [] []
    | Delivered es :: rest => deliver es rest
    | RequestLost es :: rest => (NoReply, mkRoad (history srv es (rd_st v)) rest false)
    | ReplyLost es :: rest => (NoReply, (deliver es rest).2)
    | BodyCut es n :: rest => let '(rep, v') := deliver es rest in (cut n rep, v')
    | Gateway es :: rest => (Reply 502 (mkBody [] None) 0, mkRoad (history srv es (rd_st v)) rest false)
    | ContextGone :: rest => (NoReply, mkRoad (rd_st v) rest true)
    end.

#[local] Instance road_net : Net unit Road := {
  ctx_Err := λ _ v, rd_ended v;
  http_Do := road_do;
  timer := λ _ _ v, (negb (rd_ended v), v);
  open_file := λ _ _, None;
  local_op := λ _ v, (true, v)
}.

(** The runner has the server's address and token, and bytes travel as they are. *)
Record at_home (c : client) (data : list N) : Prop := {
  ho_base : cl_base c = base;
  ho_token : cl_token c = sv_token srv;
  ho_secret : sv_token srv ≠ "";
  ho_bytes : enc (PBytes data) = data
}.
Definition Stored (id : string) (data : list N) (s : State B) : Prop :=
  is_Some (run_at (w_db (st_w s)) id) ∧ blob_at (st_blob s) (SourceKey id) = Some data.

Lemma Stored_later id data s s' : Later s s' → Stored id data s → Stored id data s'.
Proof.
  intros HL [Hr Hd]. split; [|by apply (lt_source _ _ HL)]. destruct Hr as [x Hx]. by destruct (lt_run _ _ HL _ _ Hx) as (x' & -> & _).
Qed.

Context (c : client) (id : string) (data : list N) (Hc : at_home c data) (Hid : url_safe id).
Definition source_rq : HttpRequest := mkHttpRequest "GET" (cl_base c +:+ sourceURL id) ("Bearer " +:+ cl_token c) "" 0 [].

(** One delivery. *)
Lemma serve_source s : ∃ status body k s', serve srv base enc source_rq s = (Reply status body k, s') ∧
  (∃ j, step_from s s' j) ∧ (Stored id data s → status = 200 ∧ body = mkBody data None).
Proof.
  destruct Hc. unfold serve, source_rq. simpl. rewrite ho_base0, CutPrefix_base.
  rewrite Cut_none by (unfold sourceURL; destruct Hid as [<- _]; by rewrite !ContainsByte_app, PathEscape_no_query).
  rewrite (route_sourceURL id Hid). set (rq := to_request _ _ _ _).
  pose proof (step_serve srv alone rq s ltac:(intros s0; exists 0%nat; apply step_from_refl)) as Hstep.
  destruct (ServeHTTP srv alone rq s) as [resp s'] eqn:E. eexists _, _, _, _. split; [done|]. split; [done|].
  intros [Hr Hd]. destruct (source_answer srv alone rq s id data) as [H1 H2]; try done.
  - unfold authorized, Header. simpl. simplify_map_eq. rewrite ho_token0, (proj2 (CutPrefix_app _ _ (sv_token srv)) eq_refl).
    by rewrite bool_decide_false, bool_decide_true.
  - rewrite E in H1, H2. simpl in H1, H2. by rewrite H1, H2, ho_bytes0.
Qed.

(** One exchange: what the client may hear, and that an exchange without trouble ahead is answered. *)
Lemma road_exchange v rep v' : rd_ended v = false → road_do tt source_rq v = (rep, v') →
  rd_script v' = tail (rd_script v) ∧ (rd_ended v' = true → ContextGone ∈ rd_script v) ∧ (rep = NoReply → rd_script v ≠ []) ∧
  (∀ st b k, rep = Reply st b k → rd_ended v' = false ∧ (is_Some (bd_err b) → rd_script v ≠ [])) ∧ rep ≠ BadURL ∧
  ∃ j, step_from (rd_st v) (rd_st v') j ∧ ∀ hi, Good hi (rd_st v) → (j ≤ hi)%nat → Stored id data (rd_st v) →
    rep = NoReply ∨ (∃ k, rep = Reply 200 (mkBody data None) k) ∨ (∃ b k, rep = Reply 200 b k ∧ is_Some (bd_err b)) ∨
    ((∃ k, rep = Reply 502 (mkBody [] None) k) ∧ ∃ es, Gateway es ∈ rd_script v).
Proof.
  intros He. unfold road_do. rewrite He.
  assert (Hd : ∀ es rest, ∃ status body k s' j, (let '(rep, st) := serve srv base enc source_rq (history srv es (rd_st v)) in (rep, mkRoad st rest false)) =
      (Reply status body k, mkRoad s' rest false) ∧ step_from (rd_st v) s' j ∧
      (∀ hi, Good hi (rd_st v) → (j ≤ hi)%nat → Stored id data (rd_st v) → status = 200 ∧ body = mkBody data None) ∧ bd_err body = None).
  { intros es rest. destruct (step_history srv es (rd_st v)) as [j1 Hj1].
    destruct (serve_source (history srv es (rd_st v))) as (status & body & k & s' & E & [j2 Hj2] & Hst).
    exists status, body, k, s', (j1 + j2)%nat. rewrite E. split; [done|]. split; [by eapply step_from_trans|]. split.
    - intros hi HG Hle HS. apply Hst. destruct Hj1 as (_ & _ & Hj1). eapply Stored_later; [|exact HS]. apply (Hj1 hi HG). lia.
    - unfold serve, source_rq in E. repeat case_match; by simplify_eq. }
  assert (Hh : ∀ es, ∃ j, step_from (rd_st v) (history srv es (rd_st v)) j) by (intros; apply step_history).
  destruct (rd_script v) as [|[es|es|es|es n|es|] rest] eqn:Es.
  - destruct (Hd [] []) as (status & body & k & s' & j & -> & Hj & HG & Hb). intros [= <- <-]. simpl. split_and!; try done.
    { intros ? ? ? [= <- <- <-]. split; [done|]. rewrite Hb. by intros [? ?]. }
    exists j. split; [done|]. intros hi H1 H2 H3. destruct (HG hi H1 H2 H3) as [-> ->]. right. left. by exists k.
  - destruct (Hd es rest) as (status & body & k & s' & j & -> & Hj & HG & Hb). intros [= <- <-]. simpl. split_and!; try done.
    exists j. split; [done|]. intros hi H1 H2 H3. destruct (HG hi H1 H2 H3) as [-> ->]. right. left. by exists k.
  - intros [= <- <-]. simpl. split_and!; try done. destruct (Hh es) as [j Hj]. exists j. split; [done|]. by left.
  - destruct (Hd es rest) as (status & body & k & s' & j & -> & Hj & HG & Hb). intros [= <- <-]. simpl. split_and!; try done.
    exists j. split; [done|]. by left.
  - destruct (Hd es rest) as (status & body & k & s' & j & -> & Hj & HG & Hb). intros [= <- <-]. simpl. split_and!; try done.
    exists j. split; [done|]. intros hi H1 H2 H3. destruct (HG hi H1 H2 H3) as [-> ->]. right. right. left. by eexists _, _.
  - intros [= <- <-]. simpl. split_and!; try done. destruct (Hh es) as [j Hj]. exists j. split; [done|]. intros _ _ _ _. right. right. right.
    split; [by eexists|]. exists es. by left.
  - intros [= <- <-]. simpl. split_and!; try done; [intros _; by left|]. exists 0%nat. split; [apply step_from_refl|]. by left.
Qed.

(** What one round of [source] makes of a reply. *)
Definition heard (rep : HttpReply) : CErr + option (list N) :=
  match rep with
  | BadURL => inl (ELocal "url")
  | NoReply => inl EConn
  | Reply st b _ => if bool_decide (st = 200) then match ReadAll b with inl _ => inl EConn | inr d => inr (Some d) end
                    else if bool_decide (st = 404) then inr None
                    else inl (EStatus st (TrimSpace (bytes_to_string (bd_bytes (LimitReader b (Z.shiftl 1 20))))))
  end.
Lemma round_spec v : rd_ended v = false → ∃ r v', source_round c tt id v = Some (r, v') ∧
  rd_script v' = tail (rd_script v) ∧ (rd_ended v' = true → ContextGone ∈ rd_script v) ∧
  (∀ e, r = inl e → is_conn e = true → rd_script v ≠ []) ∧
  ∃ j, step_from (rd_st v) (rd_st v') j ∧ ∀ hi, Good hi (rd_st v) → (j ≤ hi)%nat → Stored id data (rd_st v) →
    r = inr (Some data) ∨ r = inl EConn ∨ (∃ b, r = inl (EStatus 502 b)) ∧ ∃ es, Gateway es ∈ rd_script v.
Proof.
  intros He. destruct (road_do tt source_rq v) as [rep v'] eqn:E.
  destruct (road_exchange v rep v' He E) as (Hscr & Hend & Hno & Hrep & Hurl & j & Hj & HG).
  assert (Heq : source_round c tt id v = Some (heard rep, v')).
  { unfold source_round, local, sourceOnce, lift, mbind, Cm_bind. simpl. fold source_rq. rewrite E.
    destruct rep as [| |st b k]; try done. simpl. destruct (decide (st = 200)) as [->|H2]; [simpl; by destruct (ReadAll b)|].
    rewrite (bool_decide_false (st = 200)) by done. destruct (decide (st = 404)) as [->|H4]; [done|]. by rewrite (bool_decide_false (st = 404)) by done. }
  exists (heard rep), v'. split; [done|]. clear Heq. refine (conj Hscr (conj Hend _)). destruct rep as [| |st b k]; [done|..].
  - split; [intros _ _ _; by apply Hno|].
    exists j. split; [done|]. intros. right. by left.
  - destruct (Hrep st b k eq_refl) as [Hlive Hcut]. assert (Hread : is_Some (bd_err b) ∨ ReadAll b = inr (bd_bytes b)).
    { unfold ReadAll. destruct (bd_err b); [by left|by right]. }
    split.
    + intros e E1 E2. destruct Hread as [Hb|Hb]; [by apply Hcut|]. simpl in E1. rewrite Hb in E1. repeat case_bool_decide; simplify_eq; done.
    + exists j. split; [done|]. intros hi H1 H2 H3. destruct (HG hi H1 H2 H3) as [?|[[k' [= -> -> ->]]|[(b' & k' & [= -> -> ->] & Hb)|[[k' [= -> -> ->]] Hg]]]]; [done|..].
      * by left.
      * right. left. simpl. unfold ReadAll. by destruct Hb as [x ->].
      * right. right. split; [|done]. by eexists.
Qed.

(** How the fetch may end, over the exchanges [all]. *)
Definition fetched (all : list Weather) (r : CErr + option (list N)) : Prop :=
  r = inr (Some data) ∨ (r = inl ECtx ∧ ContextGone ∈ all) ∨ ((∃ b, r = inl (EStatus 502 b)) ∧ ∃ es, Gateway es ∈ all).

Lemma loop_spec all k : ∀ d v, (length (rd_script v) < k)%nat → rd_script v ⊆ all → (rd_ended v = true → ContextGone ∈ all) →
  ∃ r v', reconnect_loop k tt d (source_round c tt id) v = Some (r, v') ∧
  ∃ j, step_from (rd_st v) (rd_st v') j ∧ ∀ hi, Good hi (rd_st v) → (j ≤ hi)%nat → Stored id data (rd_st v) → fetched all r.
Proof.
  induction k as [|k IH]; intros d v Hlen Hall Hend; [lia|]. cbn [reconnect_loop ctx_Err road_net].
  destruct (rd_ended v) eqn:He.
  { exists (inl ECtx), v. split; [done|]. exists 0%nat. split; [apply step_from_refl|]. intros. right. left. auto. }
  destruct (round_spec v He) as (r & v1 & -> & Hscr & Hend1 & Hconn & j & Hj & HG).
  assert (Hdone : (∀ e, r = inl e → is_conn e = false) → ∃ r' v', Some (r, v1) = Some (r', v') ∧
    ∃ j, step_from (rd_st v) (rd_st v') j ∧ ∀ hi, Good hi (rd_st v) → (j ≤ hi)%nat → Stored id data (rd_st v) → fetched all r').
  { intros Hr. exists r, v1. split; [done|]. exists j. split; [done|]. intros hi H1 H2 H3.
    destruct (HG hi H1 H2 H3) as [->|[->|[Hb [es Hes]]]]; [by left|by specialize (Hr _ eq_refl)|]. right. right. split; [done|]. exists es. by apply Hall. }
  destruct r as [e|a]; [|by apply Hdone]. destruct (is_conn e) eqn:Ec; [|apply Hdone; by intros ? [= <-]].
  specialize (Hconn e eq_refl Ec). simpl. destruct (rd_ended v1) eqn:He1; simpl.
  - exists (inl ECtx), v1. split; [done|]. exists j. split; [done|]. intros. right. left. split; [done|]. apply Hall. by apply Hend1.
  - destruct (rd_script v) as [|x rest] eqn:Es; [done|]. simpl in Hscr.
    destruct (IH (Z.min (d * 2) maxCompleteBackoff) v1) as (r' & v2 & E2 & j2 & Hj2 & HG2).
    + rewrite Hscr. simpl in Hlen. lia.
    + rewrite Hscr. set_solver.
    + rewrite He1. done.
    + exists r', v2. split; [done|]. exists (j + j2)%nat. split; [by eapply step_from_trans|]. intros hi H1 H2 H3.
      destruct Hj as (_ & _ & Hj). destruct (Hj hi H1) as [Hg1 HL]; [lia|]. apply (HG2 (hi - j)%nat Hg1); [lia|]. by eapply Stored_later.
Qed.

Lemma source_spec fuel v : (length (rd_script v) < fuel)%nat → rd_ended v = false →
  ∃ r v', source fuel c tt id v = Some (r, v') ∧
  ∃ j, step_from (rd_st v) (rd_st v') j ∧ ∀ hi, Good hi (rd_st v) → (j ≤ hi)%nat → Stored id data (rd_st v) → fetched (rd_script v) r.
Proof.
  intros Hlen He. destruct (loop_spec (rd_script v) fuel (Z.min (if bool_decide (cl_backoff c <= 0) then DefaultCompleteBackoff else cl_backoff c) maxCompleteBackoff) v Hlen)
    as (r & v' & E & Hj); [done|by rewrite He|].
  exists r, v'. split; [|done]. unfold source, local, lift, reconnect. unfold mbind, Cm_bind. simpl. rewrite E. by destruct r as [e|[d|]].
Qed.
End road.


(** ** A trip *)

Definition trip_state : State LocalStore.Store := mkState (mkWorld demo_db demo_clock 0 (λ n, N.of_nat n mod 256)%N 0 no_metrics) demo_store.
Definition raw_bytes (p : Payload) : list N := match p with PBytes d => d | _ => [] end.
Definition stormy : list (Weather (F := Faults)) := [RequestLost []; BodyCut day 0; ReplyLost []; Delivered [Serve post_run []]].

Lemma trip_good : Good 30 trip_state.
Proof.
  destruct (ids_new_ok 30 (st_w trip_state)) as [H1 H2]; [vm_compute; reflexivity|].
  split; [apply demo_inv|apply demo_acyclic|apply demo_clock_pos|apply demo_wf|exact H1|exact H2].
Qed.

