(* ===== verification/Agent.v ===== *)
(** * internal/agent/agent.go: the runner

    The calls that retry (register, uploads, log batches, reports) are functions over
    the client's world.  The goroutines (the poll loop, the heartbeat, one per claimed
    attempt) are the events of a transition function over the agent's shared state,
    one event per critical section, call or channel operation; each attempt carries
    its contexts and its log shipper, whose own events are lifted. *)

From S2P Require Import Prelude GoLib Pipeline Artifact Api Router Client Logship.

Local Open Scope Z_scope.

Definition DefaultPollInterval : Z := Second.
Definition DefaultHeartbeatInterval : Z := 5 * Second.
Definition DefaultCapacity : Z := 2.
Definition DefaultCompleteRetries : Z := 8.
Definition DefaultLogFlushTimeout : Z := 30 * Second.

Definition statusSucceeded : string := "succeeded".
Definition statusFailed : string := "failed".
Definition kindExitCode : string := "exit_code".
Definition kindTimeout : string := "timeout".
Definition kindInfra : string := "infra".
Definition kindCancelled : string := "cancelled".

(** The fields the agent's logic reads; the logger, the metrics set and the HTTP client
    are not state of the agent. *)
Record AgentConfig := mkAgentConfig {
  ac_ServerURL : string; ac_Token : string; ac_Name : string; ac_Labels : gmap string string; ac_Capacity : Z;
  ac_Version : string; ac_PollInterval : Z; ac_HeartbeatInterval : Z; ac_CompleteRetries : Z; ac_CompleteBackoff : Z;
  ac_LogFlushInterval : Z; ac_LogFlushBytes : Z; ac_LogFlushTimeout : Z }.

(** [New]: [None] is its error; the executor is present. *)
Definition agent_defaults (cfg : AgentConfig) : AgentConfig :=
  let pos v d := if bool_decide (v <= 0) then d else v in
  mkAgentConfig (ac_ServerURL cfg) (ac_Token cfg) (ac_Name cfg) (ac_Labels cfg) (pos (ac_Capacity cfg) DefaultCapacity)
    (ac_Version cfg) (pos (ac_PollInterval cfg) DefaultPollInterval) (pos (ac_HeartbeatInterval cfg) DefaultHeartbeatInterval)
    (pos (ac_CompleteRetries cfg) DefaultCompleteRetries)
    (Z.min (pos (ac_CompleteBackoff cfg) DefaultCompleteBackoff) maxCompleteBackoff)
    (ac_LogFlushInterval cfg) (ac_LogFlushBytes cfg) (pos (ac_LogFlushTimeout cfg) DefaultLogFlushTimeout).
Definition NewAgent (cfg : AgentConfig) : option AgentConfig :=
  if bool_decide (ac_ServerURL cfg = "") || bool_decide (ac_Name cfg = "") then None else Some (agent_defaults cfg).
Definition agent_client (cfg : AgentConfig) : client := mkClient (ac_ServerURL cfg) (ac_Token cfg) (ac_CompleteBackoff cfg).

(** ** Calls that retry *)

Section calls.
Context {C V : Type} `{Net C V} (wire : Wire) (fuel : nat) (cfg : AgentConfig).
Let cl := agent_client cfg.

(** [register]: a 4xx is final, anything else is retried until the context ends. *)
Fixpoint register_loop (k : nat) (ctx : C) (backoff : Z) : Cm (V := V) string := λ n,
  match k with
  | O => None
  | S k' =>
      match register wire fuel cl ctx (mkWRegister (ac_Name cfg) (ac_Labels cfg) (ac_Capacity cfg)) n with
      | None => None
      | Some (inr id, n1) => Some (inr id, n1)
      | Some (inl e, n1) =>
          if final_status e then Some (inl (EWrap "register" e), n1)
          else if ctx_Err ctx n1 then Some (inl ECtx, n1)
          else let '(fired, n2) := timer ctx backoff n1 in
               if fired then register_loop k' ctx (Z.min (backoff * 2) maxCompleteBackoff) n2 else Some (inl ECtx, n2)
      end
  end.
Definition agent_register (ctx : C) : Cm (V := V) string := register_loop fuel ctx (ac_CompleteBackoff cfg).

(** The retry loop of one upload; [i] tries are done.  The error that ends it is kept. *)
Fixpoint upload_loop (left : nat) (ctx : C) (job : claimedJob) (path file : string) (i backoff : Z) : Cm (V := V) unit := λ n,
  match uploadArtifact wire fuel cl ctx (cj_ID job) (cj_Attempt job) path file n with
  | None => None
  | Some (inr tt, n1) => Some (inr tt, n1)
  | Some (inl e, n1) =>
      if is_fenced e || final_status e || ctx_Err ctx n1 || bool_decide (i + 1 >= ac_CompleteRetries cfg) then Some (inl e, n1)
      else let '(fired, n2) := timer ctx backoff n1 in
           if negb fired then Some (inl e, n2)
           else match left with
                | O => None
                | S left' => upload_loop left' ctx job path file (i + 1) (Z.min (backoff * 2) maxCompleteBackoff) n2
                end
  end.

(** What WalkDir visits: the slash path under the directory, the file, whether it is
    regular, and the size Info reports, if it does. *)
Record DirEntry := mkDirEntry { de_path : string; de_file : string; de_regular : bool; de_size : option Z }.

Definition uploaded_line (path : string) (size : Z) : list N :=
  bytes_of ("[quarry] uploaded artifact " +:+ path +:+ " (" +:+ Itoa size +:+ " bytes)" +:+ String (chr 10) "").

(** [uploadArtifacts]: the entries in the order of the walk, an entry the walk could not
    read as an error; the log lines written so far are returned in every case. *)
Fixpoint uploadArtifacts (ctx : C) (job : claimedJob) (entries : list (CErr + DirEntry)) (logs : list (list N)) (n : V) :
    option ((CErr + unit) * list (list N) * V) :=
  match entries with
  | [] => Some (inr tt, logs, n)
  | inl e :: _ => Some (inl e, logs, n)
  | inr d :: rest =>
      if negb (de_regular d) then uploadArtifacts ctx job rest logs n
      else match upload_loop (Z.to_nat (ac_CompleteRetries cfg)) ctx job (de_path d) (de_file d) 0 (ac_CompleteBackoff cfg) n with
           | None => None
           | Some (inl e, n1) => Some (inl (EWrap (de_path d) e), logs, n1)
           | Some (inr tt, n1) =>
               let logs' := match de_size d with Some sz => logs ++ [uploaded_line (de_path d) sz] | None => logs end in
               uploadArtifacts ctx job rest logs' n1
           end
  end.

(** [logSink]: one POST per batch, and what the shipper makes of the answer. *)
Definition logSink (ctx : C) (runnerID : string) (job : claimedJob) (chunks : list Chunk) : Cm (V := V) unit :=
  logs wire cl ctx (cj_ID job)
    (mkWLogs runnerID (cj_Attempt job) ((λ k, mkWLogChunk (k_Seq k) (k_Data k)) <$> chunks)).

(** [report]. *)
Definition report (ctx : C) (runnerID : string) (job : claimedJob) (req : wire_completeRequest) : Cm (V := V) unit :=
  completeWithRetry wire fuel cl ctx (cj_ID job)
    (mkWComplete runnerID (cj_Attempt job) (wp_Status req) (wp_FailureKind req) (wp_ExitCode req) (wp_Error req))
    (ac_CompleteRetries cfg) (ac_CompleteBackoff cfg).
End calls.

(** ** One attempt *)

(** errTimeout, errCancelled and errAbort; [CParent] is context.Canceled, which the
    cancellation of Run's own context leaves as the cause. *)
Inductive Cause := CTimeout | CCancelled | CAbort | CParent.
#[export] Instance Cause_eq_dec : EqDecision Cause.
Proof. solve_decision. Defined.
Definition cause_text (c : Cause) : string :=
  match c with
  | CTimeout => "job timed out"
  | CCancelled => "job cancelled by user"
  | CAbort => "attempt aborted by server"
  | CParent => "context canceled"
  end.
Definition errShutdown_text : string := "runner shutting down".

Record ExecResult := mkExecResult { er_ExitCode : Z; er_OOMKilled : bool; er_Duration : Z }.

(** The error of an attempt: the executor's, or an upload's. *)
Inductive AErr := ExecErr (msg : string) | UploadErr (e : CErr).

Definition attemptKey : Type := string * Z.
Definition key_of (j : claimedJob) : attemptKey := (cj_ID j, cj_Attempt j).

(** Where an attempt's goroutine is. *)
Inductive APC :=
  | ASpawned                                   (* before the attempt is in active *)
  | AActive                                    (* before its spec is decoded *)
  | AExec                                      (* in exec.Run *)
  | AUpload (res : ExecResult)                 (* in uploadArtifacts *)
  | AVerdict (err : option AErr) (res : ExecResult)   (* before the cause is read *)
  | AFlush (err : option AErr) (res : ExecResult) (cause : option Cause) (aborted : bool)   (* in shipper.Close *)
  | AReport (req : wire_completeRequest)       (* in report *)
  | AReturned                                  (* the deferred calls are left *)
  | ARelease.                                  (* the slot is left to return *)

(** An attempt: its job, its spec once decoded, the causes of jctx and ectx, and the
    system of its shipper once it has been started. *)
Record Task := mkTask {
  t_job : claimedJob;
  t_pc : APC;
  t_spec : option PJob;
  t_jcause : option Cause;
  t_ecause : option Cause;
  t_ship : option Sys
}.
#[export] Instance set_t_pc : Setter t_pc := λ v t, mkTask (t_job t) v (t_spec t) (t_jcause t) (t_ecause t) (t_ship t).
#[export] Instance set_t_spec : Setter t_spec := λ v t, mkTask (t_job t) (t_pc t) v (t_jcause t) (t_ecause t) (t_ship t).
#[export] Instance set_t_jcause : Setter t_jcause := λ v t, mkTask (t_job t) (t_pc t) (t_spec t) v (t_ecause t) (t_ship t).
#[export] Instance set_t_ecause : Setter t_ecause := λ v t, mkTask (t_job t) (t_pc t) (t_spec t) (t_jcause t) v (t_ship t).
#[export] Instance set_t_ship : Setter t_ship := λ v t, mkTask (t_job t) (t_pc t) (t_spec t) (t_jcause t) (t_ecause t) v.

(** The first cause stands. *)
Definition set_cause (old : option Cause) (c : Cause) : option Cause := match old with None => Some c | _ => old end.
(** Cancelling jctx cancels its child ectx with the same cause. *)
Definition cancel (c : Cause) (t : Task) : Task :=
  match t_jcause t with
  | Some _ => t
  | None => t <| t_jcause := Some c |> <| t_ecause := set_cause (t_ecause t) c |>
  end.

(** The end of Run's context reaches every jctx that exists. *)
Definition shut_down (t : Task) : Task := match t_pc t with ASpawned => t | _ => cancel CParent t end.

Definition has_artifacts (t : Task) : bool :=
  match t_spec t with Some pj => negb (bool_decide (pj_Artifacts pj = [])) | None => false end.
Definition has_timeout (t : Task) : bool :=
  match t_spec t with Some pj => bool_decide (pj_Timeout pj > 0) | None => false end.

(** The request without the runner's id and attempt, which [report] fills in. *)
Definition failed (kind msg : string) : wire_completeRequest := mkWComplete "" 0 statusFailed kind None msg.

(** The switch that ends runAttempt; [None] is the aborted attempt, and the flag says
    whether an executor error is counted. *)
Definition verdict (error_text : CErr → string) (cause : option Cause) (err : option AErr) (res : ExecResult)
    (aborted ctxDone : bool) : option wire_completeRequest * bool :=
  if bool_decide (cause = Some CTimeout) then (Some (failed kindTimeout (cause_text CTimeout)), false)
  else if bool_decide (cause = Some CCancelled) then (Some (failed kindCancelled (cause_text CCancelled)), false)
  else match err with
       | None =>
           (Some (if bool_decide (er_ExitCode res = 0) then mkWComplete "" 0 statusSucceeded "" None ""
                  else mkWComplete "" 0 statusFailed kindExitCode (Some (er_ExitCode res))
                         ("exit code " +:+ Itoa (er_ExitCode res) +:+ (if er_OOMKilled res then " (out of memory)" else ""))), false)
       | Some e =>
           if aborted then (None, false)
           else if ctxDone then (Some (failed kindInfra errShutdown_text), false)
           else (Some (failed kindInfra match e with ExecErr msg => msg | UploadErr u => "upload artifacts: " +:+ error_text u end), true)
       end.

(** ** The agent *)

Inductive PollPC := PSelect | PClaiming | PWaiting | PStopped.

(** The shared state; the reports made so far are history. *)
Record Agent := mkAgent {
  g_runnerID : string;
  g_poll : PollPC;
  g_ctxDone : bool;              (* Run's context *)
  g_deliveryDone : bool;         (* deliveryCtx *)
  g_sem : nat;                   (* tokens in the semaphore *)
  g_active : gmap attemptKey nat;   (* whose cancel function is registered *)
  g_tasks : gmap nat Task;
  g_nextTask : nat;
  g_ActiveJobs : Z;
  g_ExecutorErrors : Z;
  g_reports : list (nat * wire_completeRequest)
}.
#[export] Instance set_g_poll : Setter g_poll := λ v g, mkAgent (g_runnerID g) v (g_ctxDone g) (g_deliveryDone g) (g_sem g) (g_active g) (g_tasks g) (g_nextTask g) (g_ActiveJobs g) (g_ExecutorErrors g) (g_reports g).
#[export] Instance set_g_ctxDone : Setter g_ctxDone := λ v g, mkAgent (g_runnerID g) (g_poll g) v (g_deliveryDone g) (g_sem g) (g_active g) (g_tasks g) (g_nextTask g) (g_ActiveJobs g) (g_ExecutorErrors g) (g_reports g).
#[export] Instance set_g_deliveryDone : Setter g_deliveryDone := λ v g, mkAgent (g_runnerID g) (g_poll g) (g_ctxDone g) v (g_sem g) (g_active g) (g_tasks g) (g_nextTask g) (g_ActiveJobs g) (g_ExecutorErrors g) (g_reports g).
#[export] Instance set_g_sem : Setter g_sem := λ v g, mkAgent (g_runnerID g) (g_poll g) (g_ctxDone g) (g_deliveryDone g) v (g_active g) (g_tasks g) (g_nextTask g) (g_ActiveJobs g) (g_ExecutorErrors g) (g_reports g).
#[export] Instance set_g_active : Setter g_active := λ v g, mkAgent (g_runnerID g) (g_poll g) (g_ctxDone g) (g_deliveryDone g) (g_sem g) v (g_tasks g) (g_nextTask g) (g_ActiveJobs g) (g_ExecutorErrors g) (g_reports g).
#[export] Instance set_g_tasks : Setter g_tasks := λ v g, mkAgent (g_runnerID g) (g_poll g) (g_ctxDone g) (g_deliveryDone g) (g_sem g) (g_active g) v (g_nextTask g) (g_ActiveJobs g) (g_ExecutorErrors g) (g_reports g).
#[export] Instance set_g_nextTask : Setter g_nextTask := λ v g, mkAgent (g_runnerID g) (g_poll g) (g_ctxDone g) (g_deliveryDone g) (g_sem g) (g_active g) (g_tasks g) v (g_ActiveJobs g) (g_ExecutorErrors g) (g_reports g).
#[export] Instance set_g_ActiveJobs : Setter g_ActiveJobs := λ v g, mkAgent (g_runnerID g) (g_poll g) (g_ctxDone g) (g_deliveryDone g) (g_sem g) (g_active g) (g_tasks g) (g_nextTask g) v (g_ExecutorErrors g) (g_reports g).
#[export] Instance set_g_ExecutorErrors : Setter g_ExecutorErrors := λ v g, mkAgent (g_runnerID g) (g_poll g) (g_ctxDone g) (g_deliveryDone g) (g_sem g) (g_active g) (g_tasks g) (g_nextTask g) (g_ActiveJobs g) v (g_reports g).
#[export] Instance set_g_reports : Setter g_reports := λ v g, mkAgent (g_runnerID g) (g_poll g) (g_ctxDone g) (g_deliveryDone g) (g_sem g) (g_active g) (g_tasks g) (g_nextTask g) (g_ActiveJobs g) (g_ExecutorErrors g) v.

(** Run after register returned the id. *)
Definition run_start (runnerID : string) : Agent := mkAgent runnerID PSelect false false 0 ∅ ∅ 0 0 0 [].

Inductive AgentEvent :=
  | EvShutdown                                 (* Run's context ends *)
  | EvDeliveryEnds                             (* the flush timeout after it *)
  | EvSlot | EvPollStop | EvPollTimer | EvPollWaitEnd
  | EvClaim (r : CErr + option claimedJob)     (* claim returned *)
  | EvRegister (k : nat)                       (* the attempt enters active *)
  | EvSpec (k : nat) (pj : CErr + PJob) (mkdir : option string)   (* spec(), MkdirTemp and the start *)
  | EvTimeout (k : nat)
  | EvDirective (d : wire_directive)                (* one directive of a heartbeat reply *)
  | EvShip (k : nat) (e : ShipEvent)
  | EvExecDone (k : nat) (r : string + ExecResult)
  | EvUploadDone (k : nat) (err : option CErr)
  | EvCause (k : nat)
  | EvClosed (k : nat)                         (* shipper.Close returned *)
  | EvReported (k : nat)
  | EvCleanup (k : nat)
  | EvRelease (k : nat).

Section agent.
Context (cfg : AgentConfig) (error_text : CErr → string).

Definition capacity : nat := Z.to_nat (ac_Capacity cfg).
Definition ship_config : Logship.Config :=
  Logship.mkConfig (ac_LogFlushInterval cfg) (ac_LogFlushBytes cfg) 0 0 0.

Definition set_task (k : nat) (t : Task) (g : Agent) : Agent := g <| g_tasks := <[k := t]> (g_tasks g) |>.
Definition with_task (k : nat) (g : Agent) (f : Task → option Agent) : option Agent := g_tasks g !! k ≫= f.

(** [start]: the goroutine of a claimed attempt, which owns the slot. *)
Definition start_task (job : claimedJob) (g : Agent) : Agent :=
  set_task (g_nextTask g) (mkTask job ASpawned None None None None) g <| g_nextTask := S (g_nextTask g) |>.

(** A report begins: the request that goes out. *)
Definition begin_report (k : nat) (t : Task) (req : wire_completeRequest) (g : Agent) : Agent :=
  let full := mkWComplete (g_runnerID g) (cj_Attempt (t_job t)) (wp_Status req) (wp_FailureKind req) (wp_ExitCode req) (wp_Error req) in
  set_task k (t <| t_pc := AReport full |>) (g <| g_reports := g_reports g ++ [(k, full)] |>).

(** [apply]: directives other than abort and cancel, and for attempts that are not
    active, are ignored. *)
Definition apply (d : wire_directive) (g : Agent) : Agent :=
  let cause := if bool_decide (wd_Directive d = "abort") then Some CAbort
               else if bool_decide (wd_Directive d = "cancel") then Some CCancelled else None in
  match cause, g_active g !! (wd_JobID d, wd_Attempt d) with
  | Some c, Some k => match g_tasks g !! k with Some t => set_task k (cancel c t) g | None => g end
  | _, _ => g
  end.

(** [activeRefs], and the heartbeat that sends them. *)
Definition activeRefs (g : Agent) : list jobRef := (λ '((id, a), _), mkWJobRef id a) <$> map_to_list (g_active g).

(** The shipper's events that the attempt's place allows: writes while the executor runs
    or artifacts are uploaded, Close in the flush, whose context is done when the attempt
    was aborted or delivery has ended. *)
Definition ship_enabled (e : ShipEvent) (pc : APC) (g : Agent) : bool :=
  match e, pc with
  | EWrite _, AExec | EWrite _, AUpload _ => true
  | EWrite _, _ => false
  | EClose, AFlush _ _ _ _ | ECloseStop, AFlush _ _ _ _ => true
  | EClose, _ | ECloseStop, _ => false
  | EClosectx, AFlush _ _ _ aborted => aborted || g_deliveryDone g
  | EClosectx, _ => false
  | _, _ => true
  end.

Definition ship_step (k : nat) (e : ShipEvent) (g : Agent) : option Agent :=
  with_task k g (λ t,
    match t_ship t with
    | None => None
    | Some y =>
        if ship_enabled e (t_pc t) g then
          y' ← next e y;
          let t' := t <| t_ship := Some y' |> in
          (* OnStale *)
          Some (set_task k (if bool_decide (y_stale_calls y < y_stale_calls y')%nat then cancel CAbort t' else t') g)
        else None
    end).

(** [pollLoop]: the slot, the claim and the wait. *)
Definition poll_next (ev : AgentEvent) (g : Agent) : option Agent :=
  match ev with
  | EvSlot =>
      match g_poll g with
      | PSelect => if bool_decide (g_sem g < capacity)%nat then Some (g <| g_sem := S (g_sem g) |> <| g_poll := PClaiming |>) else None
      | _ => None
      end
  | EvPollStop => match g_poll g with PSelect => if g_ctxDone g then Some (g <| g_poll := PStopped |>) else None | _ => None end
  | EvPollTimer => match g_poll g with PWaiting => Some (g <| g_poll := PSelect |>) | _ => None end
  | EvPollWaitEnd => match g_poll g with PWaiting => if g_ctxDone g then Some (g <| g_poll := PStopped |>) else None | _ => None end
  | EvClaim r =>
      match g_poll g with
      | PClaiming =>
          match r with
          | inl _ => Some (g <| g_sem := pred (g_sem g) |> <| g_poll := if g_ctxDone g then PStopped else PWaiting |>)
          | inr (Some job) => Some ((start_task job g) <| g_poll := PSelect |>)
          | inr None => Some (g <| g_sem := pred (g_sem g) |> <| g_poll := PWaiting |>)
          end
      | _ => None
      end
  | _ => None
  end.

(** [heartbeatLoop]: one tick and the reply; an idle runner does not heartbeat. *)
Definition heartbeat_round (reply : CErr + list wire_directive) (g : Agent) : Agent :=
  match activeRefs g, reply with
  | [], _ | _, inl _ => g
  | _, inr ds => foldl (λ g d, apply d g) g ds
  end.

Definition agent_next (ev : AgentEvent) (g : Agent) : option Agent :=
  match ev with
  | EvShutdown => Some (g <| g_ctxDone := true |> <| g_tasks := (shut_down <$> g_tasks g) |>)
  | EvDeliveryEnds => if g_ctxDone g then Some (g <| g_deliveryDone := true |>) else None
  | EvSlot | EvPollStop | EvPollTimer | EvPollWaitEnd | EvClaim _ => poll_next ev g
  | EvRegister k => with_task k g (λ t,
      match t_pc t with
      | ASpawned =>
          let t' := (if g_ctxDone g then cancel CParent t else t) <| t_pc := AActive |> in
          Some ((set_task k t' g) <| g_active := <[key_of (t_job t) := k]> (g_active g) |> <| g_ActiveJobs := g_ActiveJobs g + 1 |>)
      | _ => None
      end)
  | EvSpec k pj mkdir => with_task k g (λ t,
      match t_pc t with
      | AActive =>
          match pj with
          | inl e => Some (begin_report k t (failed kindInfra (error_text e)) g)
          | inr pj =>
              let t1 := t <| t_spec := Some pj |> in
              match mkdir with
              | Some msg => if has_artifacts t1 then Some (begin_report k t1 (failed kindInfra ("artifact dir: " +:+ msg)) g) else None
              | None =>
                  Some (set_task k (t1 <| t_pc := AExec |> <| t_ecause := t_jcause t |> <| t_ship := Some (start ship_config) |>) g)
              end
          end
      | _ => None
      end)
  | EvTimeout k => with_task k g (λ t,
      match t_pc t with
      | AExec | AUpload _ | AVerdict _ _ | AFlush _ _ _ _ | AReport _ =>
          if has_timeout t then Some (set_task k (t <| t_ecause := set_cause (t_ecause t) CTimeout |>) g) else None
      | _ => None
      end)
  | EvDirective d => Some (apply d g)
  | EvShip k e => ship_step k e g
  | EvExecDone k r => with_task k g (λ t,
      match t_pc t with
      | AExec =>
          Some (set_task k (t <| t_pc :=
            match r with
            | inl msg => AVerdict (Some (ExecErr msg)) (mkExecResult 0 false 0)
            | inr res => if bool_decide (er_ExitCode res = 0) && has_artifacts t then AUpload res else AVerdict None res
            end |>) g)
      | _ => None
      end)
  | EvUploadDone k err => with_task k g (λ t,
      match t_pc t with
      | AUpload res =>
          match err with
          | None => Some (set_task k (t <| t_pc := AVerdict None res |>) g)
          | Some e =>
              let t1 := if is_fenced e then cancel CAbort t else t in
              Some (set_task k (t1 <| t_pc := AVerdict (Some (UploadErr e)) res |>) g)
          end
      | _ => None
      end)
  | EvCause k => with_task k g (λ t,
      match t_pc t with
      | AVerdict err res =>
          let aborted := match err with Some _ => true | None => false end && bool_decide (t_ecause t = Some CAbort) in
          Some (set_task k (t <| t_pc := AFlush err res (t_ecause t) aborted |>) g)
      | _ => None
      end)
  | EvClosed k => with_task k g (λ t,
      match t_pc t, t_ship t with
      | AFlush err res cause aborted, Some y =>
          if s_done (y_sh y) then
            let '(req, counted) := verdict error_text cause err res aborted (g_ctxDone g) in
            let g1 := if counted then g <| g_ExecutorErrors := g_ExecutorErrors g + 1 |> else g in
            Some (match req with
                  | Some rq => begin_report k t rq g1
                  | None => set_task k (t <| t_pc := AReturned |>) g1
                  end)
          else None
      | _, _ => None
      end)
  | EvReported k => with_task k g (λ t,
      match t_pc t with AReport _ => Some (set_task k (t <| t_pc := AReturned |>) g) | _ => None end)
  | EvCleanup k => with_task k g (λ t,
      match t_pc t with
      | AReturned =>
          Some ((set_task k (t <| t_pc := ARelease |>) g) <| g_active := delete (key_of (t_job t)) (g_active g) |>
                 <| g_ActiveJobs := g_ActiveJobs g - 1 |>)
      | _ => None
      end)
  | EvRelease k => with_task k g (λ t,
      match t_pc t with
      | ARelease => Some (g <| g_tasks := delete k (g_tasks g) |> <| g_sem := pred (g_sem g) |>)
      | _ => None
      end)
  end.

Fixpoint agent_run (evs : list AgentEvent) (g : Agent) : option Agent :=
  match evs with
  | [] => Some g
  | ev :: evs' => g' ← agent_next ev g; agent_run evs' g'
  end.

(** Run returns when the poll loop has stopped and every attempt has ended. *)
Definition run_returns (g : Agent) : bool :=
  match g_poll g with PStopped => bool_decide (g_tasks g = ∅) | _ => false end.
End agent.
