(* ===== verification/AgentSpec.v ===== *)
(** * Theorems about the runner

    Invariants of every interleaving of the poll loop, the heartbeat and the attempts:
    the capacity is respected, a report follows the last log chunk, success is never
    invented, directives reach only their attempt. *)

From S2P Require Import Prelude GoLib Pipeline Types Store Scheduler Protocol Advance Consistency Refinement Logs Ops InvCheck Demo Artifact Api Router Logship LogshipInv LogshipSpec LogshipServer Client ClientSpec Agent.

Local Open Scope Z_scope.

Section agent.
Context (cfg : AgentConfig) (error_text : CErr → string).

Abbreviation anext := (agent_next cfg error_text).
Abbreviation arun := (agent_run cfg error_text).

(** ** Capacity *)

Definition holding (p : PollPC) : nat := match p with PClaiming => 1 | _ => 0 end.

Record Slots (g : Agent) : Prop := {
  sl_sem : g_sem g = (size (g_tasks g) + holding (g_poll g))%nat;
  sl_cap : (g_sem g ≤ capacity cfg)%nat;
  sl_fresh : ∀ k, is_Some (g_tasks g !! k) → (k < g_nextTask g)%nat
}.

(** The events that leave the poll loop and the semaphore alone. *)
Lemma slots_move g g' k t t' :
  Slots g → g_tasks g !! k = Some t → g_tasks g' = <[k := t']> (g_tasks g) →
  g_sem g' = g_sem g → g_poll g' = g_poll g → g_nextTask g' = g_nextTask g → Slots g'.
Proof.
  intros [Hs Hc Hf] Hk Et Es Ep En. split; rewrite ?Es, ?Ep, ?En, ?Et; try done.
  - rewrite map_size_insert_Some by (by eexists). done.
  - intros k' [t1 Hk']. apply Hf. apply lookup_insert_Some in Hk' as [[-> _]|[_ ?]]; by eexists.
Qed.

Lemma slots_next ev g g' : Slots g → anext ev g = Some g' → Slots g'.
Proof.
  intros Hi H. pose proof Hi as [Hs Hc Hf]. destruct ev; simpl in H; unfold with_task in H.
  - injection H as <-. split; simpl; [by rewrite map_size_fmap|done|]. intros k. rewrite lookup_fmap, fmap_is_Some. apply Hf.
  - case_match; [|done]. by injection H as <-.
  - destruct (g_poll g) eqn:Ep; try done. case_bool_decide; [|done]. injection H as <-. split; simpl in *; [rewrite Hs; simpl; lia|lia|done].
  - destruct (g_poll g) eqn:Ep; try done. case_match; [|done]. injection H as <-. split; simpl in *; [lia|done|done].
  - destruct (g_poll g) eqn:Ep; try done. injection H as <-. split; simpl in *; [lia|done|done].
  - destruct (g_poll g) eqn:Ep; try done. case_match; [|done]. injection H as <-. split; simpl in *; [lia|done|done].
  - destruct (g_poll g) eqn:Ep; try done. simpl in Hs. destruct r as [e|[job|]]; injection H as <-.
    + split; simpl; [destruct (g_ctxDone g); simpl; lia|lia|done].
    + assert (Hn : g_tasks g !! g_nextTask g = None).
      { apply eq_None_not_Some. intros Hx. apply Hf in Hx. lia. }
      split; simpl; [rewrite map_size_insert_None by done; lia|done|].
      intros k [t Hk]. apply lookup_insert_Some in Hk as [[<- _]|[_ Hk]]; [lia|]. specialize (Hf k ltac:(by eexists)). lia.
    + split; simpl; [lia|lia|done].
  - destruct (g_tasks g !! k) as [t|] eqn:Ek; simpl in H; [|done]. destruct (t_pc t); try done. injection H as <-. by eapply slots_move.
  - destruct (g_tasks g !! k) as [t|] eqn:Ek; simpl in H; [|done]. destruct (t_pc t); try done.
    destruct pj as [e|pj]; [injection H as <-; by eapply slots_move|]. destruct mkdir as [msg|].
    + case_match; [|done]. injection H as <-. by eapply slots_move.
    + injection H as <-. by eapply slots_move.
  - destruct (g_tasks g !! k) as [t|] eqn:Ek; simpl in H; [|done]. destruct (t_pc t); try done; (case_match; [|done]); injection H as <-; by eapply slots_move.
  - injection H as <-. unfold apply. repeat case_match; try done; by eapply slots_move.
  - unfold ship_step, with_task in H. destruct (g_tasks g !! k) as [t|] eqn:Ek; simpl in H; [|done]. destruct (t_ship t); [|done].
    case_match; [|done]. apply bind_Some in H as (y' & _ & H). injection H as <-. by eapply slots_move.
  - destruct (g_tasks g !! k) as [t|] eqn:Ek; simpl in H; [|done]. destruct (t_pc t); try done. injection H as <-. by eapply slots_move.
  - destruct (g_tasks g !! k) as [t|] eqn:Ek; simpl in H; [|done]. destruct (t_pc t); try done. destruct err; injection H as <-; by eapply slots_move.
  - destruct (g_tasks g !! k) as [t|] eqn:Ek; simpl in H; [|done]. destruct (t_pc t); try done. injection H as <-. by eapply slots_move.
  - destruct (g_tasks g !! k) as [t|] eqn:Ek; simpl in H; [|done]. destruct (t_pc t); try done. destruct (t_ship t); [|done].
    case_match; [|done]. destruct (verdict _ _ _ _ _ _) as [[rq|] []]; injection H as <-; by eapply slots_move.
  - destruct (g_tasks g !! k) as [t|] eqn:Ek; simpl in H; [|done]. destruct (t_pc t); try done. injection H as <-. by eapply slots_move.
  - destruct (g_tasks g !! k) as [t|] eqn:Ek; simpl in H; [|done]. destruct (t_pc t); try done. injection H as <-. by eapply slots_move.
  - destruct (g_tasks g !! k) as [t|] eqn:Ek; simpl in H; [|done]. destruct (t_pc t); try done. injection H as <-.
    assert (Hsz : size (delete k (g_tasks g)) = pred (size (g_tasks g))) by (rewrite map_size_delete; by rewrite Ek).
    assert (0 < size (g_tasks g))%nat. { apply Nat.neq_0_lt_0. intros Hz%map_size_empty_inv. by rewrite Hz in Ek. }
    split; simpl; [rewrite Hsz; lia|lia|]. intros k' [t' Hk']. apply lookup_delete_Some in Hk' as [_ Hk']. apply Hf. by eexists.
Qed.

(** ** What an event does to a task *)

(** The request as it goes out. *)
Definition full_request (g : Agent) (t : Task) (req : wire_completeRequest) : wire_completeRequest :=
  mkWComplete (g_runnerID g) (cj_Attempt (t_job t)) (wp_Status req) (wp_FailureKind req) (wp_ExitCode req) (wp_Error req).

Inductive moved (ev : AgentEvent) (g : Agent) (k : nat) (t : Task) : Task → Prop :=
  | mv_same : moved ev g k t t
  | mv_cancel c : moved ev g k t (cancel c t)
  | mv_register : ev = EvRegister k → t_pc t = ASpawned →
      moved ev g k t ((if g_ctxDone g then cancel CParent t else t) <| t_pc := AActive |>)
  | mv_bad_spec pj mkdir msg t1 : ev = EvSpec k pj mkdir → t_pc t = AActive → t1 = t ∨ (∃ pj', t1 = t <| t_spec := Some pj' |>) →
      moved ev g k t (t1 <| t_pc := AReport (full_request g t (failed kindInfra msg)) |>)
  | mv_exec pj : ev = EvSpec k (inr pj) None → t_pc t = AActive →
      moved ev g k t (t <| t_spec := Some pj |> <| t_pc := AExec |> <| t_ecause := t_jcause t |> <| t_ship := Some (start (ship_config cfg)) |>)
  | mv_timeout : moved ev g k t (t <| t_ecause := set_cause (t_ecause t) CTimeout |>)
  | mv_ship e y y' t1 : ev = EvShip k e → t_ship t = Some y → ship_enabled e (t_pc t) g = true → next e y = Some y' →
      t1 = t ∨ t1 = cancel CAbort t → moved ev g k t (t1 <| t_ship := Some y' |>)
  | mv_exec_failed msg : ev = EvExecDone k (inl msg) → t_pc t = AExec →
      moved ev g k t (t <| t_pc := AVerdict (Some (ExecErr msg)) (mkExecResult 0 false 0) |>)
  | mv_exec_done res : ev = EvExecDone k (inr res) → t_pc t = AExec →
      moved ev g k t (t <| t_pc := if bool_decide (er_ExitCode res = 0) && has_artifacts t then AUpload res else AVerdict None res |>)
  | mv_uploaded res : ev = EvUploadDone k None → t_pc t = AUpload res → moved ev g k t (t <| t_pc := AVerdict None res |>)
  | mv_upload_failed e res t1 : ev = EvUploadDone k (Some e) → t_pc t = AUpload res → t1 = t ∨ t1 = cancel CAbort t →
      moved ev g k t (t1 <| t_pc := AVerdict (Some (UploadErr e)) res |>)
  | mv_cause err res : ev = EvCause k → t_pc t = AVerdict err res →
      moved ev g k t (t <| t_pc := AFlush err res (t_ecause t) (match err with Some _ => true | None => false end && bool_decide (t_ecause t = Some CAbort)) |>)
  | mv_report err res cause aborted y req counted : ev = EvClosed k → t_pc t = AFlush err res cause aborted → t_ship t = Some y →
      s_done (y_sh y) = true → verdict error_text cause err res aborted (g_ctxDone g) = (Some req, counted) →
      moved ev g k t (t <| t_pc := AReport (full_request g t req) |>)
  | mv_discard err res cause aborted y counted : ev = EvClosed k → t_pc t = AFlush err res cause aborted → t_ship t = Some y →
      s_done (y_sh y) = true → verdict error_text cause err res aborted (g_ctxDone g) = (None, counted) →
      moved ev g k t (t <| t_pc := AReturned |>)
  | mv_reported req : ev = EvReported k → t_pc t = AReport req → moved ev g k t (t <| t_pc := AReturned |>)
  | mv_cleanup : ev = EvCleanup k → t_pc t = AReturned → moved ev g k t (t <| t_pc := ARelease |>).

(** The jobs a list of events handed to the runner, in order. *)
Definition handed_out (evs : list AgentEvent) : list claimedJob :=
  omap (λ ev, match ev with EvClaim (inr (Some job)) => Some job | _ => None end) evs.

(** What else an event does: the reports made and the registrations. *)
Record effects (ev : AgentEvent) (g g' : Agent) : Prop := {
  fx_runner : g_runnerID g' = g_runnerID g;
  fx_next : g_nextTask g' = (g_nextTask g + length (handed_out [ev]))%nat;
  fx_old : ∀ k t, g_tasks g !! k = Some t →
    (∃ t', g_tasks g' !! k = Some t' ∧ moved ev g k t t') ∨ (g_tasks g' !! k = None ∧ t_pc t = ARelease);
  fx_new : ∀ k t', g_tasks g !! k = None → g_tasks g' !! k = Some t' →
    ∃ job, ev = EvClaim (inr (Some job)) ∧ k = g_nextTask g ∧ g_nextTask g' = S k ∧ t' = mkTask job ASpawned None None None None;
  fx_reports : g_reports g' = g_reports g ∨
    ∃ k t t' req, g_tasks g !! k = Some t ∧ g_tasks g' !! k = Some t' ∧ moved ev g k t t' ∧ t_pc t' = AReport req ∧
      (t_pc t = AActive ∨ ∃ err res cause aborted, t_pc t = AFlush err res cause aborted) ∧ g_reports g' = g_reports g ++ [(k, req)];
  fx_active : match ev with
    | EvRegister k => ∃ t, g_tasks g !! k = Some t ∧ t_pc t = ASpawned ∧ g_active g' = <[key_of (t_job t) := k]> (g_active g) ∧
        ∃ t', g_tasks g' !! k = Some t' ∧ t_pc t' = AActive
    | EvCleanup k => ∃ t, g_tasks g !! k = Some t ∧ t_pc t = AReturned ∧ g_active g' = delete (key_of (t_job t)) (g_active g)
    | _ => g_active g' = g_active g
    end
}.

(** An event that moves one task and nothing else of the tasks. *)
Lemma one_moved ev g g' k t t' :
  g_tasks g !! k = Some t → g_tasks g' = <[k := t']> (g_tasks g) → moved ev g k t t' →
  (∀ j u, g_tasks g !! j = Some u → (∃ u', g_tasks g' !! j = Some u' ∧ moved ev g j u u') ∨ (g_tasks g' !! j = None ∧ t_pc u = ARelease)) ∧
  (∀ j u, g_tasks g !! j = None → g_tasks g' !! j = Some u → False).
Proof.
  intros Hk Et Hm. rewrite Et. split; intros j u Hj.
  - left. destruct (decide (j = k)) as [->|Hne].
    + rewrite lookup_insert_eq. exists t'. split; [done|]. congruence.
    + rewrite lookup_insert_ne by done. exists u. split; [done|constructor].
  - intros [[-> _]|[_ ?]]%lookup_insert_Some; congruence.
Qed.

(** ... and starts no report and changes no registration. *)
Lemma plain_move ev g g' k t t' :
  g_tasks g !! k = Some t → g_tasks g' = <[k := t']> (g_tasks g) → moved ev g k t t' →
  g_runnerID g' = g_runnerID g → g_nextTask g' = g_nextTask g → g_reports g' = g_reports g → g_active g' = g_active g →
  handed_out [ev] = [] → (∀ k', ev ≠ EvRegister k') → (∀ k', ev ≠ EvCleanup k') → effects ev g g'.
Proof.
  intros Hk Et Hm Er En Ep Ea H0 H1 H2. destruct (one_moved ev g g' k t t' Hk Et Hm) as [Ho Hn]. split; try done.
  - rewrite En, H0. simpl. lia.
  - intros j u Hj Hj'. by destruct (Hn j u Hj Hj').
  - by left.
  - destruct ev; try done; [by destruct (H1 k0)|by destruct (H2 k0)].
Qed.

Lemma report_move ev g g' k t t' req :
  g_tasks g !! k = Some t → g_tasks g' = <[k := t']> (g_tasks g) → moved ev g k t t' → t_pc t' = AReport req →
  (t_pc t = AActive ∨ ∃ err res cause aborted, t_pc t = AFlush err res cause aborted) →
  g_runnerID g' = g_runnerID g → g_nextTask g' = g_nextTask g → g_reports g' = g_reports g ++ [(k, req)] → g_active g' = g_active g →
  handed_out [ev] = [] → (∀ k', ev ≠ EvRegister k') → (∀ k', ev ≠ EvCleanup k') → effects ev g g'.
Proof.
  intros Hk Et Hm Hpc Hfrom Er En Ep Ea H0 H1 H2. destruct (one_moved ev g g' k t t' Hk Et Hm) as [Ho Hn]. split; try done.
  - rewrite En, H0. simpl. lia.
  - intros j u Hj Hj'. by destruct (Hn j u Hj Hj').
  - right. exists k, t, t', req. split_and!; try done. by rewrite Et, lookup_insert_eq.
  - destruct ev; try done; [by destruct (H1 k0)|by destruct (H2 k0)].
Qed.

Lemma no_move ev g g' :
  g_tasks g' = g_tasks g → g_runnerID g' = g_runnerID g → g_nextTask g' = g_nextTask g → g_reports g' = g_reports g →
  g_active g' = g_active g → handed_out [ev] = [] → (∀ k', ev ≠ EvRegister k') → (∀ k', ev ≠ EvCleanup k') → effects ev g g'.
Proof.
  intros Et Er En Ep Ea H0 H1 H2. split; try done.
  - rewrite En, H0. simpl. lia.
  - intros k t Hk. left. exists t. rewrite Et. split; [done|constructor].
  - intros k t Hk Hk'. rewrite Et in Hk'. congruence.
  - by left.
  - destruct ev; try done; [by destruct (H1 k)|by destruct (H2 k)].
Qed.

Lemma cancel_pc c t : t_pc (cancel c t) = t_pc t ∧ t_job (cancel c t) = t_job t ∧ t_ship (cancel c t) = t_ship t ∧ t_spec (cancel c t) = t_spec t.
Proof. unfold cancel. by destruct (t_jcause t). Qed.

Lemma cancel_ship c t y : cancel c (t <| t_ship := y |>) = (cancel c t) <| t_ship := y |>.
Proof. unfold cancel. simpl. by destruct (t_jcause t). Qed.

Lemma next_effects ev g g' : Slots g → anext ev g = Some g' → effects ev g g'.
Proof.
  intros Hslots H. destruct ev; simpl in H; unfold with_task in H.
  - injection H as <-. split; try done; simpl; [|intros k t Hk Hk'; by rewrite lookup_fmap, Hk in Hk'|by left].
    intros k t Hk. left. rewrite lookup_fmap, Hk. eexists. split; [done|]. unfold shut_down. destruct (t_pc t); constructor.
  - case_match; [|done]. injection H as <-. by apply no_move.
  - destruct (g_poll g); try done. case_bool_decide; [|done]. injection H as <-. by apply no_move.
  - destruct (g_poll g); try done. case_match; [|done]. injection H as <-. by apply no_move.
  - destruct (g_poll g); try done. injection H as <-. by apply no_move.
  - destruct (g_poll g); try done. case_match; [|done]. injection H as <-. by apply no_move.
  - destruct (g_poll g); try done. destruct r as [e|[job|]]; injection H as <-; [by apply no_move| |by apply no_move].
    split; simpl; try done; [lia| | |by left]; unfold set_task; simpl; intros j u Hj.
    + left. destruct (decide (j = g_nextTask g)) as [->|Hne]; [|rewrite lookup_insert_ne by done; exists u; split; [done|constructor]].
      pose proof (sl_fresh _ Hslots (g_nextTask g) ltac:(by eexists)). lia.
    + intros [[<- <-]|[_ ?]]%lookup_insert_Some; [by exists job|congruence].
  - destruct (g_tasks g !! k) as [t|] eqn:Ek; simpl in H; [|done]. destruct (t_pc t) eqn:Ep; try done. injection H as <-.
    pose proof (mv_register (EvRegister k) g k t eq_refl Ep) as Hm. set (t' := _ <| t_pc := AActive |>) in *.
    destruct (one_moved (EvRegister k) g (set_task k t' g) k t t' Ek eq_refl Hm) as [Ho Hn]. split; try done.
    + intros j u Hj Hj'. by destruct (Hn j u Hj Hj').
    + by left.
    + exists t. split_and!; try done. exists t'. split; [simpl; by rewrite lookup_insert_eq|done].
  - destruct (g_tasks g !! k) as [t|] eqn:Ek; simpl in H; [|done]. destruct (t_pc t) eqn:Ep; try done.
    destruct pj as [e|pj]; [injection H as <-; eapply report_move; try done; [by eapply mv_bad_spec; [done|done|left]|by left]|].
    destruct mkdir as [msg|].
    + case_match; [|done]. injection H as <-. eapply report_move; try done; [|by left].
      exact (mv_bad_spec _ g k t (inr pj) (Some msg) ("artifact dir: " +:+ msg) (t <| t_spec := Some pj |>) eq_refl Ep (or_intror (ex_intro _ pj eq_refl))).
    + injection H as <-. eapply plain_move; try done. by apply mv_exec.
  - destruct (g_tasks g !! k) as [t|] eqn:Ek; simpl in H; [|done].
    destruct (t_pc t); try done; (case_match; [|done]); injection H as <-; (eapply plain_move; try done; constructor).
  - injection H as <-. unfold apply.
    repeat case_match; try (by apply no_move); (eapply plain_move; try done; constructor).
  - unfold ship_step, with_task in H. destruct (g_tasks g !! k) as [t|] eqn:Ek; simpl in H; [|done]. destruct (t_ship t) as [y|] eqn:Ey; [|done].
    destruct (ship_enabled e (t_pc t) g) eqn:En; [|done]. apply bind_Some in H as (y' & Hy & H). injection H as <-.
    eapply plain_move; try done. case_bool_decide; [rewrite cancel_ship|]; (eapply mv_ship; try done); auto.
  - destruct (g_tasks g !! k) as [t|] eqn:Ek; simpl in H; [|done]. destruct (t_pc t) eqn:Ep; try done. injection H as <-.
    destruct r; (eapply plain_move; try done); [by apply mv_exec_failed|by apply mv_exec_done].
  - destruct (g_tasks g !! k) as [t|] eqn:Ek; simpl in H; [|done]. destruct (t_pc t) eqn:Ep; try done. destruct err as [e|]; injection H as <-; (eapply plain_move; try done).
    + eapply mv_upload_failed; [done|done|]. destruct (is_fenced e); auto.
    + by eapply mv_uploaded.
  - destruct (g_tasks g !! k) as [t|] eqn:Ek; simpl in H; [|done]. destruct (t_pc t) eqn:Ep; try done. injection H as <-.
    eapply plain_move; try done. by eapply mv_cause.
  - destruct (g_tasks g !! k) as [t|] eqn:Ek; simpl in H; [|done]. destruct (t_pc t) eqn:Ep; try done. destruct (t_ship t) as [y|] eqn:Ey; [|done].
    destruct (s_done (y_sh y)) eqn:Hd; [|done]. destruct (verdict _ _ _ _ _ _) as [[rq|] counted] eqn:Ev.
    + pose proof (mv_report (EvClosed k) g k t err res cause aborted y rq counted eq_refl Ep Ey Hd Ev) as Hm.
      destruct counted; injection H as <-; (eapply report_move; [exact Ek|reflexivity|exact Hm|done| |try done..]); right; by repeat eexists.
    + pose proof (mv_discard (EvClosed k) g k t err res cause aborted y counted eq_refl Ep Ey Hd Ev) as Hm.
      destruct counted; injection H as <-; (eapply plain_move; [exact Ek|reflexivity|exact Hm|done..]).
  - destruct (g_tasks g !! k) as [t|] eqn:Ek; simpl in H; [|done]. destruct (t_pc t) eqn:Ep; try done. injection H as <-.
    eapply plain_move; try done. by eapply mv_reported.
  - destruct (g_tasks g !! k) as [t|] eqn:Ek; simpl in H; [|done]. destruct (t_pc t) eqn:Ep; try done. injection H as <-.
    pose proof (mv_cleanup (EvCleanup k) g k t eq_refl Ep) as Hm.
    destruct (one_moved (EvCleanup k) g (set_task k (t <| t_pc := ARelease |>) g) k t _ Ek eq_refl Hm) as [Ho Hn]. split; try done.
    + intros j u Hj Hj'. by destruct (Hn j u Hj Hj').
    + by left.
    + by exists t.
  - destruct (g_tasks g !! k) as [t|] eqn:Ek; simpl in H; [|done]. destruct (t_pc t) eqn:Ep; try done. injection H as <-.
    split; try done; simpl; [|intros j u Hj [_ ?]%lookup_delete_Some; congruence|by left]. intros j u Hj.
    destruct (decide (j = k)) as [->|Hne]; [right; rewrite lookup_delete_eq; split; [done|congruence]|].
    left. rewrite lookup_delete_ne by done. exists u. split; [done|constructor].
Qed.

(** ** The invariant *)

Definition in_active (p : APC) : bool := match p with ASpawned | ARelease => false | _ => true end.
Definition reported (p : APC) : bool := match p with AReport _ | AReturned | ARelease => true | _ => false end.

(** What a task's place says of its shipper. *)
Definition task_ok (t : Task) : Prop :=
  (∀ y, t_ship t = Some y → reachable (ship_config cfg) y) ∧
  match t_pc t with
  | ASpawned | AActive => t_ship t = None
  | AExec | AUpload _ | AVerdict _ _ | AFlush _ _ _ _ => is_Some (t_ship t)
  | AReport _ | AReturned | ARelease => ∀ y, t_ship t = Some y → s_done (y_sh y) = true
  end.

Lemma reachable_next c y e y' : reachable c y → next e y = Some y' → reachable c y'.
Proof.
  intros [es Hes] Hn. exists (es ++ [e]). eapply run_events_app; [exact Hes|]. simpl. by rewrite Hn.
Qed.

(** A loop that has exited stays so and never sends. *)
Lemma exited_stays c y e y' : reachable c y → s_done (y_sh y) = true → next e y = Some y' →
  s_done (y_sh y') = true ∧ (∀ o, e ≠ ESend o) ∧ y_batches y' = y_batches y.
Proof.
  intros Hr Hd Hn. pose proof (reachable_inv _ _ Hr) as Hi. rewrite (v_done _ Hi) in Hd.
  assert (Hp : y_pc y = Exited) by (by destruct (y_pc y)).
  assert (Hi' := next_inv _ _ _ Hi Hn). rewrite (v_done _ Hi').
  destruct e; simpl in Hn; rewrite ?Hp in Hn; try done; try (unfold loop_step, send_step in Hn; rewrite Hp in Hn; done).
  - injection Hn as <-. unfold write_step. destruct (_ || _); simpl; by rewrite Hp.
  - apply guard_Some in Hn as [_ ->]. simpl. by rewrite Hp.
  - apply guard_Some in Hn as [_ ->]. simpl. by rewrite Hp.
  - injection Hn as <-. simpl. by rewrite Hp.
  - apply guard_Some in Hn as [_ ->]. simpl. by rewrite Hp.
Qed.

Lemma moved_ok ev g k t t' : task_ok t → moved ev g k t t' → task_ok t'.
Proof.
  intros [Hr Hp] Hm. destruct Hm; try (by split).
  - destruct (cancel_pc c t) as (E1 & E2 & E3 & E4). unfold task_ok. by rewrite E1, E3.
  - split; simpl; [|rewrite H0 in Hp]; destruct (g_ctxDone g); by rewrite ?(proj1 (proj2 (proj2 (cancel_pc CParent t)))).
  - assert (E : t_ship t1 = None) by (rewrite H0 in Hp; destruct H1 as [->|[? ->]]; done). split; simpl; rewrite E; done.
  - split; simpl; [|done]. intros y [= <-]. by exists [].
  - assert (E : t_pc t1 = t_pc t) by (destruct H3 as [->| ->]; [done|apply cancel_pc]).
    split; simpl; [intros ? [= <-]; eapply reachable_next; [by apply Hr|done]|]. rewrite E. destruct (t_pc t); try (by eexists); try (by rewrite H0 in Hp).
    all: intros ? [= <-]; eapply exited_stays; [by apply Hr|by apply Hp|done].
  - rewrite H0 in Hp. by split.
  - rewrite H0 in Hp. split; [done|]. simpl. by destruct (bool_decide _ && _).
  - rewrite H0 in Hp. by split.
  - rewrite H0 in Hp. assert (E : t_ship t1 = t_ship t) by (destruct H1 as [->| ->]; [done|apply cancel_pc]).
    split; simpl; by rewrite E.
  - rewrite H0 in Hp. by split.
  - split; [done|]. simpl. intros y' Hy'. congruence.
  - split; [done|]. simpl. intros y' Hy'. congruence.
  - rewrite H0 in Hp. by split.
  - rewrite H0 in Hp. by split.
Qed.

Lemma moved_job ev g k t t' : moved ev g k t t' → t_job t' = t_job t.
Proof.
  intros Hm. destruct Hm; try done; try apply cancel_pc.
  - simpl. destruct (g_ctxDone g); [apply cancel_pc|done].
  - destruct H1 as [->|[? ->]]; done.
  - destruct H3 as [->| ->]; [done|apply cancel_pc].
  - destruct H1 as [->| ->]; [done|apply cancel_pc].
Qed.

(** A task that has reported does not go back. *)
Lemma moved_reported ev g k t t' : moved ev g k t t' → reported (t_pc t) = true → reported (t_pc t') = true.
Proof.
  intros Hm. destruct Hm; simpl; try done; try (by rewrite H0).
  - by rewrite (proj1 (cancel_pc c t)).
  - destruct H3 as [->| ->]; [done|]. by rewrite (proj1 (cancel_pc CAbort t)).
Qed.

(** A task leaves active only by its cleanup. *)
Lemma moved_active ev g k t t' : moved ev g k t t' → in_active (t_pc t) = true → ev = EvCleanup k ∨ in_active (t_pc t') = true.
Proof.
  intros Hm Ha. destruct Hm; try (by left); right; simpl; try done.
  - by rewrite (proj1 (cancel_pc c t)).
  - destruct H3 as [->| ->]; [done|]. by rewrite (proj1 (cancel_pc CAbort t)).
  - by destruct (bool_decide _ && _).
Qed.

Definition valid_report (req : wire_completeRequest) : Prop :=
  valid_result (mkResult (wp_Status req) (wp_FailureKind req) (wp_ExitCode req) (wp_Error req)) = None.

(** Every verdict is one the server accepts. *)
Lemma verdict_valid cause err res aborted done_ req counted :
  verdict error_text cause err res aborted done_ = (Some req, counted) → valid_report req.
Proof.
  unfold verdict, valid_report. intros H. repeat case_match; simplify_eq; try done; by (case_bool_decide || vm_compute).
Qed.

(** Where a report comes from. *)
Lemma moved_to_report ev g k t t' req :
  moved ev g k t t' → t_pc t' = AReport req → reported (t_pc t) = false →
  wp_RunnerID req = g_runnerID g ∧ wp_Attempt req = cj_Attempt (t_job t) ∧ valid_report req ∧
  ((∃ msg, req = full_request g t (failed kindInfra msg)) ∨
   ∃ err res cause aborted y rq counted, t_pc t = AFlush err res cause aborted ∧ t_ship t = Some y ∧ s_done (y_sh y) = true ∧
     verdict error_text cause err res aborted (g_ctxDone g) = (Some rq, counted) ∧ req = full_request g t rq).
Proof.
  intros Hm Hr Hn. destruct Hm; simpl in Hr; try done.
  - by rewrite Hr in Hn.
  - rewrite (proj1 (cancel_pc c t)) in Hr. by rewrite Hr in Hn.
  - injection Hr as <-. split_and!; [done|done|done|]. left. by eexists.
  - by rewrite Hr in Hn.
  - assert (E : t_pc t1 = t_pc t) by (destruct H3 as [->| ->]; [done|apply cancel_pc]). rewrite E in Hr. by rewrite Hr in Hn.
  - by destruct (bool_decide _ && _).
  - injection Hr as <-. split_and!; [done|done| |].
    + by apply verdict_valid in H3.
    + right. by repeat eexists.
Qed.

Record AInv (g : Agent) : Prop := {
  ai_slots : Slots g;
  ai_tasks : ∀ k t, g_tasks g !! k = Some t → task_ok t;
  ai_active : ∀ key k, g_active g !! key = Some k → ∃ t, g_tasks g !! k = Some t ∧ key_of (t_job t) = key ∧ in_active (t_pc t) = true;
  ai_known : ∀ k req, (k, req) ∈ g_reports g → (k < g_nextTask g)%nat ∧ ∀ t, g_tasks g !! k = Some t → reported (t_pc t) = true;
  ai_once : NoDup (g_reports g).*1;
  ai_valid : ∀ k req, (k, req) ∈ g_reports g → wp_RunnerID req = g_runnerID g ∧ valid_report req
}.

Lemma AInv_next ev g g' : AInv g → anext ev g = Some g' → AInv g'.
Proof.
  intros [Hs Ht Ha Hk Ho Hv] Hn. pose proof (slots_next _ _ _ Hs Hn) as Hs'. destruct (next_effects _ _ _ Hs Hn) as [Fr Fn Fo Fw Fp Fa].
  assert (Hback : ∀ k t', g_tasks g' !! k = Some t' →
    (∃ t, g_tasks g !! k = Some t ∧ moved ev g k t t') ∨ (∃ job, ev = EvClaim (inr (Some job)) ∧ k = g_nextTask g ∧ g_nextTask g' = S k ∧ t' = mkTask job ASpawned None None None None)).
  { intros k t' Hk'. destruct (g_tasks g !! k) as [t|] eqn:Ek; [left|right; by eapply Fw].
    destruct (Fo k t Ek) as [(t2 & E & Hm)|[E _]]; [|congruence]. exists t. split; [done|congruence]. }
  split; [done| | | | |].
  - intros k t' Hk'. destruct (Hback k t' Hk') as [(t & Et & Hm)|(job & _ & _ & _ & ->)]; [|by split].
    eapply moved_ok; [by eapply Ht|done].
  - (* active *)
    assert (Hkeep : ∀ key k, g_active g !! key = Some k → ev ≠ EvCleanup k →
      ∃ t, g_tasks g' !! k = Some t ∧ key_of (t_job t) = key ∧ in_active (t_pc t) = true).
    { intros key k Hact Hne. destruct (Ha key k Hact) as (t & Et & <- & Hin). destruct (Fo k t Et) as [(t' & Et' & Hm)|[_ Hp]]; [|by rewrite Hp in Hin].
      exists t'. split; [done|]. unfold key_of. rewrite (moved_job _ _ _ _ _ Hm). split; [done|].
      by destruct (moved_active _ _ _ _ _ Hm Hin). }
    intros key k Hact. destruct ev; try (rewrite Fa in Hact; by apply Hkeep).
    + destruct Fa as (t & Et & Hp & Ea & t' & Et' & Hp'). rewrite Ea in Hact. apply lookup_insert_Some in Hact as [[<- <-]|[_ Hact]]; [|by apply Hkeep].
      exists t'. split; [done|]. destruct (Fo _ t Et) as [(t2 & E2 & Hm)|[E2 _]]; [|congruence]. assert (t2 = t') as -> by congruence.
      unfold key_of. rewrite (moved_job _ _ _ _ _ Hm), Hp'. done.
    + destruct Fa as (t & Et & Hp & Ea). rewrite Ea in Hact. apply lookup_delete_Some in Hact as [Hne Hact]. apply Hkeep; [done|].
      intros [= ->]. destruct (Ha key k Hact) as (t2 & Et2 & E & _). congruence.
  - (* known *)
    assert (Hold : ∀ k req, (k, req) ∈ g_reports g → (k < g_nextTask g')%nat ∧ ∀ t, g_tasks g' !! k = Some t → reported (t_pc t) = true).
    { intros k req Hin. destruct (Hk k req Hin) as [Hlt Hrep]. split; [lia|]. intros t' Et'. destruct (Hback k t' Et') as [(t & Et & Hm)|(job & _ & -> & _)]; [|lia].
      eapply moved_reported; [done|by apply Hrep]. }
    destruct Fp as [->|(k & t & t' & req & Et & Et' & Hm & Hp & Hfrom & ->)]; [done|].
    intros j r [Hin|Hin]%elem_of_app; [by eapply Hold|]. apply list_elem_of_singleton in Hin as [= -> ->].
    split; [apply (sl_fresh _ Hs'); by eexists|]. intros t2 Et2. assert (t2 = t') as -> by congruence. by rewrite Hp.
  - destruct Fp as [->|(k & t & t' & req & Et & Et' & Hm & Hp & Hfrom & ->)]; [done|].
    rewrite fmap_app. apply NoDup_app. split_and!; [done| |apply NoDup_singleton].
    intros j [[j' r] [-> Hin]]%list_elem_of_fmap Hj. apply list_elem_of_singleton in Hj. simpl in Hj. subst j'.
    destruct (Hk k r Hin) as [_ Hrep]. specialize (Hrep t Et). destruct Hfrom as [E|(? & ? & ? & ? & E)]; by rewrite E in Hrep.
  - rewrite Fr. destruct Fp as [->|(k & t & t' & req & Et & Et' & Hm & Hp & Hfrom & ->)]; [done|].
    intros j r [Hin|Hin]%elem_of_app; [by eapply Hv|]. apply list_elem_of_singleton in Hin as [= -> ->].
    assert (reported (t_pc t) = false) as Hn0 by (by destruct Hfrom as [->|(? & ? & ? & ? & ->)]).
    destruct (moved_to_report _ _ _ _ _ _ Hm Hp Hn0) as (? & _ & ? & _). done.
Qed.

Definition areachable (g : Agent) : Prop := ∃ id evs, arun evs (run_start id) = Some g.

Lemma AInv_start id : AInv (run_start id).
Proof.
  split; try done; simpl.
  - split; [done|simpl; lia|]. intros k [t Hk]. done.
  - by intros k req ?%elem_of_nil.
  - constructor.
  - by intros k req ?%elem_of_nil.
Qed.

Lemma arun_inv evs g g' : AInv g → arun evs g = Some g' → AInv g'.
Proof.
  revert g. induction evs as [|ev evs IH]; intros g Hi; simpl; [by intros [= <-]|].
  intros (g1 & H1 & H2)%bind_Some. eapply IH, H2. by eapply AInv_next.
Qed.

Lemma areachable_inv g : areachable g → AInv g.
Proof. intros (id & evs & H). eapply arun_inv, H. apply AInv_start. Qed.

(** ** Theorems *)

(** the runner never has more attempts than its capacity: the semaphore holds one
    token per attempt goroutine and one for a claim in flight, and when Run returns
    every slot is free and nothing is registered for heartbeats. *)
Theorem agent_respects_capacity g :
  areachable g →
  (size (g_tasks g) ≤ capacity cfg)%nat ∧ g_sem g = (size (g_tasks g) + holding (g_poll g))%nat ∧
  (∀ id a k, g_active g !! (id, a) = Some k → ∃ t, g_tasks g !! k = Some t ∧ cj_ID (t_job t) = id ∧ cj_Attempt (t_job t) = a) ∧
  (run_returns g = true → g_sem g = 0%nat ∧ g_active g = ∅).
Proof.
  intros [[Hs Hc _] _ Ha _ _ _]%areachable_inv. split_and!; [lia|done| |].
  - intros id a k Hk. destruct (Ha (id, a) k Hk) as (t & Et & E & _). exists t. unfold key_of in E. by simplify_eq.
  - unfold run_returns. destruct (g_poll g); try done. intros Ht%bool_decide_eq_true. split; [rewrite Hs, Ht; done|].
    apply map_eq. intros key. rewrite lookup_empty. apply eq_None_not_Some. intros [k Hk]. destruct (Ha key k Hk) as (t & Et & _).
    by rewrite Ht in Et.
Qed.

Lemma reports_grow ev g g' : AInv g → anext ev g = Some g' → ∀ x, x ∈ g_reports g → x ∈ g_reports g'.
Proof.
  intros [Hs _ _ _ _ _] Hn x Hx. destruct (fx_reports _ _ _ (next_effects _ _ _ Hs Hn)) as [->|(k & t & t' & req & _ & _ & _ & _ & _ & ->)]; [done|].
  apply elem_of_app. by left.
Qed.

(** An attempt that has reported: its shipper is out of business. *)
Lemma reported_step ev g g' k req t' :
  AInv g → (k, req) ∈ g_reports g → anext ev g = Some g' →
  (∀ o, ev ≠ EvShip k (ESend o)) ∧
  (g_tasks g' !! k = Some t' → ∃ t, g_tasks g !! k = Some t ∧ (y_batches <$> t_ship t') = (y_batches <$> t_ship t)).
Proof.
  intros Hi Hr Hn. pose proof Hi as [Hs Ht _ Hk _ _]. destruct (Hk k req Hr) as [Hlt Hrep]. split.
  - intros o ->. simpl in Hn. unfold ship_step, with_task in Hn. destruct (g_tasks g !! k) as [t|] eqn:Et; simpl in Hn; [|done].
    destruct (t_ship t) as [y|] eqn:Ey; [|done]. simpl in Hn. apply bind_Some in Hn as (y' & Hy & _). change (send_step o y) with (next (ESend o) y) in Hy.
    destruct (Ht k t Et) as [Hreach Hpc]. specialize (Hrep t eq_refl). destruct (t_pc t); try done;
      by destruct (exited_stays _ _ _ _ (Hreach y Ey) (Hpc y Ey) Hy) as (_ & Hne & _); destruct (Hne o).
  - intros Et'. destruct (next_effects _ _ _ Hs Hn) as [_ _ Fo Fw _ _]. destruct (g_tasks g !! k) as [t|] eqn:Et.
    2:{ destruct (Fw k t' Et Et') as (job & _ & -> & _). lia. }
    exists t. split; [done|]. destruct (Fo k t Et) as [(t2 & E2 & Hm)|[E2 _]]; [|congruence]. assert (t2 = t') as -> by congruence.
    destruct (Ht k t Et) as [Hreach Hpc]. specialize (Hrep t eq_refl). destruct Hm; try done; simpl; try (by rewrite H0 in Hrep).
    + by rewrite (proj1 (proj2 (proj2 (cancel_pc c t)))).
    + rewrite H0. simpl. f_equal. assert (s_done (y_sh y) = true) as Hd by (destruct (t_pc t); try done; by apply Hpc).
      by apply (exited_stays _ _ _ _ (Hreach y H0) Hd H2).
Qed.

(** C23: complete never overtakes the last chunk: once an attempt's report has begun its
    shipper sends nothing, whatever happens later: the batches the server has accepted are
    all it will get.  And if the final flush reported no error, then a server that held no
    log of that job and attempt, and accepted these batches in this order among any other
    calls, holds everything the attempt's shipper took in, up to the log cap. *)
Theorem reports_follow_the_last_chunk g k req evs g' :
  areachable g → (k, req) ∈ g_reports g → arun evs g = Some g' →
  (∀ o, EvShip k (ESend o) ∉ evs) ∧
  (∀ t' y', g_tasks g' !! k = Some t' → t_ship t' = Some y' →
     ∃ t y, g_tasks g !! k = Some t ∧ t_ship t = Some y ∧ s_done (y_sh y) = true ∧ y_batches y' = y_batches y ∧
       (close_result (y_sh y) = CloseNil →
        ∀ s ops w, let id := cj_ID (t_job t) in let a := cj_Attempt (t_job t) in
          Inv (w_db w) → clock_pos w → attempt_rows (w_db w) id a = [] →
          accepted_batches s id a ops w = as_logs <$> y_batches y' →
          stored_log (w_db (run_ops s ops w)) id a = take (Z.to_nat (s_logCap s)) (y_accepted y))).
Proof.
  intros Hi%areachable_inv Hr Hrun.
  assert (H : (∀ o, EvShip k (ESend o) ∉ evs) ∧
    (∀ t', g_tasks g' !! k = Some t' → ∃ t, g_tasks g !! k = Some t ∧ (y_batches <$> t_ship t') = (y_batches <$> t_ship t))).
  { revert g Hi Hr Hrun. induction evs as [|ev evs IH]; intros g Hi Hr; simpl.
    - intros [= <-]. split; [intros o; apply not_elem_of_nil|]. intros t' Et. by exists t'.
    - intros (g1 & H1 & H2)%bind_Some. destruct (IH g1 (AInv_next _ _ _ Hi H1) (reports_grow _ _ _ Hi H1 _ Hr) H2) as [A1 A2]. split.
      + intros o [Hx|Hx]%elem_of_cons; [|by apply (A1 o)]. by destruct (proj1 (reported_step _ _ _ _ _ (mkTask (mkClaimedJob "" "" "" 0 0 0 []) ASpawned None None None None) Hi Hr H1) o).
      + intros t' Et'. destruct (A2 t' Et') as (t1 & Et1 & E1). destruct (proj2 (reported_step _ _ _ _ _ t1 Hi Hr H1) Et1) as (t & Et & E).
        exists t. split; [done|]. by rewrite E1. }
  destruct H as [Hno Hsame]. split; [done|]. intros t' y' Et' Ey'. destruct (Hsame t' Et') as (t & Et & E). rewrite Ey' in E. simpl in E.
  destruct (t_ship t) as [y|] eqn:Ey; [|done]. injection E as E. destruct Hi as [_ Ht _ Hk _ _].
  destruct (Ht k t Et) as [Hreach Hpc]. destruct (Hk k req Hr) as [_ Hrep]. specialize (Hrep t Et).
  assert (s_done (y_sh y) = true) as Hd by (destruct (t_pc t); try done; by apply Hpc).
  exists t, y. split_and!; try done. intros Hc s ops w id a Hinv Hclk Hempty Hacc. rewrite E in Hacc.
  by apply (shipped_log _ y s _ _ ops w (Hreach y Ey) Hd Hc Hinv Hclk Hempty Hacc).
Qed.

(** C25: an attempt is reported at most once, under the runner's id, and with a status and
    failure kind the server accepts, so that a report is never refused as malformed. *)
Theorem one_valid_report_per_attempt g :
  areachable g →
  NoDup (g_reports g).*1 ∧
  ∀ k req, (k, req) ∈ g_reports g →
    wp_RunnerID req = g_runnerID g ∧ valid_result (mkResult (wp_Status req) (wp_FailureKind req) (wp_ExitCode req) (wp_Error req)) = None.
Proof. intros [_ _ _ _ Ho Hv]%areachable_inv. split; [done|]. intros k req Hin. by apply (Hv k). Qed.

(** a heartbeat directive touches no attempt but the one it names: abort and cancel
    cancel its context, the first cause standing, and every other directive, or one for
    an attempt that is not active, changes nothing. *)
Theorem directives_reach_only_their_attempt g d k :
  areachable g → g_tasks (apply d g) !! k ≠ g_tasks g !! k →
  ∃ t c, g_tasks g !! k = Some t ∧ cj_ID (t_job t) = wd_JobID d ∧ cj_Attempt (t_job t) = wd_Attempt d ∧
    (wd_Directive d = "abort" ∧ c = CAbort ∨ wd_Directive d = "cancel" ∧ c = CCancelled) ∧
    t_jcause t = None ∧ g_tasks (apply d g) !! k = Some (cancel c t) ∧ t_pc (cancel c t) = t_pc t.
Proof.
  intros [_ _ Ha _ _ _]%areachable_inv. unfold apply.
  destruct (g_active g !! (wd_JobID d, wd_Attempt d)) as [j|] eqn:Ej; [|by repeat case_match].
  destruct (Ha _ _ Ej) as (t & Et & Ek & _). rewrite Et. unfold key_of in Ek. injection Ek as Ek1 Ek2.
  assert (Hcase : ∀ c, g_tasks (set_task j (cancel c t) g) !! k ≠ g_tasks g !! k →
    k = j ∧ t_jcause t = None ∧ g_tasks (set_task j (cancel c t) g) !! k = Some (cancel c t)).
  { intros c Hne. simpl in *. destruct (decide (k = j)) as [->|Hk]; [|by rewrite lookup_insert_ne in Hne].
    rewrite lookup_insert_eq in *. split_and!; try done. unfold cancel in Hne. destruct (t_jcause t); congruence. }
  case_bool_decide; [|case_bool_decide; [|done]].
  - intros (-> & Hj & E)%Hcase. exists t, CAbort. split_and!; try done; [by left|apply cancel_pc].
  - intros (-> & Hj & E)%Hcase. exists t, CCancelled. split_and!; try done; [by right|apply cancel_pc].
Qed.

(** A heartbeat is a sequence of directives. *)
Lemma heartbeat_round_runs reply g : ∃ evs, arun evs g = Some (heartbeat_round reply g).
Proof.
  unfold heartbeat_round. destruct (activeRefs g); [by exists []|]. destruct reply as [e|ds]; [by exists []|].
  revert g. induction ds as [|d ds IH]; intros g; [by exists []|]. destruct (IH (apply d g)) as [evs He]. by exists (EvDirective d :: evs).
Qed.

(** ** Evidence *)

Section evidence.
Context (evs : list AgentEvent).

Definition ran (k : nat) (t : Task) : Prop := ∃ pj, t_spec t = Some pj ∧ EvSpec k (inr pj) None ∈ evs.
Definition succeeded_so_far (k : nat) (t : Task) (err : option AErr) (res : ExecResult) : Prop :=
  err = None → EvExecDone k (inr res) ∈ evs ∧ (er_ExitCode res = 0 → has_artifacts t = true → EvUploadDone k None ∈ evs).

(** What the events so far must have been for a task to be where it is. *)
Definition task_evidence (k : nat) (t : Task) : Prop :=
  handed_out evs !! k = Some (t_job t) ∧
  match t_pc t with
  | AExec => ran k t
  | AUpload res => ran k t ∧ EvExecDone k (inr res) ∈ evs ∧ er_ExitCode res = 0
  | AVerdict err res => ran k t ∧ succeeded_so_far k t err res
  | AFlush err res _ _ => ran k t ∧ succeeded_so_far k t err res
  | _ => True
  end.

Definition success_evidence (k : nat) : Prop :=
  ∃ pj res, EvSpec k (inr pj) None ∈ evs ∧ EvExecDone k (inr res) ∈ evs ∧ er_ExitCode res = 0 ∧
    (pj_Artifacts pj ≠ [] → EvUploadDone k None ∈ evs).

Definition report_evidence (k : nat) (req : wire_completeRequest) : Prop :=
  (∃ job, handed_out evs !! k = Some job ∧ wp_Attempt req = cj_Attempt job) ∧
  (wp_Status req = statusSucceeded → success_evidence k).
End evidence.

Lemma handed_out_app evs1 evs2 : handed_out (evs1 ++ evs2) = handed_out evs1 ++ handed_out evs2.
Proof. apply omap_app. Qed.

Lemma task_evidence_mono evs new k t : task_evidence evs k t → task_evidence (evs ++ new) k t.
Proof.
  assert (Hsub : evs ⊆ evs ++ new) by (intros x Hx; apply elem_of_app; by left).
  intros [Hc Hp]. split; [rewrite handed_out_app; by apply lookup_app_l_Some|]. unfold ran, succeeded_so_far in *.
  destruct (t_pc t); try done.
  - destruct Hp as (pj & ? & ?). exists pj. auto.
  - destruct Hp as ((pj & ? & ?) & ? & ?). split_and!; auto. exists pj. auto.
  - destruct Hp as ((pj & ? & ?) & Hs). split; [exists pj; auto|]. intros He. destruct (Hs He). auto.
  - destruct Hp as ((pj & ? & ?) & Hs). split; [exists pj; auto|]. intros He. destruct (Hs He). auto.
Qed.

Lemma success_evidence_mono evs evs' k : evs ⊆ evs' → success_evidence evs k → success_evidence evs' k.
Proof. intros Hsub (pj & res & H1 & H2 & H3 & H4). exists pj, res. split_and!; auto. Qed.

(** The evidence does not look at causes or the shipper. *)
Lemma task_evidence_same evs k t t' :
  t_job t' = t_job t → t_pc t' = t_pc t → t_spec t' = t_spec t → task_evidence evs k t → task_evidence evs k t'.
Proof. unfold task_evidence, ran, succeeded_so_far, has_artifacts. by intros -> -> ->. Qed.

Lemma moved_evidence evs ev g k t t' :
  task_evidence evs k t → moved ev g k t t' → task_evidence (evs ++ [ev]) k t'.
Proof.
  intros He Hm. pose proof (moved_job _ _ _ _ _ Hm) as Ej.
  apply (task_evidence_mono _ [ev]) in He. assert (Hev : ev ∈ evs ++ [ev]) by (apply elem_of_app; right; left).
  destruct He as [Hc Hp]. destruct Hm; subst; try (by split).
  - destruct (cancel_pc c t) as (E1 & E2 & _ & E4). by eapply task_evidence_same.
  - split; [by rewrite Ej|done].
  - split; [by rewrite Ej|done].
  - split; [done|]. simpl. eexists. by split.
  - assert (E : t_pc t1 = t_pc t ∧ t_spec t1 = t_spec t ∧ t_job t1 = t_job t) by (destruct H3 as [->| ->]; [done|]; by destruct (cancel_pc CAbort t) as (? & ? & ? & ?)).
    destruct E as (E1 & E2 & E3). eapply task_evidence_same; [| | |by split]; done.
  - rewrite H0 in Hp. split; [done|]. simpl. split; [done|]. intros [=].
  - rewrite H0 in Hp. split; [done|]. simpl. destruct (bool_decide (er_ExitCode res = 0) && has_artifacts t) eqn:Eb.
    + apply andb_true_iff in Eb as [E%bool_decide_eq_true _]. done.
    + split; [done|]. intros _. split; [done|]. intros E0 Ha. change (has_artifacts t = true) in Ha. by rewrite Ha, bool_decide_true in Eb.
  - rewrite H0 in Hp. destruct Hp as (? & ? & ?). split; [done|]. simpl. split; [done|]. by intros _.
  - rewrite H0 in Hp. destruct Hp as (Hr & _). split; [by rewrite Ej|]. simpl.
    assert (E : t_spec t1 = t_spec t) by (destruct H1 as [->| ->]; [done|apply cancel_pc]).
    split; [|by intros [=]]. destruct Hr as (pj & ? & ?). exists pj. simpl. by rewrite E.
  - rewrite H0 in Hp. split; [done|]. done.
Qed.

(** Only a clean run is reported as a success. *)
Lemma verdict_success cause err res aborted done_ req counted :
  verdict error_text cause err res aborted done_ = (Some req, counted) → wp_Status req = statusSucceeded →
  err = None ∧ er_ExitCode res = 0 ∧ cause ≠ Some CTimeout ∧ cause ≠ Some CCancelled.
Proof. unfold verdict. intros H Hs. repeat case_match; simplify_eq; try done; repeat case_bool_decide; simplify_eq; done. Qed.

Record TInv (evs : list AgentEvent) (g : Agent) : Prop := {
  ti_inv : AInv g;
  ti_claims : g_nextTask g = length (handed_out evs);
  ti_tasks : ∀ k t, g_tasks g !! k = Some t → task_evidence evs k t;
  ti_reports : ∀ k req, (k, req) ∈ g_reports g → report_evidence evs k req
}.

Lemma TInv_next evs ev g g' : TInv evs g → anext ev g = Some g' → TInv (evs ++ [ev]) g'.
Proof.
  intros [Hi Hc Ht Hr] Hn. pose proof (ai_slots _ Hi) as Hs. destruct (next_effects _ _ _ Hs Hn) as [_ Fn Fo Fw Fp _].
  assert (Hsub : evs ⊆ evs ++ [ev]) by (intros x Hx; apply elem_of_app; by left).
  assert (Hhand : ∀ k job, handed_out evs !! k = Some job → handed_out (evs ++ [ev]) !! k = Some job).
  { intros k job Hk. rewrite handed_out_app. by apply lookup_app_l_Some. }
  split; [by eapply AInv_next|by rewrite Fn, Hc, handed_out_app, length_app| |].
  - intros k t' Et'. destruct (g_tasks g !! k) as [t|] eqn:Et.
    + destruct (Fo k t Et) as [(t2 & E2 & Hm)|[E2 _]]; [|congruence]. assert (t2 = t') as -> by congruence.
      eapply moved_evidence; [by apply Ht|done].
    + destruct (Fw k t' Et Et') as (job & -> & -> & _ & ->). split; [|done]. rewrite handed_out_app, lookup_app_r by lia.
      by rewrite Hc, Nat.sub_diag.
  - assert (Hold : ∀ k req, (k, req) ∈ g_reports g → report_evidence (evs ++ [ev]) k req).
    { intros k req Hin. destruct (Hr k req Hin) as [(job & Hj & Ea) Hsu]. split; [exists job; split; [by apply Hhand|done]|].
      intros Hst. eapply success_evidence_mono; [done|by apply Hsu]. }
    destruct Fp as [->|(k & t & t' & req & Et & Et' & Hm & Hp & Hfrom & ->)]; [done|].
    intros j r [Hin|Hin]%elem_of_app; [by apply Hold|]. apply list_elem_of_singleton in Hin as [= -> ->].
    assert (reported (t_pc t) = false) as Hn0 by (by destruct Hfrom as [->|(? & ? & ? & ? & ->)]).
    destruct (moved_to_report _ _ _ _ _ _ Hm Hp Hn0) as (_ & Ha & _ & Hwhy). destruct (Ht k t Et) as [Hclaim Hev].
    split; [exists (t_job t); split; [by apply Hhand|done]|]. intros Hst.
    destruct Hwhy as [[msg ->]|(err & res & cause & aborted & y & rq & counted & Epc & _ & _ & Ev & ->)]; [done|].
    destruct (verdict_success _ _ _ _ _ _ _ Ev Hst) as (-> & Hz & _). rewrite Epc in Hev. destruct Hev as [(pj & Esp & Hspec) Hsu].
    destruct (Hsu eq_refl) as [Hdone Hup]. exists pj, res. split_and!; [by apply Hsub|by apply Hsub|done|].
    intros Hart. apply Hsub, Hup; [done|]. unfold has_artifacts. rewrite Esp. by rewrite bool_decide_false.
Qed.

Lemma TInv_run evs1 evs2 g g' : TInv evs1 g → arun evs2 g = Some g' → TInv (evs1 ++ evs2) g'.
Proof.
  revert evs1 g. induction evs2 as [|ev evs2 IH]; intros evs1 g Hi; simpl; [intros [= <-]; by rewrite app_nil_r|].
  intros (g1 & H1 & H2)%bind_Some. replace (evs1 ++ ev :: evs2) with ((evs1 ++ [ev]) ++ evs2) by (by rewrite <-app_assoc).
  eapply IH, H2. by eapply TInv_next.
Qed.

(** *** What an upload without error means *)

Section uploads.
Context {C V : Type} `{Net C V} (wire : Wire) (fuel : nat).

(** The server confirmed the file of a walked entry: a POST of its content to the
    artifact's URL was answered 2xx with the size and the digest of what was sent. *)
Definition confirmed (job : claimedJob) (d : DirEntry) : Prop :=
  ∃ ctx n n' size content status raw sent reply, open_file (de_file d) n = Some (size, content) ∧
    exchange ctx (mkHttpRequest "POST" (ac_ServerURL cfg +:+ uploadURL (cj_ID job) (cj_Attempt job) (de_path d))
      ("Bearer " +:+ ac_Token cfg) "application/octet-stream" size content) n = Some (inr (status, raw, sent), n') ∧
    not_2xx status = false ∧ dec_artifact wire raw = inr reply ∧
    ap_SHA256 reply = hex_encode (wire_sha256 wire (take sent content)) ∧ ap_SizeBytes reply = size.

Lemma uploadArtifactOnce_ok ctx job d n n' :
  uploadArtifactOnce wire (agent_client cfg) ctx (cj_ID job) (cj_Attempt job) (de_path d) (de_file d) n = Some (inr tt, n') →
  confirmed job d.
Proof.
  unfold uploadArtifactOnce. destruct (open_file (de_file d) n) as [[size content]|] eqn:Eo; [|done].
  unfold mbind, Cm_bind. destruct (exchange ctx _ n) as [[[e|[[status raw] sent]] n1]|] eqn:Ex; [done| |done].
  case_bool_decide; [done|]. destruct (not_2xx status) eqn:En; [done|]. destruct (dec_artifact wire raw) as [msg|reply] eqn:Ed; [done|].
  destruct (_ || _) eqn:Ec; [done|]. intros _. apply orb_false_elim in Ec as [E1 E2].
  apply negb_false_iff, bool_decide_eq_true in E1, E2. exists ctx, n, n1, size, content, status, raw, sent, reply. by split_and!.
Qed.

Lemma upload_loop_ok ctx job d left : ∀ i backoff n n',
  upload_loop wire fuel cfg left ctx job (de_path d) (de_file d) i backoff n = Some (inr tt, n') → confirmed job d.
Proof.
  induction left as [|left IH]; intros i backoff n n'; cbn [upload_loop];
    destruct (uploadArtifact wire fuel (agent_client cfg) ctx (cj_ID job) (cj_Attempt job) (de_path d) (de_file d) n) as [[[e|[]] n1]|] eqn:E; try done;
    try (intros _; unfold uploadArtifact, reconnect in E; apply reconnect_loop_spec in E as (j & v1 & _ & _ & [(_ & ? & _)|[(_ & Hcall & _)|(_ & ? & _)]]);
      [done|by apply uploadArtifactOnce_ok in Hcall|done]).
  - destruct (_ || _); [done|]. destruct (timer ctx backoff n1) as [fired n2]. by destruct fired.
  - destruct (_ || _); [done|]. destruct (timer ctx backoff n1) as [fired n2]. destruct fired; [|done]. simpl. apply IH.
Qed.

Lemma uploadArtifacts_ok ctx job entries : ∀ logs n logs' n',
  uploadArtifacts wire fuel cfg ctx job entries logs n = Some (inr tt, logs', n') →
  (∀ e, inl e ∉ entries) ∧ ∀ d, inr d ∈ entries → de_regular d = true → confirmed job d.
Proof.
  induction entries as [|[e|d] rest IH]; intros logs n logs' n'; cbn [uploadArtifacts]; [|done|].
  - intros _. split; [intros e|intros d]; by intros ?%elem_of_nil.
  - intros E. assert (Hrest : ∃ l m, uploadArtifacts wire fuel cfg ctx job rest l m = Some (inr tt, logs', n') ∧ (de_regular d = true → confirmed job d)).
    { destruct (de_regular d) eqn:Er; simpl in E; [|by exists logs, n].
      destruct (upload_loop _ _ _ _ _ _ _ _ _ _ n) as [[[e|[]] n1]|] eqn:El; [done| |done]. eexists _, n1. split; [exact E|].
      intros _. by eapply upload_loop_ok. }
    destruct Hrest as (l & m & Hu & Hd). destruct (IH _ _ _ _ Hu) as [H1 H2]. split.
    + intros e [?|Hin]%elem_of_cons; [done|]. by apply (H1 e).
    + intros d' [[= ->]|Hin]%elem_of_cons; [done|]. by apply H2.
Qed.

(** The events of finished uploads are what uploadArtifacts returned for the job of the
    attempt, on the entries [walk k] of its artifact directory. *)
Definition upload_results (walk : nat → list (CErr + DirEntry)) (evs : list AgentEvent) : Prop :=
  ∀ k err, EvUploadDone k err ∈ evs → ∃ job ctx n logs n', handed_out evs !! k = Some job ∧
    uploadArtifacts wire fuel cfg ctx job (walk k) [] n = Some (match err with None => inr tt | Some e => inl e end, logs, n').

(** C24: success is never invented: if the runner reports its [k]-th attempt as succeeded,
    then that attempt is the [k]-th job a claim handed out and the report carries its
    attempt number, its spec was decoded and its executor was run and returned exit code
    0, and, if the spec declares artifacts, the walk of the artifact directory ended
    without error and the server confirmed every regular file in it, by size and digest,
    before the report (the outcome of an attempt's upload being that of uploadArtifacts for
    its job, over any network).  (The directory holds what the executor collected: a declared
    path that the container does not have is skipped there.) *)
Theorem success_is_never_invented walk id evs g k req :
  arun evs (run_start id) = Some g → (k, req) ∈ g_reports g → wp_Status req = statusSucceeded → upload_results walk evs →
  ∃ job pj res, handed_out evs !! k = Some job ∧ wp_Attempt req = cj_Attempt job ∧
    EvSpec k (inr pj) None ∈ evs ∧ EvExecDone k (inr res) ∈ evs ∧ er_ExitCode res = 0 ∧
    (pj_Artifacts pj ≠ [] → EvUploadDone k None ∈ evs ∧ (∀ e, inl e ∉ walk k) ∧
       ∀ d, inr d ∈ walk k → de_regular d = true → confirmed job d).
Proof.
  intros Hrun Hin Hst Hup. assert (H0 : TInv [] (run_start id)).
  { split; [apply AInv_start|done|done|]. by intros ? ? ?%elem_of_nil. }
  destruct (ti_reports _ _ (TInv_run [] evs _ _ H0 Hrun) k req Hin) as [(job & Hjob & Ha) Hs].
  destruct (Hs Hst) as (pj & res & H1 & H2 & H3 & H4). exists job, pj, res. split_and!; try done. intros Hne. specialize (H4 Hne).
  split; [done|]. destruct (Hup k None H4) as (job' & ctx & n & logs & n' & Hjob' & Hu). simpl in Hjob. assert (job' = job) as -> by congruence.
  by eapply uploadArtifacts_ok.
Qed.
End uploads.
End agent.

(** ** A run of one attempt *)

Definition demo_agent : AgentConfig := agent_defaults (mkAgentConfig "http://ci" "s3cret" "box" ∅ 1 "dev" 0 0 0 0 0 0 0).
Definition demo_claimed : claimedJob := mkClaimedJob "j1" "r1" "build" 1 0 0 [].
Definition demo_pjob : PJob := mkPJob "build" "alpine" ["make"] [] ∅ ∅ ["out"] Second (mkResources (SpecFloat.S754_zero false) "").
Definition to_report : list AgentEvent :=
  [EvSlot; EvClaim (inr (Some demo_claimed)); EvRegister 0; EvSpec 0 (inr demo_pjob) None; EvShip 0 (EWrite [104; 105; 33]%N);
   EvExecDone 0 (inr (mkExecResult 0 false 0)); EvUploadDone 0 None; EvCause 0; EvShip 0 EClose; EvShip 0 ECloseStop; EvShip 0 EStop;
   EvShip 0 EStep; EvShip 0 EStep; EvShip 0 (ESend ONil); EvShip 0 EStep; EvShip 0 EStep; EvShip 0 EStep; EvClosed 0].
Definition agent_to (evs : list AgentEvent) : Agent :=
  default (run_start "ra") (agent_run demo_agent (λ _, "error") evs (run_start "ra")).
Definition demo_success : wire_completeRequest := mkWComplete "ra" 1 "succeeded" "" None "".

Definition ran_ok (evs : list AgentEvent) : bool :=
  match agent_run demo_agent (λ _, "error") evs (run_start "ra") with Some _ => true | None => false end.
Lemma agent_to_reachable evs : ran_ok evs = true → areachable demo_agent (λ _, "error") (agent_to evs).
Proof.
  unfold ran_ok, agent_to. destruct (agent_run demo_agent (λ _, "error") evs (run_start "ra")) as [g|] eqn:E; [|done].
  intros _. by exists "ra", evs.
Qed.

Lemma agent_respects_capacity_witness : (size (g_tasks (agent_to to_report)) ≤ 1)%nat.
Proof.
  refine (proj1 (agent_respects_capacity demo_agent (λ _, "error") (agent_to to_report) _)).
  apply agent_to_reachable. vm_compute. reflexivity.
Defined.

Definition demo_ship : option Sys := g_tasks (agent_to to_report) !! 0%nat ≫= t_ship.
Lemma reports_follow_the_last_chunk_witness :
  ∃ y, demo_ship = Some y ∧
    stored_log (w_db (run_ops demo_s ((λ b, OpAppendLogs "j1" 1 (as_logs b)) <$> y_batches y) demo_w)) "j1" 1 = [104; 105; 33]%N.
Proof.
  destruct (reports_follow_the_last_chunk demo_agent (λ _, "error") (agent_to to_report) 0 demo_success [] (agent_to to_report)) as [_ H].
  - apply agent_to_reachable. vm_compute. reflexivity.
  - vm_compute. left.
  - reflexivity.
  - unfold demo_ship. destruct (g_tasks (agent_to to_report) !! 0%nat) as [t|] eqn:Et; [|vm_compute in Et; discriminate].
    destruct (t_ship t) as [y|] eqn:Ey; [|vm_compute in Et; injection Et as <-; discriminate].
    destruct (H t y eq_refl Ey) as (t2 & y2 & E1 & E2 & _ & _ & E4).
    injection E1 as <-. rewrite Ey in E2. injection E2 as <-. exists y. split; [exact Ey|].
    vm_compute in Et. injection Et as <-. vm_compute in Ey. injection Ey as <-.
    etrans; [apply E4|]; first [exact demo_inv|exact demo_clock_pos|vm_compute; reflexivity].
Defined.

Lemma one_valid_report_per_attempt_witness : wp_RunnerID demo_success = "ra".
Proof.
  refine (proj1 (proj2 (one_valid_report_per_attempt demo_agent (λ _, "error") (agent_to to_report) _) 0%nat demo_success _)).
  - apply agent_to_reachable. vm_compute. reflexivity.
  - vm_compute. left.
Defined.

Lemma directives_reach_only_their_attempt_witness :
  ∃ t c, g_tasks (agent_to (take 4 to_report)) !! 0%nat = Some t ∧ c = CCancelled.
Proof.
  destruct (directives_reach_only_their_attempt demo_agent (λ _, "error") (agent_to (take 4 to_report)) (mkDirective "j1" 1 "cancel") 0)
    as (t & c & Et & _ & _ & Hc & _).
  - apply agent_to_reachable. vm_compute. reflexivity.
  - vm_compute. discriminate.
  - exists t, c. split; [exact Et|]. destruct Hc as [[Hx _]|[_ Hx]]; [discriminate Hx|exact Hx].
Defined.

(** A server that confirms any upload, and a directory with one file. *)
#[local] Instance demo_net : Net unit unit := {
  ctx_Err := λ _ _, false;
  http_Do := λ _ _ v, (Reply 201 (mkBody [] None) 2, v);
  timer := λ _ _ v, (true, v);
  open_file := λ _ _, Some (2, [7; 8]%N);
  local_op := λ _ v, (true, v)
}.
Definition up_wire : Wire := mkWire (λ _, []) (λ _, []) (λ _, []) (λ _, []) (λ _, [])
  (λ _, inr "ra") (λ _, inr None) (λ _, inr []) (λ _, inr (mkArtifactReply "out/x" 2 "02")) (λ _, inl "spec") (λ b, [N.of_nat (length b)]).
Definition up_walk (_ : nat) : list (CErr + DirEntry) := [inr (mkDirEntry "out" "/tmp/a/out" false None); inr (mkDirEntry "out/x" "/tmp/a/out/x" true (Some 2))].

Lemma success_is_never_invented_witness :
  ∃ job, handed_out to_report !! 0%nat = Some job ∧ confirmed demo_agent up_wire job (mkDirEntry "out/x" "/tmp/a/out/x" true (Some 2)).
Proof.
  destruct (success_is_never_invented demo_agent (λ _, "error") up_wire 1 up_walk "ra" to_report (agent_to to_report) 0 demo_success)
    as (job & pj & res & Hjob & _ & Hspec & _ & _ & Hup).
  - vm_compute. reflexivity.
  - vm_compute. left.
  - reflexivity.
  - intros k err Hin. repeat (apply elem_of_cons in Hin as [Hin|Hin]; [try discriminate Hin|]); [|by apply elem_of_nil in Hin].
    injection Hin as -> ->. eexists demo_claimed, tt, tt, _, _. split; [reflexivity|]. vm_compute. reflexivity.
  - exists job. split; [exact Hjob|].
    apply Hup; [|unfold up_walk; rewrite !elem_of_cons; auto|reflexivity].
    intros Hn. repeat (apply elem_of_cons in Hspec as [Hspec|Hspec]; [try discriminate Hspec; injection Hspec as ->; discriminate Hn|]).
    by apply elem_of_nil in Hspec.
Defined.
