(* ===== verification/Docker.v ===== *)
(** * The Docker executor: src/internal/executor/docker/docker.go and reap.go

    The daemon and its client library are parameters: a daemon answers each call in
    any way, and its answer may depend on every call made before.  The executor is a
    program over that history, so its calls, their order and the context each one is
    given are what the theorems talk about. *)

From S2P Require Import Prelude GoLib Pipeline Artifact LocalStore LocalSpec DockerFiles Agent.
From Stdlib Require Import Ascii SpecFloat.

Local Open Scope Z_scope.

Definition LabelRunner : string := "quarry.runner".
Definition LabelJob : string := "quarry.job".
Definition LabelRun : string := "quarry.run".
Definition LabelAttempt : string := "quarry.attempt".
Definition scriptPath : string := "quarry/run.sh".
Definition cleanupTimeout : Z := 30 * Second.
Definition killGrace : Z := 10 * Second.

Record JobSpec := mkJobSpec {
  js_JobID : string; js_RunID : string; js_Attempt : Z; js_Job : PJob;
  js_ArtifactDir : option (list string)   (* absolute; None is the empty string *)
}.

(** ** Pure helpers *)

(** [strings.ToLower], on the runes whose lower case is a letter of ASCII: the ASCII
    capitals, U+0130 and U+212A.  Every other rune beyond ASCII stays beyond it, and
    [parseMemory], the only caller, refuses it either way. *)
Fixpoint ToLower (s : string) : string :=
  match s with
  | EmptyString => EmptyString
  | String c s' =>
      let keep := String (if bool_decide (65 ≤ byte_of c ≤ 90)%N then chr (byte_of c + 32) else c) (ToLower s') in
      match s' with
      | String c2 s2 =>
          if bool_decide (byte_of c = 196%N) && bool_decide (byte_of c2 = 176%N) then String "i" (ToLower s2)
          else match s2 with
               | String c3 s3 =>
                   if bool_decide (byte_of c = 226%N) && bool_decide (byte_of c2 = 132%N) && bool_decide (byte_of c3 = 170%N)
                   then String "k" (ToLower s3) else keep
               | _ => keep
               end
      | _ => keep
      end
  end.

(** The switch on the last byte: the multiplier and the text before it. *)
Definition memory_unit (t : string) : Z * string :=
  match CutSuffix t "k" with
  | Some r => (Z.shiftl 1 10, r)
  | None => match CutSuffix t "m" with
            | Some r => (Z.shiftl 1 20, r)
            | None => match CutSuffix t "g" with
                      | Some r => (Z.shiftl 1 30, r)
                      | None => (1, t)
                      end
            end
  end.
Definition parseMemory (s : string) : option Z :=
  let t := TrimSuffix (TrimSuffix (ToLower (TrimSpace s)) "b") "i" in
  let '(mult, t) := memory_unit t in
  match ParseInt t with
  | None => None
  | Some n => if bool_decide (n ≤ 0) then None else Some (int64 (n * mult))
  end.

(** The conversion of a float64 to int64 truncates; out of range its result depends on
    the platform, which is [None] here. *)
Definition int64_of_float (x : spec_float) : option Z :=
  match x with
  | S754_zero _ => Some 0
  | S754_finite s m e =>
      let z := Z.shiftl (Zpos m) e in
      let z := if s : bool then - z else z in
      if bool_decide (in_int64 z) then Some z else None
  | _ => None
  end.
Definition float_1e9 : spec_float := binary_normalize 53 1024 1000000000 0 false.

(** The fields that are set; every other field of the host configuration is zero. *)
Record HostConfig := mkHostConfig {
  hc_Mounts : list (string * string);     (* volume, target *)
  hc_Memory : Z;                          (* 0: no limit *)
  hc_NanoCPUs : option Z                  (* Some 0: no limit *)
}.
Definition hostConfig (vol : string) (r : Resources) : option HostConfig :=
  let mounts := [(vol, workspace)] in
  let cpus := if SFltb float_zero (rs_CPU r) then int64_of_float (SFmul 53 1024 (rs_CPU r) float_1e9) else Some 0 in
  if bool_decide (rs_Memory r = "") then Some (mkHostConfig mounts 0 cpus)
  else match parseMemory (rs_Memory r) with
       | None => None
       | Some b => Some (mkHostConfig mounts b cpus)
       end.

Definition platformEnv : list string := ["CI"; "QUARRY_JOB"; "QUARRY_RUN"; "QUARRY_ATTEMPT"].
Definition sys_env (spec : JobSpec) : gmap string string :=
  list_to_map [("CI", "true"); ("QUARRY_JOB", js_JobID spec); ("QUARRY_RUN", js_RunID spec);
               ("QUARRY_ATTEMPT", Itoa (js_Attempt spec))].
(** [order] is the job's env in the order in which the range over the map visits it. *)
Definition env (order : list (string * string)) (spec : JobSpec) : list string :=
  let sys := sys_env spec in
  omap (λ '(k, v), match sys !! k with Some _ => None | None => Some (k +:+ "=" +:+ v) end) order ++
  map (λ k, k +:+ "=" +:+ default "" (sys !! k)) platformEnv.

(** [strings.ReplaceAll(s, "'", `'\''`)]. *)
Fixpoint escape_quotes (s : string) : string :=
  match s with
  | EmptyString => EmptyString
  | String c s' => if bool_decide (c = "'"%char) then "'\''" +:+ escape_quotes s' else String c (escape_quotes s')
  end.
Definition newline : string := String (chr 10) EmptyString.
Definition script_step (s : string) : string := "echo '+ " +:+ escape_quotes s +:+ "'" +:+ newline +:+ s +:+ newline.
Definition runScript (steps : list string) : string :=
  "#!/bin/sh" +:+ newline +:+ "set -e" +:+ newline +:+ foldr (λ s r, script_step s +:+ r) EmptyString steps.

Fixpoint bytes_of (s : string) : list N :=
  match s with EmptyString => [] | String c s' => byte_of c :: bytes_of s' end.
Definition tarOf (name body : string) : TarStream :=
  mkTarStream [mkTarEntry name TypeReg (Z.of_nat (String.length body)) (mkBody (bytes_of body) None)] false.

Definition attempt_name (spec : JobSpec) : string := "quarry-" +:+ js_JobID spec +:+ "-" +:+ Itoa (js_Attempt spec).
Definition attempt_labels (runner : string) (spec : JobSpec) : gmap string string :=
  list_to_map [(LabelRunner, runner); (LabelJob, js_JobID spec); (LabelRun, js_RunID spec);
               (LabelAttempt, Itoa (js_Attempt spec))].
(** A missing label reads as the empty string. *)
Definition describe (labels : gmap string string) : string :=
  let l k := default "" (labels !! k) in
  "quarry-" +:+ l LabelJob +:+ "-" +:+ l LabelAttempt +:+ " (run " +:+ l LabelRun +:+ ")".

(** ** The daemon *)

(** The context a call is given: the job's, one that outlives its cancellation, or a
    detached one with a timeout. *)
Inductive DCtx := CtxJob | CtxWait | CtxDetached (timeout : Z).
Inductive CtxError := Canceled | DeadlineExceeded.

Record PullMsg := mkPullMsg { pm_Status : string; pm_ID : string; pm_Progress : string; pm_Error : string }.
(** The messages of a pull, and whether the stream then ends or cannot be decoded. *)
Record PullStream := mkPullStream { pl_msgs : list PullMsg; pl_broken : bool }.

Record ContainerConfig := mkContainerConfig {
  cc_Image : string; cc_Cmd : list string; cc_WorkingDir : string; cc_Env : list string; cc_Labels : gmap string string }.

(** What ends the wait for a started container. *)
Inductive WaitEvent :=
  | Exited (status : Z) (error : option string)
  | WaitFailed
  | JobCtxDone.

Inductive CopyOut := CopyNotFound | CopyFailed | CopyTar (t : TarStream).
Inductive SourceReply := SourceError | NoSource | SourceTar (t : TarStream).

Record Item := mkItem { it_ID : string; it_Labels : gmap string string; it_State : string }.

(** The calls, each with its answer. *)
Inductive Ev :=
  | EvImageInspect (c : DCtx) (ref : string) (ok : bool)
  | EvImagePull (c : DCtx) (ref : string) (r : option PullStream)
  | EvVolumeCreate (c : DCtx) (name : string) (labels : gmap string string) (ok : bool)
  | EvVolumeRemove (c : DCtx) (name : string) (force ok : bool)
  | EvContainerCreate (c : DCtx) (cfg : ContainerConfig) (hc : HostConfig) (name : string) (id : option string)
  | EvContainerRemove (c : DCtx) (id : string) (force ok : bool)
  | EvSource (c : DCtx) (runID : string) (r : SourceReply)
  | EvCopyToContainer (c : DCtx) (id dst : string) (t : TarStream) (ok : bool)
  | EvContainerAttach (c : DCtx) (id : string) (ok : bool)
  | EvAttachClose (id : string)                       (* and the demux goroutine joined *)
  | EvContainerWait (c : DCtx) (id : string)          (* registered, for the next exit *)
  | EvContainerStart (c : DCtx) (id : string) (ok : bool)
  | EvAwait (id : string) (r : WaitEvent)             (* the select after the start *)
  | EvContainerKill (c : DCtx) (id signal : string)
  | EvKilled (id : string)                            (* the bounded wait after the kill *)
  | EvContainerInspect (c : DCtx) (id : string) (r : option (option bool))
  | EvCopyFromContainer (c : DCtx) (id src : string) (r : CopyOut)
  | EvContainerList (label : string) (r : option (list Item))
  | EvVolumeList (label : string) (r : option (list Item)).

(** A daemon, the source function, the clock and the job's context: every answer may
    depend on the calls so far. *)
Class Daemon := {
  dk_ctxErr : list Ev → option CtxError;
  dk_ImageInspect : list Ev → DCtx → string → bool;
  dk_ImagePull : list Ev → DCtx → string → option PullStream;
  dk_VolumeCreate : list Ev → DCtx → string → gmap string string → bool;
  dk_VolumeRemove : list Ev → DCtx → string → bool → bool;
  dk_ContainerCreate : list Ev → DCtx → ContainerConfig → HostConfig → string → option string;
  dk_ContainerRemove : list Ev → DCtx → string → bool → bool;
  dk_Source : list Ev → DCtx → string → SourceReply;
  dk_CopyToContainer : list Ev → DCtx → string → string → TarStream → bool;
  dk_ContainerAttach : list Ev → DCtx → string → bool;
  dk_ContainerStart : list Ev → DCtx → string → bool;
  dk_await : list Ev → string → WaitEvent;
  dk_elapsed : list Ev → Z;
  dk_ContainerInspect : list Ev → DCtx → string → option (option bool);
  dk_CopyFromContainer : list Ev → DCtx → string → string → CopyOut;
  dk_ContainerList : list Ev → string → option (list Item);
  dk_VolumeList : list Ev → string → option (list Item);
  dk_env_order : list Ev → gmap string string → list (string * string);   (* the range over a map *)
  dk_files : XFaults                                                     (* the runner's filesystem *)
}.

Inductive XErr := ECtx (e : CtxError) | EDocker (what : string).

(** The calls so far, the runner's files, and the lines the executor itself logs. *)
Record DW := mkDW { dw_trace : list Ev; dw_files : LState; dw_logs : list string }.

(** Early returns carry the named results. *)
Abbreviation Dm := (M DW (ExecResult * XErr)).

Definition zero_result : ExecResult := mkExecResult 0 false 0.

Section executor.
Context `{Daemon}.

Definition say {A} (ask : list Ev → A) (ev : A → Ev) : Dm A := λ w,
  let a := ask (dw_trace w) in (inr a, mkDW (dw_trace w ++ [ev a]) (dw_files w) (dw_logs w)).
Definition logf (line : string) : Dm unit := λ w, (inr tt, mkDW (dw_trace w) (dw_files w) (dw_logs w ++ [line])).
Definition note (ev : Ev) : Dm unit := say (λ _, tt) (λ _, ev).

Definition dfail {A} (res : ExecResult) (e : XErr) : Dm A := λ w, (inl (res, e), w).
(** [orCtx]: the context's error once it is done. *)
Definition orCtx {A} (res : ExecResult) (e : XErr) : Dm A := λ w,
  match dk_ctxErr (dw_trace w) with
  | Some c => (inl (res, ECtx c), w)
  | None => (inl (res, e), w)
  end.
(** An error of a helper, passed through orCtx by Run. *)
Definition through_ctx {A} (res : ExecResult) (m : DW → (string + A) * DW) : Dm A := λ w,
  match m w with
  | (inl what, w') => orCtx res (EDocker what) w'
  | (inr a, w') => (inr a, w')
  end.

(** [return res, ctx.Err()] once the context is known to be done. *)
Definition ctx_fail {A} : Dm A := λ w, (inl (zero_result, ECtx (default Canceled (dk_ctxErr (dw_trace w)))), w).

(** A deferred function that sees the named results. *)
Definition deferred (m : Dm ExecResult) (d : ExecResult → option XErr → Dm unit) : Dm ExecResult := λ w,
  let '(r, w') := m w in
  let '(res, err) := match r with inl (res, e) => (res, Some e) | inr res => (res, None) end in
  (r, (d res err w').2).

(** ** The helpers of Run that talk to the daemon *)

Record Config := mkConfig { cf_RunnerName : string; cf_Source : bool; cf_KeepFailed : bool }.
Definition New (cfg : Config) : Config :=
  if bool_decide (cf_RunnerName cfg = "") then mkConfig "unnamed" (cf_Source cfg) (cf_KeepFailed cfg) else cfg.

Abbreviation Hm := (M DW string).
Definition sayH {A} (ask : list Ev → A) (ev : A → Ev) : Hm A := λ w,
  let a := ask (dw_trace w) in (inr a, mkDW (dw_trace w ++ [ev a]) (dw_files w) (dw_logs w)).
Definition logH (line : string) : Hm unit := λ w, (inr tt, mkDW (dw_trace w) (dw_files w) (dw_logs w ++ [line])).

(** The decode loop of ensureImage. *)
Fixpoint pull_lines (ref : string) (msgs : list PullMsg) (broken : bool) : Hm unit :=
  match msgs with
  | [] => if broken then mthrow ("pull " +:+ ref) else mret tt
  | msg :: msgs' =>
      if bool_decide (pm_Error msg ≠ "") then mthrow ("pull " +:+ ref +:+ ": " +:+ pm_Error msg)
      else
        (if bool_decide (pm_Progress msg ≠ "") || bool_decide (pm_Status msg = "") then mret tt
         else if bool_decide (pm_ID msg ≠ "") then logH ("[quarry] " +:+ pm_ID msg +:+ ": " +:+ pm_Status msg)
         else logH ("[quarry] " +:+ pm_Status msg));;
        pull_lines ref msgs' broken
  end.
Definition ensureImage (ref : string) : Hm unit :=
  ok ← sayH (λ h, dk_ImageInspect h CtxJob ref) (EvImageInspect CtxJob ref);
  if (ok : bool) then mret tt
  else
    logH ("[quarry] pulling image " +:+ ref);;
    rc ← sayH (λ h, dk_ImagePull h CtxJob ref) (EvImagePull CtxJob ref);
    match rc with
    | None => mthrow ("pull " +:+ ref)
    | Some p => pull_lines ref (pl_msgs p) (pl_broken p)
    end.

Definition injectSource (cfg : Config) (id runID : string) : Hm unit :=
  if negb (cf_Source cfg) then mret tt
  else
    src ← sayH (λ h, dk_Source h CtxJob runID) (EvSource CtxJob runID);
    match src with
    | SourceError => mthrow "fetch source"
    | NoSource => mret tt
    | SourceTar t =>
        ok ← sayH (λ h, dk_CopyToContainer h CtxJob id workspace t) (EvCopyToContainer CtxJob id workspace t);
        if (ok : bool) then mret tt else mthrow "copy source"
    end.

(** Unpacking on the runner's files. *)
Definition extractH (t : TarStream) (dest : list string) : DW → (BlobError + Z) * DW := λ w,
  let '(r, fs') := extractArtifact dk_files t dest (dw_files w) in (r, mkDW (dw_trace w) fs' (dw_logs w)).

Fixpoint collectArtifacts (id : string) (dir : list string) (artifacts : list string) : Hm unit :=
  match artifacts with
  | [] => mret tt
  | declared :: rest =>
      match artifactPaths declared with
      | None => mthrow ("invalid artifact path " +:+ declared)
      | Some (rel, src) =>
          rc ← sayH (λ h, dk_CopyFromContainer h CtxJob id src) (EvCopyFromContainer CtxJob id src);
          match rc with
          | CopyNotFound =>
              logH ("[quarry] artifact " +:+ declared +:+ ": not found in container, skipped");;
              collectArtifacts id dir rest
          | CopyFailed => mthrow ("copy artifact " +:+ declared)
          | CopyTar t => λ w,
              match extractH t (artifact_dest dir rel) w with
              | (inl _, w') => (inl ("extract artifact " +:+ declared), w')
              | (inr n, w') =>
                  (logH ("[quarry] artifact " +:+ declared +:+ ": " +:+ Itoa n +:+ " file(s) collected");;
                   collectArtifacts id dir rest) w'
              end
          end
      end
  end.

(** ** Run *)

Definition keep (cfg : Config) (res : ExecResult) (err : option XErr) : bool :=
  cf_KeepFailed cfg && (match err with Some _ => true | None => false end || bool_decide (er_ExitCode res ≠ 0)).

Definition remove_volume (cfg : Config) (name : string) (res : ExecResult) (err : option XErr) : Dm unit :=
  if keep cfg res err then mret tt
  else
    ok ← say (λ h, dk_VolumeRemove h (CtxDetached cleanupTimeout) name true) (EvVolumeRemove (CtxDetached cleanupTimeout) name true);
    if (ok : bool) then mret tt else logf ("[quarry] remove volume " +:+ name).
Definition remove_container (cfg : Config) (name id : string) (res : ExecResult) (err : option XErr) : Dm unit :=
  if keep cfg res err then mret tt
  else
    ok ← say (λ h, dk_ContainerRemove h (CtxDetached cleanupTimeout) id true) (EvContainerRemove (CtxDetached cleanupTimeout) id true);
    if (ok : bool) then mret tt else logf ("[quarry] remove container " +:+ name).

(** From the registration of the wait to the end. *)
Definition run_started (id : string) (spec : JobSpec) : Dm ExecResult :=
  note (EvContainerWait CtxWait id);;
  ok ← say (λ h, dk_ContainerStart h CtxJob id) (EvContainerStart CtxJob id);
  if negb ok then orCtx zero_result (EDocker "start")
  else
    w ← say (λ h, dk_await h id) (EvAwait id);
    match w with
    | WaitFailed => dfail zero_result (EDocker "wait")
    | JobCtxDone =>
        note (EvContainerKill (CtxDetached killGrace) id "KILL");;
        note (EvKilled id);;
        ctx_fail
    | Exited status error =>
        elapsed ← (λ w', (inr (dk_elapsed (dw_trace w')), w'));
        let res := mkExecResult status false elapsed in
        match error with
        | Some msg => dfail res (EDocker ("wait: " +:+ msg))
        | None =>
            info ← say (λ h, dk_ContainerInspect h CtxWait id) (EvContainerInspect CtxWait id);
            let res := match info with Some (Some oom) => mkExecResult status oom elapsed | _ => res end in
            match js_ArtifactDir spec with
            | Some dir =>
                if bool_decide (er_ExitCode res = 0) && negb (bool_decide (pj_Artifacts (js_Job spec) = []))
                then through_ctx res (collectArtifacts id dir (pj_Artifacts (js_Job spec)));; mret res
                else mret res
            | None => mret res
            end
        end
    end.

Definition run_created (cfg : Config) (id : string) (spec : JobSpec) : Dm ExecResult :=
  through_ctx zero_result (injectSource cfg id (js_RunID spec));;
  let script := tarOf scriptPath (runScript (pj_Steps (js_Job spec))) in
  ok ← say (λ h, dk_CopyToContainer h CtxJob id "/" script) (EvCopyToContainer CtxJob id "/" script);
  if negb ok then orCtx zero_result (EDocker "copy run.sh")
  else
    ok ← say (λ h, dk_ContainerAttach h CtxJob id) (EvContainerAttach CtxJob id);
    if negb ok then orCtx zero_result (EDocker "attach")
    else deferred (run_started id spec) (λ _ _, note (EvAttachClose id)).

Definition run_body (cfg : Config) (spec : JobSpec) : Dm ExecResult :=
  let name := attempt_name spec in
  let labels := attempt_labels (cf_RunnerName cfg) spec in
  match hostConfig name (pj_Resources (js_Job spec)) with
  | None => orCtx zero_result (EDocker "resources.memory")
  | Some hc =>
      through_ctx zero_result (ensureImage (pj_Image (js_Job spec)));;
      ok ← say (λ h, dk_VolumeCreate h CtxJob name labels) (EvVolumeCreate CtxJob name labels);
      if negb ok then orCtx zero_result (EDocker "create volume")
      else deferred
        (order ← (λ w, (inr (dk_env_order (dw_trace w) (pj_Env (js_Job spec))), w));
         let cc := mkContainerConfig (pj_Image (js_Job spec)) ["/bin/sh"; "/" +:+ scriptPath] workspace (env order spec) labels in
         created ← say (λ h, dk_ContainerCreate h CtxJob cc hc name) (EvContainerCreate CtxJob cc hc name);
         match created with
         | None => orCtx zero_result (EDocker "create container")
         | Some id => deferred (run_created cfg id spec) (remove_container cfg name id)
         end)
        (remove_volume cfg name)
  end.

(** The named results at the return. *)
Definition Run (cfg : Config) (spec : JobSpec) (w : DW) : (ExecResult * option XErr) * DW :=
  match run_body cfg spec w with
  | (inl (res, e), w') => ((res, Some e), w')
  | (inr res, w') => ((res, None), w')
  end.

(** ** Reap *)

(** Each listed item in turn; a failed removal is logged and the rest goes on. *)
Fixpoint reap_containers (cs : list Item) : Hm unit :=
  match cs with
  | [] => mret tt
  | c :: cs' =>
      ok ← sayH (λ h, dk_ContainerRemove h CtxJob (it_ID c) true) (EvContainerRemove CtxJob (it_ID c) true);
      (if (ok : bool) then logH ("reap: removed orphan container " +:+ describe (it_Labels c) +:+ " (state " +:+ it_State c +:+ ")")
       else logH ("reap: remove container " +:+ describe (it_Labels c)));;
      reap_containers cs'
  end.
Fixpoint reap_volumes (vs : list Item) : Hm unit :=
  match vs with
  | [] => mret tt
  | v :: vs' =>
      ok ← sayH (λ h, dk_VolumeRemove h CtxJob (it_ID v) true) (EvVolumeRemove CtxJob (it_ID v) true);
      (if (ok : bool) then logH ("reap: removed orphan volume " +:+ describe (it_Labels v))
       else logH ("reap: remove volume " +:+ describe (it_Labels v)));;
      reap_volumes vs'
  end.
Definition Reap (cfg : Config) : Hm unit :=
  if cf_KeepFailed cfg then
    logH ("reap: keep_failed set, leaving containers and volumes of runner " +:+ cf_RunnerName cfg)
  else
    let label := LabelRunner +:+ "=" +:+ cf_RunnerName cfg in
    cs ← sayH (λ h, dk_ContainerList h label) (EvContainerList label);
    match cs with
    | None => mthrow "reap: list containers"
    | Some cs =>
        reap_containers cs;;
        vs ← sayH (λ h, dk_VolumeList h label) (EvVolumeList label);
        match vs with
        | None => mthrow "reap: list volumes"
        | Some vs =>
            reap_volumes vs;;
            logH ("reap: runner " +:+ cf_RunnerName cfg +:+ ": " +:+ Itoa (Z.of_nat (length cs)) +:+ " containers, " +:+
                  Itoa (Z.of_nat (length vs)) +:+ " volumes found")
        end
    end.
End executor.
