(* ===== verification/DockerSpec.v ===== *)
(** * Theorems about the Docker executor

    What Run leaves behind, what its result means, where it writes, what Reap
    removes, and the helpers: memory sizes, environment and script. *)

From S2P Require Import Prelude GoLib Pipeline Artifact LocalStore LocalSpec DockerFiles Agent Docker.
From Stdlib Require Import Ascii SpecFloat.

Local Open Scope Z_scope.

(** ** Programs that make only calls of some kind *)

Section only.
Context `{D : Daemon}.

(** Every call of [m] satisfies [Q]. *)
Definition Only {E A} (Q : Ev → Prop) (m : M DW E A) : Prop :=
  ∀ w r w', m w = (r, w') → ∃ t, dw_trace w' = dw_trace w ++ t ∧ Forall Q t.

Lemma only_ret {E A} Q (a : A) : Only (E := E) Q (mret a).
Proof. intros w r w' [= <- <-]. exists []. by rewrite app_nil_r. Qed.

Lemma only_same {E A} Q (m : M DW E A) : (∀ w, dw_trace (m w).2 = dw_trace w) → Only Q m.
Proof. intros Hm w r w' E'. exists []. specialize (Hm w). rewrite E' in Hm. by rewrite app_nil_r. Qed.

Lemma only_bind {E A B} Q (m : M DW E A) (f : A → M DW E B) : Only Q m → (∀ a, Only Q (f a)) → Only Q (m ≫= f).
Proof.
  intros Hm Hf w r w'. destruct (m w) as [[e|a] w1] eqn:E1.
  - rewrite (mbind_err _ _ _ _ _ E1). intros [= <- <-]. by eapply Hm.
  - rewrite (mbind_step _ _ _ _ _ E1). intros E2. destruct (Hm _ _ _ E1) as (t1 & T1 & Q1).
    destruct (Hf _ _ _ _ E2) as (t2 & T2 & Q2). exists (t1 ++ t2). rewrite T2, T1, app_assoc.
    split; [done|]. by apply Forall_app.
Qed.

Lemma only_say {A} (Q : Ev → Prop) (ask : list Ev → A) ev : (∀ a, Q (ev a)) → Only Q (say ask ev).
Proof. intros HQ w r w' [= <- <-]. eexists. split; [done|]. by apply Forall_singleton. Qed.

Lemma only_sayH {A} (Q : Ev → Prop) (ask : list Ev → A) ev : (∀ a, Q (ev a)) → Only Q (sayH ask ev).
Proof. intros HQ w r w' [= <- <-]. eexists. split; [done|]. by apply Forall_singleton. Qed.

Lemma only_orCtx {A} Q res e : Only Q (orCtx (A := A) res e).
Proof. apply only_same. intros w. unfold orCtx. by destruct (dk_ctxErr _). Qed.

Lemma only_through {A} Q res (m : M DW string A) : Only Q m → Only Q (through_ctx res m).
Proof.
  intros Hm w r w'. unfold through_ctx. destruct (m w) as [[e|a] w1] eqn:E1.
  - intros E2. destruct (Hm _ _ _ E1) as (t & T & Qt). apply (only_orCtx Q) in E2 as (t2 & T2 & Q2).
    exists (t ++ t2). rewrite T2, T, app_assoc. split; [done|]. by apply Forall_app.
  - intros [= <- <-]. by eapply Hm.
Qed.

Lemma only_mono {E A} (Q R : Ev → Prop) (m : M DW E A) : (∀ e, Q e → R e) → Only Q m → Only R m.
Proof. intros HQ Hm w r w' E1. destruct (Hm _ _ _ E1) as (t & T & F). exists t. split; [done|]. by eapply Forall_impl. Qed.
End only.

Create HintDb only discriminated.
#[export] Hint Resolve only_ret only_orCtx only_through : only.

(** Walks through a program: binds, branches and calls. *)
Ltac only_step :=
  match goal with
  | |- Only _ (_ ≫= _) => apply only_bind; [|intros]
  | |- Only _ (say _ _) => apply only_say; intros; try done
  | |- Only _ (sayH _ _) => apply only_sayH; intros; try done
  | |- Only _ (note _) => apply only_say; intros; try done
  | |- Only _ (mret _) => apply only_ret
  | |- Only _ (orCtx _ _) => apply only_orCtx
  | |- Only _ (through_ctx _ _) => apply only_through
  | |- Only _ (logf _) => by apply only_same
  | |- Only _ (logH _) => by apply only_same
  | |- Only _ (dfail _ _) => by apply only_same
  | |- Only _ ctx_fail => by apply only_same
  | |- Only _ (mthrow _) => by apply only_same
  | |- Only _ (if ?b then _ else _) => destruct b
  | |- Only _ (match ?x with _ => _ end) => destruct x
  | |- Only _ (λ w, (_, w)) => by apply only_same
  end.
Ltac only_tac := repeat only_step; eauto with only.

(** *** Programs that leave the runner's files alone *)

Section same_files.
Context `{D : Daemon}.

Definition SameFiles {E A} (m : M DW E A) : Prop := ∀ w, dw_files (m w).2 = dw_files w.

Lemma same_files_bind {E A B} (m : M DW E A) (f : A → M DW E B) : SameFiles m → (∀ a, SameFiles (f a)) → SameFiles (m ≫= f).
Proof.
  intros Hm Hf w. specialize (Hm w). unfold mbind, M_bind. destruct (m w) as [[e|a] w1]; [done|]. simpl in *. rewrite <-Hm. apply Hf.
Qed.
Lemma same_files_through {A} res (m : M DW string A) : SameFiles m → SameFiles (through_ctx res m).
Proof.
  intros Hm w. specialize (Hm w). unfold through_ctx, orCtx. destruct (m w) as [[e|a] w1]; [|done]. simpl in *. by destruct (dk_ctxErr _).
Qed.
Lemma same_files_orCtx {A} res e : SameFiles (orCtx (A := A) res e).
Proof. intros w. unfold orCtx. by destruct (dk_ctxErr _). Qed.
End same_files.

Ltac same_files_tac :=
  repeat match goal with
  | |- SameFiles (_ ≫= _) => apply same_files_bind; [|intros]
  | |- SameFiles (orCtx _ _) => apply same_files_orCtx
  | |- SameFiles (through_ctx _ _) => apply same_files_through
  | |- SameFiles (if ?b then _ else _) => destruct b
  | |- SameFiles (match ?x with _ => _ end) => destruct x
  | |- SameFiles _ => by intros ?
  end.

Section helpers.
Context `{D : Daemon}.

Lemma files_pull_lines ref msgs broken : SameFiles (pull_lines ref msgs broken).
Proof. induction msgs as [|m msgs IH]; simpl; same_files_tac; exact IH. Qed.
Lemma files_ensureImage ref : SameFiles (ensureImage ref).
Proof. unfold ensureImage. same_files_tac. apply files_pull_lines. Qed.
Lemma files_injectSource cfg id run : SameFiles (injectSource cfg id run).
Proof. unfold injectSource. same_files_tac. Qed.

(** The calls the helpers of Run make. *)
Definition pull_call (e : Ev) : Prop := match e with EvImageInspect _ _ _ | EvImagePull _ _ _ => True | _ => False end.
Definition source_call (e : Ev) : Prop := match e with EvSource _ _ _ | EvCopyToContainer _ _ _ _ _ => True | _ => False end.
Definition copy_call (e : Ev) : Prop := match e with EvCopyFromContainer _ _ _ _ => True | _ => False end.

Lemma only_pull_lines Q ref msgs broken : Only Q (pull_lines ref msgs broken).
Proof. induction msgs as [|m msgs IH]; simpl; only_tac. Qed.

Lemma only_ensureImage ref : Only pull_call (ensureImage ref).
Proof. unfold ensureImage. only_tac. apply only_pull_lines. Qed.

Lemma only_injectSource cfg id run : Only source_call (injectSource cfg id run).
Proof. unfold injectSource. only_tac. Qed.

Lemma only_collect id dir arts : Only copy_call (collectArtifacts id dir arts).
Proof.
  induction arts as [|a arts IH]; simpl; [only_tac|]. destruct (artifactPaths a) as [[rel src]|]; [|by apply only_same].
  apply only_bind; [by apply only_sayH|]. intros []; [only_tac|by apply only_same|].
  intros w r w'. unfold extractH. destruct (extractArtifact dk_files t (artifact_dest dir rel) (dw_files w)) as [[e|n] fs'].
  - intros [= <- <-]. exists []. by rewrite app_nil_r.
  - intros E. assert (H : Only copy_call (logH ("[quarry] artifact " +:+ a +:+ ": " +:+ Itoa n +:+ " file(s) collected");;
                                         collectArtifacts id dir arts)) by only_tac.
    by apply H in E.
Qed.
End helpers.

(** ** Cleanup *)

(** A removal, as the call that was made. *)
Inductive Removal := RemoveContainer (c : DCtx) (id : string) (force : bool) | RemoveVolume (c : DCtx) (name : string) (force : bool).
Definition removal (e : Ev) : option Removal :=
  match e with
  | EvContainerRemove c id force _ => Some (RemoveContainer c id force)
  | EvVolumeRemove c name force _ => Some (RemoveVolume c name force)
  | _ => None
  end.
Definition created_container (e : Ev) : option string :=
  match e with EvContainerCreate _ _ _ _ (Some id) => Some id | _ => None end.
Definition created_volume (e : Ev) : option string :=
  match e with EvVolumeCreate _ name _ true => Some name | _ => None end.

(** The removals a history calls for: every container created, then every volume,
    forced and under a context the job's cancellation does not reach. *)
Definition owed (t : list Ev) : list Removal :=
  ((λ id, RemoveContainer (CtxDetached cleanupTimeout) id true) <$> omap created_container t) ++
  ((λ v, RemoveVolume (CtxDetached cleanupTimeout) v true) <$> omap created_volume t).

(** Neither creates nor removes. *)
Definition neutral (e : Ev) : Prop :=
  removal e = None ∧ match e with EvContainerCreate _ _ _ _ _ | EvVolumeCreate _ _ _ _ => False | _ => True end.

Lemma neutral_created t : Forall neutral t → omap created_container t = [] ∧ omap created_volume t = [].
Proof. induction 1 as [|e t [_ He] _ [E1 E2]]; [done|]. by destruct e. Qed.

Lemma neutral_removal t : Forall neutral t → Forall (λ e, removal e = None) t.
Proof. intros Ht. eapply Forall_impl; [exact Ht|]. by intros e [? _]. Qed.

Section cleanup.
Context `{D : Daemon} (cfg : Config) (spec : JobSpec).

Lemma only_run_started id : Only neutral (run_started id spec).
Proof.
  unfold run_started. only_tac; try by split. all: eapply only_mono; [|apply only_collect]; by intros [].
Qed.

Lemma only_deferred_note (Q : Ev → Prop) m ev : Q ev → Only Q m → Only Q (deferred m (λ _ _, note ev)).
Proof.
  intros HQ Hm w r w'. unfold deferred. destruct (m w) as [r1 w1] eqn:E1. destruct (Hm _ _ _ E1) as (t & T & F).
  destruct (match r1 with inl (res, e) => _ | inr res => _ end) as [res err].
  intros [= <- <-]. simpl. exists (t ++ [ev]). rewrite T, app_assoc. split; [done|]. apply Forall_app. split; [done|by apply Forall_singleton].
Qed.

Lemma only_run_created id : Only neutral (run_created cfg id spec).
Proof.
  unfold run_created. apply only_bind; [apply only_through; eapply only_mono; [|apply only_injectSource]; by intros []|].
  intros _. apply only_bind; [by apply only_say|]. intros []; simpl; [|only_tac].
  apply only_bind; [by apply only_say|]. intros []; simpl; [|only_tac]. apply only_deferred_note; [done|apply only_run_started].
Qed.

(** What a deferred removal adds. *)
Lemma remove_container_adds name id res err w : ∃ t,
  dw_trace (remove_container cfg name id res err w).2 = dw_trace w ++ t ∧
  (removal <$> t) = if keep cfg res err then [] else [Some (RemoveContainer (CtxDetached cleanupTimeout) id true)].
Proof.
  unfold remove_container. destruct (keep cfg res err); [exists []; by rewrite app_nil_r|].
  unfold mbind, M_bind, say. simpl. by destruct (dk_ContainerRemove _ _ _ _); eexists.
Qed.

Lemma remove_volume_adds name res err w : ∃ t,
  dw_trace (remove_volume cfg name res err w).2 = dw_trace w ++ t ∧
  (removal <$> t) = if keep cfg res err then [] else [Some (RemoveVolume (CtxDetached cleanupTimeout) name true)].
Proof.
  unfold remove_volume. destruct (keep cfg res err); [exists []; by rewrite app_nil_r|].
  unfold mbind, M_bind, say. simpl. by destruct (dk_VolumeRemove _ _ _ _); eexists.
Qed.

(** The named results of a returned value. *)
Definition results (r : (ExecResult * XErr) + ExecResult) : ExecResult * option XErr :=
  match r with inl (res, e) => (res, Some e) | inr res => (res, None) end.

(** [m] makes calls that remove nothing, [P] of them, then exactly the removals they
    call for. *)
Definition tidy (P : list Ev → Prop) (m : Dm ExecResult) : Prop := ∀ w r w', m w = (r, w') →
  ∃ body cleanup, dw_trace w' = dw_trace w ++ body ++ cleanup ∧ Forall (λ e, removal e = None) body ∧
    removal <$> cleanup = Some <$> (if keep cfg (results r).1 (results r).2 then [] else owed body) ∧ P body.

Lemma tidy_cons e t c w w' r : removal e = None → Forall neutral t → dw_trace w' = dw_trace w ++ e :: t ++ c →
  removal <$> c = Some <$> (if keep cfg (results r).1 (results r).2 then [] else owed [e]) →
  ∃ body cleanup, dw_trace w' = dw_trace w ++ body ++ cleanup ∧ Forall (λ e, removal e = None) body ∧
    removal <$> cleanup = Some <$> (if keep cfg (results r).1 (results r).2 then [] else owed body) ∧
    omap created_volume body = omap created_volume [e].
Proof.
  intros He F T C. exists (e :: t), c. destruct (neutral_created t F) as [O1 O2].
  assert (Hc : omap created_container (e :: t) = omap created_container [e]) by (change (e :: t) with ([e] ++ t); by rewrite omap_app, O1, app_nil_r).
  assert (Hv : omap created_volume (e :: t) = omap created_volume [e]) by (change (e :: t) with ([e] ++ t); by rewrite omap_app, O2, app_nil_r).
  unfold owed. rewrite Hc, Hv. split_and!; [done|constructor; [done|by apply neutral_removal]|done|done].
Qed.

Lemma tidy_bind {A} (m : Dm A) (f : A → Dm ExecResult) :
  Only neutral m → (∀ a, tidy (λ _, True) (f a)) → tidy (λ _, True) (m ≫= f).
Proof.
  intros Hm Hf w r w'. destruct (m w) as [[[res e]|a] w1] eqn:E1.
  - rewrite (mbind_err _ _ _ _ _ E1). intros [= <- <-]. destruct (Hm _ _ _ E1) as (t & T & F). exists t, [].
    destruct (neutral_created t F) as [O1 O2]. unfold owed. rewrite app_nil_r, O1, O2.
    split_and!; [done|by apply neutral_removal|by destruct (keep _ _ _)|done].
  - rewrite (mbind_step _ _ _ _ _ E1). intros E2. destruct (Hm _ _ _ E1) as (t & T & F).
    destruct (Hf _ _ _ _ E2) as (body & cleanup & T2 & F2 & C2 & _). exists (t ++ body), cleanup.
    destruct (neutral_created t F) as [O1 O2]. unfold owed. rewrite !omap_app, O1, O2. rewrite T2, T, !app_assoc.
    split_and!; [done|apply Forall_app; split; [by apply neutral_removal|done]|done|done].
Qed.

Lemma deferred_run m d w r w1 : m w = (r, w1) → deferred m d w = (r, (d (results r).1 (results r).2 w1).2).
Proof. intros E. unfold deferred, results. rewrite E. by destruct r as [[res e]|res]. Qed.

(** The container's deferred removal comes first, the volume's after it. *)
Lemma container_tidy cc hc : tidy (λ body, omap created_volume body = [])
  (created ← say (λ h, dk_ContainerCreate h CtxJob cc hc (attempt_name spec)) (EvContainerCreate CtxJob cc hc (attempt_name spec));
   match created with
   | None => orCtx zero_result (EDocker "create container")
   | Some id => deferred (run_created cfg id spec) (remove_container cfg (attempt_name spec) id)
   end).
Proof.
  intros w r w'. unfold say. unfold mbind, M_bind. simpl.
  destruct (dk_ContainerCreate (dw_trace w) CtxJob cc hc (attempt_name spec)) as [id|] eqn:Ec.
  - set (w1 := mkDW _ _ _). destruct (run_created cfg id spec w1) as [r1 w2] eqn:E2. rewrite (deferred_run _ _ _ _ _ E2).
    intros [= <- <-]. destruct (only_run_created id _ _ _ E2) as (t & T & F).
    destruct (remove_container_adds (attempt_name spec) id (results r1).1 (results r1).2 w2) as (c & Tc & Rc).
    apply (tidy_cons (EvContainerCreate CtxJob cc hc (attempt_name spec) (Some id)) t c); [done..| |].
    + rewrite Tc, T. simpl. by rewrite <-!app_assoc.
    + rewrite Rc. by destruct (keep _ _ _).
  - intros E. apply (only_orCtx neutral) in E as (t & T & F).
    apply (tidy_cons (EvContainerCreate CtxJob cc hc (attempt_name spec) None) t []); [done..| |].
    + rewrite T. simpl. by rewrite <-!app_assoc, app_nil_r.
    + by destruct (keep _ _ _).
Qed.

Lemma volume_tidy labels m : tidy (λ body, omap created_volume body = []) m → tidy (λ _, True)
  (ok ← say (λ h, dk_VolumeCreate h CtxJob (attempt_name spec) labels) (EvVolumeCreate CtxJob (attempt_name spec) labels);
   if negb ok then orCtx zero_result (EDocker "create volume") else deferred m (remove_volume cfg (attempt_name spec))).
Proof.
  intros Hm w r w'. unfold say. unfold mbind, M_bind. simpl.
  destruct (dk_VolumeCreate (dw_trace w) CtxJob (attempt_name spec) labels); simpl.
  - set (w1 := mkDW _ _ _). destruct (m w1) as [r1 w2] eqn:E2. rewrite (deferred_run _ _ _ _ _ E2).
    intros [= <- <-]. destruct (Hm _ _ _ E2) as (body & cleanup & T & F & C & Hb).
    destruct (remove_volume_adds (attempt_name spec) (results r1).1 (results r1).2 w2) as (c & Tc & Rc).
    exists (EvVolumeCreate CtxJob (attempt_name spec) labels true :: body), (cleanup ++ c).
    split_and!; [|by constructor| |done].
    + rewrite Tc, T. unfold w1. simpl. by rewrite <-!app_assoc.
    + rewrite fmap_app, C, Rc. destruct (keep _ _ _); [done|]. unfold owed.
      change (EvVolumeCreate CtxJob (attempt_name spec) labels true :: body)
        with ([EvVolumeCreate CtxJob (attempt_name spec) labels true] ++ body).
      rewrite !omap_app, Hb, !fmap_app. cbn. by rewrite !app_nil_r.
  - intros E. apply (only_orCtx neutral) in E as (t & T & F).
    destruct (tidy_cons (EvVolumeCreate CtxJob (attempt_name spec) labels false) t [] w w' r) as (b & c & ? & ? & ? & _);
      [done..| | |by exists b, c].
    + rewrite T. simpl. by rewrite <-!app_assoc, app_nil_r.
    + by destruct (keep _ _ _).
Qed.

Lemma run_body_tidy : tidy (λ _, True) (run_body cfg spec).
Proof.
  unfold run_body. destruct (hostConfig _ _) as [hc|].
  - apply tidy_bind; [apply only_through; eapply only_mono; [|apply only_ensureImage]; by intros []|].
    intros _. apply volume_tidy. intros w r w' E. by apply container_tidy in E.
  - intros w r w' E. apply (only_orCtx neutral) in E as (t & T & F). exists t, []. rewrite app_nil_r.
    destruct (neutral_created t F) as [O1 O2]. unfold owed. rewrite O1, O2.
    split_and!; [done|by apply neutral_removal|by destruct (keep _ _ _)|done].
Qed.
End cleanup.

(** C28: Whatever the daemon answers and however the attempt ends, Run cleans up after
    itself: the calls it makes are a body that removes nothing, followed by exactly
    the forced removal of every container and then of every volume the daemon said it
    had created, under a context that the job's cancellation does not reach; the only
    exception is a failed attempt when KeepFailed is set, of which it removes nothing. *)
Theorem run_cleans_up `{D : Daemon} cfg spec w :
  let '((res, err), w') := Run cfg spec w in
  ∃ body cleanup, dw_trace w' = dw_trace w ++ body ++ cleanup ∧ Forall (λ e, removal e = None) body ∧
    removal <$> cleanup = Some <$> (if keep cfg res err then [] else owed body).
Proof.
  unfold Run. destruct (run_body cfg spec w) as [r w'] eqn:E.
  apply run_body_tidy in E as (body & cleanup & T & F & C & _).
  by destruct r as [[res e]|res]; exists body, cleanup.
Qed.

(** ** What the result means *)

Section contract.
Context `{D : Daemon} (cfg : Config) (spec : JobSpec).

(** How the declared artifacts were dealt with, in order: each was asked of the daemon,
    and was either not in the container and skipped, or unpacked whole into the runner's
    files, which went from [fs] to [fs']. *)
Inductive handled (id : string) (dir : list string) : list string → list Ev → LState → LState → Prop :=
  | handled_nil fs : handled id dir [] [] fs fs
  | handled_skipped a arts rel src t fs fs' : artifactPaths a = Some (rel, src) → handled id dir arts t fs fs' →
      handled id dir (a :: arts) (EvCopyFromContainer CtxJob id src CopyNotFound :: t) fs fs'
  | handled_unpacked a arts rel src ts n t fs fs1 fs' : artifactPaths a = Some (rel, src) →
      extractArtifact dk_files ts (artifact_dest dir rel) fs = (inr n, fs1) → handled id dir arts t fs1 fs' →
      handled id dir (a :: arts) (EvCopyFromContainer CtxJob id src (CopyTar ts) :: t) fs fs'.

Lemma collect_ok id dir arts : ∀ w w', collectArtifacts id dir arts w = (inr tt, w') →
  ∃ t, dw_trace w' = dw_trace w ++ t ∧ handled id dir arts t (dw_files w) (dw_files w').
Proof.
  induction arts as [|a arts IH]; intros w w' E; cbn [collectArtifacts] in E.
  { injection E as <-. exists []. rewrite app_nil_r. split; [done|constructor]. }
  destruct (artifactPaths a) as [[rel src]|] eqn:Ea; [|done]. unfold mbind, M_bind in E. simpl in E.
  set (w1 := mkDW _ _ _) in E. destruct (dk_CopyFromContainer (dw_trace w) CtxJob id src) as [| |ts] eqn:Eh; [|done|].
  - apply IH in E as (t & T & F). exists (EvCopyFromContainer CtxJob id src CopyNotFound :: t). rewrite T. simpl. rewrite <-app_assoc.
    split; [done|]. by apply (handled_skipped id dir a arts rel).
  - unfold extractH in E. destruct (extractArtifact dk_files ts (artifact_dest dir rel) (dw_files w1)) as [[e|n] fs'] eqn:Ex; [done|].
    apply IH in E as (t & T & F). exists (EvCopyFromContainer CtxJob id src (CopyTar ts) :: t). rewrite T. simpl. rewrite <-app_assoc.
    split; [done|]. by apply (handled_unpacked id dir a arts rel src ts n t _ fs').
Qed.

(** The result is what the daemon reported for the started container, to which the
    executor had attached and whose exit it was waiting for before the start. *)
Definition exited_with (t : list Ev) (res : ExecResult) (fs fs' : LState) : Prop := ∃ id before after,
  t = before ++ [EvContainerWait CtxWait id; EvContainerStart CtxJob id true; EvAwait id (Exited (er_ExitCode res) None)] ++ after ∧
  EvContainerAttach CtxJob id true ∈ before ∧
  (er_ExitCode res = 0 → ∀ dir, js_ArtifactDir spec = Some dir →
     ∃ pre copies post, after = pre ++ copies ++ post ∧ handled id dir (pj_Artifacts (js_Job spec)) copies fs fs').

Definition contract (t : list Ev) (r : ExecResult * option XErr) (fs fs' : LState) : Prop :=
  (r.2 = None → exited_with t r.1 fs fs') ∧
  (∀ id, EvAwait id JobCtxDone ∈ t → EvContainerKill (CtxDetached killGrace) id "KILL" ∈ t ∧ ∃ c, r.2 = Some (ECtx c)).

Definition no_await (e : Ev) : Prop := match e with EvAwait _ _ => False | _ => True end.

Lemma no_await_elem t id r : Forall no_await t → EvAwait id r ∉ t.
Proof. intros F H. exact (proj1 (Forall_forall no_await t) F _ H). Qed.

Lemma contract_err t res e fs fs' : Forall no_await t → contract t (res, Some e) fs fs'.
Proof. intros F. split; [done|]. intros id H. by apply no_await_elem in H. Qed.

Lemma contract_mono a t b r fs fs' : Forall no_await a → Forall no_await b → contract t r fs fs' → contract (a ++ t ++ b) r fs fs'.
Proof.
  intros Fa Fb [H1 H2]. split.
  - intros (id & before & after & -> & Hat & Hart)%H1. exists id, (a ++ before), (after ++ b).
    split_and!; [by rewrite <-!app_assoc|set_solver|]. intros H0 dir Hdir. destruct (Hart H0 dir Hdir) as (pre & copies & post & -> & Hh).
    exists pre, copies, (post ++ b). by rewrite <-!app_assoc.
  - intros id [Hi|[Hi|Hi]%elem_of_app]%elem_of_app; [by apply no_await_elem in Hi| |by apply no_await_elem in Hi].
    destruct (H2 id Hi) as [? ?]. split; [set_solver|done].
Qed.

(** [m] meets the contract, after the calls [pre]. *)
Definition meets (m : Dm ExecResult) : Prop := ∀ w r w', m w = (r, w') →
  ∃ t, dw_trace w' = dw_trace w ++ t ∧ contract t (results r) (dw_files w) (dw_files w').

Lemma meets_bind {A} (m : Dm A) (f : A → Dm ExecResult) : Only no_await m → SameFiles m → (∀ a, meets (f a)) → meets (m ≫= f).
Proof.
  intros Hm Hsf Hf w r w'. specialize (Hsf w). destruct (m w) as [[[res e]|a] w1] eqn:E1; destruct (Hm _ _ _ E1) as (t & T & F).
  - rewrite (mbind_err _ _ _ _ _ E1). intros [= <- <-]. exists t. split; [done|]. by apply contract_err.
  - rewrite (mbind_step _ _ _ _ _ E1). intros E2. destruct (Hf _ _ _ _ E2) as (t2 & T2 & C). exists (t ++ t2 ++ []).
    rewrite app_nil_r, T2, T, app_assoc. split; [done|]. rewrite <-(app_nil_r t2). simpl in Hsf. rewrite <-Hsf.
    by apply contract_mono.
Qed.

Lemma meets_fail (m : Dm ExecResult) : Only no_await m → (∀ w, ∃ e, (m w).1 = inl e) → meets m.
Proof.
  intros Hm Hf w r w' E. destruct (Hm _ _ _ E) as (t & T & F). destruct (Hf w) as [[res e] He]. rewrite E in He. simpl in He.
  subst r. exists t. split; [done|]. by apply contract_err.
Qed.

Lemma meets_orCtx res e : meets (orCtx res e).
Proof. apply meets_fail; [apply only_orCtx|]. intros w. unfold orCtx. destruct (dk_ctxErr _); by eexists. Qed.

Lemma meets_deferred m d : meets m → (∀ res err, Only no_await (d res err)) → (∀ res err, SameFiles (d res err)) → meets (deferred m d).
Proof.
  intros Hm Hd Hsf w r w'. destruct (m w) as [r1 w1] eqn:E1. rewrite (deferred_run _ _ _ _ _ E1). intros [= <- <-].
  destruct (Hm _ _ _ E1) as (t & T & C). destruct (d (results r1).1 (results r1).2 w1) as [rd wd] eqn:Ed.
  pose proof (Hsf (results r1).1 (results r1).2 w1) as Hf. rewrite Ed in Hf. simpl in Hf.
  apply Hd in Ed as (t2 & T2 & F). exists ([] ++ t ++ t2). simpl. rewrite T2, T, app_assoc, Hf. split; [done|].
  by apply (contract_mono []).
Qed.

(** The collection of the artifacts at the end. *)
Lemma collect_tail id res w r w' :
  (match js_ArtifactDir spec with
   | Some dir =>
       if bool_decide (er_ExitCode res = 0) && negb (bool_decide (pj_Artifacts (js_Job spec) = []))
       then through_ctx res (collectArtifacts id dir (pj_Artifacts (js_Job spec)));; mret res
       else mret res
   | None => mret res
   end) w = (r, w') →
  ∃ t, dw_trace w' = dw_trace w ++ t ∧ Forall no_await t ∧
    ((∃ e, r = inl e) ∨ r = inr res ∧ (er_ExitCode res = 0 → ∀ dir, js_ArtifactDir spec = Some dir →
       handled id dir (pj_Artifacts (js_Job spec)) t (dw_files w) (dw_files w'))).
Proof.
  assert (Hret : (∀ dir, er_ExitCode res = 0 → js_ArtifactDir spec = Some dir → pj_Artifacts (js_Job spec) = []) →
    (mret res : Dm ExecResult) w = (r, w') → ∃ t, dw_trace w' = dw_trace w ++ t ∧ Forall no_await t ∧
    ((∃ e, r = inl e) ∨ r = inr res ∧ (er_ExitCode res = 0 → ∀ dir, js_ArtifactDir spec = Some dir →
       handled id dir (pj_Artifacts (js_Job spec)) t (dw_files w) (dw_files w')))).
  { intros Hn [= <- <-]. exists []. rewrite app_nil_r. split_and!; [done|constructor|right]. split; [done|].
    intros H0 dir Hd. rewrite (Hn dir) by done. constructor. }
  destruct (js_ArtifactDir spec) as [dir|] eqn:Ed; [|by apply Hret].
  case_bool_decide as H0; [|by apply Hret]. case_bool_decide as H1; simpl; [by apply Hret|]. clear Hret.
  destruct (collectArtifacts id dir (pj_Artifacts (js_Job spec)) w) as [[e|[]] w1] eqn:Ec.
  - assert (Hl : ∃ x, through_ctx res (collectArtifacts id dir (pj_Artifacts (js_Job spec))) w = (inl x, w1)).
    { unfold through_ctx, orCtx. rewrite Ec. destruct (dk_ctxErr _); by eexists. }
    destruct Hl as [x Hl]. rewrite (mbind_err _ _ _ _ _ Hl). intros [= <- <-]. apply only_collect in Ec as (t & T & F).
    exists t. split_and!; [done|by eapply Forall_impl; [exact F|]; intros []|left; by eexists].
  - assert (Hr : through_ctx res (collectArtifacts id dir (pj_Artifacts (js_Job spec))) w = (inr tt, w1)).
    { unfold through_ctx. by rewrite Ec. }
    rewrite (mbind_step _ _ _ _ _ Hr). intros [= <- <-]. pose proof Ec as Eo. apply only_collect in Eo as (t & T & F).
    apply collect_ok in Ec as (t' & T' & Fc). assert (t' = t) as -> by (rewrite T in T'; by apply app_inv_head in T').
    exists t. split_and!; [done|by eapply Forall_impl; [exact F|]; intros []|right]. split; [done|]. by intros _ dir' [= <-].
Qed.

(** Once attached; the error branches after the container exited carry no result. *)
Lemma run_started_contract id w r w' : run_started id spec w = (r, w') →
  ∃ t, dw_trace w' = dw_trace w ++ t ∧ contract (EvContainerAttach CtxJob id true :: t) (results r) (dw_files w) (dw_files w').
Proof.
  unfold run_started, note, say. unfold mbind, M_bind. simpl.
  destruct (dk_ContainerStart _ CtxJob id); simpl.
  2:{ intros E. apply (meets_orCtx zero_result (EDocker "start")) in E as (t & T & C). simpl in T. rewrite <-!app_assoc in T.
      eexists. split; [exact T|]. pose proof (contract_mono
        [EvContainerAttach CtxJob id true; EvContainerWait CtxWait id; EvContainerStart CtxJob id false] t [] (results r) (dw_files w) (dw_files w')) as H.
      rewrite app_nil_r in H. apply H; [repeat constructor|constructor|done]. }
  set (h := (dw_trace w ++ _) ++ _). destruct (dk_await h id) as [status error| |] eqn:Ew; simpl.
  - destruct error as [msg|].
    + intros [= <- <-]. eexists. unfold h. simpl. rewrite <-!app_assoc. split; [done|]. split; [done|].
      intros id' Hi. set_solver.
    + set (el := dk_elapsed _). set (info := dk_ContainerInspect _ CtxWait id). set (w2 := mkDW _ _ _).
      set (res := match info with Some (Some oom) => _ | _ => _ end).
      assert (Hs : er_ExitCode res = status) by (unfold res; by destruct info as [[]|]).
      assert (Hgood : ∀ t fs fs', (status = 0 → ∀ dir, js_ArtifactDir spec = Some dir → handled id dir (pj_Artifacts (js_Job spec)) t fs fs') →
        Forall no_await t → contract (EvContainerAttach CtxJob id true :: [EvContainerWait CtxWait id; EvContainerStart CtxJob id true;
          EvAwait id (Exited status None)] ++ EvContainerInspect CtxWait id info :: t) (res, None) fs fs').
      { intros t fs fs' Hc Hn. split.
        - intros _. exists id, [EvContainerAttach CtxJob id true], (EvContainerInspect CtxWait id info :: t). simpl. rewrite Hs.
          split_and!; [done|left|]. intros H0 dir Hdir. exists [EvContainerInspect CtxWait id info], t, []. rewrite app_nil_r.
          split; [done|]. by apply Hc.
        - intros id' Hi. apply (no_await_elem t id' JobCtxDone) in Hn. set_solver. }
      intros E. apply collect_tail in E as (t & T & Hn & Hr). simpl in T. unfold h in T. rewrite <-!app_assoc in T.
      eexists. split; [exact T|]. destruct Hr as [[[res' e] ->]|[-> Hc]]; [|rewrite Hs in Hc; by apply Hgood].
      split; [done|]. intros id' Hi. apply (no_await_elem t id' JobCtxDone) in Hn. set_solver.
  - intros [= <- <-]. eexists. unfold h. simpl. rewrite <-!app_assoc. split; [done|]. split; [done|]. intros id' Hi. set_solver.
  - intros [= <- <-]. eexists. unfold h. simpl. rewrite <-!app_assoc. split; [done|]. split; [done|]. intros id' Hi.
    simpl in Hi. split; [set_solver|by eexists].
Qed.

Lemma run_created_meets id : meets (run_created cfg id spec).
Proof.
  unfold run_created. apply meets_bind; [apply only_through; eapply only_mono; [|apply only_injectSource]; by intros []|apply same_files_through, files_injectSource|].
  intros _. apply meets_bind; [by apply only_say|by intros ?|]. intros []; simpl; [|apply meets_orCtx].
  intros w r w'. unfold say. unfold mbind, M_bind. simpl. destruct (dk_ContainerAttach _ CtxJob id); simpl.
  - set (w1 := mkDW _ _ _). destruct (run_started id spec w1) as [r1 w2] eqn:E. rewrite (deferred_run _ _ _ _ _ E).
    intros [= <- <-]. apply run_started_contract in E as (t & T & C). exists ([] ++ (EvContainerAttach CtxJob id true :: t) ++ [EvAttachClose id]).
    simpl. rewrite T. unfold w1. simpl. rewrite <-!app_assoc. split; [done|].
    exact (contract_mono [] (EvContainerAttach CtxJob id true :: t) [EvAttachClose id] _ _ _ ltac:(constructor) ltac:(by repeat constructor) C).
  - intros E. apply (meets_orCtx zero_result (EDocker "attach")) in E as (t & T & C). simpl in T. rewrite <-!app_assoc in T.
    eexists. split; [exact T|]. pose proof (contract_mono [EvContainerAttach CtxJob id false] t [] (results r) (dw_files w) (dw_files w')) as H.
    rewrite app_nil_r in H. apply H; [by repeat constructor|constructor|done].
Qed.

Lemma only_remove_container name id res err : Only no_await (remove_container cfg name id res err).
Proof. unfold remove_container. only_tac. Qed.
Lemma only_remove_volume name res err : Only no_await (remove_volume cfg name res err).
Proof. unfold remove_volume. only_tac. Qed.

Lemma files_remove_container name id res err : SameFiles (remove_container cfg name id res err).
Proof. unfold remove_container. same_files_tac. Qed.
Lemma files_remove_volume name res err : SameFiles (remove_volume cfg name res err).
Proof. unfold remove_volume. same_files_tac. Qed.

Lemma run_body_meets : meets (run_body cfg spec).
Proof.
  unfold run_body. destruct (hostConfig _ _) as [hc|]; [|apply meets_orCtx].
  apply meets_bind; [apply only_through; eapply only_mono; [|apply only_ensureImage]; by intros []|apply same_files_through, files_ensureImage|]. intros _.
  apply meets_bind; [by apply only_say|by intros ?|]. intros []; simpl; [|apply meets_orCtx].
  apply meets_deferred; [|apply only_remove_volume|apply files_remove_volume]. apply meets_bind; [by apply only_same|by intros ?|]. intros order.
  apply meets_bind; [by apply only_say|by intros ?|]. intros [id|]; [|apply meets_orCtx].
  apply meets_deferred; [apply run_created_meets|apply only_remove_container|apply files_remove_container].
Qed.
End contract.

(** C29: The executor's contract.  A nil error means that the container was started
    after Run had attached to its output and registered for its exit, and that the daemon
    reported exactly the exit code returned.  After exit code 0 (and with a directory for
    them) the declared artifacts were then dealt with in order: each was copied out of that
    container, and either the daemon said it has no such path, and it was skipped, or its
    tar was unpacked whole; the runner's files are what these unpackings made of them, in
    that order, and nothing else.  When the context ends first, Run kills the container
    under a context of its own and returns the context's error. *)
Theorem run_result_is_the_containers `{D : Daemon} cfg spec w :
  let '(r, w') := Run cfg spec w in
  ∃ t, dw_trace w' = dw_trace w ++ t ∧ contract spec t r (dw_files w) (dw_files w').
Proof.
  unfold Run. destruct (run_body cfg spec w) as [r w'] eqn:E. apply run_body_meets in E as (t & T & C).
  destruct r as [[res e]|res]; by exists t.
Qed.

(** ** Where Run writes *)

Section files.
Context `{D : Daemon} (dir : list string).

(** The runner's directory stays a directory of a tree, and nothing outside it changes. *)
Definition tree_ok (w : DW) : Prop := fs_wf (l_fs (dw_files w)) ∧ node (l_fs (dw_files w)) (Clean dir) = Some Dir.
Definition outside (p : list string) : Prop := ∀ q, q ≠ [] → p ≠ Clean dir ++ q.
Definition confined (w w' : DW) : Prop :=
  tree_ok w → tree_ok w' ∧ ∀ p, outside p → l_fs (dw_files w') !! p = l_fs (dw_files w) !! p.
Definition Confined {E A} (m : M DW E A) : Prop := ∀ w r w', m w = (r, w') → confined w w'.

Lemma confined_trans w1 w2 w3 : confined w1 w2 → confined w2 w3 → confined w1 w3.
Proof. intros H1 H2 [T2 E2]%H1. destruct (H2 T2) as [T3 E3]. split; [done|]. intros p Hp. by rewrite E3, E2. Qed.

Lemma confined_files {E A} (m : M DW E A) : (∀ w, dw_files (m w).2 = dw_files w) → Confined m.
Proof. intros Hm w r w' E1. specialize (Hm w). rewrite E1 in Hm. simpl in Hm. unfold confined, tree_ok. by rewrite Hm. Qed.

Lemma confined_bind {E A B} (m : M DW E A) (f : A → M DW E B) : Confined m → (∀ a, Confined (f a)) → Confined (m ≫= f).
Proof.
  intros Hm Hf w r w'. destruct (m w) as [[e|a] w1] eqn:E1; [rewrite (mbind_err _ _ _ _ _ E1)|rewrite (mbind_step _ _ _ _ _ E1)].
  - intros [= <- <-]. by eapply Hm.
  - intros E2. eapply confined_trans; [by eapply Hm|by eapply Hf].
Qed.

Lemma confined_through {A} res (m : M DW string A) : Confined m → Confined (through_ctx res m).
Proof.
  intros Hm w r w'. unfold through_ctx, orCtx. destruct (m w) as [[e|a] w1] eqn:E1; [destruct (dk_ctxErr _)|];
    intros [= <- <-]; by eapply Hm.
Qed.

Lemma confined_orCtx {A} res e : Confined (orCtx (A := A) res e).
Proof. apply confined_files. intros w. unfold orCtx. by destruct (dk_ctxErr _). Qed.

Lemma confined_deferred m d : Confined m → (∀ res err, Confined (d res err)) → Confined (deferred m d).
Proof.
  intros Hm Hd w r w'. destruct (m w) as [r1 w1] eqn:E1. rewrite (deferred_run _ _ _ _ _ E1). intros [= <- <-].
  destruct (d (results r1).1 (results r1).2 w1) as [rd wd] eqn:Ed. simpl. eapply confined_trans; [by eapply Hm|by eapply Hd].
Qed.

Lemma confined_extract dl rel src t : artifactPaths dl = Some (rel, src) → ∀ rest : M DW string unit, Confined rest →
  Confined (λ w, match extractH t (artifact_dest dir rel) w with
                 | (inl _, w') => (inl ("extract artifact " +:+ dl), w')
                 | (inr n, w') => (logH ("[quarry] artifact " +:+ dl +:+ ": " +:+ Itoa n +:+ " file(s) collected");; rest) w'
                 end : (string + unit) * DW).
Proof.
  intros Ha rest Hrest w r w'. unfold extractH.
  destruct (extractArtifact dk_files t (artifact_dest dir rel) (dw_files w)) as [re fs'] eqn:E.
  assert (Hx : confined w (mkDW (dw_trace w) fs' (dw_logs w))).
  { intros [Hwf Hd]. destruct (extract_confined _ _ _ _ _ _ _ _ _ Hwf Hd Ha E) as [Hwf' Hp]. split; [|done].
    split; [done|]. simpl. destruct (Clean dir) as [|x l] eqn:Ec; [done|]. simpl. rewrite Hp; [done|].
    intros q Hq Eq. apply (f_equal length) in Eq. rewrite length_app in Eq. destruct q; [done|]. simpl in Eq. lia. }
  destruct re as [e|n]; [by intros [= <- <-]|]. intros E2. eapply confined_trans; [exact Hx|].
  assert (Hl : ∀ line, Confined (logH line;; rest)) by (intros; apply confined_bind; [by apply confined_files|done]).
  by apply Hl in E2.
Qed.
End files.

Ltac confined_step :=
  match goal with
  | |- Confined _ (_ ≫= _) => apply confined_bind; [|intros]
  | |- Confined _ (through_ctx _ _) => apply confined_through
  | |- Confined _ (orCtx _ _) => apply confined_orCtx
  | |- Confined _ (deferred _ _) => apply confined_deferred; [|intros]
  | |- Confined _ (if ?b then _ else _) => destruct b
  | |- Confined _ (match ?x with _ => _ end) => destruct x eqn:?
  | |- Confined _ _ => by apply confined_files
  end.
Ltac confined_tac := repeat confined_step.

Section files_run.
Context `{D : Daemon} (dir : list string).

Lemma confined_pull_lines ref msgs broken : Confined dir (pull_lines ref msgs broken).
Proof. induction msgs as [|m msgs IH]; simpl; confined_tac; try done. Qed.

Lemma confined_collect id arts : Confined dir (collectArtifacts id dir arts).
Proof.
  induction arts as [|a arts IH]; cbn [collectArtifacts]; [confined_tac|].
  destruct (artifactPaths a) as [[rel src]|] eqn:Ea; [|confined_tac]. apply confined_bind; [confined_tac|].
  intros [| |t]; [confined_tac; exact IH|confined_tac|]. exact (confined_extract dir a rel src t Ea _ IH).
Qed.

Lemma confined_run cfg spec : js_ArtifactDir spec = Some dir → Confined dir (run_body cfg spec).
Proof.
  intros Hd. unfold run_body, ensureImage, run_created, injectSource, run_started, remove_container, remove_volume.
  rewrite Hd. confined_tac; first [apply confined_pull_lines|apply confined_collect].
Qed.
End files_run.

(** C30: On the runner's host Run writes only below the attempt's artifact directory,
    whatever paths the pipeline declares and whatever tar streams come out of the
    container: every other path, and the directory itself, is as it was. *)
Theorem run_writes_only_below_the_artifact_dir `{D : Daemon} cfg spec dir w p :
  js_ArtifactDir spec = Some dir → fs_wf (l_fs (dw_files w)) → node (l_fs (dw_files w)) (Clean dir) = Some Dir →
  (∀ q, q ≠ [] → p ≠ Clean dir ++ q) →
  l_fs (dw_files (Run cfg spec w).2) !! p = l_fs (dw_files w) !! p.
Proof.
  intros Hdir Hwf Hd Hp. unfold Run. destruct (run_body cfg spec w) as [r w'] eqn:E.
  apply (confined_run dir cfg spec Hdir) in E. destruct (E (conj Hwf Hd)) as [_ Hsame].
  destruct r as [[res e]|res]; by apply Hsame.
Qed.

(** A daemon that says yes to everything and returns one tar; its listings name what
    it has created under the label. *)
Definition runner_label (labels : gmap string string) : string := LabelRunner +:+ "=" +:+ default "" (labels !! LabelRunner).
Definition listed_container (label : string) (e : Ev) : option Item :=
  match e with
  | EvContainerCreate _ cc _ _ (Some id) =>
      if bool_decide (runner_label (cc_Labels cc) = label) then Some (mkItem id (cc_Labels cc) "exited") else None
  | _ => None
  end.
Definition listed_volume (label : string) (e : Ev) : option Item :=
  match e with
  | EvVolumeCreate _ name labels true =>
      if bool_decide (runner_label labels = label) then Some (mkItem name labels "") else None
  | _ => None
  end.
Definition kind_daemon : Daemon := {|
  dk_ctxErr _ := None; dk_ImageInspect _ _ _ := true; dk_ImagePull _ _ _ := None; dk_VolumeCreate _ _ _ _ := true;
  dk_VolumeRemove _ _ _ _ := true; dk_ContainerCreate _ _ _ _ _ := Some "c1"; dk_ContainerRemove _ _ _ _ := true;
  dk_Source _ _ _ := NoSource; dk_CopyToContainer _ _ _ _ _ := true; dk_ContainerAttach _ _ _ := true;
  dk_ContainerStart _ _ _ := true; dk_await _ _ := Exited 0 None; dk_elapsed _ := 5; dk_ContainerInspect _ _ _ := None;
  dk_CopyFromContainer _ _ _ _ := CopyTar tar_dist;
  dk_ContainerList h label := Some (omap (listed_container label) h);
  dk_VolumeList h label := Some (omap (listed_volume label) h);
  dk_env_order _ m := map_to_list m; dk_files := no_xfaults |}.

Definition ok_pjob : PJob := mkPJob "build" "alpine" ["make"] [] ∅ ∅ ["dist"] 0 (mkResources float_zero "512m").
Definition ok_spec : JobSpec := mkJobSpec "j1" "r1" 1 ok_pjob (Some ["srv"; "data"]).
Definition ok_dw : DW := mkDW [] (mkLState demo_fs []) [].

Example kind_run :
  (@Run kind_daemon (mkConfig "ra" true false) ok_spec ok_dw).1 = (mkExecResult 0 false 5, None) ∧
  l_fs (dw_files (@Run kind_daemon (mkConfig "ra" true false) ok_spec ok_dw).2) !! ["srv"; "data"; "dist"; "app.bin"] = Some (File [7%N; 8%N]).
Proof. vm_compute. done. Qed.

Lemma run_writes_only_below_the_artifact_dir_witness :
  l_fs (dw_files (@Run kind_daemon (mkConfig "ra" true false) ok_spec ok_dw).2) !! ["etc"; "passwd"] = None.
Proof.
  apply (@run_writes_only_below_the_artifact_dir kind_daemon (mkConfig "ra" true false) ok_spec ["srv"; "data"] ok_dw ["etc"; "passwd"]).
  - reflexivity.
  - apply demo_wf.
  - vm_compute. reflexivity.
  - intros q _. discriminate.
Defined.

(** ** Reaping *)

Section reap.
Context `{D : Daemon}.

(** The daemon's listings are complete: a container or volume it created with the
    runner's label and has not removed is listed. *)
Record honest_listings : Prop := {
  hl_containers : ∀ h c cc hc n id items, EvContainerCreate c cc hc n (Some id) ∈ h →
    (∀ c' f, EvContainerRemove c' id f true ∉ h) →
    dk_ContainerList h (runner_label (cc_Labels cc)) = Some items → id ∈ it_ID <$> items;
  hl_volumes : ∀ h c name labels items, EvVolumeCreate c name labels true ∈ h →
    (∀ c' f, EvVolumeRemove c' name f true ∉ h) →
    dk_VolumeList h (runner_label labels) = Some items → name ∈ it_ID <$> items
}.

Definition reaped_container (i : string) (e : Ev) : Prop := ∃ ok, e = EvContainerRemove CtxJob i true ok.
Definition reaped_volume (i : string) (e : Ev) : Prop := ∃ ok, e = EvVolumeRemove CtxJob i true ok.

Lemma reap_containers_adds cs : ∀ w, ∃ t w', reap_containers cs w = (inr tt, w') ∧ dw_trace w' = dw_trace w ++ t ∧
  Forall2 reaped_container (it_ID <$> cs) t.
Proof.
  induction cs as [|c cs IH]; intros w.
  - exists [], w. rewrite app_nil_r. by split_and!.
  - cbn [reap_containers]. unfold mbind, M_bind. simpl. set (ok := dk_ContainerRemove _ _ _ _). set (w1 := mkDW _ _ _).
    set (line := if ok then _ else _). assert (∃ l, (if ok then logH ("reap: removed orphan container " +:+ describe (it_Labels c) +:+ " (state " +:+ it_State c +:+ ")")
       else logH ("reap: remove container " +:+ describe (it_Labels c))) w1 = (inr tt, mkDW (dw_trace w1) (dw_files w1) l)) as [l Hl].
    { destruct ok; by eexists. }
    unfold line. rewrite Hl. destruct (IH (mkDW (dw_trace w1) (dw_files w1) l)) as (t & w' & E & T & F).
    exists (EvContainerRemove CtxJob (it_ID c) true ok :: t), w'. split_and!; [done|rewrite T; simpl; by rewrite <-app_assoc|].
    constructor; [by exists ok|done].
Qed.

Lemma reap_volumes_adds vs : ∀ w, ∃ t w', reap_volumes vs w = (inr tt, w') ∧ dw_trace w' = dw_trace w ++ t ∧
  Forall2 reaped_volume (it_ID <$> vs) t.
Proof.
  induction vs as [|v vs IH]; intros w.
  - exists [], w. rewrite app_nil_r. by split_and!.
  - cbn [reap_volumes]. unfold mbind, M_bind. simpl. set (ok := dk_VolumeRemove _ _ _ _). set (w1 := mkDW _ _ _).
    set (line := if ok then _ else _). assert (∃ l, (if ok then logH ("reap: removed orphan volume " +:+ describe (it_Labels v))
       else logH ("reap: remove volume " +:+ describe (it_Labels v))) w1 = (inr tt, mkDW (dw_trace w1) (dw_files w1) l)) as [l Hl].
    { destruct ok; by eexists. }
    unfold line. rewrite Hl. destruct (IH (mkDW (dw_trace w1) (dw_files w1) l)) as (t & w' & E & T & F).
    exists (EvVolumeRemove CtxJob (it_ID v) true ok :: t), w'. split_and!; [done|rewrite T; simpl; by rewrite <-app_assoc|].
    constructor; [by exists ok|done].
Qed.

(** Everything Run creates carries the runner's label. *)
Definition labelled (label : string) (e : Ev) : Prop :=
  match e with
  | EvContainerCreate _ cc _ _ _ => runner_label (cc_Labels cc) = label
  | EvVolumeCreate _ _ labels _ => runner_label labels = label
  | _ => True
  end.

Lemma neutral_labelled l e : neutral e → labelled l e.
Proof. intros [_ He]. by destruct e. Qed.

Lemma only_deferred Q m d : Only Q m → (∀ res err, Only Q (d res err)) → Only Q (deferred m d).
Proof.
  intros Hm Hd w r w'. destruct (m w) as [r1 w1] eqn:E1. rewrite (deferred_run _ _ _ _ _ E1). intros [= <- <-].
  destruct (d (results r1).1 (results r1).2 w1) as [rd wd] eqn:Ed. destruct (Hm _ _ _ E1) as (t1 & T1 & F1).
  destruct (Hd _ _ _ _ _ Ed) as (t2 & T2 & F2). exists (t1 ++ t2). simpl. rewrite T2, T1, app_assoc.
  split; [done|by apply Forall_app].
Qed.

Lemma run_labels cfg spec : Only (labelled (LabelRunner +:+ "=" +:+ cf_RunnerName cfg)) (run_body cfg spec).
Proof.
  assert (Hl : runner_label (attempt_labels (cf_RunnerName cfg) spec) = LabelRunner +:+ "=" +:+ cf_RunnerName cfg).
  { unfold runner_label, attempt_labels. simpl. by rewrite lookup_insert_eq. }
  unfold run_body. destruct (hostConfig _ _) as [hc|]; [|apply only_orCtx].
  apply only_bind; [apply only_through; eapply only_mono; [|apply only_ensureImage]; by intros []|]. intros _.
  apply only_bind; [by apply only_say|]. intros []; simpl; [|apply only_orCtx]. apply only_deferred.
  - apply only_bind; [by apply only_same|]. intros order. apply only_bind; [by apply only_say|].
    intros [id|]; [|apply only_orCtx]. apply only_deferred.
    + eapply only_mono; [apply neutral_labelled|apply only_run_created].
    + intros. unfold remove_container. only_tac.
  - intros. unfold remove_volume. only_tac.
Qed.

(** Reaping finishes the cleanup of a runner that died.  Cut the calls of any
    attempt at any point ([h] is what it had done) and let the restarted runner reap:
    if the listings succeed and are complete, every container the attempt had created
    and not removed is force-removed, and after all containers every volume it had
    created and not removed is; a removal that fails does not stop the others. *)
Theorem reap_removes_what_a_crash_left cfg spec w h w2 w3 :
  honest_listings → cf_KeepFailed cfg = false →
  (dw_trace w ++ h) `prefix_of` dw_trace (Run cfg spec w).2 → dw_trace w2 = dw_trace w ++ h → Reap cfg w2 = (inr tt, w3) →
  ∃ lc rc lv rv, dw_trace w3 = dw_trace w2 ++ lc :: rc ++ lv :: rv ∧
    (∀ c cc hc n id, EvContainerCreate c cc hc n (Some id) ∈ h → (∀ c' f, EvContainerRemove c' id f true ∉ dw_trace w2) →
       ∃ ok, EvContainerRemove CtxJob id true ok ∈ rc) ∧
    (∀ c name labels, EvVolumeCreate c name labels true ∈ h → (∀ c' f ok, EvVolumeRemove c' name f ok ∉ dw_trace w2) →
       ∃ ok, EvVolumeRemove CtxJob name true ok ∈ rv).
Proof.
  intros [Hlc Hlv] Hk [rest Hpre] T2. unfold Reap. rewrite Hk. set (label := LabelRunner +:+ "=" +:+ cf_RunnerName cfg).
  assert (Hlab : ∀ e, e ∈ h → labelled label e).
  { unfold Run in Hpre. destruct (run_body cfg spec w) as [r w'] eqn:E. apply run_labels in E as (t & T & F).
    assert (Et : dw_trace w ++ t = dw_trace w ++ h ++ rest).
    { rewrite <-T, app_assoc. destruct r as [[]|]; simpl in Hpre; by rewrite <-Hpre. }
    apply app_inv_head in Et. intros e He. rewrite Forall_forall in F. apply F. rewrite Et. apply elem_of_app. by left. }
  unfold mbind, M_bind. simpl. destruct (dk_ContainerList (dw_trace w2) label) as [cs|] eqn:Ec; [|done].
  set (w4 := mkDW _ _ _). destruct (reap_containers_adds cs w4) as (rc & w5 & -> & T5 & F5).
  destruct (dk_VolumeList (dw_trace w5) label) as [vs|] eqn:Ev; [|done]. set (w6 := mkDW _ _ _).
  destruct (reap_volumes_adds vs w6) as (rv & w7 & -> & T7 & F7). intros [= <-]. simpl.
  exists (EvContainerList label (Some cs)), rc, (EvVolumeList label (Some vs)), rv. split_and!.
  - rewrite T7. simpl. rewrite T5. simpl. by rewrite <-!app_assoc.
  - intros c cc hc n id Hin Hnot. pose proof (Hlab _ Hin) as Hl. simpl in Hl. rewrite <-Hl in Ec.
    assert (Hid : id ∈ it_ID <$> cs) by (apply (Hlc (dw_trace w2) c cc hc n); [rewrite T2; apply elem_of_app; by right|done|done]).
    apply list_elem_of_lookup in Hid as [i Hi]. destruct (Forall2_lookup_l _ _ _ _ _ F5 Hi) as (e & He & ok & ->).
    exists ok. by eapply list_elem_of_lookup_2.
  - intros c name labels Hin Hnot. pose proof (Hlab _ Hin) as Hl. simpl in Hl. rewrite <-Hl in Ev.
    assert (Hid : name ∈ it_ID <$> vs).
    { unfold w4 in T5. simpl in T5. apply (Hlv (dw_trace w5) c name labels); [|intros c' f Hr|exact Ev].
      - rewrite T5, T2. set_solver.
      - rewrite T5 in Hr. apply elem_of_app in Hr as [[Hr|Hr]%elem_of_app|Hr].
        + by apply (Hnot c' f true).
        + apply list_elem_of_singleton in Hr. done.
        + apply list_elem_of_lookup in Hr as [i Hi]. destruct (Forall2_lookup_r _ _ _ _ _ F5 Hi) as (x & _ & ok & Hx). done. }
    apply list_elem_of_lookup in Hid as [i Hi]. destruct (Forall2_lookup_l _ _ _ _ _ F7 Hi) as (e & He & ok & ->).
    exists ok. by eapply list_elem_of_lookup_2.
Qed.
End reap.

Lemma kind_honest : @honest_listings kind_daemon.
Proof.
  split; simpl.
  - intros h c cc hc n id items Hin _ [= <-]. apply list_elem_of_fmap. exists (mkItem id (cc_Labels cc) "exited").
    split; [done|]. apply list_elem_of_omap. eexists. split; [exact Hin|]. simpl. by rewrite bool_decide_eq_true_2.
  - intros h c name labels items Hin _ [= <-]. apply list_elem_of_fmap. exists (mkItem name labels "").
    split; [done|]. apply list_elem_of_omap. eexists. split; [exact Hin|]. simpl. by rewrite bool_decide_eq_true_2.
Qed.

(** The runner dies after the start of the container. *)
Definition cut_trace : list Ev := take 7 (dw_trace (@Run kind_daemon (mkConfig "ra" true false) ok_spec ok_dw).2).
Definition cut_dw : DW := mkDW cut_trace (mkLState demo_fs []) [].

(** Finding an event of a concrete history by computation. *)
Lemma creates_by_check l i : existsb (λ e, bool_decide (created_container e = Some i)) l = true →
  ∃ c cc hc n, EvContainerCreate c cc hc n (Some i) ∈ l.
Proof.
  intros (e & He%list_elem_of_In & Hce%bool_decide_eq_true)%existsb_exists.
  destruct e; try discriminate. simpl in Hce. destruct id as [j|]; [|discriminate]. injection Hce as ->. eauto.
Qed.
Lemma no_removal_by_check l : forallb (λ e, match removal e with Some _ => false | None => true end) l = true →
  ∀ c i f ok, EvContainerRemove c i f ok ∉ l.
Proof. intros H c i f ok Hr%list_elem_of_In. rewrite forallb_forall in H. apply H in Hr. discriminate. Qed.

Lemma reap_removes_what_a_crash_left_witness :
  ∃ lc rc lv rv, dw_trace (@Reap kind_daemon (mkConfig "ra" true false) cut_dw).2 = cut_trace ++ lc :: rc ++ lv :: rv ∧
    ∃ ok, EvContainerRemove CtxJob "c1" true ok ∈ rc.
Proof.
  destruct (@reap_removes_what_a_crash_left kind_daemon (mkConfig "ra" true false) ok_spec ok_dw cut_trace cut_dw
              (@Reap kind_daemon (mkConfig "ra" true false) cut_dw).2) as (lc & rc & lv & rv & T & Hc & _).
  - apply kind_honest.
  - reflexivity.
  - apply prefix_take.
  - reflexivity.
  - vm_compute. reflexivity.
  - exists lc, rc, lv, rv. split; [exact T|].
    destruct (creates_by_check cut_trace "c1") as (c & cc & hc & n & He); [vm_compute; reflexivity|].
    apply (Hc c cc hc n "c1" He). intros c' f. apply no_removal_by_check. vm_compute. reflexivity.
Defined.
