(* ===== verification/DockerHelpers.v ===== *)
(** * Theorems about the pure helpers of the Docker executor

    Memory sizes, the job's environment and the generated script. *)

From S2P Require Import Prelude GoLib Pipeline Artifact LocalStore LocalSpec Router DockerFiles Agent Docker.
From stdpp Require Import pretty.
From Stdlib Require Import Ascii.

Local Open Scope Z_scope.

(** ** The script *)

(** How a POSIX shell reads one word of input: single quotes take everything literally,
    a backslash outside them takes the next byte, an unquoted newline ends the word. *)
Fixpoint sh_word (s : string) (quoted : bool) : option (string * string) :=
  match s with
  | EmptyString => None
  | String c s' =>
      if bool_decide (c = "'"%char) then sh_word s' (negb quoted)
      else if quoted then prod_map (String c) id <$> sh_word s' true
      else if bool_decide (c = "\"%char) then
        match s' with
        | EmptyString => None
        | String d s'' => prod_map (String d) id <$> sh_word s'' false
        end
      else if bool_decide (c = chr 10) then Some (EmptyString, s')
      else prod_map (String c) id <$> sh_word s' false
  end.

Lemma sh_word_escaped s rest : sh_word (escape_quotes s +:+ "'" +:+ newline +:+ rest) true = Some (s, rest).
Proof.
  set (tl := "'" +:+ newline +:+ rest). assert (Htl : sh_word tl true = Some ("", rest)) by reflexivity.
  clearbody tl. induction s as [|c s IH]; [exact Htl|]. cbn [escape_quotes]. case_bool_decide as Hc.
  - subst c. assert (E : ("'\''" +:+ escape_quotes s) +:+ tl =
      String "'" (String "\" (String "'" (String "'" (escape_quotes s +:+ tl))))) by reflexivity.
    rewrite E. simpl. by rewrite IH.
  - rewrite append_cons. simpl. rewrite bool_decide_eq_false_2 by done. by rewrite IH.
Qed.

(** The script echoes every step exactly as written before running it, whatever
    quotes, backslashes or newlines the step contains: after the command name the
    shell reads one word, "+ " and the step, and what it reads next is the step
    itself, verbatim, on lines of its own. *)
Theorem script_echoes_each_step steps before s after :
  steps = before ++ s :: after →
  ∃ head tail, runScript steps = head +:+ "echo " +:+ tail ∧
    sh_word tail false = Some ("+ " +:+ s, s +:+ newline +:+ foldr (λ s r, script_step s +:+ r) EmptyString after).
Proof.
  intros ->. unfold runScript. set (go := foldr (λ s r, script_step s +:+ r) EmptyString).
  assert (Hgo : ∀ l r, go (l ++ r) = foldr (λ s r, script_step s +:+ r) (go r) l) by (intros l r; apply foldr_app).
  assert (Hpre : ∀ l x, ∃ y, foldr (λ s r, script_step s +:+ r) x l = y +:+ x).
  { induction l as [|a l IH]; intros x; [by exists ""|]. destruct (IH x) as [y Hy]. simpl. rewrite Hy.
    exists (script_step a +:+ y). by rewrite string_app_assoc. }
  rewrite Hgo. destruct (Hpre before (go (s :: after))) as [y ->]. simpl. unfold script_step at 1.
  exists ("#!/bin/sh" +:+ newline +:+ "set -e" +:+ newline +:+ y), ("'+ " +:+ escape_quotes s +:+ "'" +:+ newline +:+ s +:+ newline +:+ go after).
  split; [by rewrite !string_app_assoc|].
  change (sh_word (String "'" (String "+" (String " " (escape_quotes s +:+ "'" +:+ newline +:+ s +:+ newline +:+ go after)))) false =
          Some (String "+" (String " " s), s +:+ newline +:+ go after)).
  simpl. by rewrite sh_word_escaped.
Qed.

Lemma script_echoes_each_step_witness :
  ∃ head tail, runScript ["make"; "echo 'it''s'"] = head +:+ "echo " +:+ tail ∧
    sh_word tail false = Some ("+ " +:+ "echo 'it''s'", "echo 'it''s'" +:+ newline).
Proof.
  destruct (script_echoes_each_step ["make"; "echo 'it''s'"] ["make"] "echo 'it''s'" []) as (h & t & E & W).
  - reflexivity.
  - exists h, t. split; [exact E|exact W].
Defined.

(** ** Memory sizes *)

(** Printable bytes of ASCII, and the ones that are their own lower case. *)
Definition graphic (c : ascii) : Prop := (33 ≤ byte_of c ≤ 126)%N.
Definition lower (c : ascii) : Prop := graphic c ∧ ¬ (65 ≤ byte_of c ≤ 90)%N.
Fixpoint all_chars (P : ascii → Prop) (s : string) : Prop :=
  match s with EmptyString => True | String c s' => P c ∧ all_chars P s' end.

Lemma all_chars_app P a b : all_chars P (a +:+ b) ↔ all_chars P a ∧ all_chars P b.
Proof. induction a as [|c a IH]; [split; [done|by intros [_ ?]]|]. rewrite append_cons. simpl. rewrite IH. tauto. Qed.

Lemma all_chars_mono (P Q : ascii → Prop) s : (∀ c, P c → Q c) → all_chars P s → all_chars Q s.
Proof. intros H. induction s; [done|]. simpl. naive_solver. Qed.

(** No encoding of a space begins with a printable byte of ASCII, nor ends with one. *)
Definition starts_at (encs : list string) (c : ascii) : bool :=
  existsb (λ e, match e with EmptyString => true | String d _ => bool_decide (d = c) end) encs.

Lemma strip_one_none encs c s : starts_at encs c = false → strip_one encs (String c s) = None.
Proof.
  unfold strip_one. induction encs as [|e encs IH]; [done|]. simpl. intros [He Hr]%orb_false_iff.
  destruct e as [|d e]; [done|]. simpl. apply bool_decide_eq_false in He. rewrite bool_decide_eq_false_2 by done. by apply IH.
Qed.

Lemma graphic_not_space c : graphic c →
  starts_at space_encodings c = false ∧ starts_at (String.rev <$> space_encodings) c = false.
Proof.
  intros Hc. destruct c as [[] [] [] [] [] [] [] []]; vm_compute in Hc; destruct Hc as [H1 H2];
    first [by destruct H1|by destruct H2|by vm_compute].
Qed.

Lemma trim_left_id n encs s : (∀ c, graphic c → starts_at encs c = false) → all_chars graphic s → trim_left n encs s = s.
Proof.
  intros He Hs. destruct n as [|n]; [done|]. simpl. destruct s as [|c s].
  - assert (strip_one encs "" = None) as ->; [|done]. specialize (He "0"%char ltac:(by vm_compute)). clear -He.
    unfold strip_one. induction encs as [|[|d e] encs IH]; [done|done|]. simpl. apply IH.
    simpl in He. by apply orb_false_iff in He as [_ ?].
  - rewrite strip_one_none; [done|]. apply He. by destruct Hs.
Qed.

Lemma rev_app_app s : ∀ t u, String.rev_app s (t +:+ u) = String.rev_app s t +:+ u.
Proof. induction s as [|c s IH]; intros t u; [done|]. simpl. rewrite <-append_cons. apply IH. Qed.
Lemma rev_cons c s : String.rev (String c s) = String.rev s +:+ String c "".
Proof. exact (rev_app_app s "" (String c "")). Qed.
Lemma rev_snoc s c : String.rev (s +:+ String c "") = String c (String.rev s).
Proof.
  induction s as [|d s IH]; [done|]. rewrite append_cons, !rev_cons, IH. by rewrite append_cons.
Qed.
Lemma rev_rev s : String.rev (String.rev s) = s.
Proof. induction s as [|c s IH]; [done|]. by rewrite rev_cons, rev_snoc, IH. Qed.
Lemma all_chars_rev P s : all_chars P s → all_chars P (String.rev s).
Proof.
  induction s as [|c s IH]; [done|]. intros [Hc Hs]. rewrite rev_cons. apply all_chars_app. split; [by apply IH|done].
Qed.

Lemma TrimSpace_graphic s : all_chars graphic s → TrimSpace s = s.
Proof.
  intros Hs. unfold TrimSpace. rewrite (trim_left_id _ space_encodings); [|apply graphic_not_space|done].
  rewrite trim_left_id; [apply rev_rev|apply graphic_not_space|by apply all_chars_rev].
Qed.

Lemma ToLower_lower s : all_chars lower s → ToLower s = s.
Proof.
  induction s as [|c s IH]; [done|]. intros [[Hg Hc] Hs]. simpl. rewrite IH by done.
  rewrite (bool_decide_eq_false_2 (65 ≤ byte_of c ≤ 90)%N) by done. unfold graphic in Hg.
  rewrite (bool_decide_eq_false_2 (byte_of c = 196%N)) by lia. rewrite (bool_decide_eq_false_2 (byte_of c = 226%N)) by lia.
  by destruct s as [|c2 [|c3 s]].
Qed.

Lemma CutSuffix_last x c d : CutSuffix (x +:+ String c "") (String d "") = if bool_decide (c = d) then Some x else None.
Proof.
  induction x as [|e x IH].
  - change ("" +:+ String c "") with (String c ""). simpl. destruct (decide (c = d)) as [->|Hne].
    + by rewrite !bool_decide_eq_true_2.
    + rewrite !bool_decide_eq_false_2; [done|done|]. intros [= ?]. done.
  - rewrite append_cons. cbn [CutSuffix]. rewrite bool_decide_eq_false_2.
    + rewrite IH. by destruct (bool_decide (c = d)).
    + destruct x; intros E; rewrite ?append_cons in E; discriminate E.
Qed.

Definition is_digit (c : ascii) : Prop := ∃ d, (d < 10)%N ∧ c = pretty_N_char d.

Lemma pretty_go_digits n : ∀ s, ∃ x, pretty_N_go n s = x +:+ s ∧ all_chars is_digit x.
Proof.
  induction (N.lt_wf_0 n) as [n _ IH]; intros s. destruct (decide (0 < n)%N) as [Hn|Hn].
  - rewrite pretty_N_go_step by done. destruct (IH (n / 10)%N ltac:(by apply N.div_lt) (String (pretty_N_char (n mod 10)) s)) as (x & -> & Hx).
    exists (x +:+ String (pretty_N_char (n mod 10)) ""). rewrite string_app_assoc. split; [done|]. apply all_chars_app.
    split; [done|]. split; [|done]. exists (n mod 10)%N. split; [by apply N.mod_lt|done].
  - assert (n = 0)%N as -> by lia. rewrite pretty_N_go_0. by exists "".
Qed.

Lemma Itoa_digits z : 0 < z → all_chars is_digit (Itoa z) ∧ ∃ x d, is_digit d ∧ Itoa z = x +:+ String d "".
Proof.
  intros Hz. rewrite Itoa_pos by done. destruct (pretty_go_digits (Z.to_N z) "") as (x & E & Hx). rewrite E, append_nil_r.
  split; [done|]. rewrite pretty_N_go_step in E by (by apply to_N_pos).
  destruct (pretty_go_digits (Z.to_N z / 10) (String (pretty_N_char (Z.to_N z mod 10)) "")) as (y & E' & _).
  rewrite E, append_nil_r in E'. exists y, (pretty_N_char (Z.to_N z mod 10)). split; [|done].
  eexists. split; [by apply (N.mod_lt (Z.to_N z) 10)|done].
Qed.

Lemma is_digit_lower c : is_digit c → lower c ∧ c ∉ ["b"; "i"; "k"; "m"; "g"]%char.
Proof.
  intros (d & Hd & ->). assert (d ∈ [0;1;2;3;4;5;6;7;8;9]%N) as Hn by (rewrite !elem_of_cons; lia).
  repeat (apply elem_of_cons in Hn as [->|Hn]; [vm_compute; intuition (try discriminate); by set_solver|]). by apply elem_of_nil in Hn.
Qed.

Definition units : list (string * Z) := [("", 1); ("k", Z.shiftl 1 10); ("m", Z.shiftl 1 20); ("g", Z.shiftl 1 30)].

(** The trailing "b" and "i" go, when what is before them ends with neither. *)
Lemma trim_bi v c suf : c ∉ ["b"; "i"]%char → suf ∈ [""; "b"; "i"; "ib"] →
  TrimSuffix (TrimSuffix ((v +:+ String c "") +:+ suf) "b") "i" = v +:+ String c "".
Proof.
  intros Hc Hs. unfold TrimSuffix. set (w := v +:+ String c "").
  assert (Hb : CutSuffix w "b" = None) by (unfold w; rewrite CutSuffix_last, bool_decide_eq_false_2; [done|set_solver]).
  assert (Hi : CutSuffix w "i" = None) by (unfold w; rewrite CutSuffix_last, bool_decide_eq_false_2; [done|set_solver]).
  repeat (apply elem_of_cons in Hs as [->|Hs]); [..|by apply elem_of_nil in Hs].
  - rewrite append_nil_r, Hb. simpl. by rewrite Hi.
  - rewrite CutSuffix_last. simpl. by rewrite Hi.
  - rewrite CutSuffix_last. simpl. by rewrite CutSuffix_last.
  - change "ib" with ("i" +:+ "b"). rewrite <-string_app_assoc, CutSuffix_last. simpl. by rewrite CutSuffix_last.
Qed.

Lemma memory_unit_spec x d u mult : is_digit d → (u, mult) ∈ units →
  memory_unit ((x +:+ String d "") +:+ u) = (mult, x +:+ String d "") ∧
  ∃ v c, (c ∉ ["b"; "i"]%char) ∧ ((x +:+ String d "") +:+ u) = v +:+ String c "".
Proof.
  intros Hd Hu. destruct (is_digit_lower d Hd) as [_ Hn]. unfold memory_unit.
  repeat (apply elem_of_cons in Hu as [[= -> ->]|Hu]); [..|by apply elem_of_nil in Hu].
  - rewrite append_nil_r, !CutSuffix_last, !bool_decide_eq_false_2 by set_solver. split; [done|]. exists x, d. split; [set_solver|done].
  - rewrite !CutSuffix_last. split; [done|]. exists (x +:+ String d ""), "k"%char. split; [set_solver|done].
  - rewrite !CutSuffix_last. split; [done|]. exists (x +:+ String d ""), "m"%char. split; [set_solver|done].
  - rewrite !CutSuffix_last. split; [done|]. exists (x +:+ String d ""), "g"%char. split; [set_solver|done].
Qed.

(** What a memory limit means: a positive count with an optional k, m or g and an
    optional trailing "i" and "b" is read as the count times the binary multiple,
    reduced to 64 bits without a check.  The limit handed to the daemon is therefore
    the size written whenever that fits, and some other number, 0 ("no limit") or a
    negative one included, when it does not. *)
Theorem memory_size_is_read_modulo_2_64 n u mult suf :
  0 < n ≤ int64_max → (u, mult) ∈ units → suf ∈ [""; "b"; "i"; "ib"] →
  parseMemory (Itoa n +:+ u +:+ suf) = Some (int64 (n * mult)) ∧
  (n * mult ≤ int64_max → int64 (n * mult) = n * mult) ∧
  hostConfig "v" (mkResources float_zero "17179869184g") = Some (mkHostConfig [("v", workspace)] 0 (Some 0)).
Proof.
  intros Hn Hu Hs. split_and!; [| |vm_compute; reflexivity].
  - destruct (Itoa_digits n ltac:(lia)) as (Hdig & x & d & Hd & Ex).
    assert (Hall : all_chars lower (Itoa n +:+ u +:+ suf)).
    { apply all_chars_app. split; [eapply all_chars_mono; [|exact Hdig]; by intros c [? _]%is_digit_lower|]. apply all_chars_app.
      split; [repeat (apply elem_of_cons in Hu as [[= -> ->]|Hu]); [..|by apply elem_of_nil in Hu]|
              repeat (apply elem_of_cons in Hs as [->|Hs]); [..|by apply elem_of_nil in Hs]]; vm_compute; intuition discriminate. }
    unfold parseMemory. rewrite TrimSpace_graphic by (eapply all_chars_mono; [|exact Hall]; by intros c [? _]).
    rewrite ToLower_lower by done. rewrite <-string_app_assoc, Ex.
    destruct (memory_unit_spec x d u mult Hd Hu) as (Hm & v & c & Hc & Ev). rewrite Ev, trim_bi by done. rewrite <-Ev, Hm.
    rewrite <-Ex, ParseInt_Itoa by (unfold int64_max in Hn; lia). rewrite bool_decide_eq_false_2 by lia. done.
  - intros Hfit. apply int64_id. split; [|done]. unfold int64_min.
    assert (0 < mult) by (repeat (apply elem_of_cons in Hu as [[= -> ->]|Hu]; [by vm_compute|]); by apply elem_of_nil in Hu). nia.
Qed.

Lemma memory_size_is_read_modulo_2_64_witness : parseMemory "512mib" = Some 536870912.
Proof.
  destruct (memory_size_is_read_modulo_2_64 512 "m" (Z.shiftl 1 20) "ib") as (E & _).
  - vm_compute. split; [reflexivity|discriminate].
  - right. right. left.
  - right. right. right. left.
  - exact E.
Defined.

(** ** The environment *)

(** A process reads the last of several entries for a name. *)
Definition env_entry (k e : string) : option string :=
  let '(a, b, ok) := Cut e "=" in if ok && bool_decide (a = k) then Some b else None.
Definition env_value (k : string) (l : list string) : option string := last (omap (env_entry k) l).

Definition no_equals (k : string) : Prop := ContainsByte k "=" = false.

Lemma Cut_app a v : no_equals a → Cut (a +:+ "=" +:+ v) "=" = (a, v, true).
Proof.
  induction a as [|c a IH]; intros Ha; [done|]. rewrite append_cons. unfold no_equals in *. simpl in *.
  apply orb_false_iff in Ha as [Hc Ha]. apply bool_decide_eq_false in Hc. rewrite bool_decide_eq_false_2 by done. by rewrite IH.
Qed.

Lemma env_entry_app k a v : no_equals a → env_entry k (a +:+ "=" +:+ v) = if bool_decide (a = k) then Some v else None.
Proof. intros Ha. unfold env_entry. by rewrite Cut_app. Qed.

Lemma env_job_part k order spec : Forall (λ kv, no_equals kv.1) order → NoDup order.*1 → sys_env spec !! k = None →
  omap (env_entry k) (omap (λ '(k, v), match sys_env spec !! k with Some _ => None | None => Some (k +:+ "=" +:+ v) end) order) =
  match list_to_map (M := gmap string string) order !! k with Some v => [v] | None => [] end.
Proof.
  induction order as [|[a v] order IH]; intros Hne Hnd Hk; [done|].
  apply Forall_cons in Hne as [Ha Hne]. apply NoDup_cons in Hnd as [Hin Hnd]. simpl in *. specialize (IH Hne Hnd Hk).
  destruct (decide (a = k)) as [->|Hak].
  - rewrite Hk, lookup_insert_eq. simpl. rewrite env_entry_app, bool_decide_eq_true_2 by done. f_equal. etrans; [exact IH|].
    by rewrite not_elem_of_list_to_map_1.
  - rewrite lookup_insert_ne by done. destruct (sys_env spec !! a); simpl; [exact IH|].
    rewrite env_entry_app, bool_decide_eq_false_2 by done. exact IH.
Qed.

(** The job sees the platform's variables with the attempt's values whatever its own
    env says, and every other variable of its env unchanged, in whatever order the
    map is ranged over. *)
Theorem platform_env_wins order spec k :
  order ≡ₚ map_to_list (pj_Env (js_Job spec)) →
  (k ∈ platformEnv → env_value k (env order spec) = sys_env spec !! k ∧ is_Some (sys_env spec !! k)) ∧
  (k ∉ platformEnv → Forall (λ kv, no_equals kv.1) order → env_value k (env order spec) = pj_Env (js_Job spec) !! k).
Proof.
  intros Ho. unfold env_value, env. rewrite omap_app.
  set (job := omap (env_entry k) (omap _ order)). split.
  - intros Hk. repeat (apply elem_of_cons in Hk as [->|Hk]); [..|by apply elem_of_nil in Hk];
      (rewrite last_app; simpl; split; [done|by eexists]).
  - intros Hk Hne. assert (Hs : sys_env spec !! k = None).
    { apply not_elem_of_list_to_map_1. simpl. set_solver. }
    assert (Hnd : NoDup order.*1) by (rewrite Ho; apply NoDup_fst_map_to_list).
    assert (Hplat : omap (env_entry k) (map (λ k0, k0 +:+ "=" +:+ default "" (sys_env spec !! k0)) platformEnv) = []).
    { unfold platformEnv in *. rewrite !not_elem_of_cons in Hk. destruct Hk as (H1 & H2 & H3 & H4 & _).
      cbn -[env_entry sys_env]. rewrite !env_entry_app by reflexivity. by rewrite !bool_decide_eq_false_2. }
    rewrite Hplat, app_nil_r. unfold job. rewrite env_job_part by done.
    rewrite (list_to_map_proper order (map_to_list (pj_Env (js_Job spec))) Hnd Ho), list_to_map_to_list.
    by destruct (pj_Env (js_Job spec) !! k).
Qed.
