(* ===== verification/Fake.v ===== *)
(** * The scripted executor

    internal/executor/fake.go, the executor of a runner that is not told another one.  Its
    state is what the mutex guards; a Run is its two critical sections with [run] and
    writeArtifacts between them, so that runs interleave.  What the select statements, the
    log writer and the file system answer are parameters. *)

From S2P Require Import Prelude GoLib Pipeline Artifact LocalStore DockerFiles Api Router Client Logship Agent Docker.
From Stdlib Require Import Ascii.

Local Open Scope Z_scope.

(** ** State *)

Record Outcome := mkOutcome {
  o_ExitCode : Z; o_Err : option string; o_Delay : Z; o_Hang : bool; o_LogBytes : Z; o_Artifacts : gmap string (list N) }.
Definition zero_outcome : Outcome := mkOutcome 0 None 0 false 0 ∅.
Inductive FakeErr := FCtx | FScripted (e : string) | FLogs | FArtifact.
Record Execution := mkExecution { xe_Spec : JobSpec; xe_Err : option FakeErr }.
(** [fk_release] holds the channels by name: whether each is closed. *)
Record FakeExecutor := mkFake { fk_outcomes : gmap string Outcome; fk_execs : list Execution; fk_release : gmap string bool }.

Definition NewFake : FakeExecutor := mkFake ∅ [] ∅.
Definition Script (name : string) (o : Outcome) (f : FakeExecutor) : FakeExecutor :=
  mkFake (<[name := o]> (fk_outcomes f)) (fk_execs f) (fk_release f).
Definition releaseChan (name : string) (f : FakeExecutor) : FakeExecutor :=
  match fk_release f !! name with
  | Some _ => f
  | None => mkFake (fk_outcomes f) (fk_execs f) (<[name := false]> (fk_release f))
  end.
Definition Release (name : string) (f : FakeExecutor) : FakeExecutor :=
  let f := releaseChan name f in mkFake (fk_outcomes f) (fk_execs f) (<[name := true]> (fk_release f)).
Definition Executions (f : FakeExecutor) : list Execution := fk_execs f.

(** The first critical section of Run: the outcome and the index. *)
Definition run_enter (spec : JobSpec) (f : FakeExecutor) : (Outcome * nat) * FakeExecutor :=
  ((default zero_outcome (fk_outcomes f !! pj_Name (js_Job spec)), length (fk_execs f)),
   releaseChan (pj_Name (js_Job spec)) (mkFake (fk_outcomes f) (fk_execs f ++ [mkExecution spec None]) (fk_release f))).
(** The second one. *)
Definition run_leave (idx : nat) (err : option FakeErr) (f : FakeExecutor) : FakeExecutor :=
  mkFake (fk_outcomes f) (alter (λ x, mkExecution (xe_Spec x) err) idx (fk_execs f)) (fk_release f).

(** ** run *)

Definition filler : list N := byte_of <$> String.list_ascii_of_string ("fake executor output line" +:+ String (chr 10) "").
(** writeBytes: the writes it makes; [ok i] is whether the i-th one succeeds. *)
Fixpoint writeBytes (fuel : nat) (ok : nat → bool) (i : nat) (n : Z) : list (list N) * bool :=
  match fuel with
  | O => ([], true)
  | S fuel' =>
      if bool_decide (n <= 0) then ([], true)
      else
        let chunk := take (Z.to_nat n) filler in
        if ok i then let '(l, b) := writeBytes fuel' ok (S i) (n - Z.of_nat (length chunk)) in (chunk :: l, b)
        else ([chunk], false)
  end.

(** Which case of each select is taken, and the context at the end. *)
Record RunAnswers := mkRunAnswers { ra_write : nat → bool; ra_released : bool; ra_timer : bool; ra_ctx : bool }.
(** The exit code or the error, and the output. *)
Definition fake_run (a : RunAnswers) (o : Outcome) : (FakeErr + Z) * list (list N) :=
  let '(out, ok) := if bool_decide (o_LogBytes o > 0) then writeBytes (Z.to_nat (o_LogBytes o)) (ra_write a) 0 (o_LogBytes o) else ([], true) in
  (if negb ok then inl FLogs
   else if o_Hang o && negb (ra_released a) then inl FCtx
   else if bool_decide (o_Delay o > 0) && negb (ra_timer a) then inl FCtx
   else if ra_ctx a then inl FCtx
   else match o_Err o with Some e => inl (FScripted e) | None => inr (o_ExitCode o) end, out).

(** writeArtifacts, in the order [files] in which the map is ranged over. *)
Fixpoint writeArtifacts (f : XFaults) (dir : list string) (files : list (string * list N)) : L unit :=
  match files with
  | [] => mret tt
  | (p, body) :: l =>
      let dst := Clean (dir ++ Split p "/") in
      MkdirAll (xf_mkdir f) (parent dst);;
      writeFile f dst (mkBody body None) (Z.of_nat (length body));;
      writeArtifacts f dir l
  end.
(** Between the critical sections: what Run returns, the output and the files. *)
Definition run_middle (a : RunAnswers) (f : XFaults) (dir : option (list string)) (files : list (string * list N)) (o : Outcome) (s : LState) :
    (option FakeErr * Z) * list (list N) * LState :=
  let '(r, out) := fake_run a o in
  match r with
  | inl e => ((Some e, 0), out, s)
  | inr code =>
      match dir with
      | Some d =>
          if bool_decide (code = 0) then
            match writeArtifacts f d files s with
            | (inl _, s') => ((Some FArtifact, code), out, s')
            | (inr _, s') => ((None, code), out, s')
            end
          else ((None, code), out, s)
      | None => ((None, code), out, s)
      end
  end.

(** ** What is recorded *)

(** Anything that takes the mutex. *)
Inductive FakeEvent := EvScript (name : string) (o : Outcome) | EvRelease (name : string) | EvEnter (spec : JobSpec) | EvLeave (idx : nat) (err : option FakeErr).
Definition fake_next (ev : FakeEvent) (f : FakeExecutor) : FakeExecutor :=
  match ev with
  | EvScript name o => Script name o f
  | EvRelease name => Release name f
  | EvEnter spec => (run_enter spec f).2
  | EvLeave idx err => run_leave idx err f
  end.
Definition fake_run_events (evs : list FakeEvent) (f : FakeExecutor) : FakeExecutor := foldl (λ f ev, fake_next ev f) f evs.
Definition entered (ev : FakeEvent) : option JobSpec := match ev with EvEnter spec => Some spec | _ => None end.
Definition leaves (idx : nat) (ev : FakeEvent) : bool := match ev with EvLeave i _ => bool_decide (i = idx) | _ => false end.

Lemma execs_releaseChan name f : fk_execs (releaseChan name f) = fk_execs f.
Proof. unfold releaseChan. by destruct (fk_release f !! name). Qed.
Lemma execs_next ev f : fk_execs (fake_next ev f) =
  match ev with
  | EvEnter spec => fk_execs f ++ [mkExecution spec None]
  | EvLeave idx err => alter (λ x, mkExecution (xe_Spec x) err) idx (fk_execs f)
  | _ => fk_execs f
  end.
Proof. destruct ev; simpl; rewrite ?execs_releaseChan; done. Qed.

(** Executions lists the runs in the order in which they were started, whatever runs
    overlap and whatever is scripted or released meanwhile, and each entry ends up with
    what its own run returned. *)
Theorem executions_are_in_start_order evs f :
  xe_Spec <$> Executions (fake_run_events evs f) = (xe_Spec <$> Executions f) ++ omap entered evs ∧
  ∀ pre idx err post, evs = pre ++ EvLeave idx err :: post → (idx < length (Executions (fake_run_events pre f)))%nat →
    forallb (λ ev, negb (leaves idx ev)) post = true → xe_Err <$> Executions (fake_run_events evs f) !! idx = Some err.
Proof.
  unfold Executions. split.
  - revert f. induction evs as [|ev evs IH]; intros f; simpl; [by rewrite app_nil_r|]. rewrite IH, execs_next.
    destruct ev as [| |spec|idx err]; simpl; [done|done|by rewrite fmap_app, <-app_assoc|]. f_equal.
    apply list_eq. intros j. rewrite !list_lookup_fmap. destruct (decide (idx = j)) as [->|Hne]; [rewrite list_lookup_alter_eq|by rewrite list_lookup_alter_ne].
    by destruct (fk_execs f !! j).
  - intros pre idx err post -> Hlt Hpost. unfold fake_run_events in *. rewrite foldl_app. simpl. set (f1 := foldl _ f pre) in *.
    assert (H1 : xe_Err <$> fk_execs (run_leave idx err f1) !! idx = Some err).
    { simpl. rewrite list_lookup_alter_eq. destruct (lookup_lt_is_Some_2 _ _ Hlt) as [x Hx]. by rewrite Hx. }
    revert H1 Hpost. generalize (run_leave idx err f1). clear. induction post as [|ev post IH]; intros f H1; [done|]. simpl. intros [Hev Hpost]%andb_true_iff.
    apply IH; [|done]. rewrite execs_next. destruct ev as [| |spec|i e]; [done|done| |].
    + destruct (fk_execs f !! idx) as [x|] eqn:Ex; [|done]. by rewrite (lookup_app_l_Some _ _ _ _ Ex).
    + simpl in Hev. apply negb_true_iff, bool_decide_eq_false in Hev. by rewrite list_lookup_alter_ne.
Qed.

(** writeBytes writes so many bytes of the filler line, line by line. *)
Fixpoint fillers (k : nat) : list N := match k with O => [] | S k' => filler ++ fillers k' end.
Lemma writeBytes_ok fuel : ∀ ok i n, (∀ j, ok j = true) → (Z.to_nat n ≤ fuel)%nat →
  (writeBytes fuel ok i n).2 = true ∧ mjoin (writeBytes fuel ok i n).1 = take (Z.to_nat n) (fillers fuel).
Proof.
  assert (Hl : length filler = 26%nat) by done.
  induction fuel as [|fuel IH]; intros ok i n Hok Hn; [simpl; assert (Z.to_nat n = 0)%nat as -> by lia; done|]. cbn [writeBytes fillers].
  case_bool_decide as Hp; [assert (Z.to_nat n = 0)%nat as -> by lia; done|]. rewrite Hok.
  destruct (IH ok (S i) (n - Z.of_nat (length (take (Z.to_nat n) filler))) Hok) as [H1 H2]; [rewrite length_take; lia|].
  destruct (writeBytes fuel ok (S i) _) as [l b]. cbn [fst snd] in *. split; [done|].
  change (mjoin (take (Z.to_nat n) filler :: l)) with (take (Z.to_nat n) filler ++ mjoin l). rewrite H2. rewrite take_app. f_equal. f_equal. rewrite length_take. lia.
Qed.
