(* ===== verification/Remote.v ===== *)
(** * internal/artifact/remote: the object store over HTTP

    The artifact store backed by one bucket of the replicated object store.  The
    coordinator, the network, the clock and the spool file's disk are the parameters
    of Client.v's [Net], with the contexts and readers this package derives; JSON
    decoding and URL parsing are arguments.  [None] is running out of fuel in one of
    the two loops; both are shown to end. *)

From S2P Require Import Prelude GoLib Artifact LocalStore Api Router Client.
From Stdlib Require Import Ascii.

Local Open Scope Z_scope.

Record Config := mkConfig {
  rc_BaseURL : string; rc_Bucket : string; rc_Token : string; rc_SpoolDir : string;
  rc_RequestTimeout : Z; rc_TransferTimeout : Z; rc_Attempts : Z; rc_Backoff : Z; rc_MaxBackoff : Z }.

Definition defaultBucket : string := "quarry-artifacts".
Definition defaultRequestTimeout : Z := 30 * Second.
Definition defaultTransferTimeout : Z := 10 * Minute.
Definition defaultAttempts : Z := 5.
Definition defaultBackoff : Z := 200 * Millisecond.
Definition defaultMaxBackoff : Z := 5 * Second.
Definition spoolPrefix : string := ".quarry-put-".

Definition or_default (x d : Z) : Z := if bool_decide (x ≤ 0) then d else x.
Definition withDefaults (c : Config) : Config :=
  mkConfig (rc_BaseURL c) (if bool_decide (rc_Bucket c = "") then defaultBucket else rc_Bucket c) (rc_Token c) (rc_SpoolDir c)
    (or_default (rc_RequestTimeout c) defaultRequestTimeout) (or_default (rc_TransferTimeout c) defaultTransferTimeout)
    (or_default (rc_Attempts c) defaultAttempts) (or_default (rc_Backoff c) defaultBackoff)
    (or_default (rc_MaxBackoff c) defaultMaxBackoff).

Record Store := mkStore { rs_cfg : Config; rs_base : string }.

(** The errors: a reply that is not 2xx, the ones the standard library makes, and the
    wrappers that [errors.As] looks through. *)
Inductive RErr :=
  | RError (status : Z) (code message : string)
  | RKey (e : PathError)
  | RBaseURL
  | RPrefix
  | RLocal (what : string)
  | RRead (e : ReadErr)
  | RSize (got want : Z)
  | RTransport
  | RDecode
  | RNotFound
  | RCtx (last : RErr)                (* errors.Join(ctx.Err(), last) *)
  | RAttempts (n : Z) (last : RErr)
  | RWrap (op : string) (e : RErr).

Fixpoint as_Error (e : RErr) : option Z :=
  match e with
  | RError status _ _ => Some status
  | RCtx e' | RAttempts _ e' | RWrap _ e' => as_Error e'
  | _ => None
  end.
Definition isNotFound (e : RErr) : bool := bool_decide (as_Error e = Some 404).

Record listPage := mkListPage { lp_Objects : list string; lp_Truncated : bool; lp_NextStartAfter : string }.

(** The contexts derived from a caller's, and what happens to a copy into the spool:
    after how many bytes the context is seen done, or the disk is full. *)
Class RemoteEnv (C V : Type) := {
  re_net :: Net C V;
  WithTimeout : C → Z → V → C;
  HeadersWithin : C → Z → V → C;
  spool_ctx : C → V → option nat;
  spool_full : C → V → option nat
}.

(** ** URLs *)

Definition bucketURL (s : Store) : string := rs_base s +:+ "/v1/" +:+ PathEscape (rc_Bucket (rs_cfg s)).
Definition Describe (s : Store) : string := bucketURL s.
Definition objectURL (s : Store) (key : string) : RErr + string :=
  match ValidateKey key with
  | Some e => inl (RKey e)
  | None => inr (bucketURL s +:+ "/" +:+ Join (PathEscape <$> Split key "/") "/")
  end.

(** [url.QueryEscape]. *)
Definition shouldEscapeQuery (c : ascii) : bool :=
  let n := byte_of c in
  negb (bool_decide (97 ≤ n ≤ 122)%N || bool_decide (65 ≤ n ≤ 90)%N || bool_decide (48 ≤ n ≤ 57)%N ||
        bool_decide (c ∈ ["-"; "_"; "."; "~"]%char)).
Fixpoint QueryEscape (s : string) : string :=
  match s with
  | EmptyString => EmptyString
  | String c s' =>
      if bool_decide (c = " "%char) then String "+" (QueryEscape s')
      else if shouldEscapeQuery c
      then String "%" (String (upper_hex (byte_of c / 16)) (String (upper_hex (byte_of c mod 16)) (QueryEscape s')))
      else String c (QueryEscape s')
  end.
(** [url.Values.Encode], the keys sorted, as List builds it. *)
Definition listURL (s : Store) (prefix startAfter : string) : string :=
  bucketURL s +:+ "/?prefix=" +:+ QueryEscape prefix +:+
  (if bool_decide (startAfter = "") then "" else "&start_after=" +:+ QueryEscape startAfter).

Section remote.
Context {C V : Type} `{RemoteEnv C V}.
Context (dec_error : Body → option (string * string)) (dec_page : Body → option listPage).

Definition Rm (A : Type) : Type := V → option ((RErr + A) * V).
#[export] Instance Rm_ret : MRet Rm := λ A a v, Some (inr a, v).
#[export] Instance Rm_bind : MBind Rm := λ A B f m v,
  match m v with
  | None => None
  | Some (inl e, v') => Some (inl e, v')
  | Some (inr a, v') => f a v'
  end.
Definition rfail {A} (e : RErr) : Rm A := λ v, Some (inl e, v).
Definition rlift {A} (f : V → A * V) : Rm A := λ v, let '(a, v') := f v in Some (inr a, v').
Definition of_sum {A} (r : RErr + A) : Rm A := λ v, Some (r, v).
(** fmt.Errorf with %w around an error. *)
Definition wrap {A} (op : string) (m : Rm A) : Rm A := λ v,
  match m v with Some (inl e, v') => Some (inl (RWrap op e), v') | r => r end.

(** ** Requests *)

Definition newRequest (s : Store) (method u : string) (body : list N) (len : Z) (ctype : string) : HttpRequest :=
  mkHttpRequest method u (if bool_decide (rc_Token (rs_cfg s) = "") then "" else "Bearer " +:+ rc_Token (rs_cfg s)) ctype len body.
Definition plain_request (s : Store) (method u : string) : HttpRequest := newRequest s method u [] 0 "".
Definition put_request (s : Store) (u : string) (data : list N) : HttpRequest :=
  newRequest s "PUT" u data (Z.of_nat (length data)) "application/octet-stream".

(** [s.http.Do(req)]: no reply, or a status and a body. *)
Definition Do (ctx : C) (rq : HttpRequest) (v : V) : (RErr + (Z * Body)) * V :=
  match http_Do ctx rq v with
  | (Reply status body _, v') => (inr (status, body), v')
  | (_, v') => (inl RTransport, v')
  end.

Definition decodeError (status : Z) (body : Body) : RErr :=
  match dec_error (LimitReader body (Z.shiftl 64 10)) with
  | Some (code, msg) => RError status code msg
  | None => RError status "" ""
  end.

Definition ok_status (status : Z) : bool := bool_decide (Z.quot status 100 = 2).

(** ** retry *)

Fixpoint retry_loop (k : nat) (s : Store) (attempt delay : Z) (ctx : C) (do : V → (RErr + (Z * Body)) * V) : Rm (Z * Body) := λ v,
  match k with
  | O => None
  | S k' =>
      let again e v1 :=
        if ctx_Err ctx v1 then Some (inl (RCtx e), v1)
        else if bool_decide (attempt >= rc_Attempts (rs_cfg s)) then Some (inl (RAttempts attempt e), v1)
        else let '(fired, v2) := timer ctx delay v1 in
             if fired then retry_loop k' s (attempt + 1) (Z.min (int64 (delay * 2)) (rc_MaxBackoff (rs_cfg s))) ctx do v2
             else Some (inl (RCtx e), v2) in
      match do v with
      | (inl e, v1) => again e v1
      | (inr (status, body), v1) =>
          if ok_status status then Some (inr (status, body), v1)
          else
            let e := decodeError status body in
            if match as_Error e with Some st => bool_decide (st < 500) | None => false end then Some (inl e, v1)
            else again e v1
      end
  end.
(** The fuel is one more than the number of attempts; it is never used up. *)
Definition retry (s : Store) (ctx : C) (do : V → (RErr + (Z * Body)) * V) : Rm (Z * Body) :=
  retry_loop (S (Z.to_nat (rc_Attempts (rs_cfg s)))) s 1 (rc_Backoff (rs_cfg s)) ctx do.

(** ** The operations *)

Definition ensureBucket (s : Store) (ctx : C) : Rm unit := λ v,
  let ctx := WithTimeout ctx (rc_RequestTimeout (rs_cfg s)) v in
  match retry s ctx (Do ctx (plain_request s "PUT" (bucketURL s))) v with
  | None => None
  | Some (inl e, v') =>
      if bool_decide (as_Error e = Some 409) then Some (inr tt, v') else Some (inl (RWrap "ensure bucket" e), v')
  | Some (inr _, v') => Some (inr tt, v')
  end.

(** [strings.TrimRight(s, "/")]. *)
Fixpoint trim_slashes (s : string) : string :=
  match s with
  | EmptyString => EmptyString
  | String c s' =>
      match trim_slashes s' with
      | EmptyString => if bool_decide (c = "/"%char) then EmptyString else String c EmptyString
      | r => String c r
      end
  end.

(** [parse_url] yields the scheme and the host of what url.Parse accepts. *)
Definition New (parse_url : string → option (string * string)) (ctx : C) (cfg : Config) : Rm Store :=
  let cfg := withDefaults cfg in
  match parse_url (rc_BaseURL cfg) with
  | Some (scheme, host) =>
      if bool_decide (scheme ≠ "http") && bool_decide (scheme ≠ "https") || bool_decide (host = "") then rfail RBaseURL
      else let s := mkStore cfg (trim_slashes (rc_BaseURL cfg)) in ensureBucket s ctx;; mret s
  | None => rfail RBaseURL
  end.

(** The copy of the reader into the spool file. *)
Definition spool_copy (ctx : C) (r : Body) (size : Z) : Rm (list N) := λ v,
  let src := readerCtx (spool_ctx ctx v) r in
  let src := if bool_decide (0 ≤ size) then LimitReader src (int64 (size + 1)) else src in
  let data := bd_bytes src in
  let copied := match bd_err src with Some e => Some (inl (RRead e), v) | None => Some (inr data, v) end in
  match spool_full ctx v with
  | Some k => if bool_decide (k < length data)%nat then Some (inl (RLocal "spool"), v) else copied
  | None => copied
  end.

(** One attempt of Put: rewind the spool, send it. *)
Definition put_once (s : Store) (ctx : C) (u : string) (data : list N) (v : V) : (RErr + (Z * Body)) * V :=
  match local_op "seek" v with
  | (false, v') => (inl (RLocal "seek"), v')
  | (true, v') => Do ctx (put_request s u data) v'
  end.
Definition put_spooled (s : Store) (ctx : C) (key u : string) (r : Body) (size : Z) : Rm unit :=
  wrap ("put " +:+ key)
    (data ← spool_copy ctx r size;
     if bool_decide (0 ≤ size) && bool_decide (Z.of_nat (length data) ≠ size) then rfail (RSize (Z.of_nat (length data)) size)
     else λ v, let ctx := WithTimeout ctx (rc_TransferTimeout (rs_cfg s)) v in
               (retry s ctx (put_once s ctx u data);; mret tt) v).
(** The spool is closed and removed on every path. *)
Definition Put (s : Store) (ctx : C) (key : string) (r : Body) (size : Z) : Rm unit :=
  u ← of_sum (objectURL s key);
  ok ← rlift (local_op "createtemp");
  if negb ok then rfail (RWrap ("put " +:+ key) (RLocal "createtemp"))
  else λ v, match put_spooled s ctx key u r size v with
            | None => None
            | Some (res, v') => Some (res, (local_op "remove" v').2)
            end.

Definition get_at (s : Store) (ctx : C) (key u : string) : Rm Body := λ v,
       match retry s ctx (λ v, Do (HeadersWithin ctx (rc_RequestTimeout (rs_cfg s)) v) (plain_request s "GET" u) v) v with
       | None => None
       | Some (inl e, v') => Some (inl (if isNotFound e then RNotFound else RWrap ("get " +:+ key) e), v')
       | Some (inr (_, body), v') => Some (inr body, v')
       end.
Definition Get (s : Store) (ctx : C) (key : string) : Rm Body := u ← of_sum (objectURL s key); get_at s ctx key u.

(** The loop over HEAD and DELETE. *)
Fixpoint delete_methods (ms : list string) (s : Store) (ctx : C) (key u : string) : Rm unit :=
  match ms with
  | [] => mret tt
  | m :: ms' => λ v,
      match retry s ctx (Do ctx (plain_request s m u)) v with
      | None => None
      | Some (inl e, v') => Some (inl (if isNotFound e then RNotFound else RWrap ("delete " +:+ key) e), v')
      | Some (inr _, v') => delete_methods ms' s ctx key u v'
      end
  end.
Definition delete_at (s : Store) (ctx : C) (key u : string) : Rm unit := λ v,
  delete_methods ["HEAD"; "DELETE"] s (WithTimeout ctx (rc_RequestTimeout (rs_cfg s)) v) key u v.
Definition Delete (s : Store) (ctx : C) (key : string) : Rm unit := u ← of_sum (objectURL s key); delete_at s ctx key u.

Definition get_listPage (s : Store) (ctx : C) (u : string) : Rm listPage := λ v,
  let ctx := WithTimeout ctx (rc_RequestTimeout (rs_cfg s)) v in
  match retry s ctx (Do ctx (plain_request s "GET" u)) v with
  | None => None
  | Some (inl e, v') => Some (inl e, v')
  | Some (inr (_, body), v') =>
      match dec_page body with
      | Some page => Some (inr page, v')
      | None => Some (inl (RWrap "decoding listing" RDecode), v')
      end
  end.

(** The pages, one after the other; [k] bounds them. *)
Fixpoint list_loop (k : nat) (s : Store) (ctx : C) (prefix startAfter : string) (keys : list string) : Rm (list string) :=
  match k with
  | O => λ _, None
  | S k' =>
      page ← wrap ("list " +:+ prefix) (get_listPage s ctx (listURL s prefix startAfter));
      let keys := keys ++ List.filter (λ o, HasPrefix o prefix) (lp_Objects page) in
      if negb (lp_Truncated page) || bool_decide (lp_NextStartAfter page = "") then mret (order_by String.leb keys)
      else list_loop k' s ctx prefix (lp_NextStartAfter page) keys
  end.
Definition List_ (fuel : nat) (s : Store) (ctx : C) (prefix : string) : Rm (list string) :=
  if Contains prefix "\" || Contains prefix ".." then rfail RPrefix
  else list_loop fuel s ctx prefix "" [].
End remote.
