(* ===== verification/OpenStore.v ===== *)
(** * internal/store: opening the database

    Open of store.go: the data source name with its pragmas, the limits of the connection
    pool, the options, the first ping and the migrations.  The driver is a parameter: what
    it answers to sql.Open and to the ping; the rest of its state is the database of
    Migrate.v. *)

From S2P Require Import Prelude GoLib Types Artifact Router Remote Migrate.
From Stdlib Require Import Ascii.

Local Open Scope Z_scope.

(** ** url.Values *)

Definition Values : Type := gmap string (list string).
Definition Values_Add (k v : string) (q : Values) : Values := <[k := default [] (q !! k) ++ [v]]> q.
Definition Values_Set (k v : string) (q : Values) : Values := <[k := [v]]> q.
Definition Encode (q : Values) : string :=
  let keys := order_by String.leb (map_to_list q).*1 in
  Join (keys ≫= λ k, (λ v, QueryEscape k +:+ "=" +:+ QueryEscape v) <$> default [] (q !! k)) "&".

Definition open_query : Values :=
  Values_Set "_txlock" "immediate"
  (Values_Add "_pragma" "synchronous(NORMAL)"
  (Values_Add "_pragma" "foreign_keys(ON)"
  (Values_Add "_pragma" "busy_timeout(5000)"
  (Values_Add "_pragma" "journal_mode(WAL)" ∅)))).
Definition dsn (path : string) : string := "file:" +:+ path +:+ "?" +:+ Encode open_query.

(** ** Open *)

(** The pool: where it goes, its limits, and whether it has been closed. *)
Record Pool := mkPool {
  pl_dsn : string; pl_MaxOpenConns : Z; pl_MaxIdleConns : Z; pl_ConnMaxLifetime : Z; pl_ConnMaxIdleTime : Z; pl_closed : bool }.
Definition sql_Open (name : string) : Pool := mkPool name 0 2 0 0 false.   (* the defaults of database/sql *)
Definition set_limits (p : Pool) : Pool := mkPool (pl_dsn p) 1 1 0 0 (pl_closed p).
Definition pool_Close (p : Pool) : Pool :=
  mkPool (pl_dsn p) (pl_MaxOpenConns p) (pl_MaxIdleConns p) (pl_ConnMaxLifetime p) (pl_ConnMaxIdleTime p) true.

(** [Clock]s by name: what the store keeps, and what it reads. *)
Inductive Clock := WallClock | Injected (name : string).
Record SStore := mkSStore { ss_db : Pool; ss_now : Clock }.
Definition Option_ : Type := SStore → SStore.
Definition WithClock (c : Clock) : Option_ := λ s, mkSStore (ss_db s) c.
Definition Close (s : SStore) : SStore := mkSStore (pool_Close (ss_db s)) (ss_now s).

Inductive OpenErr := OpenFailed (path : string) | PingFailed (path : string) | MigrateFailed (e : MigErr).

Lemma last_clock db clocks : ∀ c, foldl (λ (s : SStore) (o : Option_), o s) (mkSStore db c) (WithClock <$> clocks) = mkSStore db (default c (last clocks)).
Proof. induction clocks as [|x l IH]; intros c; [done|]. change (foldl (λ (s : SStore) (o : Option_), o s) (mkSStore db x) (WithClock <$> l) = mkSStore db (default c (last (x :: l)))). rewrite IH, last_cons. by destruct (last l). Qed.

Section open.
Context {S : Type} (exec : string → S → option S) (read : Clock → Z) (fs : EmbedFS).

Record OpenFaults := mkOpenFaults { of_open : bool; of_ping : bool; of_migrate : MFaults }.

(** The result, the pool when there is one, and the database. *)
Definition Open (f : OpenFaults) (path : string) (opts : list Option_) (d : MDB (S := S)) :
    (OpenErr + SStore) * option Pool * MDB (S := S) :=
  if of_open f then (inl (OpenFailed path), None, d)
  else
    let db := set_limits (sql_Open (dsn path)) in
    let s := foldl (λ s o, o s) (mkSStore db WallClock) opts in
    if of_ping f then (inl (PingFailed path), Some (pool_Close db), d)
    else match migrate exec (of_migrate f) (read (ss_now s)) fs d with
         | (Some e, d') => (inl (MigrateFailed e), Some (pool_Close db), d')
         | (None, d') => (inr s, Some db, d')
         end.

(** ** What opening comes to *)

Lemma migrate_done f now d d' : migrate exec f now fs d = (None, d') → ∃ ms, loadMigrations fs = inr ms ∧ pending ms d' = [].
Proof.
  unfold migrate, migrate_history. destruct (mf_create f); [done|]. destruct (loadMigrations fs) as [|ms] eqn:El; [done|].
  destruct (apply_all exec f now ms (create_table d)) as [[e2 d2] h2] eqn:E. intros [= -> ->].
  destruct (loadMigrations_ok _ _ El) as (Hnd & _). destruct (apply_all_history _ _ _ _ _ _ _ _ Hnd E) as (_ & Hok & _).
  exists ms. split; [done|]. apply (pending_done exec ms (create_table d)). by apply Hok.
Qed.

(** The pairs the driver reads from the name: those after the first question mark. *)
Definition driver_pairs (name : string) : list (string * string) :=
  let '(_, query, _) := Cut name "?"%char in omap query_pair (Split query "&").

Lemma driver_pairs_dsn path : ContainsByte path "?" = false → driver_pairs (dsn path) = omap query_pair (Split (Encode open_query) "&").
Proof.
  intros Hp. unfold driver_pairs, dsn. rewrite <-string_app_assoc.
  change (("file:" +:+ path) +:+ "?" +:+ Encode open_query) with (("file:" +:+ path) +:+ String "?" (Encode open_query)).
  rewrite Cut_at; [done|]. rewrite ContainsByte_app, Hp. done.
Qed.

(** Opening is all or nothing.  A store is returned exactly when the driver opened the name,
    the ping was answered and every migration is applied: its pool is open, has one
    connection that is never recycled and, for a path without a question mark, asks the
    driver for WAL, a busy timeout of five seconds, foreign keys, normal synchronisation and
    immediate transactions, in this order; its clock is the last one that was injected.
    Otherwise the pool, if it was opened, has been closed, and without an answer to the ping
    the database is as it was. *)
Theorem open_is_all_or_nothing f path clocks d r pool d' :
  ContainsByte path "?" = false → Open f path (WithClock <$> clocks) d = (r, pool, d') →
  match r with
  | inr s =>
      pool = Some (ss_db s) ∧ pl_closed (ss_db s) = false ∧ pl_MaxOpenConns (ss_db s) = 1 ∧ pl_MaxIdleConns (ss_db s) = 1 ∧
      pl_ConnMaxLifetime (ss_db s) = 0 ∧ pl_ConnMaxIdleTime (ss_db s) = 0 ∧
      driver_pairs (pl_dsn (ss_db s)) = [("_pragma", "journal_mode(WAL)"); ("_pragma", "busy_timeout(5000)"); ("_pragma", "foreign_keys(ON)");
                                         ("_pragma", "synchronous(NORMAL)"); ("_txlock", "immediate")] ∧
      ss_now s = default WallClock (last clocks) ∧ of_open f = false ∧ of_ping f = false ∧
      ∃ ms, loadMigrations fs = inr ms ∧ pending ms d' = []
  | inl e => (∀ p, pool = Some p → pl_closed p = true) ∧ (of_open f || of_ping f = true → d' = d)
  end.
Proof.
  intros Hpath. unfold Open. destruct (of_open f) eqn:Eo; [intros [= <- <- <-]; by split|].
  rewrite last_clock. destruct (of_ping f) eqn:Ep; [intros [= <- <- <-]; split; [by intros p [= <-]|done]|].
  simpl ss_now. destruct (migrate exec (of_migrate f) _ fs d) as [[e|] d1] eqn:Em; intros [= <- <- <-].
  - split; [by intros p [= <-]|done].
  - split_and!; try done; [|by eapply migrate_done]. simpl. rewrite driver_pairs_dsn by done. vm_compute. reflexivity.
Qed.
End open.

Lemma open_is_all_or_nothing_witness :
  ∃ s pool d', Open toy_exec (λ _, 7) toy_fs (mkOpenFaults false false no_mfaults) "/var/lib/quarry.db" [] (mkMDB None []) = (inr s, pool, d') ∧
    driver_pairs (pl_dsn (ss_db s)) !! 4%nat = Some ("_txlock", "immediate").
Proof.
  destruct (Open toy_exec (λ _, 7) toy_fs (mkOpenFaults false false no_mfaults) "/var/lib/quarry.db" [] (mkMDB None [])) as [[[e|s] pool] d'] eqn:E;
    [vm_compute in E; discriminate|].
  pose proof (open_is_all_or_nothing toy_exec (λ _, 7) toy_fs (mkOpenFaults false false no_mfaults) "/var/lib/quarry.db" [] (mkMDB None []) (inr s) pool d' eq_refl E)
    as (_ & _ & _ & _ & _ & _ & H & _).
  exists s, pool, d'. split; [reflexivity|]. rewrite H. reflexivity.
Defined.
