(* ===== verification/RemoteSpec.v ===== *)
(** * Theorems about the remote object store

    Retrying ends after a bounded number of exchanges; against a coordinator that
    does what it documents, the four operations refine a map from keys to bytes, also
    when requests and replies are lost. *)

From S2P Require Import Prelude GoLib Artifact LocalStore LocalSpec Api Router Client Remote.
From Stdlib Require Import Ascii.

Local Open Scope Z_scope.

Section retry.
Context {C V : Type} `{RemoteEnv C V} (dec_error : Body → option (string * string)) (s : Store).

Lemma decodeError_status st body : as_Error (decodeError dec_error st body) = Some st.
Proof. unfold decodeError. by destruct (dec_error _) as [[]|]. Qed.

(** The exchanges a retry makes, with the waits between them. *)
Inductive tries (ctx : C) (do : V → (RErr + (Z * Body)) * V) : nat → V → V → Prop :=
  | tries_last v r v1 v2 : do v = (r, v1) → v2 = v1 ∨ (∃ d fired, timer ctx d v1 = (fired, v2)) → tries ctx do 1 v v2
  | tries_more n v r v1 d v2 v3 : do v = (r, v1) → timer ctx d v1 = (true, v2) → tries ctx do n v2 v3 → tries ctx do (S n) v v3.

Lemma retry_loop_ends ctx do : ∀ k attempt delay v,
  (Z.to_nat (rc_Attempts (rs_cfg s) - attempt) < k)%nat →
  ∃ r v' n, retry_loop dec_error k s attempt delay ctx do v = Some (r, v') ∧
    (n ≤ S (Z.to_nat (rc_Attempts (rs_cfg s) - attempt)))%nat ∧ tries ctx do n v v'.
Proof.
  induction k as [|k IH]; intros attempt delay v Hk; [lia|]. cbn [retry_loop].
  pose (again := λ (e : RErr) (v1 : V),
    if ctx_Err ctx v1 then Some (inl (RCtx e), v1)
    else if bool_decide (attempt >= rc_Attempts (rs_cfg s)) then Some (inl (RAttempts attempt e), v1)
    else let '(fired, v2) := timer ctx delay v1 in
         if fired then retry_loop dec_error k s (attempt + 1) (Z.min (int64 (delay * 2)) (rc_MaxBackoff (rs_cfg s))) ctx do v2
         else Some (inl (RCtx e), v2)).
  assert (Hagain : ∀ r v1, do v = (r, v1) → ∀ e, ∃ r' v' n, again e v1 = Some (r', v') ∧
    (n ≤ S (Z.to_nat (rc_Attempts (rs_cfg s) - attempt)))%nat ∧ tries ctx do n v v').
  { intros r v1 Ed e. unfold again. destruct (ctx_Err ctx v1); [by eexists _, _, 1%nat; split_and!; [|lia|by econstructor; eauto]|].
    case_bool_decide; [by eexists _, _, 1%nat; split_and!; [|lia|by econstructor; eauto]|].
    destruct (timer ctx delay v1) as [[] v2] eqn:Et.
    - destruct (IH (attempt + 1) (Z.min (int64 (delay * 2)) (rc_MaxBackoff (rs_cfg s))) v2) as (r' & v' & n & -> & Hn & Ht); [lia|].
      eexists _, _, (S n). split_and!; [done|lia|by econstructor].
    - eexists _, _, 1%nat. split_and!; [done|lia|]. econstructor; [done|right; by eexists _, _]. }
  destruct (do v) as [[e|[status body]] v1] eqn:Ed; [by apply (Hagain _ _ eq_refl)|].
  destruct (ok_status status); [by eexists _, _, 1%nat; split_and!; [|lia|by econstructor; eauto]|].
  rewrite decodeError_status. case_bool_decide; [|by apply (Hagain _ _ eq_refl)].
  eexists _, _, 1%nat. split_and!; [done|lia|by econstructor; eauto].
Qed.

(** What the end of a retry says about its last exchange, for any property the
    exchanges and the waits keep. *)
Definition last_exchange (J : V → Prop) (do : V → (RErr + (Z * Body)) * V) (r : RErr + (Z * Body)) (v' : V) : Prop :=
  match r with
  | inr (st, b) => ok_status st = true ∧ ∃ v1, J v1 ∧ do v1 = (inr (st, b), v')
  | inl e => isNotFound e = true → ∃ v1 b, J v1 ∧ do v1 = (inr (404, b), v')
  end.

Lemma retry_loop_last (J : V → Prop) ctx do :
  (∀ v r v', J v → do v = (r, v') → J v') → (∀ v d b v', J v → timer ctx d v = (b, v') → J v') →
  (∀ v e v', do v = (inl e, v') → as_Error e = None) →
  ∀ k attempt delay v r v', J v → retry_loop dec_error k s attempt delay ctx do v = Some (r, v') →
  J v' ∧ last_exchange J do r v'.
Proof.
  intros Hdo Htm Hloc. induction k as [|k IH]; intros attempt delay v r v' HJ; [done|]. cbn [retry_loop].
  pose (again := λ (e : RErr) (v1 : V),
    if ctx_Err ctx v1 then Some (inl (RCtx e), v1)
    else if bool_decide (attempt >= rc_Attempts (rs_cfg s)) then Some (inl (RAttempts attempt e), v1)
    else let '(fired, v2) := timer ctx delay v1 in
         if fired then retry_loop dec_error k s (attempt + 1) (Z.min (int64 (delay * 2)) (rc_MaxBackoff (rs_cfg s))) ctx do v2
         else Some (inl (RCtx e), v2)).
  assert (Hagain : ∀ e v1, J v1 → as_Error e ≠ Some 404 → again e v1 = Some (r, v') → J v' ∧ last_exchange J do r v').
  { intros e v1 H1 He. unfold again.
    assert (Hno : isNotFound e = false) by (by apply bool_decide_eq_false).
    destruct (ctx_Err ctx v1); [intros [= <- <-]; split; [done|]; simpl; unfold isNotFound in *; simpl; by rewrite Hno|].
    case_bool_decide; [intros [= <- <-]; split; [done|]; simpl; unfold isNotFound in *; simpl; by rewrite Hno|].
    destruct (timer ctx delay v1) as [[] v2] eqn:Et; [apply IH; by eapply Htm|].
    intros [= <- <-]. split; [by eapply Htm|]. simpl. unfold isNotFound in *. simpl. by rewrite Hno. }
  destruct (do v) as [[e|[status body]] v1] eqn:Ed.
  { apply Hagain; [by eapply Hdo|]. by rewrite (Hloc _ _ _ Ed). }
  destruct (ok_status status) eqn:Hs.
  { intros [= <- <-]. split; [by eapply Hdo|]. split; [done|]. by exists v. }
  rewrite decodeError_status. case_bool_decide as H5.
  - intros [= <- <-]. split; [by eapply Hdo|]. simpl. unfold isNotFound. rewrite decodeError_status.
    intros E%bool_decide_eq_true. injection E as ->. by exists v, body.
  - apply Hagain; [by eapply Hdo|]. rewrite decodeError_status. intros [= ->]. lia.
Qed.

Lemma Do_local ctx rq v e v' : Do ctx rq v = (inl e, v') → as_Error e = None.
Proof. unfold Do. destruct (http_Do ctx rq v) as [[]]; by intros [= <- <-]. Qed.
End retry.

(** [n] exchanges that end in an outage, from [v] to [v']: no reply or a 5xx each time,
    the context alive and the wait over. *)
Inductive outage {C V : Type} `{RemoteEnv C V} (ctx : C) (do : V → (RErr + (Z * Body)) * V) : nat → V → V → Prop :=
  | outage_none v : outage ctx do 0 v v
  | outage_more n v r v1 v2 v3 : do v = (r, v1) → match r with inl _ => True | inr (st, _) => 500 ≤ st end →
      ctx_Err ctx v1 = false → (∀ d, timer ctx d v1 = (true, v2)) → outage ctx do n v2 v3 → outage ctx do (S n) v v3.

Lemma retry_loop_outlasts {C V : Type} `{RemoteEnv C V} dec_error s ctx do n (v v1 : V) : outage ctx do n v v1 →
  ∀ k attempt delay st b v2, (n < k)%nat → attempt + Z.of_nat n ≤ Z.max 1 (rc_Attempts (rs_cfg s)) → 1 ≤ attempt →
  do v1 = (inr (st, b), v2) → ok_status st = true → retry_loop dec_error k s attempt delay ctx do v = Some (inr (st, b), v2).
Proof.
  induction 1 as [v|n v r v1 v2 v3 Ed Hr Hc Ht Ho IH]; intros k attempt delay st b v4 Hk Ha H1 E Hs;
    (destruct k as [|k]; [lia|]); cbn [retry_loop].
  - by rewrite E, Hs.
  - assert (Hagain : ∀ e, (if ctx_Err ctx v1 then Some (inl (RCtx e), v1)
      else if bool_decide (attempt >= rc_Attempts (rs_cfg s)) then Some (inl (RAttempts attempt e), v1)
      else let '(fired, v2) := timer ctx delay v1 in
           if fired then retry_loop dec_error k s (attempt + 1) (Z.min (int64 (delay * 2)) (rc_MaxBackoff (rs_cfg s))) ctx do v2
           else Some (inl (RCtx e), v2)) = Some (inr (st, b), v4)).
    { intros e. rewrite Hc, bool_decide_eq_false_2, Ht by lia. apply IH; [lia|lia|lia|done|done]. }
    rewrite Ed. destruct r as [e|[st' b']]; [apply Hagain|].
    assert (ok_status st' = false) as ->.
    { unfold ok_status. apply bool_decide_eq_false. intros Hq. pose proof (Z.quot_le_mono 500 st' 100 ltac:(lia) ltac:(lia)) as Hl.
      rewrite Hq in Hl. by vm_compute in Hl. }
    rewrite decodeError_status, bool_decide_eq_false_2 by lia. apply Hagain.
Qed.

(** A retry always ends, and outlasts outages.  Whatever the network does, it
    returns after at least one and at most Attempts exchanges (one when Attempts is
    not positive, which withDefaults rules out), with a wait between each two; and when
    fewer than Attempts exchanges get no reply or a 5xx before one is answered 2xx,
    it returns that answer.  The fuel of the model is never used up. *)
Theorem retry_ends_and_outlasts_outages {C V : Type} `{RemoteEnv C V} dec_error s ctx do (v : V) :
  (∃ r v' n, retry dec_error s ctx do v = Some (r, v') ∧
     (1 ≤ n)%nat ∧ Z.of_nat n ≤ Z.max 1 (rc_Attempts (rs_cfg s)) ∧ tries ctx do n v v') ∧
  (∀ n v1 st b v2, Z.of_nat n < Z.max 1 (rc_Attempts (rs_cfg s)) ∧ outage ctx do n v v1 ∧
     do v1 = (inr (st, b), v2) ∧ ok_status st = true → retry dec_error s ctx do v = Some (inr (st, b), v2)).
Proof.
  split.
  - unfold retry. destruct (retry_loop_ends dec_error s ctx do (S (Z.to_nat (rc_Attempts (rs_cfg s)))) 1 (rc_Backoff (rs_cfg s)) v)
      as (r & v' & n & E & Hn & Ht); [lia|].
    exists r, v', n. split_and!; [done| |lia|done]. by destruct Ht; lia.
  - intros n v1 st b v2 (Hn & Ho & E & Hs). by apply (retry_loop_outlasts _ _ _ _ _ _ _ Ho); [lia|lia|lia| |].
Qed.

(** ** The coordinator *)

(** The stored keys with a prefix, beyond a key, in order. *)
Definition matching (m : gmap string (list N)) (prefix start : string) : list string :=
  List.filter (λ k, HasPrefix k prefix && (bool_decide (start = "") || String.ltb start k)) (order_by String.leb (map fst (map_to_list m))).

(** A page of the listing: the first matching keys, and where the next page begins when
    there are more. *)
Definition page_of (m : gmap string (list N)) (prefix start : string) (p : listPage) : Prop :=
  ∃ rest, matching m prefix start = lp_Objects p ++ rest ∧
    (if lp_Truncated p then last (lp_Objects p) = Some (lp_NextStartAfter p) else rest = []).

Definition replied_ok (rep : HttpReply) : Prop := ∃ st b n, rep = Reply st b n ∧ ok_status st = true.

(** What the coordinator documents, exchange by exchange; [objects] is the content of
    the bucket.  A PUT commits the whole object or nothing and answers 2xx only after
    committing, whether or not the answer arrives; GET and HEAD answer from the
    committed objects and change nothing; DELETE is idempotent; a listing comes in
    pages, and no object has the empty name.  Waiting and the spool file do not
    concern it. *)
Record coordinator {C V} `{RemoteEnv C V} (dec_page : Body → option listPage) (s : Store) (objects : V → gmap string (list N)) : Prop := {
  co_named : ∀ v, objects v !! "" = None;
  co_timer : ∀ ctx d v b v', timer ctx d v = (b, v') → objects v' = objects v;
  co_local : ∀ what v b v', local_op what v = (b, v') → objects v' = objects v;
  co_put : ∀ ctx key u data v rep v', objectURL s key = inr u → http_Do ctx (put_request s u data) v = (rep, v') →
    (objects v' = objects v ∨ objects v' = <[key := data]> (objects v)) ∧
    (replied_ok rep → objects v' = <[key := data]> (objects v));
  co_get : ∀ ctx key u v rep v', objectURL s key = inr u → http_Do ctx (plain_request s "GET" u) v = (rep, v') →
    objects v' = objects v ∧
    (∀ st b n, rep = Reply st b n → ok_status st = true → bd_err b = None → objects v !! key = Some (bd_bytes b)) ∧
    (∀ b n, rep = Reply 404 b n → objects v !! key = None);
  co_head : ∀ ctx key u v rep v', objectURL s key = inr u → http_Do ctx (plain_request s "HEAD" u) v = (rep, v') →
    objects v' = objects v ∧ (replied_ok rep → is_Some (objects v !! key)) ∧
    (∀ b n, rep = Reply 404 b n → objects v !! key = None);
  co_delete : ∀ ctx key u v rep v', objectURL s key = inr u → http_Do ctx (plain_request s "DELETE" u) v = (rep, v') →
    (objects v' = objects v ∨ objects v' = delete key (objects v)) ∧
    (replied_ok rep → objects v' = delete key (objects v)) ∧
    (∀ b n, rep = Reply 404 b n → objects v !! key = None);
  co_list : ∀ ctx prefix start v rep v', http_Do ctx (plain_request s "GET" (listURL s prefix start)) v = (rep, v') →
    objects v' = objects v ∧
    (∀ st b n p, rep = Reply st b n → ok_status st = true → dec_page b = Some p → page_of (objects v) prefix start p)
}.

(** ** Ordered keys *)

Abbreviation in_order := (StronglySorted (λ a b, String.leb a b = true)).

Lemma ltb_leb a b : String.ltb a b = negb (String.leb b a).
Proof.
  unfold String.ltb, String.leb. rewrite (String.compare_antisym b a). by destruct (String.compare a b).
Qed.

Lemma in_order_filter (P : string → bool) l : in_order l → in_order (List.filter P l).
Proof.
  induction 1 as [|x l Hs IH Hx]; simpl; [constructor|]. destruct (P x); [|done]. constructor; [done|].
  apply Forall_forall. intros y Hy. rewrite list_elem_of_In, filter_In, <-list_elem_of_In in Hy.
  destruct Hy as [Hy _]. exact (proj1 (Forall_forall _ _) Hx y Hy).
Qed.

Lemma filter_all {A} (P : A → bool) l : Forall (λ x, P x = true) l → List.filter P l = l.
Proof. induction 1 as [|x l Hx _ IH]; [done|]. simpl. by rewrite Hx, IH. Qed.
Lemma filter_none {A} (P : A → bool) l : Forall (λ x, P x = false) l → List.filter P l = [].
Proof. induction 1 as [|x l Hx _ IH]; [done|]. simpl. by rewrite Hx. Qed.
Lemma filter_filter {A} (P Q : A → bool) l : List.filter P (List.filter Q l) = List.filter (λ x, Q x && P x) l.
Proof. induction l as [|x l IH]; [done|]. simpl. destruct (Q x); simpl; [destruct (P x); by rewrite IH|done]. Qed.

(** Beyond the last element of a first part of an ordered list is the second part. *)
Lemma beyond_last l1 l2 x : in_order (l1 ++ l2) → NoDup (l1 ++ l2) → last l1 = Some x →
  List.filter (String.ltb x) (l1 ++ l2) = l2.
Proof.
  intros Hs Hnd Hx. apply last_Some in Hx as [l ->]. rewrite List.filter_app, filter_none, filter_all; [done|..].
  - apply Forall_forall. intros y Hy. rewrite ltb_leb. destruct (String.leb y x) eqn:E; [|done]. exfalso.
    assert (Hxy : String.leb x y = true) by (apply (StronglySorted_app_1_elem_of _ _ _ x y Hs); [set_solver|done]).
    apply NoDup_app in Hnd as (_ & Hnd & _). apply (Hnd y); [|done]. rewrite (String.leb_antisym y x E Hxy). set_solver.
  - apply Forall_forall. intros y Hy. rewrite ltb_leb. apply StronglySorted_app_1_l in Hs.
    apply elem_of_app in Hy as [Hy| ->%list_elem_of_singleton].
    + rewrite (StronglySorted_app_1_elem_of _ _ _ y x Hs Hy); [done|left].
    + destruct (String.leb_total x x) as [->| ->]; done.
Qed.

Lemma matching_in_order m prefix start : in_order (matching m prefix start) ∧ NoDup (matching m prefix start).
Proof.
  unfold matching. split.
  - apply in_order_filter. apply order_by_sorted; [apply String.leb_total|apply string_leb_trans].
  - apply NoDup_ListNoDup, List.NoDup_filter, NoDup_ListNoDup. rewrite order_by_perm. apply NoDup_fst_map_to_list.
Qed.

Lemma elem_of_matching m prefix start k : k ∈ matching m prefix start ↔
  is_Some (m !! k) ∧ HasPrefix k prefix = true ∧ (start = "" ∨ String.ltb start k = true).
Proof.
  unfold matching. rewrite list_elem_of_In, filter_In, <-list_elem_of_In, elem_of_order_by, andb_true_iff, orb_true_iff, bool_decide_eq_true.
  rewrite list_elem_of_fmap. split.
  - intros [([k' d] & -> & Hk%elem_of_map_to_list) Hp]. split; [by eauto|done].
  - intros [[d Hd] Hp]. split; [|done]. exists (k, d). split; [done|]. by apply elem_of_map_to_list.
Qed.

(** The listing from the last key of a page is what the page left. *)
Lemma matching_next m prefix start page rest x : matching m prefix start = page ++ rest → last page = Some x → x ≠ "" →
  matching m prefix x = rest.
Proof.
  intros E Hx Hne. destruct (matching_in_order m prefix start) as [Hs Hnd].
  assert (Hin : x ∈ matching m prefix start) by (rewrite E; apply last_Some in Hx as [l ->]; set_solver).
  apply elem_of_matching in Hin as (_ & _ & Hst). rewrite E in Hs, Hnd. rewrite <-(beyond_last page rest x Hs Hnd Hx), <-E.
  unfold matching. rewrite filter_filter. apply List.filter_ext. intros y.
  rewrite bool_decide_eq_false_2 by done. simpl. destruct (HasPrefix y prefix); [|done]. simpl.
  destruct (String.ltb x y) eqn:Exy; [|by rewrite andb_false_r]. rewrite andb_true_r. symmetry. apply orb_true_iff.
  destruct Hst as [->|Hst]; [by left; apply bool_decide_eq_true|right]. rewrite ltb_leb in Hst, Exy |- *.
  apply negb_true_iff. apply negb_true_iff in Hst, Exy. destruct (String.leb y start) eqn:Eys; [|done].
  destruct (String.leb_total x y) as [Hxy|Hyx]; [|congruence]. by rewrite (string_leb_trans x y start Hxy Eys) in Hst.
Qed.

Section refinement.
Context {C V : Type} `{RemoteEnv C V} (dec_error : Body → option (string * string)) (dec_page : Body → option listPage).
Context (s : Store) (objects : V → gmap string (list N)) (Hco : coordinator dec_page s objects).

Lemma Do_reply ctx rq v r v' : Do ctx rq v = (r, v') →
  ∃ rep, http_Do ctx rq v = (rep, v') ∧ ∀ st b, r = inr (st, b) → ∃ n, rep = Reply st b n.
Proof. unfold Do. destruct (http_Do ctx rq v) as [[] v1]; intros [= <- <-]; eexists; (split; [done|]); naive_solver. Qed.

(** A retry, by what every exchange keeps. *)
Lemma retry_last (J : V → Prop) ctx do v : J v →
  (∀ v r v', J v → do v = (r, v') → J v') → (∀ v d b v', J v → timer ctx d v = (b, v') → J v') →
  (∀ v e v', do v = (inl e, v') → as_Error e = None) →
  ∃ r v', retry dec_error s ctx do v = Some (r, v') ∧ J v' ∧ last_exchange J do r v'.
Proof.
  intros HJ H1 H2 H3. destruct (retry_loop_ends dec_error s ctx do (S (Z.to_nat (rc_Attempts (rs_cfg s)))) 1 (rc_Backoff (rs_cfg s)) v) as (r & v' & n & E & _); [lia|]. exists r, v'. split; [done|].
  by apply (retry_loop_last dec_error s J ctx do H1 H2 H3 _ _ _ _ _ _ HJ E).
Qed.

Lemma spool_copy_spec ctx r size v : ∃ res, spool_copy ctx r size v = Some (res, v) ∧
  ∀ data, res = inr data → bool_decide (0 ≤ size) && bool_decide (Z.of_nat (length data) ≠ size) = false →
    data = bd_bytes r ∧ read_ok r size.
Proof.
  unfold spool_copy. cbv zeta. set (src := if bool_decide (0 ≤ size) then _ else _).
  assert (Hok : ∀ data, bd_err src = None → data = bd_bytes src →
            bool_decide (0 ≤ size) && bool_decide (Z.of_nat (length data) ≠ size) = false → data = bd_bytes r ∧ read_ok r size).
  { intros data He -> Hc.
    destruct (copy_src_ok (mkFaults (λ _, false) [] (spool_ctx ctx v) None false false false false false false false) r size _ src
                eq_refl eq_refl He Hc) as [E Hr]. split; [by rewrite E|done]. }
  destruct (spool_full ctx v) as [k|]; [destruct (bool_decide (k < _)%nat); [eexists; split; [done|]; by intros ? [=]|]|];
    (destruct (bd_err src) eqn:He; [eexists; split; [done|]; by intros ? [=]|]); eexists; (split; [done|]); intros data [= <-]; by apply Hok.
Qed.

Lemma put_once_spec ctx key u data m v r v' : objectURL s key = inr u → put_once s ctx u data v = (r, v') →
  objects v = m ∨ objects v = <[key := data]> m →
  (objects v' = m ∨ objects v' = <[key := data]> m) ∧
  (∀ st b, r = inr (st, b) → ok_status st = true → objects v' = <[key := data]> m).
Proof.
  intros Hu. unfold put_once. destruct (local_op "seek" v) as [[] v1] eqn:El; apply (co_local _ _ _ Hco) in El.
  2:{ intros [= <- <-] HJ. split; [by rewrite El|done]. }
  intros (rep & E & Hr)%Do_reply HJ. apply (co_put _ _ _ Hco _ _ _ _ _ _ _ Hu) in E as [Hj Hk]. rewrite El in Hj, Hk.
  assert (Hins : <[key := data]> (objects v) = <[key := data]> m).
  { destruct HJ as [->| ->]; [done|]. by rewrite insert_insert_eq. }
  rewrite Hins in Hj, Hk. split.
  - destruct Hj as [Hj|Hj]; [|by right]. by rewrite Hj.
  - intros st b -> Hs. apply Hk. destruct (Hr st b eq_refl) as [n ->]. by exists st, b, n.
Qed.

Lemma put_spooled_spec ctx key u r size v : objectURL s key = inr u →
  ∃ res v', put_spooled dec_error s ctx key u r size v = Some (res, v') ∧
    match res with
    | inr _ => read_ok r size ∧ objects v' = <[key := bd_bytes r]> (objects v)
    | inl _ => objects v' = objects v ∨ read_ok r size ∧ objects v' = <[key := bd_bytes r]> (objects v)
    end.
Proof.
  intros Hu. unfold put_spooled, wrap. unfold mbind, Rm_bind.
  destruct (spool_copy_spec ctx r size v) as ([e|data] & -> & Hok); [eexists _, _; split; [done|]; by left|].
  destruct (bool_decide (0 ≤ size) && _) eqn:Hc; [eexists _, _; split; [done|]; by left|].
  destruct (Hok data eq_refl Hc) as [-> Hr]. clear Hok. set (m := objects v).
  set (ctx' := WithTimeout ctx (rc_TransferTimeout (rs_cfg s)) v).
  destruct (retry_last (λ v, objects v = m ∨ objects v = <[key := bd_bytes r]> m) ctx' (put_once s ctx' u (bd_bytes r)) v)
    as (res & v' & -> & HJ & Hl).
  - by left.
  - intros v1 r1 v2 H1 E. by apply (put_once_spec ctx' key u (bd_bytes r) m v1 r1 v2 Hu E H1).
  - intros v1 d b v2 H1 E. apply (co_timer _ _ _ Hco) in E. by rewrite E.
  - intros v1 e v2. unfold put_once. destruct (local_op "seek" v1) as [[] v3]; [apply Do_local|by intros [= <- <-]].
  - destruct res as [e|[st b]]; eexists _, _; (split; [done|]); simpl.
    + destruct HJ; [by left|by right].
    + destruct Hl as (Hs & v1 & H1 & E). split; [done|]. by apply (proj2 (put_once_spec ctx' key u (bd_bytes r) m v1 _ v' Hu E H1) st b).
Qed.

Lemma Put_spec ctx key r size v : ∃ res v', Put dec_error s ctx key r size v = Some (res, v') ∧
  match res with
  | inr _ => ValidateKey key = None ∧ read_ok r size ∧ objects v' = <[key := bd_bytes r]> (objects v)
  | inl _ => objects v' = objects v ∨ read_ok r size ∧ objects v' = <[key := bd_bytes r]> (objects v)
  end.
Proof.
  unfold Put, of_sum, rlift. unfold mbind, Rm_bind. destruct (objectURL s key) as [e|u] eqn:Hu.
  { eexists _, _. split; [done|]. by left. }
  assert (Hv : ValidateKey key = None) by (unfold objectURL in Hu; by destruct (ValidateKey key)).
  destruct (local_op "createtemp" v) as [[] v1] eqn:El; simpl.
  2:{ eexists _, _. split; [done|]. left. by apply (co_local _ _ _ Hco) in El. }
  destruct (put_spooled_spec ctx key u r size v1 Hu) as (res & v2 & -> & Hr). eexists _, _. split; [done|].
  apply (co_local _ _ _ Hco) in El. destruct (local_op "remove" v2) as [b v3] eqn:E3. apply (co_local _ _ _ Hco) in E3. simpl.
  rewrite E3, <-El. by destruct res.
Qed.

Lemma Get_spec ctx key v : ∃ res v', Get dec_error s ctx key v = Some (res, v') ∧ objects v' = objects v ∧
  match res with
  | inr body => bd_err body = None → objects v !! key = Some (bd_bytes body)
  | inl e => e = RNotFound → objects v !! key = None
  end.
Proof.
  unfold Get, of_sum. unfold mbind, Rm_bind. destruct (objectURL s key) as [e|u] eqn:Hu.
  { eexists _, _. split_and!; [done..|]. intros ->. unfold objectURL in Hu. by destruct (ValidateKey key). }
  unfold get_at. set (do := λ v0, Do _ _ v0). set (m := objects v).
  destruct (retry_last (λ v, objects v = m) ctx do v) as (res & v' & -> & HJ & Hl).
  - done.
  - intros v1 r1 v2 <- (rep & E & _)%Do_reply. by apply (co_get _ _ _ Hco _ _ _ _ _ _ Hu) in E as [? _].
  - intros v1 d b v2 <- E. by apply (co_timer _ _ _ Hco) in E.
  - intros v1 e v2. apply Do_local.
  - destruct res as [e|[st b]]; eexists _, _; (split_and!; [done..|]).
    + destruct (isNotFound e) eqn:Hn; [intros _|done]. destruct (Hl Hn) as (v1 & b & H1 & (rep & E & Hr)%Do_reply).
      destruct (Hr 404 b eq_refl) as [n ->]. rewrite <-H1. by apply (co_get _ _ _ Hco _ _ _ _ _ _ Hu) in E as (_ & _ & Hn4); eapply Hn4.
    + intros He. destruct Hl as (Hs & v1 & H1 & (rep & E & Hr)%Do_reply). destruct (Hr st b eq_refl) as [n ->].
      rewrite <-H1. apply (co_get _ _ _ Hco _ _ _ _ _ _ Hu) in E as (_ & Hok & _). by eapply Hok.
Qed.

Lemma delete_one ctx key u method v m : objectURL s key = inr u → method = "HEAD" ∨ method = "DELETE" →
  objects v = m ∨ objects v = delete key m → (method = "HEAD" → objects v = m) →
  ∃ res v', retry dec_error s ctx (Do ctx (plain_request s method u)) v = Some (res, v') ∧
    (objects v' = m ∨ objects v' = delete key m) ∧ (method = "HEAD" → objects v' = m) ∧
    match res with
    | inr _ => if bool_decide (method = "HEAD") then is_Some (m !! key) else objects v' = delete key m
    | inl e => isNotFound e = true → objects v' = delete key m
    end.
Proof.
  intros Hu Hm H0 Hh.
  pose (J := λ v : V, (objects v = m ∨ objects v = delete key m) ∧ (method = "HEAD" → objects v = m)).
  assert (Hstep : ∀ v r v', J v → Do ctx (plain_request s method u) v = (r, v') → J v' ∧
    (∀ st b, r = inr (st, b) → ok_status st = true → if bool_decide (method = "HEAD") then is_Some (m !! key) else objects v' = delete key m) ∧
    (∀ b, r = inr (404, b) → objects v' = delete key m)).
  { intros v1 r v2 [H1 H1h] (rep & E & Hr)%Do_reply.
    assert (Hid : ∀ x, x = m ∨ x = delete key m → x !! key = None → x = delete key m).
    { intros x [->| ->] Hx; [by rewrite delete_id|done]. }
    destruct Hm as [-> | ->].
    - apply (co_head _ _ _ Hco _ _ _ _ _ _ Hu) in E as (Es & Hs & H4). unfold J. rewrite Es. split_and!; [done|done| |].
      + intros st b -> Hst. destruct (Hr st b eq_refl) as [n ->]. rewrite bool_decide_eq_true_2 by done.
        rewrite <-(H1h eq_refl). apply Hs. by exists st, b, n.
      + intros b ->. destruct (Hr 404 b eq_refl) as [n ->]. apply Hid; [done|]. by eapply H4.
    - apply (co_delete _ _ _ Hco _ _ _ _ _ _ Hu) in E as (Es & Hs & H4).
      assert (Hdel : delete key (objects v1) = delete key m) by (destruct H1 as [->| ->]; [done|by rewrite delete_delete_eq]).
      rewrite Hdel in Es, Hs. split_and!.
      + split; [|done]. destruct Es as [->|Es]; [done|by right].
      + intros st b -> Hst. destruct (Hr st b eq_refl) as [n ->]. rewrite bool_decide_eq_false_2 by done. apply Hs. by exists st, b, n.
      + intros b ->. destruct (Hr 404 b eq_refl) as [n ->]. destruct Es as [Es|Es]; [|done]. rewrite Es. apply Hid; [done|]. by eapply H4. }
  destruct (retry_last J ctx (Do ctx (plain_request s method u)) v) as (res & v' & E & [HJ HJh] & Hl).
  - by split.
  - intros v1 r v2 H1 E. by destruct (Hstep _ _ _ H1 E) as [? _].
  - intros v1 d b v2 H1 E. apply (co_timer _ _ _ Hco) in E. unfold J. by rewrite E.
  - intros v1 e v2. apply Do_local.
  - exists res, v'. split_and!; [done..|]. destruct res as [e|[st b]].
    + intros Hn. destruct (Hl Hn) as (v1 & b & H1 & E1). destruct (Hstep _ _ _ H1 E1) as (_ & _ & H4). by eapply H4.
    + destruct Hl as (Hs & v1 & H1 & E1). destruct (Hstep _ _ _ H1 E1) as (_ & Hok & _). by eapply Hok.
Qed.

Lemma Delete_spec ctx key v : ∃ res v', Delete dec_error s ctx key v = Some (res, v') ∧
  (objects v' = objects v ∨ objects v' = delete key (objects v)) ∧
  match res with
  | inr _ => is_Some (objects v !! key) ∧ objects v' = delete key (objects v)
  | inl e => e = RNotFound → objects v' = delete key (objects v)
  end.
Proof.
  unfold Delete, of_sum. unfold mbind, Rm_bind. destruct (objectURL s key) as [e|u] eqn:Hu.
  { eexists _, _. split_and!; [done|by left|]. intros ->. unfold objectURL in Hu. by destruct (ValidateKey key). }
  unfold delete_at. cbn [delete_methods]. set (ctx' := WithTimeout _ _ _).
  destruct (delete_one ctx' key u "HEAD" v (objects v) Hu) as (res & v1 & -> & HJ & HJh & Hr); [by left|by left|done|].
  specialize (HJh eq_refl). destruct res as [e|[st b]].
  { eexists _, _. split_and!; [done|done|]. destruct (isNotFound e) eqn:Hn; [|done]. auto. }
  destruct (delete_one ctx' key u "DELETE" v1 (objects v) Hu) as (res & v2 & -> & HJ2 & _ & Hr2); [by right|by left|done|].
  destruct res as [e|[st2 b2]]; eexists _, _; (split_and!; [done|done|]).
  - destruct (isNotFound e) eqn:Hn; [|done]. auto.
  - done.
Qed.

Lemma get_listPage_spec ctx prefix start v : ∃ res v',
  get_listPage dec_error dec_page s ctx (listURL s prefix start) v = Some (res, v') ∧ objects v' = objects v ∧
  ∀ p, res = inr p → page_of (objects v) prefix start p.
Proof.
  unfold get_listPage. set (ctx' := WithTimeout _ _ _). set (m := objects v).
  destruct (retry_last (λ v, objects v = m) ctx' (Do ctx' (plain_request s "GET" (listURL s prefix start))) v)
    as (res & v' & -> & HJ & Hl).
  - done.
  - intros v1 r1 v2 <- (rep & E & _)%Do_reply. by apply (co_list _ _ _ Hco) in E as [? _].
  - intros v1 d b v2 <- E. by apply (co_timer _ _ _ Hco) in E.
  - intros v1 e v2. apply Do_local.
  - destruct res as [e|[st b]]; [by eexists _, _|]. destruct (dec_page b) as [p|] eqn:Ep; [|by eexists _, _].
    eexists _, _. split_and!; [done..|]. intros p' [= <-].
    destruct Hl as (Hs & v1 & H1 & (rep & E & Hr)%Do_reply). destruct (Hr st b eq_refl) as [n ->].
    rewrite <-H1. apply (co_list _ _ _ Hco) in E as [_ Hp]. by eapply Hp.
Qed.

Lemma list_loop_spec ctx prefix : ∀ k start keys v,
  (length (matching (objects v) prefix start) < k)%nat →
  matching (objects v) prefix "" = keys ++ matching (objects v) prefix start →
  ∃ res v', list_loop dec_error dec_page k s ctx prefix start keys v = Some (res, v') ∧ objects v' = objects v ∧
    ∀ out, res = inr out → out = matching (objects v) prefix "".
Proof.
  induction k as [|k IH]; intros start keys v Hk Hkeys; [lia|]. cbn [list_loop]. unfold mbind, Rm_bind, wrap.
  destruct (get_listPage_spec ctx prefix start v) as (res & v1 & -> & Ev & Hp). destruct res as [e|p]; [by eexists _, _|].
  destruct (Hp p eq_refl) as (rest & Em & Hmore). destruct (matching_in_order (objects v) prefix "") as [Hord _].
  assert (Hpre : Forall (λ o, HasPrefix o prefix = true) (lp_Objects p)).
  { apply Forall_forall. intros o Ho. assert (Hin : o ∈ matching (objects v) prefix start) by (rewrite Em; set_solver).
    by apply elem_of_matching in Hin as (_ & ? & _). }
  rewrite (filter_all _ _ Hpre). destruct (lp_Truncated p) eqn:Et; simpl.
  - assert (Hne : lp_NextStartAfter p ≠ "").
    { intros E. rewrite E in Hmore. assert (Hin : "" ∈ matching (objects v) prefix start).
      { rewrite Em. apply last_Some in Hmore as [l ->]. set_solver. }
      apply elem_of_matching in Hin as ([d Hd] & _). by rewrite (co_named _ _ _ Hco) in Hd. }
    rewrite bool_decide_eq_false_2 by done. pose proof (matching_next _ _ _ _ _ _ Em Hmore Hne) as Hnext.
    destruct (IH (lp_NextStartAfter p) (keys ++ lp_Objects p) v1) as (res & v2 & -> & Ev2 & Hout).
    + rewrite Ev, Hnext. rewrite Em, length_app in Hk. apply last_Some in Hmore as [l E]. rewrite E, length_app in Hk. simpl in Hk. lia.
    + rewrite Ev, Hnext, Hkeys, Em. by rewrite app_assoc.
    + eexists _, _. split_and!; [done|congruence|]. by rewrite Ev in Hout.
  - subst rest. rewrite app_nil_r in Em. eexists _, _. split_and!; [done..|]. intros out [= <-].
    rewrite <-Em, <-Hkeys. apply order_by_id. done.
Qed.
End refinement.

(** C31: The remote store refines a map from keys to bytes, whatever requests and
    replies are lost.  Put, Get, Delete and List always return.  A Put that returns nil
    has stored exactly the bytes read, as many as announced; one that fails has left
    the old object or, only when the reader was sound and a reply was lost, the
    complete new one.  Get returns the stored bytes (a body read to its end) or finds
    nothing stored, and changes nothing.  A Delete that returns nil removed an object
    that was there, one that finds nothing leaves none there, and any other failure
    leaves it or removes it.  List returns exactly the stored keys with the prefix,
    in order. *)
Theorem remote_store_refines_map {C V : Type} `{RemoteEnv C V} dec_error dec_page s objects ctx key r size prefix fuel (v : V) :
  coordinator dec_page s objects → (map_size (objects v) < fuel)%nat →
  (∃ res v', Put dec_error s ctx key r size v = Some (res, v') ∧
     match res with
     | inr _ => ValidateKey key = None ∧ read_ok r size ∧ objects v' = <[key := bd_bytes r]> (objects v)
     | inl _ => objects v' = objects v ∨ read_ok r size ∧ objects v' = <[key := bd_bytes r]> (objects v)
     end) ∧
  (∃ res v', Get dec_error s ctx key v = Some (res, v') ∧ objects v' = objects v ∧
     match res with
     | inr body => bd_err body = None → objects v !! key = Some (bd_bytes body)
     | inl e => e = RNotFound → objects v !! key = None
     end) ∧
  (∃ res v', Delete dec_error s ctx key v = Some (res, v') ∧
     (objects v' = objects v ∨ objects v' = delete key (objects v)) ∧
     match res with
     | inr _ => is_Some (objects v !! key) ∧ objects v' = delete key (objects v)
     | inl e => e = RNotFound → objects v' = delete key (objects v)
     end) ∧
  (∃ res v', List_ dec_error dec_page fuel s ctx prefix v = Some (res, v') ∧ objects v' = objects v ∧
     ∀ out, res = inr out → in_order out ∧ NoDup out ∧
       ∀ k, k ∈ out ↔ is_Some (objects v !! k) ∧ HasPrefix k prefix = true).
Proof.
  intros Hco Hfuel. split_and!.
  - by apply (Put_spec dec_error dec_page).
  - by apply (Get_spec dec_error dec_page).
  - by apply (Delete_spec dec_error dec_page).
  - unfold List_. destruct (Contains prefix "\" || Contains prefix ".."); [by eexists _, _|].
    destruct (list_loop_spec dec_error dec_page s objects Hco ctx prefix fuel "" [] v) as (res & v' & E & Ev & Hout); [|done|].
    { eapply Nat.le_lt_trans; [|exact Hfuel]. unfold matching. etrans; [apply List.filter_length_le|].
      rewrite length_order_by, length_map. by rewrite length_map_to_list. }
    exists res, v'. split_and!; [done..|]. intros out ->%Hout. destruct (matching_in_order (objects v) prefix "") as [? ?].
    split_and!; [done..|]. intros k. rewrite elem_of_matching. naive_solver.
Qed.

(** ** A coordinator in memory *)

(** [url.QueryUnescape], for what QueryEscape yields. *)
Fixpoint QueryUnescape (s : string) : string :=
  match s with
  | EmptyString => EmptyString
  | String c s' =>
      if bool_decide (c = "%"%char) then
        match s' with
        | String a (String b s'') =>
            match unhex a, unhex b with
            | Some x, Some y => String (chr (16 * x + y)) (QueryUnescape s'')
            | _, _ => s
            end
        | _ => s
        end
      else String (if bool_decide (c = "+"%char) then " "%char else c) (QueryUnescape s')
  end.

Lemma query_unescape_char c s :
  QueryUnescape (String "%" (String (upper_hex (byte_of c / 16)) (String (upper_hex (byte_of c mod 16)) s))) = String c (QueryUnescape s).
Proof. destruct c as [[] [] [] [] [] [] [] []]; reflexivity. Qed.

Lemma query_keeps c : shouldEscapeQuery c = false → c ≠ "%"%char ∧ c ≠ "+"%char ∧ c ≠ "&"%char.
Proof. destruct c as [[] [] [] [] [] [] [] []]; vm_compute; intuition discriminate. Qed.

Lemma QueryUnescape_escape s : QueryUnescape (QueryEscape s) = s.
Proof.
  induction s as [|c s IH]; [done|]. simpl QueryEscape. case_bool_decide as Hc; [subst c; simpl; by rewrite IH|].
  destruct (shouldEscapeQuery c) eqn:Hs; [by rewrite query_unescape_char, IH|].
  destruct (query_keeps c Hs) as (H1 & H2 & _). simpl. rewrite !bool_decide_eq_false_2 by done. by rewrite IH.
Qed.

Lemma upper_hex_no_amp n : (n < 16)%N → upper_hex n ≠ "&"%char.
Proof.
  intros Hn. assert (n ∈ [0;1;2;3;4;5;6;7;8;9;10;11;12;13;14;15]%N) as H by (rewrite !elem_of_cons; lia).
  repeat (apply elem_of_cons in H as [->|H]; [by vm_compute|]). by apply elem_of_nil in H.
Qed.

Lemma Cut_amp s t : Cut (QueryEscape s +:+ String "&" t) "&" = (QueryEscape s, t, true) ∧ Cut (QueryEscape s) "&" = (QueryEscape s, "", false).
Proof.
  induction s as [|c s [IH1 IH2]]; [done|].
  assert (Hstep : ∀ d x y ok r, d ≠ "&"%char → Cut r "&" = (x, y, ok) → Cut (String d r) "&" = (String d x, y, ok)).
  { intros d x y ok r Hd E. simpl. rewrite bool_decide_eq_false_2 by done. by rewrite E. }
  simpl QueryEscape. case_bool_decide as Hc; [rewrite append_cons; split; by apply Hstep|].
  destruct (shouldEscapeQuery c) eqn:Hs.
  - assert (byte_of c < 256)%N by (apply N_ascii_bounded).
    assert (H1 : upper_hex (byte_of c / 16) ≠ "&"%char) by (apply upper_hex_no_amp, N.Div0.div_lt_upper_bound; lia).
    assert (H2 : upper_hex (byte_of c mod 16) ≠ "&"%char) by (apply upper_hex_no_amp, N.mod_lt; lia).
    rewrite !append_cons. split; (apply Hstep; [done|]; apply Hstep; [done|]; by apply Hstep).
  - destruct (query_keeps c Hs) as (_ & _ & Ha). rewrite append_cons. split; by apply Hstep.
Qed.

Definition enc_page (p : listPage) : list N := [Npos (encode (lp_Objects p, lp_Truncated p, lp_NextStartAfter p))].
Definition toy_page (b : Body) : option listPage :=
  match bd_bytes b with
  | [Npos x] => '(o, t, n) ← decode (A := list string * bool * string) x; Some (mkListPage o t n)
  | _ => None
  end.
Lemma toy_page_enc p : toy_page (mkBody (enc_page p) None) = Some p.
Proof. unfold toy_page, enc_page. simpl. rewrite decode_encode. by destruct p. Qed.

Definition toy_store : Store := mkStore (withDefaults (mkConfig "http://storage:8080/" "" "" "" 0 0 0 0 0)) "http://storage:8080".
(** Pages of two keys. *)
Definition toy_list (m : gmap string (list N)) (prefix start : string) : listPage :=
  let all := matching m prefix start in
  let page := take 2 all in
  mkListPage page (bool_decide (2 < length all)%nat) (default "" (last page)).
Definition toy_query (rest : string) : string * string :=
  match CutPrefix rest "?prefix=" with
  | Some q => let '(p, r, ok) := Cut q "&" in
              (QueryUnescape p, match CutPrefix r "start_after=" with Some x => QueryUnescape x | None => "" end)
  | None => ("", "")
  end.
Definition toy_objects (m : gmap string (list N)) : gmap string (list N) := delete "" m.
Definition toy_do (_ : unit) (rq : HttpRequest) (m : gmap string (list N)) : HttpReply * gmap string (list N) :=
  match CutPrefix (hr_url rq) (bucketURL toy_store +:+ "/") with
  | None => (NoReply, m)
  | Some rest =>
      if HasPrefix rest "?" then
        let '(p, st) := toy_query rest in (Reply 200 (mkBody (enc_page (toy_list (toy_objects m) p st)) None) 0, m)
      else
        let key := pathUnescape rest in
        if bool_decide (hr_method rq = "PUT") then (Reply 200 (mkBody [] None) 0, <[key := hr_body rq]> m)
        else if bool_decide (hr_method rq = "DELETE") then (Reply 204 (mkBody [] None) 0, delete key m)
        else match m !! key with
             | Some d => (Reply 200 (mkBody d None) 0, m)
             | None => (Reply 404 (mkBody [] None) 0, m)
             end
  end.
#[export] Instance toy_env : RemoteEnv unit (gmap string (list N)) := {
  re_net := {| ctx_Err := λ _ _, false; http_Do := toy_do; timer := λ _ _ m, (true, m); open_file := λ _ _, None;
               local_op := λ _ m, (true, m) |};
  WithTimeout := λ c _ _, c; HeadersWithin := λ c _ _, c; spool_ctx := λ _ _, None; spool_full := λ _ _, None }.

Lemma CutPrefix_app_self p t : CutPrefix (p +:+ t) p = Some t.
Proof. induction p as [|c p IH]; [by destruct t|]. rewrite append_cons. simpl. by rewrite bool_decide_eq_true_2. Qed.

(** An object's URL is decoded to its key. *)
Lemma toy_url key u : objectURL toy_store key = inr u → ∃ rest,
  CutPrefix u (bucketURL toy_store +:+ "/") = Some rest ∧ HasPrefix rest "?" = false ∧ pathUnescape rest = key ∧ key ≠ "".
Proof.
  unfold objectURL. destruct (ValidateKey key) eqn:Hv; [done|]. intros [= <-].
  exists (escapePath key). apply ValidatePath_nil in Hv as (Hne & _). split_and!; [| |apply unescape_path|done].
  - rewrite <-string_app_assoc. apply CutPrefix_app_self.
  - destruct (HasPrefix (escapePath key) "?") eqn:E; [|done]. apply HasPrefix_app in E as [t E].
    assert (Hfst : ∀ l t, Join (PathEscape <$> l) "/" = String "?" t → False).
    { intros l t'. destruct l as [|x l]; [done|]. destruct x as [|c x].
      - destruct l as [|y l]; [done|]. rewrite fmap_cons, Join_cons by done. discriminate.
      - assert (Hc : ∃ d r, PathEscape (String c x) = String d r ∧ d ≠ "?"%char).
        { simpl. destruct (shouldEscape c) eqn:Hs; [by eexists _, _|]. exists c, (PathEscape x). split; [done|]. by intros ->. }
        destruct Hc as (d & r & E1 & Hd). rewrite fmap_cons, E1. destruct (PathEscape <$> l) as [|y l']; [by intros [= -> _]|].
        rewrite Join_cons by done. rewrite append_cons. by intros [= -> _]. }
    by destruct (Hfst (Split key "/") t E).
Qed.

Lemma toy_list_url prefix start : ∃ rest,
  CutPrefix (listURL toy_store prefix start) (bucketURL toy_store +:+ "/") = Some rest ∧ HasPrefix rest "?" = true ∧
  toy_query rest = (prefix, start).
Proof.
  set (tl := QueryEscape prefix +:+ (if bool_decide (start = "") then "" else "&start_after=" +:+ QueryEscape start)).
  exists ("?prefix=" +:+ tl). split_and!.
  - change (listURL toy_store prefix start) with (bucketURL toy_store +:+ ("/" +:+ ("?prefix=" +:+ tl))).
    rewrite <-string_app_assoc. apply CutPrefix_app_self.
  - apply HasPrefix_app. by exists ("prefix=" +:+ tl).
  - unfold toy_query. rewrite CutPrefix_app_self. unfold tl. case_bool_decide as Hs.
    + rewrite append_nil_r, (proj2 (Cut_amp prefix "")). simpl. by rewrite QueryUnescape_escape, Hs.
    + change ("&start_after=" +:+ QueryEscape start) with (String "&" ("start_after=" +:+ QueryEscape start)).
      rewrite (proj1 (Cut_amp prefix _)). by rewrite CutPrefix_app_self, !QueryUnescape_escape.
Qed.

Lemma toy_list_page m prefix start : page_of m prefix start (toy_list m prefix start).
Proof.
  exists (drop 2 (matching m prefix start)). simpl. rewrite take_drop. split; [done|]. case_bool_decide as Hl; simpl.
  - destruct (last (take 2 (matching m prefix start))) eqn:E; [done|]. apply last_None in E.
    destruct (matching m prefix start); simpl in *; [lia|done].
  - apply drop_ge. lia.
Qed.

Ltac toy_exchange key u Hu E := destruct (toy_url key u Hu) as (rest & HC & HQ & HK & HN); cbn [http_Do re_net toy_env] in E;
  unfold toy_do in E; cbn [hr_url hr_method hr_body put_request plain_request newRequest] in E; rewrite HC, HQ, HK in E.

Lemma toy_coordinator : coordinator (V := gmap string (list N)) toy_page toy_store toy_objects.
Proof.
  split.
  - intros v. apply lookup_delete_eq.
  - by intros ctx d v b v' [= <- <-].
  - by intros what v b v' [= <- <-].
  - intros ctx key u data v rep v' Hu E. toy_exchange key u Hu E. injection E as <- <-. unfold toy_objects.
    rewrite delete_insert_ne by done. split; [by right|done].
  - intros ctx key u v rep v' Hu E. toy_exchange key u Hu E. unfold toy_objects.
    rewrite lookup_delete_ne by done. cbn in E. destruct (v !! key) as [d|]; injection E as <- <-; (split_and!; [done|naive_solver..]).
  - intros ctx key u v rep v' Hu E. toy_exchange key u Hu E. unfold toy_objects.
    rewrite lookup_delete_ne by done. cbn in E. destruct (v !! key) as [d|]; injection E as <- <-; (split_and!; [done| |naive_solver]).
    + by eexists.
    + intros (st & b & n & [= <- _ _] & Hs). by vm_compute in Hs.
  - intros ctx key u v rep v' Hu E. toy_exchange key u Hu E. cbn in E. injection E as <- <-. unfold toy_objects.
    rewrite delete_delete. split_and!; [by right|done|naive_solver].
  - intros ctx prefix start v rep v' E. destruct (toy_list_url prefix start) as (rest & HC & HQ & HK).
    cbn [http_Do re_net toy_env] in E. unfold toy_do in E. cbn [hr_url hr_method plain_request newRequest] in E.
    rewrite HC, HQ, HK in E. injection E as <- <-. split; [done|]. intros st b n p [= <- <- <-] _. rewrite toy_page_enc.
    intros [= <-]. apply toy_list_page.
Qed.

Definition toy_bucket : gmap string (list N) := {["runs/r1/a" := [1%N]; "runs/r1/b c" := [2%N]; "runs/r2/x" := [3%N]; "sources/r1.tar" := [4%N]]}.

Lemma remote_store_refines_map_witness :
  ∃ out, List_ (λ _, None) toy_page 5 toy_store () "runs/" toy_bucket = Some (inr out, toy_bucket) ∧
    in_order out ∧ NoDup out ∧ ∀ k, k ∈ out ↔ is_Some (toy_objects toy_bucket !! k) ∧ HasPrefix k "runs/" = true.
Proof.
  destruct (remote_store_refines_map (λ _, None) toy_page toy_store toy_objects () "runs/r1/a" (mkBody [7%N] None) 1 "runs/" 5 toy_bucket)
    as (_ & _ & _ & res & v' & E & _ & Hout).
  - apply toy_coordinator.
  - vm_compute. lia.
  - exists ["runs/r1/a"; "runs/r1/b c"; "runs/r2/x"]. split; [vm_compute; reflexivity|]. apply Hout.
    assert (E2 : List_ (λ _, None) toy_page 5 toy_store () "runs/" toy_bucket =
                 Some (inr ["runs/r1/a"; "runs/r1/b c"; "runs/r2/x"], toy_bucket)) by (vm_compute; reflexivity).
    rewrite E2 in E. injection E as <- _. reflexivity.
Defined.
