(* ===== verification/Cli.v ===== *)
(** * The command-line client: src/internal/cli

    The wire types, the order in which a run's jobs are shown, and the tables
    (render.go), with what they use of Go's text/tabwriter and time packages. *)

From S2P Require Import Prelude GoLib Pipeline Artifact Api Router Client.
From Stdlib Require Import Ascii.

Local Open Scope Z_scope.

(** ** Wire types *)

Record CliRun := mkCliRun {
  cr_ID : string; cr_State : string; cr_Trigger : string; cr_CreatedAt : Z; cr_StartedAt : Z; cr_FinishedAt : Z }.
Record CliJob := mkCliJob {
  cb_ID : string; cb_RunID : string; cb_Name : string; cb_State : string; cb_Attempt : Z; cb_MaxAttempts : Z;
  cb_RunnerID : string; cb_FailureKind : string; cb_ExitCode : option Z; cb_Error : string;
  cb_QueuedAt : Z; cb_StartedAt : Z; cb_FinishedAt : Z; cb_Spec : list N }.
Record RunDetail := mkRunDetail { rd_Run : CliRun; rd_Jobs : list CliJob }.
Record CliEvent := mkCliEvent {
  ce_ID : Z; ce_RunID : string; ce_JobID : string; ce_Type : string; ce_Detail : list N; ce_CreatedAt : Z }.
Record CliLogChunk := mkCliLogChunk { ck_Seq : Z; ck_Data : list N }.
Record CliLogs := mkCliLogs { cg_Attempt : Z; cg_Chunks : list CliLogChunk; cg_Next : Z }.
Record CliRunner := mkCliRunner {
  cn_ID : string; cn_Name : string; cn_Labels : gmap string string; cn_Capacity : Z; cn_State : string;
  cn_Version : string; cn_LastSeenAt : Z }.
Record CliArtifact := mkCliArtifact {
  ca_Path : string; ca_SizeBytes : Z; ca_SHA256 : string; ca_ContentType : string; ca_CreatedAt : Z }.

Definition runTerminal (state : string) : bool := bool_decide (state = "succeeded" ∨ state = "failed" ∨ state = "cancelled").
Definition jobTerminal (state : string) : bool :=
  bool_decide (state = "succeeded" ∨ state = "failed" ∨ state = "cancelled" ∨ state = "skipped").

(** ** dagOrder *)

Section dag.
(** The needs that json.Unmarshal finds in a spec; none when it cannot be decoded. *)
Context (dec_needs : list N → list string).

Definition dag_index (jobs : list CliJob) : gmap string nat :=
  foldl (λ m '(i, j), <[cb_Name j := i]> m) ∅ (imap pair jobs).

(** The in-degrees and the dependents, by position. *)
Definition Edges : Type := list Z * list (list nat).
Definition add_need (index : gmap string nat) (i : nat) (st : Edges) (n : string) : Edges :=
  match index !! n with
  | Some j => (alter (λ d, d + 1) i st.1, alter (λ ds, ds ++ [i]) j st.2)
  | None => st
  end.
Definition dag_edges (jobs : list CliJob) : Edges :=
  foldl (λ st '(i, j), foldl (add_need (dag_index jobs) i) st (dec_needs (cb_Spec j)))
    (replicate (length jobs) 0, replicate (length jobs) []) (imap pair jobs).

(** [for _, d := range dependents[i]]. *)
Fixpoint dag_release (ds : list nat) (indeg : list Z) (ready : list nat) : list Z * list nat :=
  match ds with
  | [] => (indeg, ready)
  | d :: ds' =>
      let indeg' := alter (λ x, x - 1) d indeg in
      dag_release ds' indeg' (if bool_decide (indeg' !!! d = 0) then ready ++ [d] else ready)
  end.

(** The loop; [None] is running out of fuel, which one round per job prevents. *)
Fixpoint dag_loop (fuel : nat) (dependents : list (list nat)) (indeg : list Z) (ready out : list nat) : option (list nat) :=
  match order_by Nat.leb ready with
  | [] => Some out
  | i :: ready' =>
      match fuel with
      | O => None
      | S fuel' =>
          let '(indeg', ready'') := dag_release (dependents !!! i) indeg ready' in
          dag_loop fuel' dependents indeg' ready'' (out ++ [i])
      end
  end.

(** The positions, in order: the walk, then the jobs it did not reach. *)
Definition dag_positions (jobs : list CliJob) : option (list nat) :=
  let '(indeg, dependents) := dag_edges jobs in
  let ready := List.filter (λ i, bool_decide (indeg !!! i = 0)) (seq 0 (length jobs)) in
  match dag_loop (length jobs) dependents indeg ready [] with
  | Some out => Some (out ++ List.filter (λ i, bool_decide (i ∉ out)) (seq 0 (length jobs)))
  | None => None
  end.
Definition dagOrder (jobs : list CliJob) : option (list CliJob) :=
  match dag_positions jobs with
  | Some ps => Some (omap (λ i : nat, jobs !! i) (ps : list nat))
  | None => None
  end.
End dag.

(** ** Cells *)

Definition jobState (j : CliJob) : string :=
  if bool_decide (cb_State j ≠ "failed") then cb_State j
  else match cb_ExitCode j with
       | Some code => "failed (exit " +:+ Itoa code +:+ ")"
       | None => if bool_decide (cb_FailureKind j ≠ "") then "failed (" +:+ cb_FailureKind j +:+ ")" else cb_State j
       end.
Definition attempt (j : CliJob) : string :=
  if bool_decide (cb_Attempt j = 0) then "-"
  else if bool_decide (cb_MaxAttempts j > 1) then Itoa (cb_Attempt j) +:+ "/" +:+ Itoa (cb_MaxAttempts j)
  else Itoa (cb_Attempt j).
Definition dash (s : string) : string := if bool_decide (s = "") then "-" else s.

(** [labels]: the pairs in the order of their keys. *)
Definition labels (m : gmap string string) : string :=
  if bool_decide (m = ∅) then "-"
  else Join ((λ '(k, v), k +:+ "=" +:+ v) <$> order_by (λ a b, String.leb a.1 b.1) (map_to_list m)) ",".
Definition compactJSON (raw : string) : string :=
  let s := TrimSpace raw in
  if bool_decide (s = "" ∨ s = "null" ∨ s = "{}") then "" else s.

(** ** Durations and timestamps *)

(** [fmtFrac]: the last [prec] digits of [v] without trailing zeros, and the rest. *)
Fixpoint fmtFrac (prec : nat) (v : Z) (print : bool) (acc : string) : string * Z :=
  match prec with
  | O => (if print then "." +:+ acc else acc, v)
  | S prec' =>
      let digit := Z.modulo v 10 in
      let print' := print || negb (bool_decide (digit = 0)) in
      fmtFrac prec' (v / 10) print' (if print' then Itoa digit +:+ acc else acc)
  end.

(** [time.Duration.String] of a duration that is not negative. *)
Definition Duration_String (d : Z) : string :=
  if bool_decide (d = 0) then "0s"
  else if bool_decide (d < Second) then
    let '(prec, unit) := if bool_decide (d < 1000) then (0%nat, "ns")
                         else if bool_decide (d < Millisecond) then (3%nat, "µs") else (6%nat, "ms") in
    let '(frac, v) := fmtFrac prec d false "" in Itoa v +:+ frac +:+ unit
  else
    let '(frac, secs) := fmtFrac 9 d false "" in
    let s := Itoa (secs mod 60) +:+ frac +:+ "s" in
    let mins := secs / 60 in
    if bool_decide (mins = 0) then s
    else let s := Itoa (mins mod 60) +:+ "m" +:+ s in
         if bool_decide (mins / 60 = 0) then s else Itoa (mins / 60) +:+ "h" +:+ s.

(** [time.Duration.Round], half away from zero, of a duration that is not negative. *)
Definition Round (d m : Z) : Z :=
  let r := d mod m in
  if bool_decide (r + r < m) then d - r
  else if bool_decide (in_int64 (d + m - r)) then d + m - r else int64_max.

Definition duration (started finished now : Z) : string :=
  if bool_decide (started = 0) then "-"
  else
    let end_ := if bool_decide (finished = 0) then now else finished in
    let d := int64 (int64 (end_ - started) * Millisecond) in
    let d := if bool_decide (d < 0) then 0 else d in
    if bool_decide (d < Minute) then Duration_String (Round d (100 * Millisecond)) else Duration_String (Round d Second).

Definition ago (at_ now : Z) : string := if bool_decide (at_ = 0) then "-" else duration at_ now now +:+ " ago".

(** The year, month and day of a number of days since 1970-01-01. *)
Definition civil (days : Z) : Z * Z * Z :=
  let z := days + 719468 in
  let era := z / 146097 in
  let doe := z mod 146097 in
  let yoe := (doe - doe / 1460 + doe / 36524 - doe / 146096) / 365 in
  let doy := doe - (365 * yoe + yoe / 4 - yoe / 100) in
  let mp := (5 * doy + 2) / 153 in
  let d := doy - (153 * mp + 2) / 5 + 1 in
  let m := if bool_decide (mp < 10) then mp + 3 else mp - 9 in
  (yoe + era * 400 + (if bool_decide (m ≤ 2) then 1 else 0), m, d).

(** Zero-padded to a width. *)
Fixpoint zeros (n : nat) : string := match n with O => "" | S n' => "0" +:+ zeros n' end.
Definition padded (width : nat) (z : Z) : string :=
  let digits := Itoa (Z.abs z) in
  (if bool_decide (z < 0) then "-" else "") +:+ zeros (width - String.length digits) +:+ digits.

Definition stamp (ms : Z) : string :=
  if bool_decide (ms = 0) then "-"
  else
    let secs := ms / 1000 in
    let '(y, m, d) := civil (secs / 86400) in
    let tod := secs mod 86400 in
    padded 4 y +:+ "-" +:+ padded 2 m +:+ "-" +:+ padded 2 d +:+ "T" +:+
    padded 2 (tod / 3600) +:+ ":" +:+ padded 2 (tod / 60 mod 60) +:+ ":" +:+ padded 2 (tod mod 60) +:+ "Z".

Example stamp_example : stamp 1709164799999 = "2024-02-28T23:59:59Z" ∧ stamp 951782400000 = "2000-02-29T00:00:00Z".
Proof. by vm_compute. Qed.
Example duration_example : duration 1 61 0 = "100ms" ∧ duration 1 0 59951 = "1m0s" ∧ duration 1 3723401 0 = "1h2m3s" ∧ duration 9 1 0 = "0s".
Proof. by vm_compute. Qed.

(** ** text/tabwriter, padding of two blanks and no flags *)

Definition newline : ascii := "010"%char.
Definition tab : ascii := "009"%char.
(** The runes of valid UTF-8: the bytes that do not continue one. *)
Fixpoint runes (s : string) : nat :=
  match s with
  | EmptyString => 0
  | String c s' => (if bool_decide (128 ≤ byte_of c < 192)%N then 0 else 1) + runes s'
  end.
Fixpoint blanks (n : nat) : string := match n with O => "" | S n' => " " +:+ blanks n' end.
Fixpoint take_while {A} (P : A → bool) (l : list A) : list A :=
  match l with [] => [] | x :: l' => if P x then x :: take_while P l' else [] end.

(** A line has a cell in column [c] when a tab ends it; neighbouring lines that have one
    form a block, as wide as its widest cell. *)
Definition in_column (c : nat) (line : list string) : bool := bool_decide (S c < length line)%nat.
Definition column_block (lines : list (list string)) (i c : nat) : list (list string) :=
  take_while (in_column c) (rev (take i lines)) ++ take_while (in_column c) (drop i lines).
Definition column_width (lines : list (list string)) (i c : nat) : nat :=
  foldr (λ line w, Nat.max (runes (line !!! c)) w) 0%nat (column_block lines i c) + 2.
Definition write_line (lines : list (list string)) (i : nat) (line : list string) : string :=
  foldr String.append "" (imap (λ c cell, if in_column c line then cell +:+ blanks (column_width lines i c - runes cell) else cell) line).
Definition tabwriter (text : string) : string :=
  let lines := (λ l, Split l tab) <$> Split text newline in
  Join (imap (write_line lines) lines) (String newline "").

(** ** The tables *)

(** A line for the writer: the cells with tabs between them. *)
Definition table_row (cells : list string) : string := Join cells (String tab "") +:+ String newline "".
Definition table (rows : list (list string)) : string := tabwriter (foldr String.append "" (table_row <$> rows)).

Definition job_row (now : Z) (j : CliJob) : list string :=
  [cb_Name j; jobState j; attempt j; dash (cb_RunnerID j); duration (cb_StartedAt j) (cb_FinishedAt j) now].
Definition renderJobs (dec_needs : list N → list string) (jobs : list CliJob) (now : Z) : string :=
  table (["JOB"; "STATE"; "ATTEMPT"; "RUNNER"; "DURATION"] :: (job_row now <$> default [] (dagOrder dec_needs jobs))).

Definition renderRuns (runs : list CliRun) (now : Z) : string :=
  table (["RUN"; "STATE"; "TRIGGER"; "CREATED"; "DURATION"] ::
    ((λ r, [cr_ID r; cr_State r; cr_Trigger r; stamp (cr_CreatedAt r); duration (cr_StartedAt r) (cr_FinishedAt r) now]) <$> runs)).
Definition renderRunners (runners : list CliRunner) (now : Z) : string :=
  table (["RUNNER"; "ID"; "STATE"; "CAPACITY"; "LABELS"; "LAST SEEN"; "VERSION"] ::
    ((λ r, [cn_Name r; cn_ID r; cn_State r; Itoa (cn_Capacity r); labels (cn_Labels r); ago (cn_LastSeenAt r) now; dash (cn_Version r)]) <$> runners)).
Definition renderEvents (events : list CliEvent) : string :=
  table ((λ e, [stamp (ce_CreatedAt e); ce_Type e; dash (ce_JobID e); compactJSON (bytes_to_string (ce_Detail e))]) <$> events).
Definition renderArtifacts (arts : list CliArtifact) : string :=
  table (["PATH"; "SIZE"; "SHA256"] :: ((λ a, [ca_Path a; Itoa (ca_SizeBytes a); ca_SHA256 a]) <$> arts)).

Example renderArtifacts_example : renderArtifacts [mkCliArtifact "dist/app" 7 "ab" "" 0; mkCliArtifact "x" 12345 "cd" "" 0] =
  "PATH      SIZE   SHA256" +:+ String newline ("dist/app  7      ab" +:+ String newline ("x         12345  cd" +:+ String newline "")).
Proof. by vm_compute. Qed.

(** ** Splitting at a separator *)

Lemma Split_at a c b : ContainsByte a c = false → Split (a +:+ String c b) c = a :: Split b c.
Proof.
  induction a as [|x a IH]; simpl; [by rewrite bool_decide_true|]. intros [-> H]%orb_false_iff. by rewrite IH.
Qed.
Lemma Split_none a c : ContainsByte a c = false → Split a c = [a].
Proof. induction a as [|x a IH]; simpl; [done|]. intros [-> H]%orb_false_iff. by rewrite IH. Qed.
