(* ===== verification/CliSpec.v ===== *)
(** * Theorems about the command-line client

    The table shows every job once, and in the very order the pipeline's own
    topological sort gives. *)

From S2P Require Import Prelude GoLib Pipeline PipelineSpec Cli.

Local Open Scope Z_scope.

(** ** Positions *)

(** A position enters the ready list when its in-degree reaches zero, so at most once. *)
Record walk_inv (n : nat) (indeg : list Z) (ready out : list nat) : Prop := {
  wi_len : length indeg = n;
  wi_nodup : NoDup (out ++ ready);
  wi_done : ∀ i, i ∈ out ++ ready → (i < n)%nat ∧ indeg !!! i ≤ 0
}.

Lemma dag_release_inv n ds : ∀ indeg ready out, Forall (λ d, (d < n)%nat) ds → walk_inv n indeg ready out →
  let '(indeg', ready') := dag_release ds indeg ready in walk_inv n indeg' ready' out.
Proof.
  induction ds as [|d ds IH]; intros indeg ready out Hds Hinv; [done|]. apply Forall_cons in Hds as [Hd Hds]. simpl.
  apply IH; [done|]. destruct Hinv as [Hl Hnd Hdone]. set (indeg' := alter (λ x, x - 1) d indeg).
  assert (Hle : ∀ i, indeg' !!! i ≤ indeg !!! i).
  { intros i. unfold indeg'. rewrite list_lookup_total_alter. case_decide as Hc; [destruct Hc as [-> _]|]; lia. }
  split.
  - unfold indeg'. by rewrite length_alter.
  - case_bool_decide as H0; [|done]. rewrite app_assoc. apply NoDup_app. split_and!; [done| |apply NoDup_singleton].
    intros x Hx ->%list_elem_of_singleton. destruct (Hdone d Hx) as [_ Hz]. unfold indeg' in H0.
    rewrite list_lookup_total_alter_eq in H0 by lia. lia.
  - intros i Hi. assert (i ∈ out ++ ready ∨ i = d ∧ indeg' !!! d = 0) as [H1|[-> H1]].
    { case_bool_decide; [|by left]. rewrite app_assoc in Hi. apply elem_of_app in Hi as [?| ->%list_elem_of_singleton]; auto. }
    + destruct (Hdone i H1). split; [done|]. specialize (Hle i). lia.
    + split; [done|lia].
Qed.

Lemma walk_bound n indeg ready out : walk_inv n indeg ready out → (length out + length ready ≤ n)%nat.
Proof.
  intros [_ Hnd Hd]. rewrite <-length_app, <-(length_seq n 0). apply submseteq_length, NoDup_submseteq; [done|].
  intros i Hi. apply elem_of_seq. destruct (Hd i Hi). lia.
Qed.

Lemma walk_sort n indeg ready out i ready' : order_by Nat.leb ready = i :: ready' → walk_inv n indeg ready out →
  walk_inv n indeg ready' (out ++ [i]).
Proof.
  intros E [Hl Hnd Hd]. assert (Hp : out ++ ready ≡ₚ (out ++ [i]) ++ ready').
  { rewrite <-app_assoc. simpl. rewrite <-E. by rewrite order_by_perm. }
  split; [done|by rewrite <-Hp|]. intros x Hx. apply Hd. by rewrite Hp.
Qed.

Lemma dag_loop_total n dependents fuel : ∀ indeg ready out, Forall (Forall (λ d, (d < n)%nat)) dependents →
  walk_inv n indeg ready out → (n ≤ fuel + length out)%nat →
  ∃ out', dag_loop fuel dependents indeg ready out = Some out' ∧ NoDup out' ∧ ∀ i, i ∈ out' → (i < n)%nat.
Proof.
  induction fuel as [|fuel IH]; intros indeg ready out Hdep Hinv Hf; cbn [dag_loop];
    destruct (order_by Nat.leb ready) as [|i ready'] eqn:E.
  1,3: exists out; destruct Hinv as [_ Hnd Hd]; (split_and!; [done|by apply NoDup_app in Hnd as (? & _ & _)|]); intros x Hx;
      apply Hd; apply elem_of_app; by left.
  - apply walk_bound in Hinv. apply (f_equal length) in E. rewrite length_order_by in E. simpl in E. lia.
  - pose proof (walk_sort _ _ _ _ _ _ E Hinv) as Hinv'.
    assert (Hds : Forall (λ d, (d < n)%nat) (dependents !!! i)).
    { rewrite list_lookup_total_alt. destruct (dependents !! i) as [ds|] eqn:Ei; [|constructor]. simpl.
      by eapply Forall_lookup_1 in Hdep. }
    pose proof (dag_release_inv n (dependents !!! i) indeg ready' (out ++ [i]) Hds Hinv') as Hr.
    destruct (dag_release (dependents !!! i) indeg ready') as [indeg' ready'']. apply IH; [done|done|].
    rewrite length_app. simpl. lia.
Qed.

(** ** The edges *)

Section edges.
Context (dec_needs : list N → list string) (jobs : list CliJob).
Let n := length jobs.
Let needs (j : CliJob) : list string := dec_needs (cb_Spec j).

(** In general: sizes, and positions in range. *)
Definition edges_in_range (st : Edges) : Prop :=
  length st.1 = n ∧ length st.2 = n ∧ Forall (Forall (λ d, (d < n)%nat)) st.2.

Lemma add_need_range index i ns : ∀ st, (i < n)%nat → edges_in_range st → edges_in_range (foldl (add_need index i) st ns).
Proof.
  induction ns as [|x ns IH]; intros st Hi Hst; [done|]. simpl. apply IH; [done|]. unfold add_need.
  destruct (index !! x) as [j|]; [|done]. destruct Hst as (H1 & H2 & H3). unfold edges_in_range. simpl.
  rewrite !length_alter. split_and!; [done..|]. apply Forall_alter; [done|]. intros ds _ Hds. apply Forall_app. by rewrite Forall_singleton.
Qed.

Lemma dag_edges_range : edges_in_range (dag_edges dec_needs jobs).
Proof.
  unfold dag_edges. assert (H : ∀ l st, (∀ i j, (i, j) ∈ l → (i < n)%nat) → edges_in_range st →
    edges_in_range (foldl (λ st '(i, j), foldl (add_need (dag_index jobs) i) st (dec_needs (cb_Spec j))) st l)).
  { induction l as [|[i j] l IH]; intros st Hl Hst; [done|]. simpl. apply IH.
    - intros i' j' Hin. apply (Hl i' j'). by right.
    - apply add_need_range; [|done]. apply (Hl i j). by left. }
  apply H.
  - intros i j [k Hk]%list_elem_of_lookup. rewrite list_lookup_imap in Hk. destruct (jobs !! k) eqn:Ek; [|done]. simpl in Hk.
    injection Hk as <- <-. by apply lookup_lt_Some in Ek.
  - unfold edges_in_range. simpl. rewrite !length_replicate. split_and!; [done..|]. by apply Forall_replicate.
Qed.

Lemma walk_start : walk_inv n (dag_edges dec_needs jobs).1
  (List.filter (λ i, bool_decide ((dag_edges dec_needs jobs).1 !!! i = 0)) (seq 0 n)) [].
Proof.
  split; simpl.
  - apply dag_edges_range.
  - apply NoDup_ListNoDup, List.NoDup_filter, NoDup_ListNoDup, NoDup_seq.
  - intros i. rewrite list_elem_of_In, filter_In, <-list_elem_of_In. intros [Hi H0%bool_decide_eq_true].
    apply elem_of_seq in Hi. split; [lia|]. by rewrite H0.
Qed.

Lemma dag_walk : ∃ out, dag_loop n (dag_edges dec_needs jobs).2 (dag_edges dec_needs jobs).1
    (List.filter (λ i, bool_decide ((dag_edges dec_needs jobs).1 !!! i = 0)) (seq 0 n)) [] = Some out ∧
  NoDup out ∧ ∀ i, i ∈ out → (i < n)%nat.
Proof. apply dag_loop_total; [apply dag_edges_range|apply walk_start|simpl; lia]. Qed.

(** Every position once. *)
Lemma dag_positions_perm : ∃ ps, dag_positions dec_needs jobs = Some ps ∧ ps ≡ₚ seq 0 n.
Proof.
  destruct dag_walk as (out & E & Hnd & Hlt). unfold dag_positions. destruct (dag_edges dec_needs jobs) as [indeg dependents].
  simpl in E. fold n. rewrite E. eexists. split; [done|]. apply NoDup_Permutation.
  - apply NoDup_app. split_and!; [done| |apply NoDup_ListNoDup, List.NoDup_filter, NoDup_ListNoDup, NoDup_seq].
    intros i Hi. rewrite list_elem_of_In, filter_In. intros [_ H%bool_decide_eq_true]. done.
  - apply NoDup_seq.
  - intros i. rewrite elem_of_app, (list_elem_of_In (List.filter _ _) i), filter_In, <-list_elem_of_In, bool_decide_eq_true.
    split; [intros [H|[H _]]|]; [apply elem_of_seq; specialize (Hlt i H); lia|done|].
    intros H. destruct (decide (i ∈ out)); [by left|by right].
Qed.
End edges.

Lemma omap_seq {A} (l : list A) : omap (λ i, l !! i) (seq 0 (length l)) = l.
Proof.
  assert (H : ∀ (l : list A) pre, omap (λ i, (pre ++ l) !! i) (seq (length pre) (length l)) = l).
  { clear l. induction l as [|x l IH]; intros pre; [done|]. simpl. rewrite lookup_app_r, Nat.sub_diag by lia. simpl. f_equal.
    specialize (IH (pre ++ [x])). rewrite length_app in IH. simpl in IH. rewrite Nat.add_1_r in IH. rewrite <-IH at 2.
    by rewrite <-app_assoc. }
  exact (H l []).
Qed.

(** The table hides nothing: for any list of jobs, even with cyclic or unknown needs or
    repeated names, dagOrder returns each of them exactly once. *)
Theorem dag_order_hides_nothing dec_needs jobs :
  ∃ out, dagOrder dec_needs jobs = Some out ∧ out ≡ₚ jobs.
Proof.
  destruct (dag_positions_perm dec_needs jobs) as (ps & E & Hp). unfold dagOrder. rewrite E. eexists. split; [done|].
  transitivity (omap (λ i, jobs !! i) (seq 0 (length jobs))); [by apply omap_Permutation|by rewrite omap_seq].
Qed.

(** ** The same order as the pipeline's *)

Lemma order_by_fmap {A B} (f : A → B) leb leb' (l : list A) :
  (∀ x y, x ∈ l → y ∈ l → leb' (f x) (f y) = leb x y) → order_by leb' (f <$> l) = f <$> order_by leb l.
Proof.
  intros H. assert (Hins : ∀ x k, x ∈ l → (∀ y, y ∈ k → y ∈ l) → insert_by leb' (f x) (f <$> k) = f <$> insert_by leb x k).
  { intros x k Hx. induction k as [|y k IH]; intros Hk; [done|]. csimpl. rewrite H; [|done|apply Hk; left].
    destruct (leb x y); [done|]. csimpl. rewrite IH; [done|]. intros z Hz. apply Hk. by right. }
  assert (Hall : ∀ k, (∀ y, y ∈ k → y ∈ l) → order_by leb' (f <$> k) = f <$> order_by leb k).
  { induction k as [|x k IH]; intros Hk; [done|]. unfold order_by in *. csimpl. rewrite IH by (intros y Hy; apply Hk; by right).
    apply Hins; [apply Hk; left|]. intros y Hy. apply Hk. right. by apply (elem_of_order_by leb). }
  by apply Hall.
Qed.

(** An index of distinct names by position. *)
Lemma index_positions {A} (name : A → string) (l : list A) : NoDup (name <$> l) →
  ∀ i, (i < length l)%nat → foldl (λ (m : gmap string nat) '(i, j), <[name j := i]> m) ∅ (imap pair l) !! ((name <$> l) !!! i) = Some i.
Proof.
  intros Hnd. induction l as [|x l IH] using rev_ind; intros i Hi; [simpl in Hi; lia|].
  rewrite fmap_app in Hnd |- *. apply NoDup_app in Hnd as (Hnd & Hx & _). rewrite imap_app, foldl_app. simpl. rewrite Nat.add_0_r.
  rewrite length_app in Hi. simpl in Hi. destruct (decide (i = length l)) as [->|Hne].
  - rewrite lookup_total_app_r by (by rewrite length_fmap). rewrite length_fmap, Nat.sub_diag. simpl. by rewrite lookup_insert_eq.
  - rewrite lookup_total_app_l by (rewrite length_fmap; lia). rewrite lookup_insert_ne; [apply IH; [done|lia]|].
    intros E. apply (Hx (name x)); [|left]. rewrite E. apply list_elem_of_lookup_total_2. rewrite length_fmap. lia.
Qed.
Lemma index_domain {A} (name : A → string) (l : list A) x (i : nat) :
  foldl (λ (m : gmap string nat) '(i, j), <[name j := i]> m) ∅ (imap pair l) !! x = Some i →
  (i < length l)%nat ∧ (name <$> l) !!! i = x.
Proof.
  revert i. induction l as [|y l IH] using rev_ind; intros i; [done|]. rewrite imap_app, foldl_app, length_app, fmap_app. simpl.
  rewrite Nat.add_0_r. destruct (decide (x = name y)) as [->|Hne].
  - rewrite lookup_insert_eq. intros [= <-]. split; [lia|]. rewrite lookup_total_app_r by (by rewrite length_fmap).
    by rewrite length_fmap, Nat.sub_diag.
  - rewrite lookup_insert_ne by done. intros [Hl E]%IH. split; [lia|]. by rewrite lookup_total_app_l by (by rewrite length_fmap).
Qed.

Section distinct.
Context (dec_needs : list N → list string) (jobs : list CliJob).
Let n := length jobs.
Definition name_at (i : nat) : string := (cb_Name <$> jobs) !!! i.
Definition needs_at (i : nat) : list string := ((λ j, dec_needs (cb_Spec j)) <$> jobs) !!! i.
Context (Hnames : NoDup (cb_Name <$> jobs)).
Context (Hneeds : ∀ i, (i < n)%nat → NoDup (needs_at i) ∧ ∀ x, x ∈ needs_at i → x ∈ cb_Name <$> jobs).

Lemma dag_index_spec x i : dag_index jobs !! x = Some i ↔ (i < n)%nat ∧ name_at i = x.
Proof.
  split; [apply (index_domain cb_Name)|]. intros [Hi <-]. by apply (index_positions cb_Name).
Qed.
Lemma name_at_inj i j : (i < n)%nat → (j < n)%nat → name_at i = name_at j → i = j.
Proof.
  intros Hi Hj E. assert (H1 : dag_index jobs !! name_at i = Some i) by (by apply dag_index_spec).
  assert (H2 : dag_index jobs !! name_at i = Some j) by (by apply dag_index_spec). congruence.
Qed.

(** What the needs [ns] of the job at [i] add. *)
Lemma add_needs_spec i ns : (i < n)%nat → NoDup ns → (∀ x, x ∈ ns → x ∈ cb_Name <$> jobs) → ∀ st,
  edges_in_range jobs st →
  (∀ k, (foldl (add_need (dag_index jobs) i) st ns).1 !!! k = st.1 !!! k + if decide (k = i) then Z.of_nat (length ns) else 0) ∧
  (∀ k, (k < n)%nat → (foldl (add_need (dag_index jobs) i) st ns).2 !!! k = st.2 !!! k ++ if bool_decide (name_at k ∈ ns) then [i] else []).
Proof.
  intros Hi Hnd Hin. induction Hnd as [|x ns Hx Hnd IH]; intros st Hst; simpl.
  { split; intros k; [case_decide; lia|]. intros _. by rewrite app_nil_r. }
  assert (Hst' : edges_in_range jobs (add_need (dag_index jobs) i st x)).
  { apply (add_need_range jobs (dag_index jobs) i [x] st Hi Hst). }
  destruct (IH ltac:(intros y Hy; apply Hin; by right) _ Hst') as [H1 H2]. clear IH.
  assert (∃ j, (j < n)%nat ∧ name_at j = x) as (j & Hj & Ej).
  { specialize (Hin x ltac:(left)). apply list_elem_of_lookup_total in Hin as (j & Hj & E). exists j. rewrite length_fmap in Hj. done. }
  assert (Eadd : add_need (dag_index jobs) i st x = (alter (λ d, d + 1) i st.1, alter (λ ds, ds ++ [i]) j st.2)).
  { unfold add_need. by rewrite (proj2 (dag_index_spec x j)). }
  rewrite Eadd in *. destruct Hst as (L1 & L2 & _). split; intros k.
  - rewrite H1. simpl. rewrite list_lookup_total_alter. repeat case_decide; simpl; try lia. subst. lia.
  - intros Hk. rewrite H2 by done. simpl. rewrite list_lookup_total_alter. destruct (decide (k = j)) as [->|Hne].
    + rewrite decide_True by (split; [done|lia]). rewrite (bool_decide_true (name_at j ∈ x :: ns)) by (rewrite Ej; left).
      rewrite bool_decide_false by (by rewrite Ej). by rewrite app_nil_r.
    + rewrite decide_False by (intros [-> _]; done). f_equal.
      assert (name_at k ≠ x) by (intros E; apply Hne, name_at_inj; [done|done|congruence]).
      repeat case_bool_decide; try done; exfalso; set_solver.
Qed.

Lemma dag_edges_spec :
  (∀ k, (k < n)%nat → (dag_edges dec_needs jobs).1 !!! k = Z.of_nat (length (needs_at k))) ∧
  (∀ k, (k < n)%nat → (dag_edges dec_needs jobs).2 !!! k = filter (λ i, name_at k ∈ needs_at i) (seq 0 n)).
Proof.
  unfold dag_edges.
  assert (H : ∀ m, (m ≤ n)%nat → ∃ st, foldl (λ st '(i, j), foldl (add_need (dag_index jobs) i) st (dec_needs (cb_Spec j)))
      (replicate n 0, replicate n []) (imap pair (take m jobs)) = st ∧ edges_in_range jobs st ∧
    (∀ k, (k < n)%nat → st.1 !!! k = if decide (k < m)%nat then Z.of_nat (length (needs_at k)) else 0) ∧
    (∀ k, (k < n)%nat → st.2 !!! k = filter (λ i, name_at k ∈ needs_at i) (seq 0 m))).
  { induction m as [|m IH]; intros Hm.
    - eexists. split; [done|]. simpl. split_and!.
      + unfold edges_in_range. simpl. rewrite !length_replicate. split_and!; [done..|]. by apply Forall_replicate.
      + intros k Hk. rewrite lookup_total_replicate_2 by done. destruct (decide (k < 0)%nat); [lia|done].
      + intros k Hk. by rewrite lookup_total_replicate_2 by done.
    - destruct IH as (st & E & Hr & H1 & H2); [lia|]. destruct (lookup_lt_is_Some_2 jobs m) as [j Ej]; [lia|].
      rewrite (take_S_r _ _ _ Ej), imap_app, foldl_app, E. simpl. rewrite Nat.add_0_r, length_take, Nat.min_l by lia.
      assert (En : dec_needs (cb_Spec j) = needs_at m).
      { unfold needs_at. rewrite list_lookup_total_alt, list_lookup_fmap, Ej. done. }
      rewrite En. destruct (Hneeds m) as [Hnd Hin]; [lia|].
      destruct (add_needs_spec m (needs_at m) ltac:(lia) Hnd Hin st Hr) as [A1 A2]. eexists. split; [done|]. split_and!.
      + apply add_need_range; [lia|done].
      + intros k Hk. rewrite A1, H1 by done. repeat case_decide; subst; try lia.
      + intros k Hk. rewrite A2, H2 by done. change (0%nat :: seq 1 m) with (seq 0 (S m)). rewrite seq_S, filter_app. f_equal. simpl. rewrite filter_cons, filter_nil.
        case_bool_decide; case_decide; done. }
  destruct (H n ltac:(done)) as (st & E & _ & H1 & H2). rewrite take_ge in E by done. fold n. rewrite E. split; [|done].
  intros k Hk. rewrite H1 by done. by rewrite decide_True.
Qed.
End distinct.

(** A state of one walk and of the other: the positions are the names'. *)
Section simulation.
Context (dec_needs : list N → list string) (jobs : list CliJob) (pjobs : list PJob) (deps : gmap string (list string)).
Let n := length jobs.
Context (Hok : edges_ok pjobs deps).
Context (Hdeps : ∀ x, default [] (deps !! x) = dependents_of pjobs x).
Context (Hjobs : Forall2 (λ c p, cb_Name c = pj_Name p ∧ dec_needs (cb_Spec c) = pj_Needs p) jobs pjobs).
Let nm := name_at jobs.

Lemma sim_names : cb_Name <$> jobs = pj_Name <$> pjobs.
Proof. clear -Hjobs. revert Hjobs. induction 1 as [|c p l k [E _] _ IH]; [done|]. rewrite !fmap_cons. by f_equal. Qed.
Lemma sim_needs : (λ j, dec_needs (cb_Spec j)) <$> jobs = pj_Needs <$> pjobs.
Proof. clear -Hjobs. revert Hjobs. induction 1 as [|c p l k [_ E] _ IH]; [done|]. rewrite !fmap_cons. by f_equal. Qed.
Lemma sim_nodup : NoDup (cb_Name <$> jobs).
Proof. rewrite sim_names. apply Hok. Qed.
Lemma sim_length : length pjobs = n.
Proof. symmetry. by eapply Forall2_length. Qed.

Lemma sim_at i p : pjobs !! i = Some p → nm i = pj_Name p ∧ needs_at dec_needs jobs i = pj_Needs p.
Proof.
  intros E. unfold nm, name_at, needs_at. rewrite sim_names, sim_needs, !list_lookup_total_alt, !list_lookup_fmap, E. done.
Qed.
Lemma sim_job i : (i < n)%nat → ∃ p, pjobs !! i = Some p.
Proof. intros Hi. apply lookup_lt_is_Some. by rewrite sim_length. Qed.

Lemma sim_needs_ok i : (i < n)%nat → NoDup (needs_at dec_needs jobs i) ∧ ∀ x, x ∈ needs_at dec_needs jobs i → x ∈ cb_Name <$> jobs.
Proof.
  intros Hi. destruct (sim_job i Hi) as [p E]. destruct (sim_at i p E) as [_ ->]. rewrite sim_names.
  apply (eo_needs _ _ Hok). by eapply list_elem_of_lookup_2.
Qed.

Lemma sim_pos i : (i < n)%nat → pos pjobs (nm i) = i.
Proof.
  intros Hi. unfold pos, decl_order, nm, name_at. rewrite sim_names.
  rewrite (index_positions pj_Name pjobs); [done|apply Hok|by rewrite sim_length].
Qed.

Lemma sim_dependents i : (i < n)%nat →
  dependents_of pjobs (nm i) = nm <$> filter (λ k, nm i ∈ needs_at dec_needs jobs k) (seq 0 n).
Proof.
  intros _. unfold dependents_of. rewrite <-sim_length.
  assert (H : ∀ m, (m ≤ length pjobs)%nat → pj_Name <$> filter (λ j, nm i ∈ pj_Needs j) (take m pjobs) =
    nm <$> filter (λ k, nm i ∈ needs_at dec_needs jobs k) (seq 0 m)).
  { induction m as [|m IH]; intros Hm; [done|]. destruct (lookup_lt_is_Some_2 pjobs m) as [p E]; [lia|].
    destruct (sim_at m p E) as [En Ene]. rewrite (take_S_r _ _ _ E), seq_S, !filter_app, !fmap_app, IH by lia. f_equal. simpl.
    rewrite !filter_cons, !filter_nil, Ene. case_decide; [|done]. csimpl. by rewrite En. }
  rewrite <-(H (length pjobs)) by done. by rewrite take_ge.
Qed.

Definition sim (indeg : list Z) (m : gmap string Z) : Prop :=
  length indeg = n ∧ ∀ i, (i < n)%nat → deg m (nm i) = indeg !!! i.

Lemma sim_release ds : ∀ indeg m ready, Forall (λ d, (d < n)%nat) ds → sim indeg m →
  let '(indeg', ready') := dag_release ds indeg ready in
  let '(m', names') := release (nm <$> ds) m (nm <$> ready) in
  sim indeg' m' ∧ names' = nm <$> ready'.
Proof.
  induction ds as [|d ds IH]; intros indeg m ready Hds [Hl Hm]; [done|]. apply Forall_cons in Hds as [Hd Hds]. csimpl.
  assert (Hs : sim (alter (λ x, x - 1) d indeg) (<[nm d := deg m (nm d) - 1]> m)).
  { split; [by rewrite length_alter|]. intros i Hi. rewrite list_lookup_total_alter. unfold deg at 1.
    destruct (decide (i = d)) as [->|Hne].
    - rewrite lookup_insert_eq, decide_True by (split; [done|lia]). simpl. by rewrite Hm.
    - rewrite decide_False by (intros [? _]; done). rewrite lookup_insert_ne; [by apply Hm|].
      intros E. by apply Hne, (name_at_inj jobs sim_nodup). }
  destruct Hs as [Hl' Hm']. specialize (IH _ _ (if bool_decide (alter (λ x, x - 1) d indeg !!! d = 0) then ready ++ [d] else ready) Hds (conj Hl' Hm')).
  rewrite (Hm' d Hd). destruct (dag_release ds _ _) as [indeg' ready'].
  assert (E : nm <$> (if bool_decide (alter (λ x, x - 1) d indeg !!! d = 0) then ready ++ [d] else ready) =
              if bool_decide (alter (λ x, x - 1) d indeg !!! d = 0) then (nm <$> ready) ++ [nm d] else nm <$> ready).
  { case_bool_decide; [|done]. by rewrite fmap_app. }
  by rewrite E in IH.
Qed.

Lemma sim_loop dependents fuel :
  (∀ i, (i < n)%nat → dependents !!! i = filter (λ k, nm i ∈ needs_at dec_needs jobs k) (seq 0 n)) →
  Forall (Forall (λ d, (d < n)%nat)) dependents →
  ∀ indeg m ready out, walk_inv n indeg ready out → sim indeg m →
  option_map fst (topo_loop pjobs deps fuel m (nm <$> ready) (nm <$> out)) =
  option_map (map nm) (dag_loop fuel dependents indeg ready out).
Proof.
  intros Hdp Hrg. induction fuel as [|fuel IH]; intros indeg m ready out Hw Hs; cbn [topo_loop dag_loop];
    rewrite (order_by_fmap nm Nat.leb) by (intros x y Hx Hy; destruct Hw as [_ _ Hd]; unfold ready_leb;
      rewrite !sim_pos by (apply Hd, elem_of_app; by right); by destruct (Nat.leb_spec x y); case_bool_decide; try lia);
    (destruct (order_by Nat.leb ready) as [|i ready'] eqn:E; csimpl; [done|]); [done|].
  pose proof (walk_sort _ _ _ _ _ _ E Hw) as Hw'.
  assert (Hi : (i < n)%nat) by (apply (wi_done _ _ _ _ Hw'), elem_of_app; left; apply elem_of_app; right; left).
  rewrite Hdeps, (sim_dependents i Hi), <-Hdp by done.
  assert (Hds : Forall (λ d, (d < n)%nat) (dependents !!! i)).
  { rewrite Hdp by done. apply Forall_forall. intros x [_ Hx%elem_of_seq]%list_elem_of_filter. lia. }
  pose proof (sim_release (dependents !!! i) indeg m ready' Hds Hs) as Hr.
  pose proof (dag_release_inv n (dependents !!! i) indeg ready' (out ++ [i]) Hds Hw') as Hw''.
  destruct (dag_release (dependents !!! i) indeg ready') as [indeg' ready''].
  destruct (release (nm <$> dependents !!! i) m (nm <$> ready')) as [m' names']. destruct Hr as [Hs' ->].
  rewrite <-(IH _ m' _ _ Hw'' Hs'), fmap_app. done.
Qed.

Lemma sim_start : sim (dag_edges dec_needs jobs).1 (init_indeg pjobs).
Proof.
  split; [apply dag_edges_range|]. intros i Hi. destruct (sim_job i Hi) as [p E]. destruct (sim_at i p E) as [En Ene].
  rewrite (proj1 (dag_edges_spec dec_needs jobs sim_nodup sim_needs_ok) i Hi), Ene, En. unfold deg, init_indeg.
  by rewrite (fold_insert_in pj_Name (λ j, Z.of_nat (length (pj_Needs j))) pjobs ∅ p (eo_names _ _ Hok) (list_elem_of_lookup_2 _ _ _ E)).
Qed.

Lemma sim_ready : pj_Name <$> List.filter (λ j, bool_decide (deg (init_indeg pjobs) (pj_Name j) = 0)) pjobs =
  nm <$> List.filter (λ i, bool_decide ((dag_edges dec_needs jobs).1 !!! i = 0)) (seq 0 n).
Proof.
  rewrite <-sim_length.
  assert (H : ∀ m, (m ≤ length pjobs)%nat → pj_Name <$> List.filter (λ j, bool_decide (deg (init_indeg pjobs) (pj_Name j) = 0)) (take m pjobs) =
    nm <$> List.filter (λ i, bool_decide ((dag_edges dec_needs jobs).1 !!! i = 0)) (seq 0 m)).
  { induction m as [|m IH]; intros Hm; [done|]. destruct (lookup_lt_is_Some_2 pjobs m) as [p E]; [lia|].
    destruct (sim_at m p E) as [En _]. rewrite (take_S_r _ _ _ E), seq_S, !List.filter_app, !fmap_app, IH by lia. f_equal. simpl.
    rewrite <-(proj2 sim_start m) by (rewrite sim_length in Hm; lia). rewrite En. case_bool_decide; [|done]. csimpl. by rewrite En. }
  rewrite <-(H (length pjobs)) by done. by rewrite take_ge.
Qed.

Lemma sim_topo out : topo pjobs deps = TopoOk out → ∃ l, dagOrder dec_needs jobs = Some l ∧ cb_Name <$> l = out.
Proof.
  unfold topo. rewrite sim_ready, sim_length. destruct (dag_edges_spec dec_needs jobs sim_nodup sim_needs_ok) as [_ Hd].
  pose proof (sim_loop (dag_edges dec_needs jobs).2 n Hd (proj2 (proj2 (dag_edges_range dec_needs jobs))) _ _ _ []
    (walk_start dec_needs jobs) sim_start) as Hl. csimpl in Hl.
  destruct (topo_loop _ _ _ _ _ _) as [[o m']|]; [|done]. case_bool_decide as Ho; [|done]. intros [= ->].
  destruct (dag_walk dec_needs jobs) as (ps & E & Hnd & Hlt). fold n in E, Hl. rewrite E in Hl. simpl in Hl. injection Hl as ->.
  rewrite length_fmap in Ho. unfold dagOrder, dag_positions. destruct (dag_edges dec_needs jobs) as [indeg dependents]. simpl in E.
  fold n. rewrite E. eexists. split; [done|].
  assert (Hp : ps ≡ₚ seq 0 n).
  { apply submseteq_length_Permutation; [|rewrite length_seq; lia]. apply NoDup_submseteq; [done|].
    intros i Hi. apply elem_of_seq. specialize (Hlt i Hi). lia. }
  assert (List.filter (λ i, bool_decide (i ∉ ps)) (seq 0 n) = []) as ->.
  { assert (Hin : ∀ i, i ∈ seq 0 n → i ∈ ps) by (intros i Hi; by rewrite Hp). clear -Hin.
    induction (seq 0 n) as [|i l IH]; [done|]. simpl. rewrite bool_decide_eq_false_2 by (intros H; apply H, Hin; left).
    apply IH. intros k Hk. apply Hin. by right. }
  rewrite app_nil_r. clear -Hlt. induction ps as [|i ps IH]; [done|]. csimpl.
  destruct (lookup_lt_is_Some_2 jobs i) as [c Ec]; [apply Hlt; left|]. rewrite Ec. csimpl. f_equal.
  - unfold nm, name_at. by rewrite list_lookup_total_alt, list_lookup_fmap, Ec.
  - apply IH. intros k Hk. apply Hlt. by right.
Qed.
End simulation.

(** C34: The command line shows the jobs of a run in the order the pipeline itself defines:
    for the jobs of an accepted pipeline, with the specs that were stored for them, the
    names dagOrder lists are TopoOrder's. *)
Theorem dag_order_is_topo_order dec_needs yaml_decode src p jobs :
  Parse yaml_decode src = inr p →
  Forall2 (λ c j, cb_Name c = pj_Name j ∧ dec_needs (cb_Spec c) = pj_Needs j) jobs (p_Jobs p) →
  ∃ l, dagOrder dec_needs jobs = Some l ∧ TopoOrder p = Some (cb_Name <$> l).
Proof.
  unfold Parse. destruct (yaml_decode src) as [|msg|name pj]; try done.
  intros [(H1 & H2 & H3 & H4 & Hrank) ->]%finalize_inr Hj. simpl in Hj. unfold TopoOrder. simpl.
  destruct (edges_state_ok pj) as (_ & Hdeps & Hok); [done|].
  destruct (topo_cases _ _ Hok) as [(out & E & _)|(stuck & _ & Hne & Hst & _)].
  - destruct (sim_topo dec_needs jobs _ _ Hok Hdeps Hj out E) as (l & El & <-). exists l. by rewrite E.
  - destruct (stuck_no_rank _ _ Hne Hst). by rewrite has_rank_fix_timeout.
Qed.

(** Specs that are the needs themselves, one byte each. *)
Definition demo_needs (spec : list N) : list string := (λ b, if bool_decide (b = 1%N) then "build" else "test") <$> spec.
Definition demo_cli (name : string) (spec : list N) : CliJob := mkCliJob "" "" name "queued" 0 1 "" "" None "" 0 0 0 spec.
Lemma dag_order_is_topo_order_witness :
  ∃ l, dagOrder demo_needs [demo_cli "deploy" [2%N; 1%N]; demo_cli "build" []; demo_cli "test" [1%N]] = Some l ∧
    TopoOrder demo_pipeline = Some (cb_Name <$> l).
Proof.
  apply (dag_order_is_topo_order demo_needs demo_yaml "").
  - vm_compute. reflexivity.
  - repeat constructor.
Defined.
