(* ===== verification/CliClient.v ===== *)
(** * The command-line client's HTTP client and commands: client.go and cli.go of src/internal/cli

    The network, the contexts and timers and local files are the operations of
    Client.v's [Net], standard output one more; a call is a function of that state, and
    [None] stands for a loop that has not returned within [fuel] rounds.  JSON, SHA-256
    and the multipart encoding are the record [CliWire]. *)

From S2P Require Import Prelude GoLib Pipeline Artifact LocalStore DockerFiles Api Router Client Remote Cli.
From Stdlib Require Import Ascii.

Local Open Scope Z_scope.

Definition DefaultServer : string := "http://127.0.0.1:8080".
Definition PipelineFile : string := ".quarry.yml".
Definition maxBackoff : Z := 10 * Second.

(** ** Errors *)

Inductive KErr :=
  | KCtx                                         (* ctx.Err() *)
  | KConn                                        (* *connectionError *)
  | KAPI (status : Z) (message requestID : string)   (* *APIError *)
  | KUrl                                         (* *url.Error of http.NewRequest *)
  | KFile (what : string)                        (* an *fs.PathError over a syscall.Errno *)
  | KDecode (method path : string)
  | KExit (code : Z)                             (* *ExitError *)
  | KUnsafe (path : string)
  | KSum (path got want : string)
  | KNoToken
  | KWrap (what : string) (e : KErr).            (* fmt.Errorf with %w *)

Fixpoint as_api (e : KErr) : option Z := match e with KAPI st _ _ => Some st | KWrap _ e => as_api e | _ => None end.
Fixpoint is_connectionError (e : KErr) : bool := match e with KConn => true | KWrap _ e => is_connectionError e | _ => false end.
Fixpoint is_ctx (e : KErr) : bool := match e with KCtx => true | KWrap _ e => is_ctx e | _ => false end.
(** [errors.As(err, &netErr)]: an interface with Timeout and Temporary, which
    *url.Error and, below a *fs.PathError, syscall.Errno have. *)
Fixpoint is_netError (e : KErr) : bool := match e with KUrl | KFile _ => true | KWrap _ e => is_netError e | _ => false end.
Fixpoint is_urlError (e : KErr) : bool := match e with KUrl => true | KWrap _ e => is_urlError e | _ => false end.

Definition transient (e : KErr) : bool :=
  if is_connectionError e then true
  else match as_api e with
       | Some st => bool_decide (st = 502 ∨ st = 503 ∨ st = 504)
       | None => if is_ctx e then false else if is_netError e then true else is_urlError e
       end.

Record CliWire := mkCliWire {
  dec_runs : list N → option (list CliRun);
  dec_run_detail : list N → option RunDetail;
  dec_job : list N → option CliJob;
  dec_job_logs : list N → option CliLogs;
  dec_events : list N → option (list CliEvent);
  dec_runners : list N → option (list CliRunner);
  dec_artifacts : list N → option (list CliArtifact);
  dec_api_error : list N → option (string * string);   (* error and request_id *)
  dec_spec_needs : list N → list string;
  status_text : Z → string;
  cli_sha256 : list N → list N;
  multipart : list N → list N → string * list N        (* the content type and the body *)
}.

(** Standard output, and the clock of the rendering. *)
Class CliEnv (C V : Type) := {
  ce_net :: Net C V;
  out_Write : list N → V → bool * V;
  now_ms : V → Z
}.

Section cli.
Context {C V : Type} `{CliEnv C V}.

Definition Km (A : Type) : Type := V → option ((KErr + A) * V).
#[export] Instance Km_ret : MRet Km := λ A a v, Some (inr a, v).
#[export] Instance Km_bind : MBind Km := λ A B f m v,
  match m v with
  | None => None
  | Some (inl e, v') => Some (inl e, v')
  | Some (inr a, v') => f a v'
  end.
Definition kfail {A} (e : KErr) : Km A := λ v, Some (inl e, v).
Definition kresult {A} (r : KErr + A) : Km A := λ v, Some (r, v).
Definition klift {A} (f : V → A * V) : Km A := λ v, let '(a, v') := f v in Some (inr a, v').
(** The state itself, for the clock. *)
Definition world : Km V := λ v, Some (inr v, v).
Definition file_op (what : string) : Km unit := ok ← klift (local_op what); if (ok : bool) then mret tt else kfail (KFile what).

Record CClient := mkCClient { cc_BaseURL : string; cc_Token : string; cc_Retries : Z; cc_Backoff : Z }.
Definition NewClient (baseURL token : string) : CClient := mkCClient baseURL token 5 (200 * Millisecond).

Context (wire : CliWire) (fuel : nat) (c : CClient).

(** ** retry *)

Fixpoint retry_loop {A} (k : nat) (ctx : C) (failures delay : Z) (call : Km A) : Km A := λ v,
  if ctx_Err ctx v then Some (inl KCtx, v)
  else match k with
       | O => None
       | S k' =>
           match call v with
           | Some (inl e, v1) =>
               if negb (transient e) then Some (inl e, v1)
               else
                 let again failures' :=
                   let '(fired, v2) := timer ctx delay v1 in
                   if fired then retry_loop k' ctx failures' (Z.min (int64 (delay * 2)) maxBackoff) call v2
                   else Some (inl KCtx, v2) in
                 match as_api e with
                 | Some _ => if bool_decide (failures >= cc_Retries c) then Some (inl e, v1) else again (failures + 1)
                 | None => again failures
                 end
           | r => r
           end
       end.
Definition retry {A} (ctx : C) (call : Km A) : Km A :=
  let delay := Z.min (cc_Backoff c) maxBackoff in
  retry_loop fuel ctx 0 (if bool_decide (delay <= 0) then 200 * Millisecond else delay) call.

(** ** once *)

(** What a reply that is not 2xx becomes. *)
Definition api_error (status : Z) (raw : list N) : KErr :=
  match dec_api_error wire raw with
  | Some (msg, rid) => if bool_decide (msg = "") then KAPI status (status_text wire status) "" else KAPI status msg rid
  | None => KAPI status (status_text wire status) ""
  end.

Definition send (ctx : C) (rq : HttpRequest) : Km (Z * Body) :=
  r ← klift (http_Do ctx rq);
  match r with
  | BadURL => kfail KUrl
  | NoReply => kfail KConn
  | Reply status body _ => mret (status, body)
  end.

(** [body] yields a content type and a body of unknown length, [zero] is what [out]
    holds before; [dec] is absent when [out] is nil. *)
Definition once {T} (ctx : C) (method path : string) (body : option (Km (string * list N))) (zero : T)
    (dec : option (list N → option T)) : Km T :=
  b ← match body with Some f => f | None => mret ("", []) end;
  let '(ct, content) := b in
  r ← send ctx (mkHttpRequest method (cc_BaseURL c +:+ path) ("Bearer " +:+ cc_Token c) ct
                  (match body with Some _ => -1 | None => 0 end) content);
  let '(status, resp) := r in
  match ReadAll (LimitReader resp (Z.shiftl 64 20)) with
  | inl _ => kfail KConn
  | inr raw =>
      if negb (bool_decide (Z.quot status 100 = 2)) then kfail (api_error status raw)
      else match dec with
           | None => mret zero
           | Some dec =>
               match raw with
               | [] => mret zero
               | _ => match dec raw with Some t => mret t | None => kfail (KWrap "decode" (KDecode method path)) end
               end
           end
  end.
Definition do {T} (ctx : C) (method path : string) (body : option (Km (string * list N))) (zero : T)
    (dec : option (list N → option T)) : Km T :=
  retry ctx (once ctx method path body zero dec).

(** ** Endpoints *)

Definition zeroRun : CliRun := mkCliRun "" "" "" 0 0 0.
Definition zeroDetail : RunDetail := mkRunDetail zeroRun [].
Definition zeroJob : CliJob := mkCliJob "" "" "" "" 0 0 "" "" None "" 0 0 0 [].
Definition zeroLogs : CliLogs := mkCliLogs 0 [] 0.

Definition Submit (ctx : C) (body : Km (string * list N)) : Km RunDetail :=
  do ctx "POST" "/api/runs" (Some body) zeroDetail (Some (dec_run_detail wire)).
Definition ListRuns (ctx : C) (limit : Z) : Km (list CliRun) :=
  do ctx "GET" ("/api/runs?limit=" +:+ Itoa limit) None [] (Some (dec_runs wire)).
Definition GetRun (ctx : C) (id : string) : Km RunDetail :=
  do ctx "GET" ("/api/runs/" +:+ PathEscape id) None zeroDetail (Some (dec_run_detail wire)).
Definition GetJob (ctx : C) (id : string) : Km CliJob :=
  do ctx "GET" ("/api/jobs/" +:+ PathEscape id) None zeroJob (Some (dec_job wire)).
Definition GetLogs (ctx : C) (jobID : string) (attempt after : Z) : Km CliLogs :=
  do ctx "GET" ("/api/jobs/" +:+ PathEscape jobID +:+ "/logs?after=" +:+ Itoa after +:+
                (if bool_decide (attempt > 0) then "&attempt=" +:+ Itoa attempt else "")) None zeroLogs (Some (dec_job_logs wire)).
Definition ListEvents (ctx : C) (runID : string) (after : Z) : Km (list CliEvent) :=
  do ctx "GET" ("/api/runs/" +:+ PathEscape runID +:+ "/events?after=" +:+ Itoa after) None [] (Some (dec_events wire)).
Definition ListRunners (ctx : C) : Km (list CliRunner) :=
  do ctx "GET" "/api/runners" None [] (Some (dec_runners wire)).
Definition Cancel (ctx : C) (runID : string) : Km unit :=
  do ctx "POST" ("/api/runs/" +:+ PathEscape runID +:+ "/cancel") None tt None.
Definition ListArtifacts (ctx : C) (jobID : string) (attempt : Z) : Km (list CliArtifact) :=
  do ctx "GET" ("/api/jobs/" +:+ PathEscape jobID +:+ "/artifacts" +:+
                (if bool_decide (attempt > 0) then "?attempt=" +:+ Itoa attempt else "")) None [] (Some (dec_artifacts wire)).

(** ** DownloadArtifact *)

Definition artifact_url (jobID : string) (attempt : Z) (path : string) : string :=
  "/api/jobs/" +:+ PathEscape jobID +:+ "/artifacts/" +:+ Join (PathEscape <$> Split path "/") "/" +:+
  (if bool_decide (attempt > 0) then "?attempt=" +:+ Itoa attempt else "").

(** [downloadOnce]: what it has written to the spool file, and its sum.  A failed read
    of the reply is a connection error, a failed write to the spool is the file's. *)
Definition downloadOnce (ctx : C) (jobID : string) (attempt : Z) (path : string) : Km (list N * string) :=
  r ← send ctx (mkHttpRequest "GET" (cc_BaseURL c +:+ artifact_url jobID attempt path) ("Bearer " +:+ cc_Token c) "" 0 []);
  let '(status, resp) := r in
  if negb (bool_decide (Z.quot status 100 = 2)) then kfail (api_error status (bd_bytes (LimitReader resp (Z.shiftl 64 10))))
  else
    file_op "write";;
    match ReadAll resp with
    | inl _ => kfail KConn
    | inr data => mret (data, hex_encode (cli_sha256 wire data))
    end.

(** What reaches [w], and the sum of it. *)
Definition DownloadArtifact (ctx : C) (jobID : string) (attempt : Z) (path : string) : Km (list N * string) :=
  file_op "create";;
  r ← retry ctx (file_op "truncate";; file_op "seek";; downloadOnce ctx jobID attempt path);
  file_op "seek";;
  mret r.

(** ** The commands *)

Record App := mkApp { ap_interval : Z; ap_ctx : C }.

(** Output whose errors are ignored, and output whose errors are not. *)
Definition bytes_of (s : string) : list N := byte_of <$> String.list_ascii_of_string s.
Definition print (s : string) : Km unit :=
  if bool_decide (s = "") then mret tt else klift (out_Write (bytes_of s));; mret tt.
Definition write_out (b : list N) : Km unit := ok ← klift (out_Write b); if (ok : bool) then mret tt else kfail (KFile "stdout").

Definition sleep (a : App) : Km unit := λ v,
  let '(fired, v') := timer (ap_ctx a) (ap_interval a) v in Some (if fired then inr tt else inl KCtx, v').

Definition run_heading (r : CliRun) : string := "run " +:+ cr_ID r +:+ ": " +:+ cr_State r +:+ String newline "".
Definition printRun (d : RunDetail) : Km unit :=
  print (run_heading (rd_Run d));;
  v ← world;
  print (renderJobs (dec_spec_needs wire) (rd_Jobs d) (now_ms v)).

(** What a poll shows, printed when it differs from what the last one showed. *)
Definition screen (d : RunDetail) (now : Z) : string :=
  run_heading (rd_Run d) +:+ renderJobs (dec_spec_needs wire) (rd_Jobs d) now.
Definition redraw (cur last : string) : Km unit :=
  if bool_decide (cur = last) then mret tt
  else (if bool_decide (last = "") then mret tt else print (String newline ""));; print cur.
Definition verdict (d : RunDetail) : KErr + unit :=
  if bool_decide (cr_State (rd_Run d) = "succeeded") then inr tt else inl (KExit 1).

Fixpoint watch_loop (k : nat) (a : App) (runID last : string) : Km unit :=
  match k with
  | O => λ _, None
  | S k' =>
      d ← GetRun (ap_ctx a) runID;
      v ← world;
      let cur := screen d (now_ms v) in
      redraw cur last;;
      if runTerminal (cr_State (rd_Run d)) then kresult (verdict d)
      else sleep a;; watch_loop k' a runID cur
  end.
Definition watch (a : App) (runID : string) : Km unit := watch_loop fuel a runID "".

Definition statusCmd (a : App) (run : string) : Km unit := d ← GetRun (ap_ctx a) run; printRun d.
Definition runsCmd (a : App) (limit : Z) : Km unit :=
  runs ← ListRuns (ap_ctx a) limit;
  v ← world;
  print (renderRuns runs (now_ms v)).
Definition runnersCmd (a : App) : Km unit :=
  rs ← ListRunners (ap_ctx a);
  v ← world;
  print (renderRunners rs (now_ms v)).
Definition cancelCmd (a : App) (run : string) : Km unit :=
  Cancel (ap_ctx a) run;;
  print ("run " +:+ run +:+ ": cancel requested" +:+ String newline "").

(** *** logs *)

Fixpoint write_chunks (cs : list CliLogChunk) : Km unit :=
  match cs with [] => mret tt | ch :: cs' => write_out (ck_Data ch);; write_chunks cs' end.

Fixpoint logs_loop (k : nat) (a : App) (job : string) (follow : bool) (attempt after readAttempt : Z) : Km unit :=
  match k with
  | O => λ _, None
  | S k' =>
      terminal ← (if follow then j ← GetJob (ap_ctx a) job; mret (jobTerminal (cb_State j)) else mret false);
      l ← GetLogs (ap_ctx a) job attempt after;
      if negb (bool_decide (readAttempt = 0)) && negb (bool_decide (cg_Attempt l = readAttempt))
      then logs_loop k' a job follow attempt 0 (cg_Attempt l)
      else
        write_chunks (cg_Chunks l);;
        if negb follow || (terminal && bool_decide (cg_Chunks l = [])) then mret tt
        else sleep a;; logs_loop k' a job follow attempt (cg_Next l) (cg_Attempt l)
  end.
Definition logsCmd (a : App) (job : string) (follow : bool) (attempt : Z) : Km unit := logs_loop fuel a job follow attempt 0 0.

(** *** events *)

Fixpoint events_loop (k : nat) (a : App) (run : string) (follow : bool) (after : Z) : Km unit :=
  match k with
  | O => λ _, None
  | S k' =>
      terminal ← (if follow then d ← GetRun (ap_ctx a) run; mret (runTerminal (cr_State (rd_Run d))) else mret false);
      evs ← ListEvents (ap_ctx a) run after;
      print (renderEvents evs);;
      let after' := match last evs with Some e => ce_ID e | None => after end in
      if negb follow || (terminal && bool_decide (evs = [])) then mret tt
      else sleep a;; events_loop k' a run follow after'
  end.
Definition eventsCmd (a : App) (run : string) (follow : bool) : Km unit := events_loop fuel a run follow 0.

(** *** run *)

Definition multipartBody (pipeline : list N) (bundlePath : string) : Km (string * list N) := λ v,
  match open_file bundlePath v with
  | None => Some (inl (KFile bundlePath), v)
  | Some (_, bundle) => Some (inr (multipart wire pipeline bundle), v)
  end.

(** [filepath.Join] of a directory and a name. *)
Definition join_file (dir name : string) : string :=
  if bool_decide (dir = "") then path_Clean name else path_Clean (dir +:+ "/" +:+ name).

(** *** The root command *)

(** PersistentPreRunE. *)
Definition preRun (name server token : string) : KErr + option CClient :=
  if bool_decide (name = "help" ∨ name = "completion") then inr None
  else if bool_decide (token = "") then inl KNoToken
  else inr (Some (NewClient (trim_slashes server) token)).
Definition envOr (v def : string) : string := if bool_decide (v = "") then def else v.
(** Main: the exit code of a command's result. *)
Fixpoint as_exit (e : KErr) : option Z := match e with KExit code => Some code | KWrap _ e => as_exit e | _ => None end.
Definition exit_code (r : KErr + unit) : Z :=
  match r with
  | inr _ => 0
  | inl e => match as_exit e with Some code => code | None => if is_ctx e then 130 else 1 end
  end.
End cli.
