(* ===== verification/CliClientSpec.v ===== *)
(** * Theorems about the command-line client's calls

    What a retried call returns and when; which failures it retries for ever; what the
    exit code of a watched run says; that following a log prints all of it. *)

From S2P Require Import Prelude GoLib Pipeline Artifact LocalStore DockerFiles Api Router Client Remote Cli CliClient.

Local Open Scope Z_scope.

(** ** retry *)

Section retry.
Context {C V : Type} `{CliEnv C V} (c : CClient) {A : Type} (ctx : C) (call : Km (V:=V) A).

(** Tries that failed for now, each followed by a wait that ended: [g] of them answered
    by a gateway, the waits from [d] on doubling up to the maximum. *)
Inductive setbacks : Z → nat → nat → V → V → Z → Prop :=
  | setbacks_none d v : setbacks d 0 0 v v d
  | setbacks_conn d g n v e v1 v2 v3 d' : ctx_Err ctx v = false → call v = Some (inl e, v1) → transient e = true → as_api e = None →
      timer ctx d v1 = (true, v2) → setbacks (Z.min (int64 (d * 2)) maxBackoff) g n v2 v3 d' → setbacks d g (S n) v v3 d'
  | setbacks_gateway d g n v e st v1 v2 v3 d' : ctx_Err ctx v = false → call v = Some (inl e, v1) → transient e = true → as_api e = Some st →
      timer ctx d v1 = (true, v2) → setbacks (Z.min (int64 (d * 2)) maxBackoff) g n v2 v3 d' → setbacks d (S g) (S n) v v3 d'.

(** How a call ends, after [g] gateway failures, its next wait being [d]. *)
Inductive settled (g : Z) (d : Z) (v : V) : KErr + A → V → Prop :=
  | settled_before : ctx_Err ctx v = true → settled g d v (inl KCtx) v
  | settled_answer r v' : ctx_Err ctx v = false → call v = Some (r, v') →
      (∀ e, r = inl e → transient e = false ∨ is_Some (as_api e) ∧ g >= cc_Retries c) → settled g d v r v'
  | settled_waiting e v1 v' : ctx_Err ctx v = false → call v = Some (inl e, v1) → transient e = true →
      (as_api e = None ∨ g < cc_Retries c) → timer ctx d v1 = (false, v') → settled g d v (inl KCtx) v'.

Lemma retry_loop_sound k : ∀ failures d v r v', retry_loop c k ctx failures d call v = Some (r, v') →
  ∃ g n v1 d', setbacks d g n v v1 d' ∧ settled (failures + Z.of_nat g) d' v1 r v' ∧
    (g = 0%nat ∨ failures + Z.of_nat g ≤ cc_Retries c).
Proof.
  induction k as [|k IH]; intros failures d v r v'; cbn [retry_loop];
    (destruct (ctx_Err ctx v) eqn:Ec; [intros [= <- <-]; exists 0%nat, 0%nat, v, d; split_and!; [constructor|by constructor|by left]|]); [done|].
  destruct (call v) as [[[e|a] v1]|] eqn:E; [| |done].
  2:{ intros [= <- <-]. exists 0%nat, 0%nat, v, d. split_and!; [constructor|by constructor|by left]. }
  destruct (transient e) eqn:Ht; simpl.
  2:{ intros [= <- <-]. exists 0%nat, 0%nat, v, d. split_and!; [constructor| |by left]. apply settled_answer; [done..|].
      intros e' [= <-]. by left. }
  destruct (as_api e) as [st|] eqn:Ea.
  - case_bool_decide as Hg.
    + intros [= <- <-]. exists 0%nat, 0%nat, v, d. split_and!; [constructor| |by left]. apply settled_answer; [done..|].
      intros e' [= <-]. right. split; [by eexists|lia].
    + destruct (timer ctx d v1) as [[] v2] eqn:Em.
      * intros (g & n & v3 & d' & Hs & Ho & Hr)%IH. exists (S g), (S n), v3, d'. split_and!; [by econstructor| |right; lia].
        by replace (failures + Z.of_nat (S g)) with (failures + 1 + Z.of_nat g) by lia.
      * intros [= <- <-]. exists 0%nat, 0%nat, v, d. split_and!; [constructor| |by left]. eapply settled_waiting; eauto. right. lia.
  - destruct (timer ctx d v1) as [[] v2] eqn:Em.
    + intros (g & n & v3 & d' & Hs & Ho & Hr)%IH. exists g, (S n), v3, d'. split_and!; [by econstructor|done|done].
    + intros [= <- <-]. exists 0%nat, 0%nat, v, d. split_and!; [constructor| |by left]. eapply settled_waiting; eauto.
Qed.

Lemma retry_loop_complete d g n v v1 d' : setbacks d g n v v1 d' → ∀ k failures r v',
  (n < k)%nat → (g = 0%nat ∨ failures + Z.of_nat g ≤ cc_Retries c) → settled (failures + Z.of_nat g) d' v1 r v' →
  retry_loop c k ctx failures d call v = Some (r, v').
Proof.
  induction 1 as [d v|d g n v e v1 v2 v3 d' Hc E Ht Ha Hm Hs IH|d g n v e st v1 v2 v3 d' Hc E Ht Ha Hm Hs IH];
    intros k failures r v' Hk Hg Ho; (destruct k as [|k]; [lia|]); cbn [retry_loop].
  - rewrite Z.add_0_r in Ho. destruct Ho as [Hc|r v' Hc E Hf|e v1 v' Hc E Ht Ha Hm]; rewrite Hc; [done| |].
    + rewrite E. destruct r as [e|a]; [|done]. destruct (Hf e eq_refl) as [->|[[st Ha] Hge]]; [done|].
      destruct (transient e); [|done]. simpl. rewrite Ha. by rewrite bool_decide_true.
    + rewrite E, Ht. simpl. rewrite Hm. destruct (as_api e) as [st|]; [|done]. destruct Ha as [|Ha]; [done|].
      by rewrite bool_decide_false by lia.
  - rewrite Hc, E, Ht, Ha, Hm. simpl. apply IH; [lia|done|done].
  - rewrite Hc, E, Ht, Ha, Hm. simpl. rewrite bool_decide_false by lia. apply IH; [lia|lia|].
    by replace (failures + 1 + Z.of_nat g) with (failures + Z.of_nat (S g)) by lia.
Qed.

(** What every try and every wait keeps, a retried call keeps. *)
Lemma retry_keeps (I : V → Prop) (R : V → V → Prop) (Q : A → V → Prop) fuel v r v' : PreOrder R →
  (∀ v r v', I v → call v = Some (r, v') → I v' ∧ R v v' ∧ ∀ x, r = inr x → Q x v') →
  (∀ v d b v', I v → timer ctx d v = (b, v') → I v' ∧ R v v') →
  I v → retry fuel c ctx call v = Some (r, v') → I v' ∧ R v v' ∧ ∀ x, r = inr x → Q x v'.
Proof.
  intros HR Hcall Htm Hv (g & n & v1 & d & Hs & Ho & _)%retry_loop_sound.
  assert (I v1 ∧ R v v1) as [H1 R1].
  { clear Ho. induction Hs as [d0 v|d0 g n v e v1 v2 v3 d' _ E _ _ Em _ IH|d0 g n v e st v1 v2 v3 d' _ E _ _ Em _ IH]; [done|..];
      (destruct (Hcall _ _ _ Hv E) as (Hi1 & Hr1 & _); destruct (Htm _ _ _ _ Hi1 Em) as [Hi2 Hr2]; destruct (IH Hi2) as [? ?];
       split; [done|]; etrans; [exact Hr1|]; by etrans). }
  destruct Ho as [_|r v' _ E _|e v2 v' _ E _ _ Em]; [done| |].
  - destruct (Hcall _ _ _ H1 E) as (? & ? & ?). split_and!; [done|by etrans|done].
  - destruct (Hcall _ _ _ H1 E) as (Hi2 & Hr2 & _). destruct (Htm _ _ _ _ Hi2 Em) as [? ?]. split_and!; [done|etrans; [exact R1|by etrans]|done].
Qed.
End retry.

Definition first_delay (c : CClient) : Z :=
  if bool_decide (Z.min (cc_Backoff c) maxBackoff <= 0) then 200 * Millisecond else Z.min (cc_Backoff c) maxBackoff.

(** A retried call returns exactly what its tries say.  It outlasts any number of
    failed connections and up to Retries answers 502, 503 or 504, with waits that double
    up to ten seconds; it then returns the next answer, whatever it is, unless that is
    one more gateway failure than Retries, which is returned too, or the context ends
    before a try or during a wait.  Conversely every result comes about in this way. *)
Theorem cli_retry_is_exact {C V : Type} `{CliEnv C V} (c : CClient) {A} (ctx : C) (call : Km (V:=V) A) (v : V) r v' :
  (∀ fuel, retry fuel c ctx call v = Some (r, v') → ∃ g n v1 d, setbacks ctx call (first_delay c) g n v v1 d ∧
     settled c ctx call (Z.of_nat g) d v1 r v' ∧ Z.of_nat g ≤ Z.max 0 (cc_Retries c)) ∧
  (∀ g n v1 d fuel, setbacks ctx call (first_delay c) g n v v1 d ∧ settled c ctx call (Z.of_nat g) d v1 r v' ∧
     Z.of_nat g ≤ Z.max 0 (cc_Retries c) ∧ (n < fuel)%nat → retry fuel c ctx call v = Some (r, v')).
Proof.
  split.
  - intros fuel (g & n & v1 & d & Hs & Ho & Hg)%retry_loop_sound. exists g, n, v1, d. split_and!; [done|done|lia].
  - intros g n v1 d fuel (Hs & Ho & Hg & Hn). unfold retry. eapply retry_loop_complete; [done|done|lia|done].
Qed.

(** ** What is retried for ever *)

Section forever.
Context {C V : Type} `{CliEnv C V} (c : CClient) {A : Type} (ctx : C) (call : Km (V:=V) A) (J : V → Prop).
Context (Hcall : ∀ v, J v → ctx_Err ctx v = false ∧ ∃ e v1, call v = Some (inl e, v1) ∧ transient e = true ∧ as_api e = None ∧
  ∀ d, ∃ v2, timer ctx d v1 = (true, v2) ∧ J v2).

Lemma retry_loop_forever k : ∀ failures d v, J v → retry_loop c k ctx failures d call v = None.
Proof.
  induction k as [|k IH]; intros failures d v HJ; destruct (Hcall v HJ) as (Hc & e & v1 & E & Ht & Ha & Hm); cbn [retry_loop]; rewrite Hc; [done|].
  rewrite E, Ht, Ha. simpl. destruct (Hm d) as (v2 & -> & HJ2). by apply IH.
Qed.
End forever.

(** A mistake of the user's is taken for an outage.  As long as the context lives, a
    server URL that does not parse, or a bundle that cannot be read, makes a call retry
    for ever instead of reporting the error: it has not returned after any number of
    rounds. *)
Theorem local_mistakes_are_retried_forever {C V : Type} `{CliEnv C V} (wire : CliWire) (c : CClient) (ctx : C) :
  (∀ v, ctx_Err ctx v = false) → (∀ d v, (timer ctx d v).1 = true) →
  ((∀ rq v, (http_Do ctx rq v).1 = BadURL) → ∀ fuel id v, GetRun wire fuel c ctx id v = None) ∧
  (∀ pipeline file, (∀ v, open_file file v = None) → ∀ fuel v, Submit wire fuel c ctx (multipartBody wire pipeline file) v = None).
Proof.
  intros Hctx Htm. assert (Hloop : ∀ T (call : Km (V:=V) T), (∀ v, ∃ e v1, call v = Some (inl e, v1) ∧ transient e = true ∧ as_api e = None) →
    ∀ fuel v, retry fuel c ctx call v = None).
  { intros T call Hcall fuel v. unfold retry. apply (retry_loop_forever c ctx call (λ _, True)); [|done]. intros v0 _.
    split; [done|]. destruct (Hcall v0) as (e & v1 & E & Ht & Ha). exists e, v1. split_and!; [done..|]. intros d.
    specialize (Htm d v1). destruct (timer ctx d v1) as [b v2]. simpl in Htm. subst b. by exists v2. }
  split.
  - intros Hurl fuel id v. unfold GetRun, do. apply Hloop. intros v0. unfold once, send, klift, mbind, Km_bind, mret, Km_ret.
    set (rq := mkHttpRequest _ _ _ _ _ _). specialize (Hurl rq v0). destruct (http_Do ctx rq v0) as [rep v1]. simpl in Hurl. subst rep.
    by exists KUrl, v1.
  - intros pipeline file Hf fuel v. unfold Submit, do. apply Hloop. intros v0. unfold once, multipartBody, mbind, Km_bind. rewrite Hf.
    by exists (KFile file), v0.
Qed.

(** A server address without its scheme: nothing parses. *)
#[local] Instance unparsed_net : Net unit nat := {
  ctx_Err := λ _ _, false; http_Do := λ _ _ v, (BadURL, v); timer := λ _ _ v, (true, S v);
  open_file := λ _ _, None; local_op := λ _ v, (true, v) }.
#[local] Instance unparsed_env : CliEnv unit nat := { out_Write := λ _ v, (true, v); now_ms := λ _, 0 }.
Definition demo_wire : CliWire := mkCliWire (λ _, None) (λ _, None) (λ _, None) (λ _, None) (λ _, None) (λ _, None) (λ _, None)
  (λ _, None) (λ _, []) (λ _, "") (λ b, b) (λ _ _, ("", [])).
Lemma local_mistakes_are_retried_forever_witness :
  ∀ fuel, GetRun demo_wire fuel (NewClient "127.0.0.1:8080" "t") tt "r1" 0%nat = None.
Proof.
  intros fuel. destruct (local_mistakes_are_retried_forever demo_wire (NewClient "127.0.0.1:8080" "t") tt) as [H _]; [done..|].
  by apply H.
Defined.

(** ** watch *)

Section watch.
Context {C V : Type} `{CliEnv C V} (wire : CliWire) (fuel : nat) (c : CClient) (a : App (C:=C)) (runID : string).

(** The polls of a watch: [n] that find the run unfinished, then one that finds it in a
    terminal state. *)
Inductive watched : nat → string → V → RunDetail → V → Prop :=
  | watched_end last v d v1 v2 : GetRun wire fuel c (ap_ctx a) runID v = Some (inr d, v1) →
      redraw (screen wire d (now_ms v1)) last v1 = Some (inr tt, v2) → runTerminal (cr_State (rd_Run d)) = true →
      watched 0 last v d v2
  | watched_more n last v d0 v1 v2 v3 d v4 : GetRun wire fuel c (ap_ctx a) runID v = Some (inr d0, v1) →
      redraw (screen wire d0 (now_ms v1)) last v1 = Some (inr tt, v2) → runTerminal (cr_State (rd_Run d0)) = false →
      timer (ap_ctx a) (ap_interval a) v2 = (true, v3) → watched n (screen wire d0 (now_ms v1)) v3 d v4 → watched (S n) last v d v4.

Lemma print_total s (v : V) : ∃ v', print s v = Some (inr tt, v').
Proof.
  unfold print. case_bool_decide; [by eexists|]. unfold klift, mbind, Km_bind.
  destruct (out_Write (bytes_of s) v) as [b v'] eqn:E. by exists v'.
Qed.
Lemma redraw_total cur last (v : V) : ∃ v', redraw cur last v = Some (inr tt, v').
Proof.
  unfold redraw. case_bool_decide; [by eexists|]. unfold mbind, Km_bind at 1. case_bool_decide; [apply print_total|].
  destruct (print_total (String newline "") v) as [v1 ->]. apply print_total.
Qed.

Lemma watch_loop_complete n last v d v' : watched n last v d v' → ∀ k, (n < k)%nat → watch_loop wire fuel c k a runID last v = Some (verdict d, v').
Proof.
  induction 1 as [last v d v1 v2 E Er Ht|n last v d0 v1 v2 v3 d v4 E Er Ht Em Hw IH]; intros k Hk; (destruct k as [|k]; [lia|]);
    cbn [watch_loop]; unfold mbind, Km_bind, world; rewrite E; cbv beta iota; rewrite Er, Ht; [done|].
  unfold sleep. rewrite Em. cbv beta iota. apply IH. lia.
Qed.

Lemma watch_loop_sound k : ∀ last v r v', watch_loop wire fuel c k a runID last v = Some (r, v') →
  (∃ n d, watched n last v d v' ∧ r = verdict d) ∨
  (∃ e, r = inl e ∧ (e = KCtx ∨ ∃ v0, GetRun wire fuel c (ap_ctx a) runID v0 = Some (inl e, v'))).
Proof.
  induction k as [|k IH]; intros last v r v'; [done|]. cbn [watch_loop]. unfold mbind, Km_bind, world.
  destruct (GetRun wire fuel c (ap_ctx a) runID v) as [[[e|d] v1]|] eqn:E; [| |done].
  { intros [= <- <-]. right. exists e. split; [done|]. right. by exists v. }
  destruct (redraw_total (screen wire d (now_ms v1)) last v1) as [v2 Er]. rewrite Er.
  destruct (runTerminal (cr_State (rd_Run d))) eqn:Ht.
  { intros [= <- <-]. left. exists 0%nat, d. split; [by econstructor|done]. }
  unfold sleep. destruct (timer (ap_ctx a) (ap_interval a) v2) as [[] v3] eqn:Em.
  - intros [(n & d' & Hw & ->)|He]%IH; [left|by right]. exists (S n), d'. split; [by econstructor|done].
  - intros [= <- <-]. right. exists KCtx. split; [done|by left].
Qed.

(** A call that sends no body never ends in an exit code of its own. *)
Lemma once_no_exit {T} (ctx : C) method path (zero : T) dec v e v' :
  once wire c ctx method path None zero dec v = Some (inl e, v') → as_exit e = None.
Proof.
  unfold once, send, klift, kfail, mbind, Km_bind, mret, Km_ret. destruct (http_Do _ _ _) as [[] v1]; try (by intros [= <- <-]).
  destruct (ReadAll _) as [|raw]; [by intros [= <- <-]|]. case_bool_decide; simpl.
  - destruct dec as [dec|]; [|done]. destruct raw; [done|]. by destruct (dec _) as [|]; [|intros [= <- <-]].
  - intros [= <- <-]. unfold api_error. destruct (dec_api_error wire raw) as [[]|]; [by case_bool_decide|done].
Qed.
Lemma GetRun_no_exit v e v' : GetRun wire fuel c (ap_ctx a) runID v = Some (inl e, v') → as_exit e = None.
Proof.
  intros (g & n & v1 & d & _ & Ho & _)%retry_loop_sound. inversion Ho; subst; try done. by eapply once_no_exit.
Qed.
End watch.

(** The exit code of a watch is the run's.  When the run reaches a terminal state within
    the polls made, watch returns: exit code 0 if the state is succeeded, 1 if it
    is failed or cancelled.  Conversely exit code 0 means that the last poll has found the
    run succeeded; an error that is not an exit code came from the server or from the
    end of the context. *)
Theorem watch_exits_with_the_verdict {C V : Type} `{CliEnv C V} (wire : CliWire) (fuel : nat) (c : CClient) (a : App (C:=C)) runID (v : V) :
  (∀ n d v', watched wire fuel c a runID n "" v d v' ∧ (n < fuel)%nat →
     ∃ r, watch wire fuel c a runID v = Some (r, v') ∧
       exit_code r = if bool_decide (cr_State (rd_Run d) = "succeeded") then 0 else 1) ∧
  (∀ r v', watch wire fuel c a runID v = Some (r, v') →
     (exit_code r = 0 ↔ ∃ n d, watched wire fuel c a runID n "" v d v' ∧ cr_State (rd_Run d) = "succeeded" ∧ r = inr tt) ∧
     (∀ e, r = inl e → as_exit e = None → e = KCtx ∨ ∃ v0, GetRun wire fuel c (ap_ctx a) runID v0 = Some (inl e, v'))).
Proof.
  split.
  - intros n d v' [Hw Hn]. exists (verdict d). split; [by eapply watch_loop_complete|]. unfold verdict. by case_bool_decide.
  - intros r v' Hr. destruct (watch_loop_sound wire fuel c a runID fuel "" v r v' Hr) as [(n & d & Hw & ->)|(e & -> & He)].
    + split; [|intros e; unfold verdict; case_bool_decide; [done|by intros [= <-]]].
      unfold verdict. case_bool_decide as Hs; simpl; [|naive_solver]. split; [|done]. intros _. by exists n, d.
    + split; [|naive_solver]. assert (as_exit e = None) as Hx.
      { destruct He as [->|[v0 E]]; [done|]. by eapply GetRun_no_exit. }
      simpl. rewrite Hx. destruct (is_ctx e); naive_solver.
Qed.
