(* ===== verification/CliFollow.v ===== *)
(** * quarry logs -f

    The server as the log command sees it, one read after another, is the class
    [LogService]: the chunks of an attempt are appended with growing sequence numbers,
    attempts follow one another, a job found terminal has its final log, and a read
    returns the chunks of the current attempt beyond the cursor.  Against any such
    server, following prints every attempt's log in order, without gap or repetition,
    and the last one to its end. *)

From S2P Require Import Prelude GoLib Pipeline Artifact LocalStore DockerFiles Api Router Client Remote Cli CliClient.

Local Open Scope Z_scope.

Definition bytes (l : list CliLogChunk) : list N := mjoin (ck_Data <$> l).
Definition unseen (after : Z) (l : list CliLogChunk) : list CliLogChunk := filter (λ ch, after < ck_Seq ch) l.
Definition ascending (l : list CliLogChunk) : Prop := StronglySorted (λ a b, ck_Seq a < ck_Seq b) l ∧ Forall (λ ch, 0 < ck_Seq ch) l.

Lemma bytes_app l k : bytes (l ++ k) = bytes l ++ bytes k.
Proof. unfold bytes. by rewrite fmap_app, join_app. Qed.
(** The cursor behind a log that has been read. *)
Definition cursor (l : list CliLogChunk) : Z := default 0 (ck_Seq <$> last l).

Lemma cursor_app l more : default (cursor l) (ck_Seq <$> last more) = cursor (l ++ more).
Proof. unfold cursor. rewrite last_app. by destruct (last more). Qed.
Lemma unseen_all after l : (∀ x, x ∈ l → after < ck_Seq x) → unseen after l = l.
Proof.
  unfold unseen. induction l as [|x l IH]; intros Hl; [done|]. rewrite filter_cons, decide_True by (apply Hl; left).
  f_equal. apply IH. intros y Hy. apply Hl. by right.
Qed.
Lemma unseen_none after l : (∀ x, x ∈ l → ck_Seq x ≤ after) → unseen after l = [].
Proof.
  unfold unseen. induction l as [|x l IH]; intros Hl; [done|]. pose proof (Hl x ltac:(left)). rewrite filter_cons, decide_False by lia.
  apply IH. intros y Hy. apply Hl. by right.
Qed.
Lemma unseen_cursor l more : ascending (l ++ more) → unseen (cursor l) (l ++ more) = more.
Proof.
  intros [Hs Hp].
  assert (Hle : ∀ x, x ∈ l → ck_Seq x ≤ cursor l).
  { apply StronglySorted_app_1_l in Hs. clear -Hs. unfold cursor. induction Hs as [|z l Hs IH Hz]; [by intros y ?%not_elem_of_nil|].
    intros y [->|Hy]%elem_of_cons.
    - destruct l as [|z' l']; [done|]. rewrite last_cons_cons. destruct (last (z' :: l')) as [x|] eqn:E; [|by apply last_None in E].
      simpl. rewrite Forall_forall in Hz. apply Z.lt_le_incl, Hz. by eapply last_Some_elem_of.
    - destruct l as [|z' l']; [by apply not_elem_of_nil in Hy|]. rewrite last_cons_cons. by apply IH. }
  assert (Hgt : ∀ x, x ∈ more → cursor l < ck_Seq x).
  { intros x Hx. unfold cursor. destruct (last l) as [y|] eqn:E; simpl.
    - apply (StronglySorted_app_1_elem_of (λ a b, ck_Seq a < ck_Seq b) l more); [done|by eapply last_Some_elem_of|done].
    - rewrite Forall_app, !Forall_forall in Hp. by apply Hp. }
  unfold unseen. rewrite filter_app. fold (unseen (cursor l) l) (unseen (cursor l) more).
  by rewrite (unseen_none _ _ Hle), (unseen_all _ _ Hgt).
Qed.

(** ** The server *)

(** [lv_log v a] is the log of attempt [a] in [v], [lv_cur v] the attempt a read returns (0
    before the first), [lv_out v] what has been printed; [lv_inv] holds of the states that
    occur. *)
Record LogView (V : Type) := mkLogView {
  lv_inv : V → Prop; lv_log : V → Z → list CliLogChunk; lv_cur : V → Z; lv_done : V → bool; lv_out : V → list N }.
Arguments lv_inv {V}. Arguments lv_log {V}. Arguments lv_cur {V}. Arguments lv_done {V}. Arguments lv_out {V}.

(** Logs only grow, attempts go forward; nothing changes once the job is terminal. *)
Definition evolves {V} (w : LogView V) (v v' : V) : Prop :=
  (∀ a, lv_log w v a `prefix_of` lv_log w v' a) ∧ lv_cur w v ≤ lv_cur w v' ∧
  (lv_done w v = true → lv_done w v' = true ∧ lv_cur w v' = lv_cur w v ∧ ∀ a, lv_log w v' a = lv_log w v a).

Class LogService {C V : Type} `{CliEnv C V} (w : LogView V) (wire : CliWire) (fuel : nat) (c : CClient) (a : App (C:=C)) (job : string) (attempt : Z) := {
  sv_ascending : ∀ v a, lv_inv w v → ascending (lv_log w v a);
  sv_attempt : ∀ v, lv_inv w v → 0 ≤ lv_cur w v ∧ lv_log w v 0 = [];
  sv_timer : ∀ v b v', lv_inv w v → timer (ap_ctx a) (ap_interval a) v = (b, v') →
    lv_inv w v' ∧ evolves w v v' ∧ lv_out w v' = lv_out w v;
  sv_write : ∀ b v v', lv_inv w v → out_Write b v = (true, v') → lv_inv w v' ∧ evolves w v v' ∧ lv_out w v' = lv_out w v ++ b;
  sv_job : ∀ v r v', lv_inv w v → GetJob wire fuel c (ap_ctx a) job v = Some (r, v') →
    lv_inv w v' ∧ evolves w v v' ∧ lv_out w v' = lv_out w v ∧
    ∀ j, r = inr j → jobTerminal (cb_State j) = true → lv_done w v' = true;
  sv_logs : ∀ v after r v', lv_inv w v → 0 ≤ after → GetLogs wire fuel c (ap_ctx a) job attempt after v = Some (r, v') →
    lv_inv w v' ∧ evolves w v v' ∧ lv_out w v' = lv_out w v ∧
    ∀ l, r = inr l → cg_Attempt l = lv_cur w v' ∧ cg_Chunks l = unseen after (lv_log w v' (lv_cur w v')) ∧
      cg_Next l = default after (ck_Seq <$> last (cg_Chunks l))
}.

(** What has been printed of the attempts before [a]: beginnings of their logs, in order. *)
Inductive earlier {V} (w : LogView V) (v : V) : Z → list N → Prop :=
  | earlier_none a : earlier w v a []
  | earlier_more a a' pre l : earlier w v a' pre → 0 < a' < a → l `prefix_of` lv_log w v a' → earlier w v a (pre ++ bytes l).

Section view.
Context {V : Type} (w : LogView V).
#[export] Instance evolves_preorder : PreOrder (evolves w).
Proof.
  split.
  - intros v. split_and!; [done|lia|done].
  - intros v1 v2 v3 (H1 & H2 & H3) (K1 & K2 & K3). split_and!; [intros a; by transitivity (lv_log w v2 a)|lia|]. intros Hd.
    destruct (H3 Hd) as (Hd2 & E2 & L2). destruct (K3 Hd2) as (Hd3 & E3 & L3). split_and!; [done|congruence|].
    intros a. by rewrite L3, L2.
Qed.
Lemma earlier_evolves v v' a pre : evolves w v v' → earlier w v a pre → earlier w v' a pre.
Proof. intros (H1 & _). induction 1 as [|a a' pre l _ IH Ha Hl]; [constructor|]. econstructor; [done|done|]. by transitivity (lv_log w v a'). Qed.
End view.

Section follow.
Context {C V : Type} `{CliEnv C V} (w : LogView V) (wire : CliWire) (fuel : nat) (c : CClient) (a : App (C:=C)) (job : string) (attempt : Z).
Context `{!LogService w wire fuel c a job attempt}.

Lemma write_chunks_ok cs : ∀ v r v', lv_inv w v → write_chunks cs v = Some (r, v') →
  lv_inv w v' ∧ evolves w v v' ∧ (r = inr tt → lv_out w v' = lv_out w v ++ bytes cs) ∨ ∃ e, r = inl e.
Proof.
  induction cs as [|ch cs IH]; intros v r v' Hi; simpl; [intros [= <- <-]; left; split_and!; [done..|]; intros _; by rewrite app_nil_r|].
  unfold mbind, Km_bind, write_out, klift, mbind, Km_bind. destruct (out_Write (ck_Data ch) v) as [[] v1] eqn:E; simpl.
  - destruct (sv_write _ _ _ Hi E) as (Hi1 & He & Ho). intros [(Hi2 & Hv & Hr)|Hx]%IH; [left|by right|done]. split_and!; [done|by etrans|]. intros Er.
    rewrite (Hr Er), Ho. unfold bytes. csimpl. by rewrite <-app_assoc.
  - intros [= <- <-]. right. by eexists.
Qed.

(** Between two rounds: the cursor is behind what was printed of the attempt read last. *)
Definition following (out0 : list N) (after readAttempt : Z) (v : V) : Prop :=
  lv_inv w v ∧ ((readAttempt = 0 ∧ after = 0 ∧ lv_out w v = out0) ∨
  ∃ pre l, 0 < readAttempt ≤ lv_cur w v ∧ l `prefix_of` lv_log w v readAttempt ∧ after = cursor l ∧ earlier w v readAttempt pre ∧
    lv_out w v = out0 ++ pre ++ bytes l).

Lemma following_cursor out0 after ra v : following out0 after ra v → 0 ≤ after.
Proof.
  intros [Hi [(_ & -> & _)|(pre & l & _ & [k Hl] & -> & _)]]; [done|]. unfold cursor. destruct (last l) as [x|] eqn:E; [|done]. simpl.
  destruct (sv_ascending v ra Hi) as [_ Hp]. rewrite Hl, Forall_app, Forall_forall in Hp. destruct Hp as [Hp _].
  apply Z.lt_le_incl, Hp. by eapply last_Some_elem_of.
Qed.

Lemma following_evolves out0 after ra v v' : lv_inv w v' → evolves w v v' → lv_out w v' = lv_out w v → following out0 after ra v → following out0 after ra v'.
Proof.
  intros Hi Hev Ho [_ [(-> & -> & E)|(pre & l & Hra & Hl & -> & Hpre & E)]]; (split; [done|]); [left|right]; [by rewrite Ho|].
  exists pre, l. split_and!; [lia| | |done|by eapply earlier_evolves|by rewrite Ho].
  - destruct Hev as (_ & ? & _). lia.
  - destruct Hev as (H1 & _). by transitivity (lv_log w v ra).
Qed.

(** The cursor is behind some part of a log. *)
Lemma following_reading out0 after ra v : following out0 after ra v → ∃ l b, l `prefix_of` lv_log w v b ∧ after = cursor l.
Proof. intros [_ [(-> & -> & _)|(pre & l & _ & Hl & -> & _)]]; [exists [], 0; split; [apply prefix_nil|done]|by exists l, ra]. Qed.

(** A read of the attempt in hand continues where the cursor is. *)
Lemma following_read out0 after ra v : following out0 after ra v → (ra ≠ 0 → lv_cur w v = ra) →
  ∃ pre l more, lv_log w v (lv_cur w v) = l ++ more ∧ unseen after (lv_log w v (lv_cur w v)) = more ∧
    default after (ck_Seq <$> last more) = cursor (l ++ more) ∧ earlier w v (lv_cur w v) pre ∧ lv_out w v = out0 ++ pre ++ bytes l.
Proof.
  intros [Hi [(-> & -> & E)|(pre & l & Hra & Hl & -> & Hpre & E)]] Hcur.
  - exists [], [], (lv_log w v (lv_cur w v)). split_and!; [done| | |constructor|simpl; by rewrite app_nil_r].
    + by apply (unseen_cursor []), sv_ascending.
    + apply (cursor_app []).
  - rewrite Hcur by lia. destruct Hl as [more Hmore]. exists pre, l, more. rewrite Hmore.
    split_and!; [done| | |done|done].
    + apply unseen_cursor. rewrite <-Hmore. by apply sv_ascending.
    + apply cursor_app.
Qed.

(** The two reads of a round. *)
Lemma round_reads out0 after ra v j v1 r v2 : following out0 after ra v →
  GetJob wire fuel c (ap_ctx a) job v = Some (inr j, v1) → GetLogs wire fuel c (ap_ctx a) job attempt after v1 = Some (inr r, v2) →
  evolves w v v2 ∧ following out0 after ra v2 ∧ (jobTerminal (cb_State j) = true → lv_done w v2 = true) ∧
  cg_Attempt r = lv_cur w v2 ∧ cg_Chunks r = unseen after (lv_log w v2 (lv_cur w v2)) ∧
  cg_Next r = default after (ck_Seq <$> last (cg_Chunks r)).
Proof.
  intros Hf (Hi1 & Hj1 & Hj2 & Hj3)%sv_job; [|apply Hf].
  intros (Hi2 & Hl1 & Hl2 & Hl3)%sv_logs; [|done|by eapply following_cursor]. specialize (Hl3 r eq_refl). split_and!; [by etrans| | |apply Hl3..].
  - apply (following_evolves _ _ _ v1); [done..|]. by apply (following_evolves _ _ _ v).
  - intros Ht. destruct Hl1 as (_ & _ & Hd). apply Hd. by apply (Hj3 j).
Qed.

(** A new attempt: what was printed of the last one stays, its log begins. *)
Lemma following_restart out0 after ra v : following out0 after ra v → ra ≠ 0 → lv_cur w v ≠ ra → following out0 0 (lv_cur w v) v.
Proof.
  intros [Hi [(-> & _)|(pre & l & Hra & Hl & -> & Hpre & E)]] H0 Hne; [done|]. split; [done|]. right. exists (pre ++ bytes l), [].
  split_and!; [lia|lia|apply prefix_nil|done|econstructor; [done|lia|done]|]. rewrite E. unfold bytes at 3. simpl.
  by rewrite app_nil_r.
Qed.

(** A read printed and the wait after it. *)
Lemma following_next out0 v2 v3 v4 pre l more : earlier w v2 (lv_cur w v2) pre → lv_log w v2 (lv_cur w v2) = l ++ more →
  lv_out w v2 = out0 ++ pre ++ bytes l → lv_inv w v2 → lv_inv w v4 → evolves w v2 v3 → lv_out w v3 = lv_out w v2 ++ bytes more → evolves w v3 v4 →
  lv_out w v4 = lv_out w v3 → following out0 (cursor (l ++ more)) (lv_cur w v2) v4.
Proof.
  intros Hpre El E Hi2 Hi4 He Ho He' Ho'. split; [done|]. destruct (sv_attempt v2 Hi2) as [H0 Hnil]. assert (Hev : evolves w v2 v4) by (by etrans).
  destruct (decide (lv_cur w v2 = 0)) as [Hz|Hz].
  { left. rewrite Hz in *. rewrite Hnil in El. symmetry in El. apply app_nil in El as [-> ->]. split_and!; [done|done|].
    inversion Hpre; subst; [|lia]. rewrite Ho', Ho, E. simpl. by rewrite !app_nil_r. }
  right. exists pre, (l ++ more). split_and!; [lia| | |done|by eapply earlier_evolves|].
  - apply Hev.
  - rewrite <-El. apply Hev.
  - rewrite Ho', Ho, E, bytes_app, <-!app_assoc. done.
Qed.

Lemma logs_loop_sound out0 k : ∀ after ra v v', following out0 after ra v →
  logs_loop wire fuel c k a job true attempt after ra v = Some (inr tt, v') →
  lv_done w v' = true ∧ ∃ pre, earlier w v' (lv_cur w v') pre ∧ lv_out w v' = out0 ++ pre ++ bytes (lv_log w v' (lv_cur w v')).
Proof.
  induction k as [|k IH]; intros after ra v v' Hf; [done|]. cbn [logs_loop]. unfold mbind, Km_bind, mret, Km_ret.
  destruct (GetJob _ _ _ _ _ v) as [[[e|j] v1]|] eqn:Ej; [done| |done].
  destruct (GetLogs _ _ _ _ _ _ _ v1) as [[[e|r] v2]|] eqn:El; [done| |done].
  destruct (round_reads _ _ _ _ _ _ _ _ Hf Ej El) as (Hev & Hf2 & Ht & -> & -> & ->).
  destruct (negb (bool_decide (ra = 0)) && negb (bool_decide (lv_cur w v2 = ra))) eqn:Hnew.
  { apply andb_true_iff in Hnew as [H0%negb_true_iff%bool_decide_eq_false H1%negb_true_iff%bool_decide_eq_false].
    apply IH. by eapply following_restart. }
  assert (Hcur : ra ≠ 0 → lv_cur w v2 = ra).
  { intros H0. rewrite bool_decide_false in Hnew by done. simpl in Hnew. by apply negb_false_iff, bool_decide_eq_true in Hnew. }
  destruct (following_read out0 after ra v2 Hf2 Hcur) as (pre & l & more & Hlog & Hun & Hnx & Hpre & Ho). rewrite Hun, Hnx.
  destruct (write_chunks more v2) as [[[e|[]] v3]|] eqn:Ew; [done| |done].
  destruct (write_chunks_ok _ _ _ _ (proj1 Hf2) Ew) as [(Hi3 & He3 & Ho3)|[e ?]]; [|done]. specialize (Ho3 eq_refl).
  destruct (jobTerminal (cb_State j) && bool_decide (more = [])) eqn:Hend; cbn [orb negb].
  - intros [= <-]. apply andb_true_iff in Hend as [Hj ->%bool_decide_eq_true]. rewrite app_nil_r in Hlog.
    pose proof He3 as (_ & _ & Hd3). destruct (Hd3 (Ht Hj)) as (Hd & Hc & Hl3). split; [done|]. exists pre.
    rewrite Hc, Hl3, Hlog. split; [by eapply earlier_evolves|]. rewrite Ho3, Ho. unfold bytes at 2. simpl. by rewrite app_nil_r.
  - unfold sleep. destruct (timer _ _ v3) as [[] v4] eqn:Em; [|done]. destruct (sv_timer _ _ _ Hi3 Em) as (Hi4 & He4 & Ho4). apply IH.
    eapply following_next; eauto. apply Hf2.
Qed.

(** ** It ends *)

(** From the states [L] on, the reads succeed once their retries are over, and [μ v] bounds
    how often the job can still be polled before it is terminal. *)
Definition calm (L : V → Prop) (μ : V → nat) (v v' : V) : Prop := L v' ∧ (μ v' ≤ μ v)%nat.
Record log_live (L : V → Prop) (μ : V → nat) : Prop := {
  ll_job : ∀ v, lv_inv w v → L v → ∃ j v', GetJob wire fuel c (ap_ctx a) job v = Some (inr j, v') ∧ calm L μ v v' ∧
    (lv_done w v = true → jobTerminal (cb_State j) = true) ∧ (lv_done w v = false → μ v' < μ v)%nat;
  ll_logs : ∀ v read b, lv_inv w v → L v → read `prefix_of` lv_log w v b → ∃ l v', GetLogs wire fuel c (ap_ctx a) job attempt (cursor read) v = Some (inr l, v') ∧ calm L μ v v';
  ll_write : ∀ b v, lv_inv w v → L v → ∃ v', out_Write b v = (true, v') ∧ calm L μ v v';
  ll_timer : ∀ v, lv_inv w v → L v → ∃ v', timer (ap_ctx a) (ap_interval a) v = (true, v') ∧ calm L μ v v'
}.

Lemma calm_trans L μ v1 v2 v3 : calm L μ v1 v2 → calm L μ v2 v3 → calm L μ v1 v3.
Proof. intros [H1 H2] [K1 K2]. split; [done|lia]. Qed.

Context (L : V → Prop) (μ : V → nat) (Hlive : log_live L μ).

Lemma write_chunks_live cs : ∀ v, lv_inv w v → L v → ∃ v', write_chunks cs v = Some (inr tt, v') ∧ calm L μ v v'.
Proof.
  induction cs as [|ch cs IH]; intros v Hi HL; simpl; [by exists v|].
  unfold mbind, Km_bind, write_out, klift, mbind, Km_bind. destruct (ll_write _ _ Hlive (ck_Data ch) v Hi HL) as (v1 & E & H1). rewrite E. simpl.
  destruct (sv_write _ _ _ Hi E) as (Hi1 & _).
  destruct (IH v1 Hi1 (proj1 H1)) as (v2 & -> & H2). exists v2. split; [done|]. by eapply calm_trans.
Qed.

(** One round: it ends the command, goes on at once with a new attempt, or waits. *)
Lemma round_live out0 k after ra v : following out0 after ra v → L v →
  ∃ v2, calm L μ v v2 ∧ evolves w v v2 ∧ (lv_done w v = false → μ v2 < μ v)%nat ∧
    (ra ≠ 0 ∧ lv_cur w v2 ≠ ra ∧ following out0 0 (lv_cur w v2) v2 ∧
       logs_loop wire fuel c (S k) a job true attempt after ra v = logs_loop wire fuel c k a job true attempt 0 (lv_cur w v2) v2 ∨
     (∃ v3, logs_loop wire fuel c (S k) a job true attempt after ra v = Some (inr tt, v3)) ∨
     (lv_done w v = true → after ≠ cursor (lv_log w v2 (lv_cur w v2))) ∧
     ∃ v4, calm L μ v2 v4 ∧ evolves w v2 v4 ∧ following out0 (cursor (lv_log w v2 (lv_cur w v2))) (lv_cur w v2) v4 ∧
       logs_loop wire fuel c (S k) a job true attempt after ra v =
       logs_loop wire fuel c k a job true attempt (cursor (lv_log w v2 (lv_cur w v2))) (lv_cur w v2) v4).
Proof.
  intros Hf HL. pose proof Hf as [Hi _]. destruct (ll_job _ _ Hlive v Hi HL) as (j & v1 & Ej & C1 & Hjd & Hlt).
  destruct (sv_job _ _ _ Hi Ej) as (Hi1 & He1 & Ho1 & _). destruct (following_reading _ _ _ _ (following_evolves _ _ _ _ _ Hi1 He1 Ho1 Hf)) as (read & b & Hread & Er).
  destruct (ll_logs _ _ Hlive v1 read b Hi1 (proj1 C1) Hread) as (r & v2 & El & C2). rewrite <-Er in El.
  destruct (round_reads _ _ _ _ _ _ _ _ Hf Ej El) as (Hev & Hf2 & Ht & Ra & Rc & Rn).
  exists v2. split; [by eapply calm_trans|]. split; [done|]. split; [intros Hd; specialize (Hlt Hd); destruct C2; lia|].
  cbn [logs_loop]. unfold mbind, Km_bind, mret, Km_ret. rewrite Ej, El, Ra, Rc, Rn, Rc.
  destruct (negb (bool_decide (ra = 0)) && negb (bool_decide (lv_cur w v2 = ra))) eqn:Hnew.
  { apply andb_true_iff in Hnew as [H0%negb_true_iff%bool_decide_eq_false H1%negb_true_iff%bool_decide_eq_false].
    left. split_and!; [done|done|by eapply following_restart|done]. }
  right. assert (Hcur : ra ≠ 0 → lv_cur w v2 = ra).
  { intros H0. rewrite bool_decide_false in Hnew by done. simpl in Hnew. by apply negb_false_iff, bool_decide_eq_true in Hnew. }
  destruct (following_read out0 after ra v2 Hf2 Hcur) as (pre & l & more & Hlog & Hun & Hnx & Hpre & Ho). rewrite Hun, Hnx, <-Hlog.
  destruct (write_chunks_live more v2 (proj1 Hf2) (proj1 C2)) as (v3 & Ew & C3). rewrite Ew.
  destruct (write_chunks_ok _ _ _ _ (proj1 Hf2) Ew) as [(Hi3 & He3 & Ho3)|[e ?]]; [|done]. specialize (Ho3 eq_refl).
  destruct (jobTerminal (cb_State j) && bool_decide (more = [])) eqn:Hend; cbn [orb negb]; [left; by exists v3|right].
  split.
  { intros Hd Ea. rewrite Ea in Hun. rewrite (Hjd Hd) in Hend. simpl in Hend. apply bool_decide_eq_false in Hend. destruct Hend.
    pose proof (unseen_cursor (lv_log w v2 (lv_cur w v2)) []) as Hu. rewrite app_nil_r in Hu. rewrite Hu in Hun by (apply sv_ascending, Hf2). done. }
  unfold sleep. destruct (ll_timer _ _ Hlive v3 Hi3 (proj1 C3)) as (v4 & Em & C4). destruct (sv_timer _ _ _ Hi3 Em) as (Hi4 & He4 & Ho4).
  exists v4. rewrite Em. split_and!; [by eapply calm_trans|by etrans| |done]. rewrite Hlog. eapply following_next; eauto. apply Hf2.
Qed.

Definition returns (k : nat) (after ra : Z) (v : V) : Prop := ∃ v', logs_loop wire fuel c k a job true attempt after ra v = Some (inr tt, v').

Lemma drained_returns out0 k after ra v : lv_done w v = true → following out0 after ra v → L v → ra = lv_cur w v →
  after = cursor (lv_log w v ra) → (1 ≤ k)%nat → returns k after ra v.
Proof.
  intros Hd Hf HL -> -> Hk. destruct k as [|k]; [lia|].
  destruct (round_live out0 k _ _ v Hf HL) as (v2 & _ & (_ & _ & Hfix) & _ & [(_ & Hne & _)|[Hr|[Hne _]]]); [|done|];
    destruct (Hfix Hd) as (_ & Hc & Hl); [by rewrite Hc in Hne|]. specialize (Hne Hd). by rewrite Hc, Hl in Hne.
Qed.
(** A terminal job: the rest of its log is read in one round, the end seen in another; one
    more when an attempt has been missed. *)
Lemma done_returns out0 k after ra v : lv_done w v = true → following out0 after ra v → L v →
  (2 + (if decide (ra = 0%Z ∨ ra = lv_cur w v) then 0 else 1) ≤ k)%nat → returns k after ra v.
Proof.
  revert after ra v. induction k as [|k IH]; intros after ra v Hd Hf HL Hk; [case_decide; lia|].
  destruct (round_live out0 k _ _ v Hf HL) as (v2 & [C2 _] & (_ & _ & Hfix) & _ & [(H0 & Hne & Hf2 & E)|[Hr|[_ H3]]]); [|done|];
    destruct (Hfix Hd) as (Hd2 & Hc & Hl).
  - unfold returns. rewrite E. apply IH; [done|done|done|]. rewrite Hc in Hne |- *. rewrite decide_True by (by right).
    rewrite decide_False in Hk by naive_solver. lia.
  - destruct H3 as (v4 & [C4 _] & (_ & _ & F4) & Hf4 & E). destruct (F4 Hd2) as (Hd4 & Hc4 & Hl4). unfold returns. rewrite E.
    apply (drained_returns out0); [done|done|done|congruence| |case_decide; lia]. by rewrite Hl4.
Qed.

Lemma logs_loop_returns out0 k : ∀ after ra v, following out0 after ra v → L v → (μ v + 3 ≤ k)%nat → returns k after ra v.
Proof.
  induction k as [|k IH]; intros after ra v Hf HL Hk; [lia|].
  destruct (lv_done w v) eqn:Hd; [apply (done_returns out0); [done..|case_decide; lia]|].
  destruct (round_live out0 k _ _ v Hf HL) as (v2 & [C2 D2] & _ & Hlt & [(H0 & Hne & Hf2 & E)|[Hr|[_ H3]]]); [|done|]; specialize (Hlt Hd).
  - unfold returns. rewrite E. apply IH; [done|done|lia].
  - destruct H3 as (v4 & [C4 D4] & _ & Hf4 & E). unfold returns. rewrite E. apply IH; [done|done|lia].
Qed.
End follow.

(** Following a log prints all of it.  Whatever the server does within the rules of
    [LogService] (chunks appended between the reads, new attempts, the job ending at any
    moment), when the command ends without an error the job is terminal, and what it has
    printed is the complete log of the last attempt, after beginnings of the logs of
    earlier attempts in their order: no byte twice, none missing in between.  And it
    ends, if the reads get through and the job does, within a number of rounds that the
    remaining polls and attempts bound. *)
Theorem follow_prints_the_whole_log {C V : Type} `{CliEnv C V} (w : LogView V) (wire : CliWire) (fuel : nat) (c : CClient)
    (a : App (C:=C)) (job : string) (attempt : Z) `{!LogService w wire fuel c a job attempt} (v : V) :
  lv_inv w v →
  (∀ v', logsCmd wire fuel c a job true attempt v = Some (inr tt, v') →
     lv_done w v' = true ∧ ∃ pre, earlier w v' (lv_cur w v') pre ∧
       lv_out w v' = lv_out w v ++ pre ++ bytes (lv_log w v' (lv_cur w v'))) ∧
  (∀ L μ, log_live w wire fuel c a job attempt L μ ∧ L v ∧ (μ v + 3 ≤ fuel)%nat →
     ∃ v', logsCmd wire fuel c a job true attempt v = Some (inr tt, v')).
Proof.
  intros Hi. assert (Hf : following w (lv_out w v) 0 0 v) by (split; [done|by left]).
  split.
  - intros v'. apply (logs_loop_sound w wire fuel c a job attempt (lv_out w v) fuel 0 0 v v' Hf).
  - intros L μ (Hl & HL & Hk). by apply (logs_loop_returns w wire fuel c a job attempt L μ Hl (lv_out w v) fuel 0 0 v Hf).
Qed.
