(* ===== verification/CliServer.v ===== *)
(** * quarry logs -f against the server

    The client of CliClient.v and the handlers of Api.v over the lossy network of
    EndToEnd.v: before each exchange other scheduler calls happen, requests and replies
    are lost, gateways answer.  When the runner ships a job's batches in order, this
    world is a [LogService], so what CliFollow.v proves holds of the two together. *)

From S2P Require Import Prelude GoLib Pipeline Types Store Scheduler Protocol Advance Consistency Refinement Logs Ops LogOrder Demo SchedulerSpec Artifact LocalStore LocalSpec DockerFiles Api ApiSpec ApiExamples Router Client ClientSpec EndToEnd Remote Cli CliClient CliClientSpec CliFollow.
From Stdlib Require Import Ascii.
From stdpp Require Import pretty relations.

Local Open Scope Z_scope.

(** ** Numbers in a query *)

Lemma digits_no_query n : ∀ s c, ContainsByte s c = false → (∀ d, (d < 10)%N → pretty_N_char d ≠ c) → ContainsByte (pretty_N_go n s) c = false.
Proof.
  induction (N.lt_wf_0 n) as [n _ IH]; intros s c Hs Hc. destruct (decide (0 < n)%N) as [Hn|Hn].
  - rewrite pretty_N_go_step by done. apply IH; [by apply N.div_lt| |done]. simpl. rewrite Hs, bool_decide_false; [done|].
    by apply Hc, N.mod_lt.
  - assert (n = 0)%N as -> by lia. by rewrite pretty_N_go_0.
Qed.
Lemma digit_not c d : (d < 10)%N → digit_of c = None → pretty_N_char d ≠ c.
Proof. intros Hd Hc <-. by destruct (pretty_char_spec d Hd) as [E _]; rewrite E in Hc. Qed.
Lemma Itoa_no c z : 0 ≤ z → digit_of c = None → ContainsByte (Itoa z) c = false.
Proof.
  intros Hz Hc. destruct (decide (z = 0)) as [->|Hne].
  - change (Itoa 0) with "0". simpl. rewrite bool_decide_false; [done|]. by intros <-.
  - rewrite Itoa_pos by lia. apply digits_no_query; [done|]. intros d Hd. by apply digit_not.
Qed.
Lemma Itoa_ne z : 0 ≤ z → Itoa z ≠ "".
Proof. intros Hz. destruct (decide (z = 0)) as [->|Hne]; [done|]. by destruct (url_safe_Itoa z ltac:(lia)) as (_ & ? & _). Qed.
Lemma Itoa_unescape z : 0 ≤ z → QueryUnescape (Itoa z) = Some (Itoa z).
Proof.
  intros Hz. unfold QueryUnescape. pose proof (Itoa_no "+" z Hz eq_refl) as H1. pose proof (Itoa_no "%" z Hz eq_refl) as H2.
  induction (Itoa z) as [|c s IH]; [done|]. simpl in *. apply orb_false_iff in H1 as [H1 H1'], H2 as [H2 H2'].
  rewrite H1. rewrite H2, IH by done. done.
Qed.
Lemma ParseInt_Itoa_inv z n : 0 ≤ z → ParseInt (Itoa z) = Some n → n = z.
Proof.
  intros Hz. destruct (decide (z = 0)) as [->|Hne]; [by vm_compute; intros [= <-]|].
  rewrite Itoa_pos by lia. pose proof (digits_pretty_go (Z.to_N z) "") as Hd. cbn [digits] in Hd.
  destruct (pretty_go_head (Z.to_N z) "") as (d & s' & Hd10 & E); [apply to_N_pos; lia|]. rewrite E in *.
  destruct (pretty_char_spec d Hd10) as (_ & _ & H1 & H2 & _). unfold ParseInt.
  rewrite (bool_decide_false (_ = "-"%char)), (bool_decide_false (_ = "+"%char)) by done.
  rewrite Hd, Z2N.id by lia. case_bool_decide; [by intros [= <-]|done].
Qed.

(** The query of GetLogs. *)
Definition logs_query (attempt after : Z) : string :=
  "after=" +:+ Itoa after +:+ (if bool_decide (attempt > 0) then "&attempt=" +:+ Itoa attempt else "").
Lemma ParseQuery_logs attempt after : 0 ≤ after →
  ParseQuery (logs_query attempt after) !! "after" = Some (Itoa after) ∧
  ParseQuery (logs_query attempt after) !! "attempt" = if bool_decide (attempt > 0) then Some (Itoa attempt) else None.
Proof.
  intros Ha. assert (Hpair : ∀ k z, 0 ≤ z → ContainsByte k "=" = false → ContainsByte k ";" = false → k ≠ "" → QueryUnescape k = Some k →
    query_pair (k +:+ String "=" (Itoa z)) = Some (k, Itoa z)).
  { intros k z Hz H1 H2 H3 H4. unfold query_pair. rewrite ContainsByte_app, H2. cbn [ContainsByte]. rewrite (Itoa_no ";") by done.
    rewrite bool_decide_false by (destruct k; [done|]; by rewrite append_cons). simpl. rewrite Cut_at by done.
    by rewrite H4, (Itoa_unescape z Hz). }
  assert (Hno : ∀ z k, 0 ≤ z → ContainsByte k "&" = false → ContainsByte (k +:+ String "=" (Itoa z)) "&" = false).
  { intros z k Hz Hk. rewrite ContainsByte_app, Hk. cbn [ContainsByte]. by rewrite (Itoa_no "&"). }
  unfold ParseQuery, logs_query. case_bool_decide as Hat.
  - change ("after=" +:+ Itoa after +:+ "&attempt=" +:+ Itoa attempt) with (("after" +:+ String "=" (Itoa after)) +:+ String "&" ("attempt" +:+ String "=" (Itoa attempt))).
    rewrite Split_at, Split_none by (apply Hno; done || lia). csimpl. rewrite !Hpair by (done || lia). simpl. by simplify_map_eq.
  - change ("after=" +:+ Itoa after +:+ "") with ("after" +:+ String "=" (Itoa after +:+ "")). rewrite string_app_nil.
    rewrite Split_none by (apply Hno; done || lia). csimpl. rewrite !Hpair by (done || lia). simpl. by simplify_map_eq.
Qed.

(** ** The world *)

Section desk.
Context {B F : Type} `{BlobStore B F}.

(** The network with the server behind it, and what was printed. *)
Record Desk := mkDesk { dk_net : Lossy (B := B); dk_out : list N }.

Context (srv : Server) (base : string) (enc_payload : Payload → list N) (wire : CliWire) (c : CClient) (job : string) (attempt : Z).

#[local] Instance desk_net : Net unit Desk := {
  ctx_Err := λ _ v, v_ended (dk_net v);
  http_Do := λ _ rq v, let '(rep, n) := lossy_do srv base enc_payload tt rq (dk_net v) in (rep, mkDesk n (dk_out v));
  timer := λ _ _ v, (negb (v_ended (dk_net v)), v);
  open_file := λ _ _, None;
  local_op := λ _ v, (true, v)
}.
#[local] Instance desk_env : CliEnv unit Desk := {
  out_Write := λ b v, (true, mkDesk (dk_net v) (dk_out v ++ b));
  now_ms := λ _, 0
}.

Definition desk_db (v : Desk) : DB := w_db (st_w (v_st (dk_net v))).

(** What the wire carries is what the handler answered, and a document that was cut short
    does not decode. *)
Definition cli_job (spec : list N) (j : jobJSON) : CliJob :=
  mkCliJob (jj_ID j) (jj_RunID j) (jj_Name j) (job_state_str (jj_State j)) (jj_Attempt j) (jj_MaxAttempts j) (jj_RunnerID j) (jj_FailureKind j)
    (jj_ExitCode j) (jj_Error j) (jj_QueuedAt j) (jj_StartedAt j) (jj_FinishedAt j) spec.
Definition cli_logs (r : logsResponse) : CliLogs :=
  mkCliLogs (ls_Attempt r) ((λ x, mkCliLogChunk (lc_Seq x) (lc_Data x)) <$> ls_Chunks r) (ls_Next r).
Record cli_addressed : Prop := {
  ca_job : url_safe job;
  ca_base : cc_BaseURL c = base;
  ca_token : cc_Token c = sv_token srv;
  ca_secret : sv_token srv ≠ "";
  ca_attempt : 0 ≤ attempt;
  ca_dec_job : ∀ j, ∃ spec, dec_job wire (enc_payload (PJob_ j)) = Some (cli_job spec j);
  ca_dec_logs : ∀ r, dec_job_logs wire (enc_payload (PLogs r)) = Some (cli_logs r);
  ca_whole : ∀ p n, (n < length (enc_payload p))%nat →
    dec_job wire (take n (enc_payload p)) = None ∧ dec_job_logs wire (take n (enc_payload p)) = None;
  ca_nonempty : ∀ p, enc_payload p ≠ []
}.
Context (Haddr : cli_addressed).

Definition job_uri : string := "/api/jobs/" +:+ PathEscape job.
Definition logs_uri (after : Z) : string := "/api/jobs/" +:+ PathEscape job +:+ "/logs?" +:+ logs_query attempt after.
Definition get_rq (uri : string) : HttpRequest := mkHttpRequest "GET" (cc_BaseURL c +:+ uri) ("Bearer " +:+ cc_Token c) "" 0 [].

Lemma route_job : route "GET" job_uri = Some (EApi HGetJob, {["id" := job]}).
Proof.
  destruct Haddr as [Hid _ _ _ _ _ _ _ _]. pose proof (url_safe_plain _ Hid) as Hpl. pose proof (url_safe_clean _ Hid) as Hc. unfold job_uri.
  destruct Hid as [Hesc Hid]. rewrite Hesc.
  eapply (route_id _ _ ["jobs"; job]); [|done|by repeat constructor|done|].
  - change ("/api/jobs/" +:+ job) with (String "/" ("api" +:+ String "/" ("jobs" +:+ String "/" job))). by rewrite Split_slash, !Split_app, Split_last.
  - destruct Hid as [Hne _]. by destruct job.
Qed.
Lemma route_logs : route "GET" ("/api/jobs/" +:+ PathEscape job +:+ "/logs") = Some (EApi HGetLogs, {["id" := job]}).
Proof.
  destruct Haddr as [Hid _ _ _ _ _ _ _ _]. pose proof (url_safe_plain _ Hid) as Hpl. pose proof (url_safe_clean _ Hid) as Hc.
  destruct Hid as [Hesc Hid]. rewrite Hesc.
  eapply (route_id _ _ ["jobs"; job; "logs"]); [|done|by repeat constructor|done|].
  - change ("/api/jobs/" +:+ job +:+ "/logs") with (String "/" ("api" +:+ String "/" ("jobs" +:+ String "/" (job +:+ String "/" "logs")))).
    by rewrite Split_slash, !Split_app, Split_last.
  - destruct Hid as [Hne _]. by destruct job.
Qed.

(** ** What the server answers *)

(** A request that reads: the database and the clock stay. *)
Definition reads (st st' : State B) : Prop := w_db (st_w st') = w_db (st_w st) ∧ w_clock (st_w st') = w_clock (st_w st).

Lemma serve_get (uri path query : string) (hd : Handler) (P : Response → Prop) st :
  (∃ ok, Cut uri "?" = (path, query, ok)) → route "GET" path = Some (EApi hd, {["id" := job]}) →
  (∀ rid s1, w_db (st_w s1) = w_db (st_w st) →
     ∃ resp, finish (handle srv rid alone hd (to_request (get_rq uri) (EApi hd) {["id" := job]} (ParseQuery query)) s1) = (resp, s1) ∧ P resp) →
  ∃ resp n st', P resp ∧ serve srv base enc_payload (get_rq uri) st = (Reply (rp_Status resp) (mkBody (enc_payload (rp_Body resp)) None) n, st') ∧ reads st st'.
Proof.
  intros [ok Hcut] Hroute Hh. destruct Haddr as [_ Hb Ht Hs _ _ _ _ _]. unfold serve. simpl hr_url. rewrite Hb, (proj2 (CutPrefix_app _ _ uri) eq_refl).
  rewrite Hcut. simpl hr_method. rewrite Hroute.
  destruct (serve_authorized srv (get_rq uri) hd {["id" := job]} (ParseQuery query) st) as (rid & s1 & Hd & Hc & HS); [simpl; by rewrite Ht|done|].
  destruct (Hh rid s1 Hd) as (resp & E & HP). rewrite E in HS. rewrite HS. simpl. by eexists resp, _, _.
Qed.

Lemma serve_job st row : job_at (w_db (st_w st)) job = Some row →
  ∃ n st', serve srv base enc_payload (get_rq job_uri) st = (Reply 200 (mkBody (enc_payload (PJob_ (toJobJSON (scanJob row)))) None) n, st') ∧ reads st st'.
Proof.
  intros Hr. destruct (serve_get job_uri job_uri "" HGetJob (eq (writeJSON 200 (PJob_ (toJobJSON (scanJob row))))) st) as (? & n & st' & <- & E & Hrd);
    [|apply route_job| |by exists n, st'].
  - eexists. apply Cut_none. unfold job_uri. by rewrite ContainsByte_app, PathEscape_no_query.
  - intros rid s1 Hd. simpl handle. unfold handleGetJob. rewrite <-Hd in Hr.
    assert (Hid : ∀ q, PathValue (to_request (get_rq job_uri) (EApi HGetJob) {["id" := job]} q : Request F) "id" = job) by (intros q; unfold PathValue; simpl; by rewrite lookup_singleton_eq).
    rewrite Hid. eexists. split; [|done]. by rewrite (mbind_step _ _ _ _ _ (try_GetJob_ok _ _ _ _ Hr)).
Qed.

(** The attempt a read asks for. *)
Definition asked (row : JobRow) : Z := if bool_decide (attempt > 0) then attempt else jr_attempt row.
Definition logs_answer (d : DB) (row : JobRow) (after : Z) : logsResponse :=
  let l := page d job (asked row) after in
  mkLogsResponse (asked row) (chunk_of <$> l) (default after (lr_seq <$> last l)).

Lemma serve_logs st row after : 0 ≤ after → job_at (w_db (st_w st)) job = Some row →
  ∃ resp n st', serve srv base enc_payload (get_rq (logs_uri after)) st = (Reply (rp_Status resp) (mkBody (enc_payload (rp_Body resp)) None) n, st') ∧
    reads st st' ∧ (rp_Status resp = 400 ∧ ¬ (after ≤ int64_max ∧ attempt ≤ int64_max) ∨
      resp = writeJSON 200 (PLogs (logs_answer (w_db (st_w st)) row after))).
Proof.
  intros Ha Hr.
  assert (Hnone : ∀ z, 0 ≤ z → ParseInt (Itoa z) = None → ¬ z ≤ int64_max).
  { intros z Hz Hn Hle. destruct (decide (z = 0)) as [->|Hne]; [done|]. rewrite ParseInt_Itoa in Hn; [done|]. unfold int64_max in Hle. lia. }
  set (q := ParseQuery (logs_query attempt after)).
  assert (Hcut : ∃ ok, Cut (logs_uri after) "?" = ("/api/jobs/" +:+ PathEscape job +:+ "/logs", logs_query attempt after, ok)).
  { exists true. assert (E : logs_uri after = ("/api/jobs/" +:+ PathEscape job +:+ "/logs") +:+ String "?" (logs_query attempt after)).
    { unfold logs_uri. rewrite !string_app_assoc. reflexivity. }
    rewrite E. apply Cut_at. by rewrite !ContainsByte_app, PathEscape_no_query. }
  set (rq := to_request (get_rq (logs_uri after)) (EApi HGetLogs) {["id" := job]} q : Request F).
  assert (Hid : PathValue rq "id" = job) by (unfold PathValue; simpl; by rewrite lookup_singleton_eq).
  destruct (ParseQuery_logs attempt after Ha) as [Q1 Q2]. fold q in Q1, Q2.
  assert (Hq1 : Query rq "after" = Itoa after) by (unfold Query; simpl; by rewrite Q1).
  assert (Hq2 : Query rq "attempt" = if bool_decide (attempt > 0) then Itoa attempt else "") by (unfold Query; simpl; rewrite Q2; by case_bool_decide).
  destruct (serve_get (logs_uri after) _ (logs_query attempt after) HGetLogs
    (λ resp, rp_Status resp = 400 ∧ ¬ (after ≤ int64_max ∧ attempt ≤ int64_max) ∨ resp = writeJSON 200 (PLogs (logs_answer (w_db (st_w st)) row after))) st Hcut route_logs)
    as (resp & n & st' & HP & E & Hrd); [|by exists resp, n, st'].
  intros rid s1 Hd. simpl handle. fold q rq. rewrite <-Hd in Hr |- *. destruct (decide (attempt > 0 ∧ ParseInt (Itoa attempt) = None)) as [[Hp Hn]|Hat].
  { unfold handleGetLogs. rewrite Hid, (mbind_step _ _ _ _ _ (try_GetJob_ok _ _ _ _ Hr)). unfold attemptParam.
    rewrite Hq2, (bool_decide_true (attempt > 0)), Hn by done. rewrite bool_decide_false by (apply Itoa_ne; lia). eexists. split; [reflexivity|left]. split; [done|].
    specialize (Hnone attempt ltac:(lia) Hn). tauto. }
  assert (Hask : asks rq row (asked row)).
  { unfold asks, asked. rewrite Hq2. case_bool_decide as Hp; [right|left; done]. destruct (ParseInt (Itoa attempt)) as [m|] eqn:En; [|by destruct Hat].
    pose proof (ParseInt_Itoa_inv attempt m ltac:(lia) En) as ->. split_and!; [apply Itoa_ne; lia|done|lia]. }
  destruct (ParseInt (Itoa after)) as [m|] eqn:En.
  - pose proof (ParseInt_Itoa_inv after m Ha En) as ->. eexists. split; [|right; reflexivity].
    rewrite <-Hid in Hr. rewrite (handleGetLogs_ok rid rq s1 row (asked row) after Hr Hask); [unfold logs_answer; by rewrite Hid|].
    right. rewrite Hq1. split_and!; [by apply Itoa_ne|done|done].
  - unfold handleGetLogs. rewrite Hid, (mbind_step _ _ _ _ _ (try_GetJob_ok _ _ _ _ Hr)).
    assert (Eat : attemptParam rid rq (scanJob row) s1 = (inr (asked row), s1)).
    { unfold attemptParam. destruct Hask as [[-> ->]|(Hq & -> & Hp)]; [done|]. rewrite bool_decide_false by done. by rewrite bool_decide_false by lia. }
    rewrite (mbind_step _ _ _ _ _ Eat). unfold query_int. rewrite Hq1, En. rewrite bool_decide_false by (by apply Itoa_ne). eexists. split; [reflexivity|left].
    split; [done|]. specialize (Hnone after Ha En). tauto.
Qed.

(** ** The view *)

Definition fault_ops (f : Fault) : list Op :=
  match f with Deliver ops | LoseRequest ops | LoseReply ops | BadGateway ops => ops | CtxEnds => [] end.
Definition to_ship (script : list Fault) : list (Z * list Z) := omap (batch job) (mjoin (fault_ops <$> script)).

Definition log_chunk (r : LogRow) : CliLogChunk := mkCliLogChunk (lr_seq r) (lr_data r).
Definition desk_view : LogView Desk := mkLogView Desk
  (λ v, Inv (desk_db v) ∧ clock_pos (st_w (v_st (dk_net v))) ∧ is_Some (job_at (desk_db v) job) ∧ attempt_rows (desk_db v) job 0 = [] ∧
        ∃ st, covered job st (desk_db v) ∧ in_order st (to_ship (v_script (dk_net v))))
  (λ v a, log_chunk <$> attempt_rows (desk_db v) job a)
  (λ v, match job_at (desk_db v) job with Some row => asked row | None => 0 end)
  (λ v, match job_at (desk_db v) job with Some row => isTerminal (jr_state row) | None => false end)
  dk_out.

Lemma desk_evolves v v' : (∃ row row', job_at (desk_db v) job = Some row ∧ job_at (desk_db v') job = Some row' ∧ Protocol.evolves row row') →
  (∀ b, attempt_rows (desk_db v) job b `prefix_of` attempt_rows (desk_db v') job b) → frozen job (desk_db v) (desk_db v') →
  evolves desk_view v v'.
Proof.
  intros (row & row' & Hr & Hr' & He) Hp [Hf _]. unfold evolves. simpl. rewrite Hr, Hr'. split_and!.
  - intros b. destruct (Hp b) as [k ->]. rewrite fmap_app. by apply prefix_app_r.
  - unfold asked. case_bool_decide; [done|]. apply (ev_attempt _ _ He).
  - intros Ht. pose proof (ev_terminal _ _ He Ht) as ->. split_and!; [done|done|]. intros b. by rewrite (Hf row Hr Ht b).
Qed.

(** Other calls happen. *)
Lemma interfere_desk ops f rest e v : v_script (dk_net v) = f :: rest → fault_ops f = ops → lv_inv desk_view v →
  let v1 := mkDesk (mkLossy (interfere srv ops (v_st (dk_net v))) rest e (v_hist (dk_net v))) (dk_out v) in
  lv_inv desk_view v1 ∧ evolves desk_view v v1.
Proof.
  intros Es Ef (Hi & Hc & [row Hr] & Hz & st & Hcov & Hord). unfold to_ship in Hord. rewrite Es in Hord. csimpl in Hord. rewrite Ef, omap_app in Hord.
  destruct (run_ops_in_order job (sv_sched srv) ops st _ _ Hi Hc Hcov Hord) as (st' & Hcov' & Hord' & Hp & Hf).
  destruct (run_ops_ok (sv_sched srv) ops _ Hi Hc) as (Hst & Hi' & Hc'). destruct (PSteps_evolves _ _ job row Hst Hr) as (row' & Hr' & He).
  cbv zeta. split.
  - simpl. split_and!; [done|done|by eexists| |by exists st']. unfold desk_db. simpl. by rewrite (proj2 Hf (mk_is_Some _ _ Hr)).
  - apply desk_evolves; [by exists row, row'|done|done].
Qed.

(** The server answers a read. *)
Lemma read_desk st' rest h v : reads (v_st (dk_net v)) st' → v_script (dk_net v) = rest → lv_inv desk_view v →
  let v1 := mkDesk (mkLossy st' rest false h) (dk_out v) in
  lv_inv desk_view v1 ∧ evolves desk_view v v1 ∧ desk_db v1 = desk_db v.
Proof.
  intros [Hd Hc] Es (Hi & Hk & Hr & Hz & Hs). cbv zeta. assert (E : desk_db (mkDesk (mkLossy st' rest false h) (dk_out v)) = desk_db v) by done.
  split_and!; [|unfold evolves; simpl; rewrite E; split_and!; [done|done|done]|done].
  simpl. rewrite E. split_and!; [done| |done|done|by rewrite <-Es]. intros n. rewrite Hc. apply Hk.
Qed.

(** What a read through the network yields: the handler's answer in the state after it, if
    any answer of the server's. *)
Definition answered_by (P : DB → Response → Prop) (v : Desk) (rep : HttpReply) : Prop :=
  rep = NoReply ∨ (∃ n, rep = Reply 502 (mkBody [] None) n) ∨
  ∃ resp n, rep = Reply (rp_Status resp) (mkBody (enc_payload (rp_Body resp)) None) n ∧ P (desk_db v) resp.

Lemma exchange_desk uri (P : DB → Response → Prop) v rep v' :
  (∀ st row, job_at (w_db (st_w st)) job = Some row → ∃ resp n st',
     serve srv base enc_payload (get_rq uri) st = (Reply (rp_Status resp) (mkBody (enc_payload (rp_Body resp)) None) n, st') ∧ reads st st' ∧
     P (w_db (st_w st)) resp) →
  lv_inv desk_view v → http_Do tt (get_rq uri) v = (rep, v') →
  lv_inv desk_view v' ∧ evolves desk_view v v' ∧ dk_out v' = dk_out v ∧ answered_by P v' rep.
Proof.
  intros Hserve Hi E. simpl in E. unfold lossy_do in E. destruct (v_ended (dk_net v)) eqn:He.
  { injection E as <- <-. destruct v as [n o]. split_and!; [done|reflexivity|done|by left]. }
  assert (Hdel : ∀ v1 rest, v_script (dk_net v1) = rest → lv_inv desk_view v1 → evolves desk_view v v1 → ∃ resp n st',
    serve srv base enc_payload (get_rq uri) (v_st (dk_net v1)) = (Reply (rp_Status resp) (mkBody (enc_payload (rp_Body resp)) None) n, st') ∧
    ∀ h, let v2 := mkDesk (mkLossy st' rest false h) (dk_out v1) in
      lv_inv desk_view v2 ∧ evolves desk_view v v2 ∧ P (desk_db v2) resp).
  { intros v1 rest Er Hi1 Hev. pose proof Hi1 as (_ & _ & [row Hr] & _). destruct (Hserve (v_st (dk_net v1)) row Hr) as (resp & n & st' & Es & Hrd & HP).
    exists resp, n, st'. split; [done|]. intros h. destruct (read_desk st' rest h v1 Hrd Er Hi1) as (J1 & J2 & J3). cbv zeta.
    split_and!; [done|by etrans|]. by rewrite J3. }
  assert (Hnil : interfere srv [] (v_st (dk_net v)) = v_st (dk_net v)) by (unfold interfere; simpl; by destruct (v_st (dk_net v))).
  destruct (v_script (dk_net v)) as [|f rest] eqn:Es.
  { rewrite Hnil in E. destruct (Hdel v [] Es Hi (reflexivity v)) as (resp & n & st' & Ev & Hh). rewrite Ev in E. injection E as <- <-.
    destruct (Hh (v_hist (dk_net v) ++ [(w_db (st_w (v_st (dk_net v))), w_db (st_w st'))])) as (D1 & D2 & D3).
    split_and!; [done|done|done|right; right; by exists resp, n]. }
  pose proof (λ ops e Ef, interfere_desk ops f rest e v Es Ef Hi) as Hint. cbv zeta in Hint.
  destruct f as [ops|ops|ops|ops|]; simpl in Hint.
  - destruct (Hint ops false eq_refl) as [I1 I2]. destruct (Hdel (mkDesk (mkLossy (interfere srv ops (v_st (dk_net v))) rest false (v_hist (dk_net v))) (dk_out v)) rest eq_refl I1 I2) as (resp & n & st' & Ev & Hh). simpl in Ev, Hh.
    rewrite Ev in E. injection E as <- <-. destruct (Hh (v_hist (dk_net v) ++ [(w_db (st_w (interfere srv ops (v_st (dk_net v)))), w_db (st_w st'))])) as (D1 & D2 & D3).
    split_and!; [done|done|done|right; right; by exists resp, n].
  - destruct (Hint ops false eq_refl) as [I1 I2]. injection E as <- <-. split_and!; [done|done|done|by left].
  - destruct (Hint ops false eq_refl) as [I1 I2]. destruct (Hdel (mkDesk (mkLossy (interfere srv ops (v_st (dk_net v))) rest false (v_hist (dk_net v))) (dk_out v)) rest eq_refl I1 I2) as (resp & n & st' & Ev & Hh). simpl in Ev, Hh.
    rewrite Ev in E. simpl in E. injection E as <- <-. destruct (Hh (v_hist (dk_net v) ++ [(w_db (st_w (interfere srv ops (v_st (dk_net v)))), w_db (st_w st'))])) as (D1 & D2 & D3).
    split_and!; [done|done|done|by left].
  - destruct (Hint ops false eq_refl) as [I1 I2]. injection E as <- <-. split_and!; [done|done|done|right; left; by eexists].
  - destruct (Hint [] true eq_refl) as [I1 I2]. rewrite Hnil in I1, I2. injection E as <- <-. split_and!; [done|done|done|by left].
Qed.

Lemma once_get {T} uri (zero : T) dec v : once wire c tt "GET" uri None zero (Some dec) v =
  match http_Do tt (get_rq uri) v with
  | (BadURL, v1) => Some (inl KUrl, v1)
  | (NoReply, v1) => Some (inl KConn, v1)
  | (Reply status resp _, v1) =>
      match ReadAll (LimitReader resp (Z.shiftl 64 20)) with
      | inl _ => Some (inl KConn, v1)
      | inr raw =>
          if negb (bool_decide (Z.quot status 100 = 2)) then Some (inl (api_error wire status raw), v1)
          else match raw with
               | [] => Some (inr zero, v1)
               | _ => match dec raw with Some t => Some (inr t, v1) | None => Some (inl (KWrap "decode" (KDecode "GET" uri)), v1) end
               end
      end
  end.
Proof.
  unfold once, send, klift, kfail, mbind, Km_bind, mret, Km_ret. fold (get_rq uri). destruct (http_Do tt (get_rq uri) v) as [[| |status resp n] v1]; [done..|].
  destruct (ReadAll (LimitReader resp (Z.shiftl 64 20))) as [e|raw]; [done|]. destruct (bool_decide (Z.quot status 100 = 2)); [|done].
  destruct raw; [done|]. by destruct (dec _).
Qed.

(** A read that succeeds returns what the server answered in the state it leaves. *)
Lemma once_desk {T} uri path (zero : T) dec (P : DB → Response → Prop) (Q : T → Desk → Prop) v r v' :
  uri = path →
  (∀ st row, job_at (w_db (st_w st)) job = Some row → ∃ resp n st',
     serve srv base enc_payload (get_rq uri) st = (Reply (rp_Status resp) (mkBody (enc_payload (rp_Body resp)) None) n, st') ∧ reads st st' ∧
     P (w_db (st_w st)) resp) →
  (∀ p n, (n < length (enc_payload p))%nat → dec (take n (enc_payload p)) = None) →
  (∀ v resp x, P (desk_db v) resp → Z.quot (rp_Status resp) 100 = 2 → dec (enc_payload (rp_Body resp)) = Some x → Q x v) →
  lv_inv desk_view v → once wire c tt "GET" path None zero (Some dec) v = Some (r, v') →
  lv_inv desk_view v' ∧ (evolves desk_view v v' ∧ dk_out v' = dk_out v) ∧ ∀ x, r = inr x → Q x v'.
Proof.
  intros <- Hserve Hcut HQ Hi. rewrite once_get.
  destruct (http_Do tt (get_rq uri) v) as [rep v1] eqn:E. destruct (exchange_desk uri P v rep v1 Hserve Hi E) as (I1 & I2 & I3 & Ha).
  destruct Ha as [->|[[n ->]|(resp & n & -> & HP)]].
  - intros [= <- <-]. by refine (conj I1 (conj (conj I2 I3) _)).
  - simpl. intros [= <- <-]. by refine (conj I1 (conj (conj I2 I3) _)).
  - assert (Hraw : ∃ raw, ReadAll (LimitReader (mkBody (enc_payload (rp_Body resp)) None) (Z.shiftl 64 20)) = inr raw ∧
      (raw = enc_payload (rp_Body resp) ∨ raw ≠ [] ∧ dec raw = None)).
    { assert (Hpos : 0 < Z.shiftl 64 20) by done. revert Hpos. generalize (Z.shiftl 64 20). intros k Hpos.
      unfold LimitReader. cbn [bd_bytes bd_err]. rewrite (bool_decide_false (k ≤ 0)) by lia. case_bool_decide as Hl.
      - eexists. split; [done|]. cbn [bd_bytes]. 
        destruct (decide (Z.to_nat k < length (enc_payload (rp_Body resp)))%nat) as [Hlt|Hge]; [right|left; apply take_ge; lia].
        split; [|by apply Hcut]. intros Ex. apply (f_equal length) in Ex. rewrite length_take in Ex. simpl in Ex. lia.
      - eexists. split; [done|by left]. }
    destruct Hraw as (raw & -> & Hraw). cbv iota beta. case_bool_decide as Hst; simpl; [|intros [= <- <-]; by refine (conj I1 (conj (conj I2 I3) _))].
    destruct Haddr as [_ _ _ _ _ _ _ _ Hne].
    destruct raw as [|b raw]; [destruct Hraw as [Hraw|[? _]]; [by destruct (Hne (rp_Body resp))|done]|].
    destruct Hraw as [Hraw|[_ ->]]; [|intros [= <- <-]; by refine (conj I1 (conj (conj I2 I3) _))]. destruct (dec (b :: raw)) as [x|] eqn:Ed; intros [= <- <-]; refine (conj I1 (conj (conj I2 I3) _)); [|done]. intros y [= <-]. apply (HQ v1 resp x HP Hst). by rewrite <-Hraw.
Qed.

(** ** The interface is met *)

Lemma page_in_order st d n after : covered job st d → page d job n after = List.filter (λ r, bool_decide (after < lr_seq r)) (attempt_rows d job n).
Proof.
  intros Hc. assert (E : sql_select (λ r, is_chunk job n r && bool_decide (after < lr_seq r)) (db_log_chunks d) =
    List.filter (λ r, bool_decide (after < lr_seq r)) (attempt_rows d job n)).
  { unfold attempt_rows, sql_select. induction (db_log_chunks d) as [|x l IH]; [done|]. simpl. rewrite IH.
    destruct (is_chunk job n x); simpl; [|done]. by destruct (bool_decide (after < lr_seq x)). }
  unfold page. rewrite E. apply order_by_id. destruct (covered_sorted _ _ _ n Hc) as [Hs _]. unfold log_seqs in Hs. clear E Hc.
  induction (attempt_rows d job n) as [|x l IH]; [constructor|]. rewrite fmap_cons in Hs. apply StronglySorted_inv in Hs as [Hs Hx]. simpl.
  case_bool_decide; [|by apply IH]. constructor; [by apply IH|]. apply Forall_forall. intros y Hy%list_elem_of_In%filter_In. destruct Hy as [Hy _].
  apply list_elem_of_In in Hy. unfold seq_leb. apply bool_decide_eq_true. rewrite Forall_forall in Hx.
  specialize (Hx (lr_seq y) (list_elem_of_fmap_2 _ _ _ Hy)). lia.
Qed.
Lemma unseen_chunks after rows : unseen after (log_chunk <$> rows) = log_chunk <$> List.filter (λ r, bool_decide (after < lr_seq r)) rows.
Proof.
  unfold unseen. induction rows as [|x l IH]; [done|]. rewrite fmap_cons, filter_cons, IH. simpl. case_decide; case_bool_decide; done.
Qed.
Lemma logs_answer_view v row after : lv_inv desk_view v → job_at (desk_db v) job = Some row →
  let l := cli_logs (logs_answer (desk_db v) row after) in
  cg_Attempt l = lv_cur desk_view v ∧ cg_Chunks l = unseen after (lv_log desk_view v (lv_cur desk_view v)) ∧
  cg_Next l = default after (ck_Seq <$> last (cg_Chunks l)).
Proof.
  intros (_ & _ & _ & _ & st & Hc & _) Hr. simpl. rewrite Hr, unseen_chunks, (page_in_order st) by done. set (l := List.filter _ _).
  rewrite <-list_fmap_compose. split_and!; [done|done|]. rewrite fmap_last. by destruct (last l).
Qed.

Lemma jobTerminal_str st : jobTerminal (job_state_str st) = isTerminal st.
Proof. by destruct st. Qed.

Definition same_out (v v' : Desk) : Prop := evolves desk_view v v' ∧ dk_out v' = dk_out v.
#[local] Instance same_out_pre : PreOrder same_out.
Proof. split; [by intros ?|]. intros ??? [? ?] [? ?]. split; [by etrans|congruence]. Qed.

(** What the two reads return, in the state they leave. *)
Definition job_seen (j : CliJob) (v : Desk) : Prop := ∃ row, job_at (desk_db v) job = Some row ∧ cb_State j = job_state_str (jr_state row).
Definition logs_seen (after : Z) (l : CliLogs) (v : Desk) : Prop := ∃ row, job_at (desk_db v) job = Some row ∧ l = cli_logs (logs_answer (desk_db v) row after).

Definition job_answer (d : DB) (resp : Response) : Prop := ∃ row, job_at d job = Some row ∧ resp = writeJSON 200 (PJob_ (toJobJSON (scanJob row))).
Definition logs_reply (after : Z) (d : DB) (resp : Response) : Prop := ∃ row, job_at d job = Some row ∧
  (rp_Status resp = 400 ∧ ¬ (after ≤ int64_max ∧ attempt ≤ int64_max) ∨ resp = writeJSON 200 (PLogs (logs_answer d row after))).

Lemma serve_job_answer st row : job_at (w_db (st_w st)) job = Some row → ∃ resp n st',
  serve srv base enc_payload (get_rq job_uri) st = (Reply (rp_Status resp) (mkBody (enc_payload (rp_Body resp)) None) n, st') ∧ reads st st' ∧
  job_answer (w_db (st_w st)) resp.
Proof. intros Hr. destruct (serve_job st row Hr) as (n & st' & Es & Hrd). eexists (writeJSON 200 _), n, st'. split; [exact Es|]. split; [done|]. by exists row. Qed.
Lemma serve_logs_reply after st row : 0 ≤ after → job_at (w_db (st_w st)) job = Some row → ∃ resp n st',
  serve srv base enc_payload (get_rq (logs_uri after)) st = (Reply (rp_Status resp) (mkBody (enc_payload (rp_Body resp)) None) n, st') ∧ reads st st' ∧
  logs_reply after (w_db (st_w st)) resp.
Proof. intros Ha Hr. destruct (serve_logs st row after Ha Hr) as (resp & n & st' & Es & Hrd & HP). exists resp, n, st'. split; [done|]. split; [done|]. by exists row. Qed.

Lemma GetJob_keeps fuel v r v' : lv_inv desk_view v → GetJob wire fuel c tt job v = Some (r, v') →
  lv_inv desk_view v' ∧ same_out v v' ∧ ∀ j, r = inr j → job_seen j v'.
Proof.
  intros Hi Hr. apply (retry_keeps c tt (once wire c tt "GET" job_uri None zeroJob (Some (dec_job wire))) (lv_inv desk_view) same_out
    job_seen fuel v r v' same_out_pre); [| |done|exact Hr].
  - intros v0 r0 v1 Hi0. apply (once_desk job_uri _ zeroJob (dec_job wire) job_answer job_seen v0 r0 v1); [done|apply serve_job_answer| | |done].
    + intros p n Hn. by apply Haddr.
    + intros v2 resp x (row & Hrow & ->) _ Hd. exists row. split; [done|]. simpl in Hd. destruct (ca_dec_job Haddr (toJobJSON (scanJob row))) as [spec Ed].
      rewrite Ed in Hd. injection Hd as <-. done.
  - intros v0 d b v1 Hi0 [= <- <-]. by split.
Qed.
Lemma GetLogs_keeps fuel after v r v' : lv_inv desk_view v → 0 ≤ after → GetLogs wire fuel c tt job attempt after v = Some (r, v') →
  lv_inv desk_view v' ∧ same_out v v' ∧ ∀ l, r = inr l → logs_seen after l v'.
Proof.
  intros Hi Ha Hr. apply (retry_keeps c tt (once wire c tt "GET" (logs_uri after) None zeroLogs (Some (dec_job_logs wire))) (lv_inv desk_view) same_out
    (logs_seen after) fuel v r v' same_out_pre); [| |done|exact Hr].
  - intros v0 r0 v1 Hi0. apply (once_desk (logs_uri after) _ zeroLogs (dec_job_logs wire) (logs_reply after) (logs_seen after) v0 r0 v1);
      [done|intros st row; by apply serve_logs_reply| | |done].
    + intros p n Hn. by apply Haddr.
    + intros v2 resp x (row & Hrow & [[H4 _]| ->]) H2 Hd; [by rewrite H4 in H2|]. exists row. split; [done|]. simpl in Hd.
      rewrite (ca_dec_logs Haddr) in Hd. by injection Hd as <-.
  - intros v0 d b v1 Hi0 [= <- <-]. by split.
Qed.

(** Before it is claimed a job has no attempt, and no log. *)
#[local] Instance desk_service fuel interval : LogService desk_view wire fuel c (mkApp interval tt) job attempt.
Proof.
  pose proof (ca_attempt Haddr) as Hatt. split.
  - intros v a (_ & _ & _ & _ & st & Hc & _). destruct (covered_sorted _ _ _ a Hc) as [Hs Hp]. simpl. unfold log_seqs in *. split.
    + clear Hp. induction (attempt_rows (desk_db v) job a) as [|x l IH]; [constructor|]. rewrite fmap_cons in Hs. apply StronglySorted_inv in Hs as [Hs Hx].
      rewrite fmap_cons. constructor; [by apply IH|]. apply Forall_fmap. rewrite Forall_fmap in Hx. exact Hx.
    + apply Forall_fmap. rewrite Forall_fmap in Hp. eapply Forall_impl; [exact Hp|]. simpl. lia.
  - intros v (Hi & _ & [row Hr] & Hz & _). simpl. rewrite Hr, Hz. split; [|done]. unfold asked. case_bool_decide; [lia|].
    apply (ri_attempt _ (inv_rows _ Hi job row Hr)).
  - intros v b v' Hi [= <- <-]. by refine (conj Hi (conj (reflexivity v) _)).
  - intros b v v' Hi [= <-]. refine (conj Hi (conj _ _)); [|done]. split_and!; [done|done|done].
  - intros v r v' Hi Hr. destruct (GetJob_keeps fuel v r v' Hi Hr) as (I1 & [I2 I3] & I4). refine (conj I1 (conj I2 (conj I3 _))).
    intros j Ej Ht. destruct (I4 j Ej) as (row & Hrow & Es). simpl. rewrite Hrow. by rewrite Es, jobTerminal_str in Ht.
  - intros v after r v' Hi Ha Hr. destruct (GetLogs_keeps fuel after v r v' Hi Ha Hr) as (I1 & [I2 I3] & I4). refine (conj I1 (conj I2 (conj I3 _))).
    intros l El. destruct (I4 l El) as (row & Hrow & ->). by apply logs_answer_view.
Qed.

(** ** It ends *)

(** What this client can do to the world. *)
Definition read_uri (uri : string) : Prop := uri = job_uri ∨ ∃ after, 0 ≤ after ∧ uri = logs_uri after.
Definition desk_step (v v' : Desk) : Prop :=
  (∃ uri rep, read_uri uri ∧ http_Do tt (get_rq uri) v = (rep, v')) ∨ (∃ b, v' = mkDesk (dk_net v) (dk_out v ++ b)).

(** The context lives, no more gateway errors than are retried are to come, the answers
    fit what the client reads of a reply, and by the time everything to come has happened the
    job is terminal. *)
Record live_desk (fuel : nat) (v : Desk) : Prop := {
  ld_attempt : attempt ≤ int64_max;
  ld_ended : v_ended (dk_net v) = false;
  ld_ctx : no_end (v_script (dk_net v));
  ld_gateways : Z.of_nat (gateways (v_script (dk_net v))) ≤ cc_Retries c;
  ld_fuel : (length (v_script (dk_net v)) < fuel)%nat;
  ld_done : ∀ v', rtc desk_step v v' → v_script (dk_net v') = [] → lv_done desk_view v' = true;
  ld_fits : ∀ v' row after, rtc desk_step v v' → job_at (desk_db v') job = Some row →
    Z.of_nat (length (enc_payload (PLogs (logs_answer (desk_db v') row after)))) ≤ Z.shiftl 64 20 ∧
    Z.of_nat (length (enc_payload (PJob_ (toJobJSON (scanJob row))))) ≤ Z.shiftl 64 20
}.

(** One element of the script is used up by each exchange. *)
Lemma exchange_script rq v rep v' : v_ended (dk_net v) = false → no_end (v_script (dk_net v)) → http_Do tt rq v = (rep, v') →
  v_ended (dk_net v') = false ∧ v_script (dk_net v') = tail (v_script (dk_net v)) ∧
  match v_script (dk_net v) with
  | LoseRequest _ :: _ | LoseReply _ :: _ => rep = NoReply
  | BadGateway _ :: _ => rep = Reply 502 (mkBody [] None) 0
  | _ => ∃ ops, rep = (serve srv base enc_payload rq (interfere srv ops (v_st (dk_net v)))).1
  end.
Proof.
  intros He Hne E. simpl in E. unfold lossy_do in E. rewrite He in E. destruct (v_script (dk_net v)) as [|f rest] eqn:Es.
  - destruct (serve srv base enc_payload rq (interfere srv [] (v_st (dk_net v)))) as [rep0 st2] eqn:Ev. injection E as <- <-.
    split_and!; [done|done|]. exists []. by rewrite Ev.
  - destruct f as [ops|ops|ops|ops|].
    5:{ destruct Hne. left. }
    all: try (destruct (serve srv base enc_payload rq (interfere srv ops (v_st (dk_net v)))) as [rep0 st2] eqn:Ev); simpl in E; injection E as <- <-;
      split_and!; try done. exists ops. by rewrite Ev.
Qed.

Lemma live_step fuel v v' uri rep : read_uri uri → live_desk fuel v → http_Do tt (get_rq uri) v = (rep, v') → live_desk fuel v' ∧ v_script (dk_net v') = tail (v_script (dk_net v)).
Proof.
  intros Hu [Ha H1 H2 H3 H4 H5 H6] E. destruct (exchange_script _ v rep v' H1 H2 E) as (E1 & E2 & _). split; [|done].
  assert (Hs : desk_step v v') by (left; by exists uri, rep). split; rewrite ?E2.
  - done.
  - done.
  - intros Hx. apply H2. destruct (v_script (dk_net v)); [done|]. by right.
  - destruct (v_script (dk_net v)) as [|[] rest]; simpl in *; lia.
  - destruct (v_script (dk_net v)); simpl in *; lia.
  - intros v'' Hr Hn. apply H5; [by eapply rtc_l|done].
  - intros v'' row after Hr. apply H6. by eapply rtc_l.
Qed.

(** A read that is answered 200 with a document that fits and decodes. *)
Definition good {T} (dec : list N → option T) (resp : Response) : Prop :=
  rp_Status resp = 200 ∧ Z.of_nat (length (enc_payload (rp_Body resp))) ≤ Z.shiftl 64 20 ∧ is_Some (dec (enc_payload (rp_Body resp))).
Record good_read {T} (fuel : nat) (uri : string) (dec : list N → option T) (P : DB → Response → Prop) : Prop := {
  gr_uri : read_uri uri;
  gr_serve : ∀ st row, job_at (w_db (st_w st)) job = Some row → ∃ resp n st',
    serve srv base enc_payload (get_rq uri) st = (Reply (rp_Status resp) (mkBody (enc_payload (rp_Body resp)) None) n, st') ∧ reads st st' ∧
    P (w_db (st_w st)) resp;
  gr_status : ∀ d resp, P d resp → rp_Status resp ≠ 502;
  gr_good : ∀ v resp, lv_inv desk_view v → live_desk fuel v → P (desk_db v) resp → good dec resp
}.

Lemma once_live {T} fuel uri (zero : T) dec P v : good_read fuel uri dec P → lv_inv desk_view v → live_desk fuel v →
  ∃ r v', once wire c tt "GET" uri None zero (Some dec) v = Some (r, v') ∧ lv_inv desk_view v' ∧ live_desk fuel v' ∧
    v_script (dk_net v') = tail (v_script (dk_net v)) ∧
    match v_script (dk_net v) with
    | LoseRequest _ :: _ | LoseReply _ :: _ => r = inl KConn
    | BadGateway _ :: _ => ∃ msg rid, r = inl (KAPI 502 msg rid)
    | _ => ∃ x, r = inr x
    end.
Proof.
  intros [Huri Hserve Hstatus Hgood] Hi Hl. destruct (http_Do tt (get_rq uri) v) as [rep v1] eqn:E.
  destruct (exchange_desk uri P v rep v1 Hserve Hi E) as (Hi1 & _ & _ & Hby). destruct (live_step fuel v v1 _ _ Huri Hl E) as [Hl1 Et].
  destruct (exchange_script _ v rep v1 (ld_ended _ _ Hl) (ld_ctx _ _ Hl) E) as (_ & _ & Hrep).
  assert (Hans : (∃ ops, rep = (serve srv base enc_payload (get_rq uri) (interfere srv ops (v_st (dk_net v)))).1) → ∃ x, once wire c tt "GET" uri None zero (Some dec) v = Some (inr x, v1)).
  { intros [ops Est]. destruct Hi as (I1 & I2 & [row Hrow] & _). destruct (run_ops_ok (sv_sched srv) ops _ I1 I2) as (Hps & _).
    destruct (PSteps_evolves _ _ job row Hps Hrow) as (row' & Hrow' & _).
    destruct (Hserve (interfere srv ops (v_st (dk_net v))) row' Hrow') as (resp0 & n0 & st0 & Es0 & _ & HP0). rewrite Es0 in Est. simpl in Est.
    destruct Hby as [Hn|[[n Hn]|(resp & n & -> & HP)]]; [by rewrite Hn in Est| |].
    { rewrite Hn in Est. injection Est as E5 _ _. by destruct (Hstatus _ _ HP0). }
    destruct (Hgood v1 resp Hi1 Hl1 HP) as (Hst & Hfit & [x Hx]). exists x.
    rewrite once_get, E, Hst.
    assert (Hraw : ReadAll (LimitReader (mkBody (enc_payload (rp_Body resp)) None) (Z.shiftl 64 20)) = inr (enc_payload (rp_Body resp))).
    { assert (Hpos : 0 < Z.shiftl 64 20) by done. revert Hpos Hfit. generalize (Z.shiftl 64 20). intros k Hpos Hfit.
      unfold LimitReader. cbn [bd_bytes bd_err]. rewrite (bool_decide_false (k ≤ 0)) by lia. case_bool_decide; [|done].
      unfold ReadAll. cbn [bd_bytes bd_err]. by rewrite take_ge by lia. }
    rewrite Hraw. cbv iota beta. rewrite bool_decide_true by done. cbn [negb].
    destruct (enc_payload (rp_Body resp)) as [|b raw] eqn:Ee; [by destruct (ca_nonempty Haddr (rp_Body resp))|]. by rewrite Hx. }
  destruct (v_script (dk_net v)) as [|[ops|ops|ops|ops|] rest] eqn:Es.
  - destruct (Hans Hrep) as [x Hx]. exists (inr x), v1. refine (conj Hx (conj Hi1 (conj Hl1 (conj Et _)))). by exists x.
  - destruct (Hans Hrep) as [x Hx]. exists (inr x), v1. refine (conj Hx (conj Hi1 (conj Hl1 (conj Et _)))). by exists x.
  - exists (inl KConn), v1. refine (conj _ (conj Hi1 (conj Hl1 (conj Et eq_refl)))). subst rep.
    by rewrite once_get, E.
  - exists (inl KConn), v1. refine (conj _ (conj Hi1 (conj Hl1 (conj Et eq_refl)))). subst rep.
    by rewrite once_get, E.
  - subst rep. exists (inl (api_error wire 502 [])), v1. refine (conj _ (conj Hi1 (conj Hl1 (conj Et _)))).
    + by rewrite once_get, E.
    + unfold api_error. destruct (dec_api_error wire []) as [[m i]|]; [case_bool_decide|]; by eexists _, _.
  - destruct (Hans Hrep) as [x Hx]. exists (inr x), v1. refine (conj Hx (conj Hi1 (conj Hl1 (conj Et _)))). by exists x.
Qed.
(** The retries come to an end: each failed try uses up an element of the script. *)
Lemma retry_live {T} fuel uri (zero : T) dec P : good_read fuel uri dec P → ∀ k failures d v, lv_inv desk_view v → live_desk fuel v →
  (length (v_script (dk_net v)) < k)%nat → failures + Z.of_nat (gateways (v_script (dk_net v))) ≤ cc_Retries c →
  ∃ x v', retry_loop c k tt failures d (once wire c tt "GET" uri None zero (Some dec)) v = Some (inr x, v') ∧ live_desk fuel v' ∧
    (length (v_script (dk_net v')) ≤ length (tail (v_script (dk_net v))))%nat.
Proof.
  intros Hg. induction k as [|k IH]; intros failures d v Hi Hl Hk Hf; [lia|]. pose proof (ld_ended _ _ Hl) as He.
  destruct (once_live fuel uri zero dec P v Hg Hi Hl) as (r & v1 & E & Hi1 & Hl1 & Et & Hr). cbn [retry_loop].
  change (ctx_Err tt v) with (v_ended (dk_net v)). rewrite He, E.
  assert (Hwait : ∀ f' d', v_script (dk_net v) ≠ [] → f' + Z.of_nat (gateways (v_script (dk_net v1))) ≤ cc_Retries c →
    ∃ x v', retry_loop c k tt f' d' (once wire c tt "GET" uri None zero (Some dec)) v1 = Some (inr x, v') ∧ live_desk fuel v' ∧
      (length (v_script (dk_net v')) ≤ length (tail (v_script (dk_net v))))%nat).
  { intros f' d' Hne Hf'. destruct (IH f' d' v1 Hi1 Hl1) as (x & v' & E' & L' & Hlen); [|done|].
    - rewrite Et. destruct (v_script (dk_net v)); [done|simpl in *; lia].
    - exists x, v'. split; [done|]. split; [done|]. rewrite Et in Hlen. destruct (v_script (dk_net v)) as [|? [|? ?]]; simpl in *; lia. }
  assert (Hans : (∃ x, r = inr x) → ∃ x v', match r with inl e => None | inr _ => Some (r, v1) end = Some (inr x, v') ∧ live_desk fuel v' ∧
    (length (v_script (dk_net v')) ≤ length (tail (v_script (dk_net v))))%nat).
  { intros [x ->]. exists x, v1. by rewrite Et. }
  pose proof (ld_ended _ _ Hl1) as He1. change (timer tt ?d v1) with (negb (v_ended (dk_net v1)), v1). rewrite He1.
  destruct (v_script (dk_net v)) as [|[ops|ops|ops|ops|] rest] eqn:Es.
  - destruct (Hans Hr) as (x & v' & Ex & ?). destruct r; [done|]. by exists x, v'.
  - destruct (Hans Hr) as (x & v' & Ex & ?). destruct r; [done|]. by exists x, v'.
  - subst r. simpl. apply Hwait; [done|]. rewrite Et. simpl in *. lia.
  - subst r. simpl. apply Hwait; [done|]. rewrite Et. simpl in *. lia.
  - destruct Hr as (msg & rid & ->). cbn -[Z.min]. rewrite (bool_decide_false (failures >= cc_Retries c)) by (simpl in Hf; lia). apply Hwait; [done|]. rewrite Et. simpl in *. lia.
  - destruct (Hans Hr) as (x & v' & Ex & ?). destruct r; [done|]. by exists x, v'.
Qed.
Lemma good_job fuel : good_read fuel job_uri (dec_job wire) job_answer.
Proof.
  split; [by left|apply serve_job_answer| |].
  - by intros d resp (row & _ & ->).
  - intros v resp _ Hl (row & Hr & ->). destruct (ld_fits _ _ Hl v row 0 (rtc_refl _ _) Hr) as [_ Hfit]. split; [done|]. split; [done|].
    destruct (ca_dec_job Haddr (toJobJSON (scanJob row))) as [spec E]. by eexists.
Qed.
Lemma good_logs fuel after : 0 ≤ after ≤ int64_max → good_read fuel (logs_uri after) (dec_job_logs wire) (logs_reply after).
Proof.
  intros [H1 H2]. split; [right; by exists after|intros st row; by apply serve_logs_reply| |].
  - intros d resp (row & _ & [[-> _]| ->]); done.
  - intros v resp _ Hl (row & Hr & [[_ Hno]| ->]); [destruct Hno; split; [done|apply (ld_attempt _ _ Hl)]|].
    destruct (ld_fits _ _ Hl v row after (rtc_refl _ _) Hr) as [Hfit _]. split; [done|]. split; [done|]. eexists. apply (ca_dec_logs Haddr).
Qed.

(** A cursor stays within 64 bits. *)
Lemma cursor_bound v b read : lv_inv desk_view v → read `prefix_of` lv_log desk_view v b → 0 ≤ cursor read ≤ int64_max.
Proof.
  intros (_ & _ & _ & _ & st & Hc & _) [k Hk]. simpl in Hk. unfold cursor. destruct (last read) as [x|] eqn:E; [|done]. simpl.
  destruct (covered_sorted _ _ _ b Hc) as [_ Hp]. destruct (Hc b) as (_ & Hb & [_ Hfl] & _). pose proof (top_bound _ Hb Hfl) as Ht.
  assert (Hx : x ∈ log_chunk <$> attempt_rows (desk_db v) job b) by (rewrite Hk; apply elem_of_app; left; by eapply last_Some_elem_of).
  apply list_elem_of_fmap in Hx as (r & -> & Hx). unfold log_seqs in Hp. rewrite Forall_fmap, Forall_forall in Hp.
  specialize (Hp r Hx). simpl in *. lia.
Qed.

Lemma live_write fuel b v : live_desk fuel v → live_desk fuel (mkDesk (dk_net v) (dk_out v ++ b)).
Proof.
  intros [Ha H1 H2 H3 H4 H5 H6]. assert (Hs : desk_step v (mkDesk (dk_net v) (dk_out v ++ b))) by (right; by exists b).
  split; [done..| |].
  - intros v'' Hr Hn. apply H5; [by eapply rtc_l|done].
  - intros v'' row after Hr. apply H6. by eapply rtc_l.
Qed.

Definition left_over (v : Desk) : nat := length (v_script (dk_net v)).

Lemma desk_live fuel interval : log_live desk_view wire fuel c (mkApp interval tt) job attempt (live_desk fuel) left_over.
Proof.
  split.
  - intros v Hi Hl. destruct (retry_live fuel job_uri zeroJob (dec_job wire) job_answer (good_job fuel) fuel 0
      (let delay := Z.min (cc_Backoff c) maxBackoff in if bool_decide (delay <= 0) then 200 * Millisecond else delay) v Hi Hl (ld_fuel _ _ Hl) (ld_gateways _ _ Hl))
      as (j & v' & E & Hl' & Hlen).
    exists j, v'. destruct (GetJob_keeps fuel v (inr j) v' Hi E) as (_ & [[_ [_ Hd]] _] & Hj). split; [exact E|].
    assert (Ht : (length (tail (v_script (dk_net v))) ≤ left_over v)%nat) by (unfold left_over; destruct (v_script (dk_net v)); simpl; lia).
    split; [split; [done|unfold left_over in *; lia]|]. split.
    + intros Hdone. destruct (Hj j eq_refl) as (row & Hrow & ->). rewrite jobTerminal_str. destruct (Hd Hdone) as [Hd' _]. simpl in Hd'.
      by rewrite Hrow in Hd'.
    + intros Hnot. unfold left_over in *. destruct (v_script (dk_net v)) eqn:Es; [|simpl in *; lia].
      by rewrite (ld_done _ _ Hl v (rtc_refl _ _) Es) in Hnot.
  - intros v read b Hi Hl Hread. pose proof (cursor_bound v b read Hi Hread) as Hc.
    destruct (retry_live fuel (logs_uri (cursor read)) zeroLogs (dec_job_logs wire) _ (good_logs fuel _ Hc) fuel 0
      (let delay := Z.min (cc_Backoff c) maxBackoff in if bool_decide (delay <= 0) then 200 * Millisecond else delay) v Hi Hl (ld_fuel _ _ Hl) (ld_gateways _ _ Hl))
      as (l & v' & E & Hl' & Hlen).
    exists l, v'. split; [exact E|]. split; [done|]. unfold left_over. destruct (v_script (dk_net v)); simpl in *; lia.
  - intros b v _ Hl. eexists. split; [reflexivity|]. split; [by apply live_write|done].
  - intros v _ Hl. exists v. split; [|done]. simpl. by rewrite (ld_ended _ _ Hl).
Qed.

(** What happens to the world while the client reads. *)
Lemma desk_steps v v' : lv_inv desk_view v → rtc desk_step v v' → lv_inv desk_view v' ∧ evolves desk_view v v'.
Proof.
  intros Hi Hr. induction Hr as [v|v v1 v2 Hs _ IH]; [by split|].
  assert (H1 : lv_inv desk_view v1 ∧ evolves desk_view v v1).
  { destruct Hs as [(uri & rep & [->|(after & Ha & ->)] & E)|[b ->]].
    - by destruct (exchange_desk _ _ _ _ _ serve_job_answer Hi E) as (? & ? & _).
    - by destruct (exchange_desk _ _ _ _ _ (λ st row, serve_logs_reply after st row Ha) Hi E) as (? & ? & _).
    - split; [done|]. split_and!; done. }
  destruct H1 as [I1 E1]. destruct (IH I1) as [I2 E2]. split; [done|]. by etrans.
Qed.

(** C33: Following a log over the network prints all of it.  Before every exchange any other
    scheduler calls happen (the runner's batches, shipped in order and possibly again,
    among them), and the exchange loses its request or its reply, or a gateway answers.
    When quarry logs -f then ends without an error the job is terminal, and what was
    printed is the log stored for the last attempt, to its end and byte for byte, after
    beginnings of earlier attempts' logs in their order.  And it does end so, if the
    context lives, no more gateway errors come than are retried, the replies fit what the
    client reads, and the job is terminal once everything to come has happened. *)
Theorem logs_follow_end_to_end fuel interval v :
  lv_inv desk_view v →
  (∀ v', logsCmd wire fuel c (mkApp interval tt) job true attempt v = Some (inr tt, v') →
     ∃ row pre, job_at (desk_db v') job = Some row ∧ isTerminal (jr_state row) = true ∧
       earlier desk_view v' (asked row) pre ∧
       dk_out v' = dk_out v ++ pre ++ mjoin (lr_data <$> attempt_rows (desk_db v') job (asked row))) ∧
  (live_desk fuel v ∧ (length (v_script (dk_net v)) + 3 ≤ fuel)%nat →
     ∃ v', logsCmd wire fuel c (mkApp interval tt) job true attempt v = Some (inr tt, v')).
Proof.
  intros Hi. assert (Hf : following desk_view (dk_out v) 0 0 v) by (split; [done|by left]). split.
  - intros v' E. destruct (logs_loop_sound desk_view wire fuel c (mkApp interval tt) job attempt (dk_out v) fuel 0 0 v v' Hf E) as (Hd & pre & He & Ho).
    simpl in Hd, He, Ho. destruct (job_at (desk_db v') job) as [row|] eqn:Er; [|done]. exists row, pre. split_and!; [done|done|done|].
    rewrite Ho. unfold bytes. by rewrite <-list_fmap_compose.
  - intros [Hl Hk]. by apply (logs_loop_returns desk_view wire fuel c (mkApp interval tt) job attempt _ _ (desk_live fuel interval) (dk_out v) fuel 0 0 v Hf).
Qed.
End desk.

(** ** A run *)

(** A codec: the kind of the document and its number.  The job's spec is left out. *)
Definition job_fields (j : jobJSON) : (string * string * string * JobState) * (Z * Z * string * string) * (option Z * string * Z * Z * Z) :=
  ((jj_ID j, jj_RunID j, jj_Name j, jj_State j), (jj_Attempt j, jj_MaxAttempts j, jj_RunnerID j, jj_FailureKind j),
   (jj_ExitCode j, jj_Error j, jj_QueuedAt j, jj_StartedAt j, jj_FinishedAt j)).
Definition logs_fields (r : logsResponse) : Z * list (Z * list N) * Z :=
  (ls_Attempt r, (λ x, (lc_Seq x, lc_Data x)) <$> ls_Chunks r, ls_Next r).
Definition toy_encode (p : Payload) : list N :=
  match p with
  | PJob_ j => [1; N.pos (encode (job_fields j))]
  | PLogs r => [2; N.pos (encode (logs_fields r))]
  | _ => [0; 0]
  end%N.
Definition toy_job (l : list N) : option CliJob :=
  match l with
  | [1; N.pos p]%N =>
      '((id, run, name, st), (att, most, runner, kind), (code, err, q, s, f)) ← decode p;
      Some (mkCliJob id run name (job_state_str st) att most runner kind code err q s f [])
  | _ => None
  end.
Definition toy_logs (l : list N) : option CliLogs :=
  match l with
  | [2; N.pos p]%N =>
      '(att, chunks, next) ← decode p;
      Some (mkCliLogs att ((λ x, mkCliLogChunk x.1 x.2) <$> (chunks : list (Z * list N))) next)
  | _ => None
  end.
Definition toy_wire : CliWire := mkCliWire (λ _, None) (λ _, None) toy_job toy_logs (λ _, None) (λ _, None) (λ _, None) (λ _, None)
  (λ _, []) (λ _, "") (λ b, b) (λ _ _, ("", [])).
Definition toy_cli : CClient := NewClient "http://ci" "s3cret".

Lemma toy_addressed : cli_addressed demo_srv "http://ci" toy_encode toy_wire toy_cli "j1" 0.
Proof.
  split; [done..| | | |].
  - intros j. exists []. simpl. unfold toy_job. by rewrite decode_encode.
  - intros r. simpl. unfold toy_logs. rewrite decode_encode. simpl. unfold cli_logs. by rewrite <-list_fmap_compose.
  - intros p n Hn. assert (n = 0 ∨ n = 1)%nat as [-> | ->] by (destruct p; simpl in Hn; lia); destruct p; done.
  - by intros [].
Qed.

(** The job has ended; its last batch arrives again while requests and replies are lost. *)
Definition j1_batch : Op := OpAppendLogs "j1" 1 [mkLogChunk 1 [104; 105]%N; mkLogChunk 2 [33]%N].
Definition j1_ops : list Op := [j1_batch; OpComplete "j1" 1 res_ok].
Definition j1_script : list Fault := [LoseRequest [OpTick]; BadGateway []; LoseReply [j1_batch]].
Definition j1_desk : Desk (B := LocalStore.Store) := mkDesk (mkLossy (mkState (run_ops demo_s j1_ops demo_w) demo_store) j1_script false []) [].

Lemma j1_desk_ok : lv_inv (desk_view "j1" 0) j1_desk.
Proof.
  destruct (run_ops_ok demo_s j1_ops demo_w demo_inv demo_clock_pos) as (_ & Hi & Hc).
  destruct (run_ops_in_order "j1" demo_s j1_ops (λ _, mkShip 0 []) demo_w [(1, [1; 2])] demo_inv demo_clock_pos) as (st & Hcov & Hord & _).
  - intros a. split_and!; [constructor|constructor|done|done|]. exists []. split_and!; [constructor|constructor|by left].
  - right. split_and!; [repeat constructor|repeat constructor; done|]. left. done.
  - refine (conj Hi (conj Hc _)). split_and!; [vm_compute; by eexists|vm_compute; done|]. exists st. split; [exact Hcov|exact Hord].
Qed.

Lemma j1_desk_live : live_desk demo_srv "http://ci" toy_encode toy_cli "j1" 0 7 j1_desk.
Proof.
  split; [done|done| |done|vm_compute; lia| |].
  - intros Hx. repeat (apply elem_of_cons in Hx as [Hx|Hx]; [discriminate|]). by apply elem_of_nil in Hx.
  - intros v' Hr _. destruct (desk_steps _ _ _ _ _ _ _ toy_addressed _ _ j1_desk_ok Hr) as [_ (_ & _ & Hd)].
    apply Hd. vm_compute. reflexivity.
  - intros v' row after _ _. split; done.
Qed.

Lemma logs_follow_end_to_end_witness : ∃ v',
  logsCmd (H := desk_env demo_srv "http://ci" toy_encode) toy_wire 7 toy_cli (mkApp 500 tt) "j1" true 0 j1_desk = Some (inr tt, v') ∧
  ∃ row pre, job_at (desk_db v') "j1" = Some row ∧ isTerminal (jr_state row) = true ∧
    earlier (desk_view "j1" 0) v' (asked 0 row) pre ∧
    dk_out v' = dk_out j1_desk ++ pre ++ mjoin (lr_data <$> attempt_rows (desk_db v') "j1" (asked 0 row)).
Proof.
  destruct (logs_follow_end_to_end demo_srv "http://ci" toy_encode toy_wire toy_cli "j1" 0 toy_addressed 7 500 j1_desk j1_desk_ok) as [Hs Hl].
  destruct Hl as [v' E].
  - split; [exact j1_desk_live|vm_compute; lia].
  - exists v'. split; [exact E|]. exact (Hs v' E).
Defined.

(** What is printed. *)
Example j1_printed : fmap (λ r, (r.1, dk_out r.2)) (logsCmd (H := desk_env demo_srv "http://ci" toy_encode) toy_wire 7 toy_cli (mkApp 500 tt) "j1" true 0 j1_desk) =
  Some (inr tt, [104; 105; 33]%N).
Proof. vm_compute. reflexivity. Qed.
