(* ===== verification/CliDownload.v ===== *)
(** * quarry artifacts --download

    downloadArtifact, safeRelPath and the artifacts command of internal/cli/cli.go, over
    the filesystem of LocalStore.v.  The world of the client gains a tree of files
    ([CliFiles]); the network, the timers and the spool file of DownloadArtifact, which
    lies in the system's temporary directory, do not touch it.  The tree has no symbolic
    links. *)

From S2P Require Import Prelude GoLib Pipeline Artifact LocalStore LocalSpec DockerFiles Api Router Client Remote Cli CliClient CliClientSpec.
From Stdlib Require Import Ascii.
From stdpp Require Import pretty.

Local Open Scope Z_scope.

(** ** Paths *)

Definition safeRelPath (p : string) : bool :=
  if bool_decide (p = "") || HasPrefix p "/" || ContainsByte p (chr 92) || ContainsByte p (chr 0) then false
  else forallb plain_segment (Split p "/").

(** The directory given to --download, seen from the working directory, and the place of
    an artifact below it. *)
Definition download_dir (cwd : list string) (dir : string) : list string :=
  Clean (if HasPrefix dir "/" then Split dir "/" else cwd ++ Split dir "/").
Definition download_path (base : list string) (path : string) : list string := Clean (base ++ Split path "/").

Lemma plain_segments segs : forallb plain_segment segs = true → Forall ok_seg segs.
Proof.
  intros Hs. apply Forall_forall. intros s Hx%list_elem_of_In. rewrite forallb_forall in Hs. specialize (Hs s Hx).
  apply negb_true_iff, bool_decide_eq_false in Hs. unfold ok_seg. tauto.
Qed.
Lemma safeRelPath_segs p : safeRelPath p = true → Forall ok_seg (Split p "/").
Proof. unfold safeRelPath. destruct (_ || _); [done|]. apply plain_segments. Qed.
Lemma download_path_ok base p : safeRelPath p = true → download_path base p = Clean base ++ Split p "/" ∧ Split p "/" ≠ [].
Proof. intros Hs. split; [by apply Clean_app, safeRelPath_segs|apply Split_join]. Qed.
Lemma download_path_inj base p q : safeRelPath p = true → safeRelPath q = true → download_path base p = download_path base q → p = q.
Proof.
  intros Hp Hq. rewrite (proj1 (download_path_ok base p Hp)), (proj1 (download_path_ok base q Hq)).
  intros E%(inj (app (Clean base))). by apply Split_inj.
Qed.
Lemma download_path_ne base p : safeRelPath p = true → download_path base p ≠ [].
Proof. intros Hs. destruct (download_path_ok base p Hs) as [-> Hne]. intros [_ ?]%app_eq_nil. done. Qed.

(** [os.CreateTemp(dir, ".quarry-dl-*")]. *)
Definition dlPrefix : string := ".quarry-dl-".
Fixpoint CreateTemp_dl (dir : list string) (temps : list N) : L (list string) :=
  match temps with
  | [] => lfail BlobIO
  | n :: l =>
      let p := dir ++ [dlPrefix +:+ pretty n] in
      fs ← get_fs;
      match fs !! p with
      | Some _ => CreateTemp_dl dir l
      | None => set_fs (<[p := File []]> fs);; mret p
      end
  end.
Definition is_dl (p : list string) : bool := HasPrefix (default "" (last p)) dlPrefix.

Lemma CreateTemp_dl_ok dst fs0 temps s r s' :
  near dst None fs0 (l_fs s) → node (l_fs s) (parent dst) = Some Dir → CreateTemp_dl (parent dst) temps s = (r, s') →
  match r with
  | inl _ => s' = s
  | inr tmp => fs0 !! tmp = None ∧ is_dl tmp = true ∧ parent tmp = parent dst ∧ tmp ≠ [] ∧
      through (near dst (Some tmp) fs0) s s' ∧ l_fs s' !! tmp = Some (File []) ∧ node (l_fs s') (parent dst) = Some Dir
  end.
Proof.
  intros Hn Hd. induction temps as [|n temps IH]; intros E; [by injection E as <- <-|].
  simpl in E. unfold mbind, M_bind in E. simpl in E. set (tmp := parent dst ++ [dlPrefix +:+ pretty n]) in *.
  destruct (l_fs s !! tmp) eqn:Et; [by apply IH|]. injection E as <- <-.
  assert (Hne : tmp ≠ []) by (unfold tmp; by intros [_ ?]%app_eq_nil).
  assert (Hpar : parent tmp = parent dst) by (unfold tmp; apply parent_snoc).
  assert (H0 : fs0 !! tmp = None) by (destruct (proj2 Hn tmp) as [E|[E _]]; congruence).
  split_and!; try done.
  - unfold is_dl, tmp. rewrite last_snoc. simpl. generalize (pretty n) as x. intros x. by destruct x.
  - apply through_set. apply near_file; try done; [by apply near_weaken|congruence|by rewrite Hpar].
  - simpl. apply lookup_insert_eq.
  - simpl. rewrite node_insert_ne; [done|]. rewrite <-Hpar. by apply parent_ne.
Qed.

(** ** The commands *)

Class CliFiles (C V : Type) `{CliEnv C V} := {
  files : V → LState;
  put_files : LState → V → V;
  files_put : ∀ l v, files (put_files l v) = l;
  files_do : ∀ ctx rq v, files (http_Do ctx rq v).2 = files v;
  files_timer : ∀ ctx d v, files (timer ctx d v).2 = files v;
  files_op : ∀ what v, files (local_op what v).2 = files v;
  files_out : ∀ b v, files (out_Write b v).2 = files v
}.

Section download.
Context {C V : Type} `{CliEnv C V} `{!CliFiles C V}.
Context (wire : CliWire) (fuel : nat) (c : CClient).

Definition klocal {A} (m : L A) : Km (V:=V) A := λ v,
  let '(r, l) := m (files v) in Some (match r with inl _ => inl (KFile "download") | inr a => inr a end, put_files l v).

(** The cleanup of an error. *)
Definition kon_error (m : Km (V:=V) unit) (cleanup : Km (V:=V) unit) : Km (V:=V) unit := λ v,
  match m v with
  | Some (inl e, v1) => match cleanup v1 with Some (_, v2) => Some (inl e, v2) | None => None end
  | r => r
  end.

(** What is between the creation of the temporary file and its removal.  The copy of the
    spool into it is the end of DownloadArtifact; the file is closed after an error too. *)
Definition fill_temp (f : Faults) (ctx : C) (jobID : string) (attempt : Z) (art : CliArtifact) (tmp dst : list string) : Km (V:=V) unit :=
  r ← DownloadArtifact wire fuel c ctx jobID attempt (ca_Path art);
  let '(data, sum) := r in
  klocal (io_Copy (ft_write f) tmp (mkBody data None));;
  if ft_close f then kfail (KFile "close")
  else if negb (bool_decide (sum = ca_SHA256 art)) then kfail (KSum (ca_Path art) sum (ca_SHA256 art))
  else klocal (Rename (ft_rename f) tmp dst).

Definition downloadArtifact (f : Faults) (ctx : C) (jobID : string) (attempt : Z) (art : CliArtifact) (base : list string) : Km (V:=V) unit :=
  if negb (safeRelPath (ca_Path art)) then kfail (KUnsafe (ca_Path art))
  else
    let dst := download_path base (ca_Path art) in
    klocal (MkdirAll (ft_mkdir f) (parent dst));;
    tmp ← klocal (CreateTemp_dl (parent dst) (ft_temps f));
    kon_error (fill_temp f ctx jobID attempt art tmp dst) (klocal (remove_temp f tmp)).

(** The loop over the listing; [f] says what the system does during each download. *)
Fixpoint download_all (f : CliArtifact → Faults) (ctx : C) (jobID : string) (attempt : Z) (cwd : list string) (download : string)
    (arts : list CliArtifact) : Km (V:=V) unit :=
  match arts with
  | [] => mret tt
  | art :: l =>
      downloadArtifact (f art) ctx jobID attempt art (download_dir cwd download);;
      print (join_file download (ca_Path art) +:+ String tab (Itoa (ca_SizeBytes art) +:+ String newline ""));;
      download_all f ctx jobID attempt cwd download l
  end.
Definition artifactsCmd (f : CliArtifact → Faults) (cwd : list string) (a : App (C:=C)) (job download : string) (attempt : Z) : Km (V:=V) unit :=
  arts ← ListArtifacts wire fuel c (ap_ctx a) job attempt;
  if bool_decide (download = "") then print (renderArtifacts arts)
  else download_all f (ap_ctx a) job attempt cwd download arts.
(** ** What happens to the tree *)

(** A call that leaves the tree alone. *)
Definition Quiet {A} (Q : A → Prop) (m : Km (V:=V) A) : Prop :=
  ∀ v r v', m v = Some (r, v') → files v' = files v ∧ ∀ x, r = inr x → Q x.

Lemma quiet_bind {A B} P Q (m : Km A) (k : A → Km B) : Quiet P m → (∀ x, P x → Quiet Q (k x)) → Quiet Q (m ≫= k).
Proof.
  intros Hm Hk v r v'. unfold mbind, Km_bind. destruct (m v) as [[[e|x] v1]|] eqn:E; [| |done].
  - intros [= <- <-]. by split; [apply (Hm _ _ _ E)|].
  - destruct (Hm _ _ _ E) as [E1 HP]. intros Ex. destruct (Hk x (HP x eq_refl) _ _ _ Ex) as [E2 HQ]. split; [congruence|done].
Qed.
Lemma quiet_fail {A} (Q : A → Prop) e : Quiet Q (kfail e).
Proof. by intros v r v' [= <- <-]. Qed.
Lemma quiet_ret {A} (Q : A → Prop) x : Q x → Quiet Q (mret x).
Proof. intros HQ v r v' [= <- <-]. split; [done|]. by intros y [= <-]. Qed.
Lemma quiet_lift {A} (g : V → A * V) : (∀ v, files (g v).2 = files v) → Quiet (λ _, True) (klift g).
Proof. intros Hg v r v'. unfold klift. specialize (Hg v). destruct (g v). intros [= <- <-]. by split. Qed.
Lemma quiet_retry {A} (Q : A → Prop) ctx (m : Km A) : Quiet Q m → Quiet Q (retry fuel c ctx m).
Proof.
  intros Hm v r v' E. destruct (retry_keeps c ctx m (λ _, True) (λ v1 v2, files v2 = files v1) (λ x _, Q x) fuel v r v') as (_ & ? & ?); [| | |done|done|done].
  - split; [done|]. intros ???. congruence.
  - intros v1 r1 v2 _ E1. destruct (Hm _ _ _ E1) as [? ?]. by split_and!.
  - intros v1 d b v2 _ E1. split; [done|]. pose proof (files_timer ctx d v1) as Hf. by rewrite E1 in Hf.
Qed.
Lemma quiet_op what : Quiet (λ _, True) (file_op (H:=H) what).
Proof.
  apply (quiet_bind (λ _, True)); [apply quiet_lift; intros v; apply files_op|]. intros [] _; [by apply quiet_ret|apply quiet_fail].
Qed.
Lemma quiet_send ctx rq : Quiet (λ _, True) (send ctx rq).
Proof.
  apply (quiet_bind (λ _, True)); [apply quiet_lift; intros v; apply files_do|]. intros [| |] _; [apply quiet_fail..|by apply quiet_ret].
Qed.
Lemma quiet_print s : Quiet (λ _, True) (print (H:=H) s).
Proof.
  unfold print. case_bool_decide; [by apply quiet_ret|]. apply (quiet_bind (λ _, True)); [apply quiet_lift; intros v; apply files_out|].
  intros _ _. by apply quiet_ret.
Qed.
Lemma quiet_list ctx job attempt : Quiet (λ _, True) (ListArtifacts wire fuel c ctx job attempt).
Proof.
  apply quiet_retry. unfold once. apply (quiet_bind (λ _, True)); [by apply quiet_ret|]. intros [ct content] _.
  apply (quiet_bind (λ _, True)); [apply quiet_send|]. intros [status resp] _. destruct (ReadAll _) as [e|raw]; [apply quiet_fail|].
  destruct (negb _); [apply quiet_fail|]. destruct raw; [by apply quiet_ret|]. destruct (dec_artifacts _ _); [by apply quiet_ret|apply quiet_fail].
Qed.
(** The sum that is returned is that of the bytes. *)
Lemma quiet_download ctx job attempt path :
  Quiet (λ r, r.2 = hex_encode (cli_sha256 wire r.1)) (DownloadArtifact wire fuel c ctx job attempt path).
Proof.
  unfold DownloadArtifact. apply (quiet_bind (λ _, True)); [apply quiet_op|]. intros _ _.
  apply (quiet_bind (λ r, r.2 = hex_encode (cli_sha256 wire r.1))).
  - apply quiet_retry. do 2 (apply (quiet_bind (λ _, True)); [apply quiet_op|]; intros _ _). unfold downloadOnce.
    apply (quiet_bind (λ _, True)); [apply quiet_send|]. intros [status resp] _. destruct (negb _); [apply quiet_fail|].
    apply (quiet_bind (λ _, True)); [apply quiet_op|]. intros _ _. destruct (ReadAll resp); [apply quiet_fail|by apply quiet_ret].
  - intros r Hr. apply (quiet_bind (λ _, True)); [apply quiet_op|]. intros _ _. by apply quiet_ret.
Qed.
(** One download: near the initial tree until the verified bytes are in place. *)
Definition download_result (art : CliArtifact) (dst : list string) (fs0 : FS) (tmp : option (list string)) (s s' : LState) (r : KErr + unit) : Prop :=
  match r with
  | inl _ => through (near dst tmp fs0) s s'
  | inr _ => ∃ data s1, hex_encode (cli_sha256 wire data) = ca_SHA256 art ∧ stored dst data fs0 (l_fs s') ∧
      through (near dst tmp fs0) s s1 ∧ l_hist s' = l_hist s1 ++ [l_fs s']
  end.

Lemma klocal_run {A} (m : L A) v r v' : klocal m v = Some (r, v') →
  ∃ x, m (files v) = (x, files v') ∧ match x, r with inl _, inl _ => True | inr a, inr b => a = b | _, _ => False end.
Proof. unfold klocal. destruct (m (files v)) as [x l] eqn:E. intros [= <- <-]. exists x. rewrite files_put. split; [done|]. by destruct x. Qed.

Lemma fill_temp_ok f ctx job attempt art fs0 tmp dst v r v' :
  dst ≠ [] → fs0 !! tmp = None → tmp ≠ [] → parent tmp = parent dst → near dst (Some tmp) fs0 (l_fs (files v)) →
  l_fs (files v) !! tmp = Some (File []) → node (l_fs (files v)) (parent dst) = Some Dir →
  fill_temp f ctx job attempt art tmp dst v = Some (r, v') → download_result art dst fs0 (Some tmp) (files v) (files v') r.
Proof.
  intros Hdst Hn Hne Hpar HI Ht Hd. unfold fill_temp, mbind, Km_bind.
  destruct (DownloadArtifact _ _ _ _ _ _ _ v) as [[[e|[data sum]] v1]|] eqn:Ed; [| |done]; destruct (quiet_download _ _ _ _ _ _ _ Ed) as [Ef Hsum].
  { intros [= <- <-]. simpl. rewrite Ef. by apply through_refl. }
  specialize (Hsum _ eq_refl). simpl in Hsum. destruct (klocal _ v1) as [[x v2]|] eqn:Ec; [|done]. apply klocal_run in Ec as (y & Ec & Hy).
  rewrite Ef in Ec. apply (io_Copy_ok dst fs0 tmp Hn Hne Hpar) in Ec as (Hth & Hd2 & Hok); [|done..].
  destruct x as [e|n]; [by intros [= <- <-]|]. destruct y as [|n']; [done|]. destruct (Hok n' eq_refl) as (_ & _ & Ht2). simpl in Ht2.
  destruct (ft_close f); [by intros [= <- <-]|]. case_bool_decide as Hs; simpl; [|by intros [= <- <-]].
  intros (y2 & Er & Hy2)%klocal_run. apply Rename_ok in Er; [|apply Hth].
  destruct r as [e|[]]; destruct y2 as [|[]]; try done; [simpl; by rewrite Er|].
  destruct Er as (data' & Hsrc & _ & Hnd & ->). rewrite node_ne in Hsrc, Hnd by done. rewrite Ht2 in Hsrc. injection Hsrc as <-.
  exists data, (files v2). simpl. split; [congruence|]. split; [apply near_stored; try done; apply Hth|]. done.
Qed.

Lemma downloadArtifact_ok f ctx job attempt art base v r v' : fs_wf (l_fs (files v)) → safeRelPath (ca_Path art) = true →
  downloadArtifact f ctx job attempt art base v = Some (r, v') →
  let dst := download_path base (ca_Path art) in
  ∃ tmp, (∀ p, tmp = Some p → is_dl p = true ∧ parent p = parent dst) ∧
    download_result art dst (l_fs (files v)) tmp (files v) (files v') r.
Proof.
  intros Hwf Hs. unfold downloadArtifact. rewrite Hs. simpl. pose proof (download_path_ne base _ Hs) as Hdst. set (dst := download_path base (ca_Path art)) in *.
  set (fs0 := l_fs (files v)) in *. unfold mbind, Km_bind.
  destruct (klocal (MkdirAll _ _) v) as [[x v1]|] eqn:Em; [|done]. apply klocal_run in Em as (y & Em & Hy).
  apply (MkdirAll_ok dst fs0) in Em as [Hth1 Hd1]; [|by apply near_refl].
  destruct x as [e|[]]; [intros [= <- <-]; by exists None|]. destruct y as [|[]]; [done|]. specialize (Hd1 eq_refl).
  destruct (klocal (CreateTemp_dl _ _) v1) as [[x v2]|] eqn:Et; [|done]. apply klocal_run in Et as (y & Et & Hy2).
  apply (CreateTemp_dl_ok dst fs0) in Et; [|apply Hth1|done].
  destruct x as [e|tmp]; [destruct y; [|done]; intros [= <- <-]; exists None; split; [done|]; simpl; by rewrite Et|].
  destruct y as [|tmp']; [done|]. subst tmp'. destruct Et as (Hn & Htemp & Hpar & Hnt & Hth2 & Ht2 & Hd2).
  assert (Hth : through (near dst (Some tmp) fs0) (files v) (files v2)).
  { eapply through_trans; [|exact Hth2]. eapply through_mono; [|exact Hth1]. intros fs. apply near_weaken. }
  unfold kon_error. destruct (fill_temp _ _ _ _ _ _ _ v2) as [[x v3]|] eqn:Ep; [|done].
  apply (fill_temp_ok _ _ _ _ _ fs0) in Ep; [|done..|apply Hth2|done|done]. intros E. exists (Some tmp). split; [by intros ? [= <-]|].
  destruct x as [e|[]].
  - destruct (klocal (remove_temp f tmp) v3) as [[x v4]|] eqn:Er; [|done]. injection E as <- <-. apply klocal_run in Er as (y & Er & _).
    simpl in *. eapply through_trans; [exact Hth|]. eapply through_trans; [exact Ep|].
    pose proof (remove_temp_ok f dst fs0 tmp (files v3) Hn (proj1 Ep)) as Hr. by rewrite Er in Hr.
  - injection E as <- <-. destruct Ep as (data & s1 & ? & ? & ? & ?). exists data, s1. split_and!; try done. by eapply through_trans.
Qed.

(** [fs'] is [fs] and what the artifacts [arts] account for: their directories, temporary
    files next to their places, and in these places files with the sums that are listed. *)
Definition accounted (arts : list CliArtifact) (base : list string) (fs fs' : FS) : Prop :=
  fs_wf fs' ∧ ∀ p, fs' !! p = fs !! p ∨
    ∃ art, art ∈ arts ∧ safeRelPath (ca_Path art) = true ∧
      (fs !! p = None ∧ fs' !! p = Some Dir ∧ p `prefix_of` parent (download_path base (ca_Path art)) ∨
       fs !! p = None ∧ is_dl p = true ∧ parent p = parent (download_path base (ca_Path art)) ∧ (∃ d, fs' !! p = Some (File d)) ∨
       p = download_path base (ca_Path art) ∧ ∃ d, fs' !! p = Some (File d) ∧ hex_encode (cli_sha256 wire d) = ca_SHA256 art).

Lemma accounted_near arts art base tmp fs fs' : art ∈ arts → safeRelPath (ca_Path art) = true →
  (∀ p, tmp = Some p → is_dl p = true ∧ parent p = parent (download_path base (ca_Path art))) →
  near (download_path base (ca_Path art)) tmp fs fs' → accounted arts base fs fs'.
Proof.
  intros Ha Hs Ht [Hwf Hn]. split; [done|]. intros p. destruct (Hn p) as [?|[Hnone [[Hp Hd]|[Hd Hp]]]]; [by left|right; exists art..].
  - destruct (Ht p Hp). split_and!; [done|done|]. by right; left.
  - split_and!; [done|done|]. by left.
Qed.
Lemma accounted_stored arts art base data fs fs' : art ∈ arts → safeRelPath (ca_Path art) = true →
  hex_encode (cli_sha256 wire data) = ca_SHA256 art → stored (download_path base (ca_Path art)) data fs fs' → accounted arts base fs fs'.
Proof.
  intros Ha Hs Hsum (Hwf & Hd & Hn). split; [done|]. intros p. destruct (decide (p = download_path base (ca_Path art))) as [->|Hne].
  - right. exists art. split_and!; [done|done|]. right; right. split; [done|]. by exists data.
  - destruct (Hn p Hne) as [?|(H1 & H2 & H3)]; [by left|right]. exists art. split_and!; [done|done|]. by left.
Qed.
Lemma accounted_trans arts base fs1 fs2 fs3 : accounted arts base fs1 fs2 → accounted arts base fs2 fs3 → accounted arts base fs1 fs3.
Proof.
  intros [_ H1] [Hwf H2]. split; [done|]. intros p.
  assert (Hnone : fs2 !! p = None → fs1 !! p = None).
  { intros E. destruct (H1 p) as [<-|(art & _ & _ & [(_ & E' & _)|[(E' & _)|(_ & d & E' & _)]])]; [done|congruence|done|congruence]. }
  destruct (H2 p) as [E|(art & Ha & Hs & Hc)].
  - rewrite E. destruct (H1 p) as [?|(art & Ha & Hs & Hc)]; [by left|right]. by exists art.
  - right. exists art. split_and!; [done|done|]. destruct Hc as [(E & ?)|[(E & ?)|?]]; [left|right; left|by right; right]; (split; [by apply Hnone|done]).
Qed.
Lemma accounted_mono arts arts' base fs fs' : arts ⊆ arts' → accounted arts base fs fs' → accounted arts' base fs fs'.
Proof. intros Hs [Hwf H1]. split; [done|]. intros p. destruct (H1 p) as [?|(art & ? & ? & ?)]; [by left|right]. exists art. split_and!; [by apply Hs|done|done]. Qed.
(** A changed path lies below the directory, or is one of the directories above it. *)
Definition below (base : list string) (fs fs' : FS) : Prop :=
  ∀ p, fs' !! p ≠ fs !! p → base `prefix_of` p ∨ p `prefix_of` base ∧ fs !! p = None ∧ fs' !! p = Some Dir.
Lemma accounted_below arts base fs fs' : Clean base = base → accounted arts base fs fs' → below base fs fs'.
Proof.
  intros Hb [_ Hacc] p Hp. destruct (Hacc p) as [?|(art & _ & Hs & Hc)]; [done|]. destruct (download_path_ok base _ Hs) as [E Hne]. rewrite Hb in E.
  assert (Hpre : base `prefix_of` parent (download_path base (ca_Path art))).
  { rewrite E. unfold parent. rewrite removelast_app by done. by apply prefix_app_r. }
  destruct Hc as [(H1 & H2 & H3)|[(_ & _ & H3 & _)|[-> _]]].
  - destruct (prefix_weak_total _ _ _ Hpre H3); [by left|by right].
  - left. rewrite <-H3 in Hpre. etrans; [exact Hpre|apply prefix_parent].
  - left. rewrite E. by apply prefix_app_r.
Qed.

(** In the place of an artifact there is a file with a listed sum. *)
Definition delivered (arts : list CliArtifact) (base : list string) (fs : FS) (art : CliArtifact) : Prop :=
  safeRelPath (ca_Path art) = true ∧
  ∃ art' d, art' ∈ arts ∧ ca_Path art' = ca_Path art ∧ fs !! download_path base (ca_Path art) = Some (File d) ∧
    hex_encode (cli_sha256 wire d) = ca_SHA256 art'.
Lemma delivered_stays arts base fs fs' art : accounted arts base fs fs' → delivered arts base fs art → delivered arts base fs' art.
Proof.
  intros [_ Hacc] (Hs & art' & d & Ha & Hp & Hd & Hsum). split; [done|].
  destruct (Hacc (download_path base (ca_Path art))) as [E|(art2 & Ha2 & Hs2 & [(E & _)|[(E & _)|(E & d2 & E2 & Hsum2)]])]; [|congruence..|].
  - exists art', d. by rewrite E.
  - exists art2, d2. split_and!; [done|symmetry; by eapply download_path_inj|done|done].
Qed.

Lemma download_all_ok f ctx job attempt cwd download all arts : arts ⊆ all → ∀ v r v', fs_wf (l_fs (files v)) →
  download_all f ctx job attempt cwd download arts v = Some (r, v') →
  through (accounted all (download_dir cwd download) (l_fs (files v))) (files v) (files v') ∧
  (r = inr tt → ∀ art, art ∈ arts → delivered all (download_dir cwd download) (l_fs (files v')) art).
Proof.
  set (base := download_dir cwd download). induction arts as [|art arts IH]; intros Hsub v r v' Hwf.
  { intros [= <- <-]. split; [apply through_refl; split; [done|by left]|]. by intros _ art ?%not_elem_of_nil. }
  cbn [download_all]. fold base. unfold mbind at 1, Km_bind at 1. destruct (downloadArtifact _ _ _ _ _ _ v) as [[x v1]|] eqn:Ed; [|done].
  assert (Hin : art ∈ all) by (apply Hsub; left).
  assert (Hone : through (accounted all base (l_fs (files v))) (files v) (files v1) ∧ (x = inr tt → delivered all base (l_fs (files v1)) art)).
  { destruct (safeRelPath (ca_Path art)) eqn:Hs.
    - destruct (downloadArtifact_ok _ _ _ _ _ _ _ _ _ Hwf Hs Ed) as (tmp & Ht & Hr). destruct x as [e|[]]; simpl in Hr.
      + split; [|done]. eapply through_mono; [|exact Hr]. intros fs. by apply (accounted_near all art).
      + destruct Hr as (data & s1 & Hsum & Hst & Hth & Hh). split.
        * split; [by eapply accounted_stored|]. destruct Hth as [_ (ext & E & Hext)]. exists (ext ++ [l_fs (files v1)]). rewrite Hh, E, app_assoc.
          split; [done|]. apply Forall_app. split; [eapply Forall_impl; [exact Hext|]; intros fs; by apply (accounted_near all art)|].
          constructor; [by eapply accounted_stored|done].
        * intros _. split; [done|]. exists art, data. split_and!; [done|done|apply Hst|done].
    - unfold downloadArtifact in Ed. rewrite Hs in Ed. injection Ed as <- <-. split; [apply through_refl; split; [done|by left]|done]. }
  destruct Hone as [Hth Hdel]. destruct x as [e|[]]; [by intros [= <- <-]|]. unfold mbind, Km_bind.
  destruct (print _ v1) as [[y v2]|] eqn:Ep; [|done]. destruct (quiet_print _ _ _ _ Ep) as [Ef _].
  destruct y as [e|[]]; [intros [= <- <-]; by rewrite Ef|]. intros E. rewrite <-Ef in Hth, Hdel.
  destruct (IH ltac:(intros z Hz; apply Hsub; by right) v2 r v' (proj1 (proj1 Hth)) E) as [Hth2 Hdel2]. split.
  - eapply through_trans; [exact Hth|]. eapply through_mono; [|exact Hth2]. intros fs. apply accounted_trans, Hth.
  - intros Hr art' [->|Ha']%elem_of_cons; [|by apply Hdel2]. eapply delivered_stays; [apply Hth2|by apply Hdel].
Qed.

(** C35: What a server lists and sends cannot do harm: whatever the listing says, whatever
    bytes arrive and whichever local call fails, at every moment of the download the
    files under every path are those of before, except that missing directories, and
    temporary files next to the places of listed artifacts, are there, and in the places
    themselves only ever complete files with a sha256 that is listed for that path.  All
    of it is below the directory that was given; a path that would lead out of it fails
    the command.  When the command succeeds every listed artifact has been delivered. *)
Theorem downloads_are_confined_and_verified f cwd a job download attempt v r v' :
  fs_wf (l_fs (files v)) → artifactsCmd f cwd a job download attempt v = Some (r, v') →
  let base := download_dir cwd download in
  files v' = files v ∨
  ∃ arts v1, ListArtifacts wire fuel c (ap_ctx a) job attempt v = Some (inr arts, v1) ∧
    through (λ fs, accounted arts base (l_fs (files v)) fs ∧ below base (l_fs (files v)) fs) (files v) (files v') ∧
    (r = inr tt → ∀ art, art ∈ arts → delivered arts base (l_fs (files v')) art).
Proof.
  intros Hwf. unfold artifactsCmd, mbind, Km_bind. destruct (ListArtifacts _ _ _ _ _ _ v) as [[x v1]|] eqn:El; [|done].
  destruct (quiet_list _ _ _ _ _ _ El) as [Ef _]. destruct x as [e|arts]; [intros [= <- <-]; by left|].
  case_bool_decide as Hd; [intros [Ep _]%quiet_print; left; congruence|]. intros E. right. exists arts, v1. split; [done|].
  assert (Hc : Clean (download_dir cwd download) = download_dir cwd download) by apply Clean_idemp.
  rewrite <-Ef in Hwf |- *. destruct (download_all_ok _ _ _ _ _ _ arts arts ltac:(done) v1 r v' Hwf E) as [Hth Hdel].
  split; [|done]. eapply through_mono; [|exact Hth]. intros fs Ha. split; [done|by eapply accounted_below].
Qed.
End download.

(** The paths the server stores artifacts under are all paths the client accepts. *)
Lemma forbidden_bytes p c : In c [chr 92; chr 0] → has_forbidden p = false → ContainsByte p c = false.
Proof.
  intros Hc. induction p as [|x p IH]; [done|]. simpl. intros [Hx Hp]%orb_false_iff. rewrite IH by done. rewrite bool_decide_false; [done|].
  intros ->. destruct Hc as [<-|[<-|[]]]; by vm_compute in Hx.
Qed.
Lemma valid_is_safe p : ValidatePath p = None → safeRelPath p = true.
Proof.
  intros (Hne & _ & Hf & Ha & Hs%check_segments_ok)%ValidatePath_nil. unfold safeRelPath.
  rewrite bool_decide_false, Ha, !forbidden_bytes by (done || by (simpl; tauto)). simpl. apply forallb_forall. intros x Hx%list_elem_of_In.
  rewrite Forall_forall in Hs. destruct (Hs x Hx) as (? & ? & ?). unfold plain_segment. apply negb_true_iff, bool_decide_eq_false. tauto.
Qed.

(** ** A run *)

(** A server with one artifact, whose listing answers every path that ends in
    "/artifacts"; the sum of some bytes is these bytes. *)
Definition dl_world : Type := LState * list N.
#[export] Instance dl_net : Net unit dl_world := {
  ctx_Err := λ _ _, false;
  http_Do := λ _ rq v, (if HasPrefix (hr_url rq) "http://ci/api/jobs/j1/artifacts/" then Reply 200 (mkBody [202; 254]%N None) 0 else Reply 200 (mkBody [91]%N None) 0, v);
  timer := λ _ _ v, (true, v);
  open_file := λ _ _, None;
  local_op := λ _ v, (true, v)
}.
#[export] Instance dl_cli : CliEnv unit dl_world := { out_Write := λ b v, (true, (v.1, v.2 ++ b)); now_ms := λ _, 0 }.
#[export] Instance dl_files : CliFiles unit dl_world := {
  files := λ v, v.1; put_files := λ l v, (l, v.2); files_put := λ _ _, eq_refl; files_do := λ _ _ _, eq_refl; files_timer := λ _ _ _, eq_refl;
  files_op := λ _ _, eq_refl; files_out := λ _ _, eq_refl }.
Definition dl_art : CliArtifact := mkCliArtifact "bin/app" 2 "cafe" "" 0.
Definition dl_wire : CliWire := mkCliWire (λ _, None) (λ _, None) (λ _, None) (λ _, None) (λ _, None) (λ _, None) (λ _, Some [dl_art]) (λ _, None)
  (λ _, []) (λ _, "") (λ b, b) (λ _ _, ("", [])).
Definition dl_start : dl_world := (mkLState demo_fs [], []).
Definition dl_run (download : string) : option ((KErr + unit) * dl_world) :=
  artifactsCmd dl_wire 2 (NewClient "http://ci" "s3cret") (λ _, demo_faults) ["srv"] (mkApp 500 tt) "j1" download 0 dl_start.

Lemma dl_wf : fs_wf (l_fs (files (C:=unit) dl_start)).
Proof. unfold dl_start. cbn. exact demo_wf. Qed.

Lemma downloads_are_confined_and_verified_witness : ∃ v', dl_run "data/out" = Some (inr tt, v') ∧
  ∃ d, l_fs v'.1 !! ["srv"; "data"; "out"; "bin"; "app"] = Some (File d) ∧ hex_encode d = "cafe".
Proof.
  destruct (dl_run "data/out") as [[r v']|] eqn:E; [|vm_compute in E; discriminate].
  assert (Hr : r = inr tt) by (vm_compute in E; injection E as <- _; reflexivity). exists v'. rewrite Hr in E |- *. split; [reflexivity|].
  destruct (downloads_are_confined_and_verified dl_wire 2 (NewClient "http://ci" "s3cret") (λ _, demo_faults) ["srv"] (mkApp 500 tt) "j1" "data/out" 0
    dl_start _ _ dl_wf E) as [Hsame|(arts & v1 & El & _ & Hd)].
  - exfalso. vm_compute in E. injection E as <-. vm_compute in Hsame. discriminate.
  - vm_compute in El. injection El as <- <-. destruct (Hd eq_refl dl_art ltac:(left)) as (_ & art' & d & Ha & _ & Hf & Hs).
    apply list_elem_of_singleton in Ha as ->. by exists d.
Defined.
