(* ===== verification/CliBundle.v ===== *)
(** * quarry run: the bundle of the workspace

    Bundle of internal/cli/bundle.go.  A workspace is a tree of files, directories,
    symbolic links and special files, with the system calls that fail as a parameter; the
    tar stream is the sequence of its headers and contents.  What makes the writer of
    archive/tar fail is modelled: a file that is longer or shorter than its header said. *)

From S2P Require Import Prelude GoLib Pipeline Artifact LocalStore DockerFiles Api Router Client Remote Cli CliSpec CliClient.

Local Open Scope Z_scope.

(** ** The workspace *)

Record FileInfo := mkFileInfo {
  fi_Perm : Z; fi_ModTime : Z; fi_Uid : Z; fi_Gid : Z; fi_Uname : string; fi_Gname : string }.
(** [size] is what Lstat says, [data] what reading yields. *)
Inductive Entry :=
  | Regular (info : FileInfo) (size : N) (data : list N)
  | Directory (info : FileInfo) (children : list (string * Entry))
  | Symlink (info : FileInfo) (target : string)
  | Special (info : FileInfo).

(** The calls that fail, by path. *)
Record BundleIO := mkBundleIO {
  bi_readdir : list string → bool;
  bi_info : list string → bool;
  bi_readlink : list string → bool;
  bi_open : list string → bool;
  bi_read : list string → bool;        (* a read fails after some bytes *)
  bi_write : list string → bool        (* the header cannot be written *)
}.
Inductive BErr := BLstat | BReadDir (path : list string) | BInfo (path : list string) | BReadlink (path : list string)
  | BWrite (name : string) | BOpen (path : list string) | BCopy (name : string) | BMissed.

(** ** archive/tar *)

Inductive TarFlag := FlagReg | FlagDir | FlagSymlink.
Record BHeader := mkBHeader {
  bh_Name : string; bh_Typeflag : TarFlag; bh_Linkname : string; bh_Size : Z; bh_Mode : Z; bh_ModTime : Z;
  bh_Uid : Z; bh_Gid : Z; bh_Uname : string; bh_Gname : string }.
(** The entries written, the last one first, and how many bytes the last one lacks. *)
Record TarWriter := mkTarWriter { tw_done : list (BHeader * list N); tw_left : Z }.
Abbreviation Bm := (M TarWriter BErr).
Definition bfail {A} (e : BErr) : Bm A := λ w, (inl e, w).

Definition FileInfoHeader (e : Entry) (link : string) : BHeader :=
  match e with
  | Regular i size _ => mkBHeader "" FlagReg "" (Z.of_N size) (fi_Perm i) (fi_ModTime i) (fi_Uid i) (fi_Gid i) (fi_Uname i) (fi_Gname i)
  | Directory i _ => mkBHeader "" FlagDir "" 0 (fi_Perm i) (fi_ModTime i) (fi_Uid i) (fi_Gid i) (fi_Uname i) (fi_Gname i)
  | Symlink i _ | Special i => mkBHeader "" FlagSymlink link 0 (fi_Perm i) (fi_ModTime i) (fi_Uid i) (fi_Gid i) (fi_Uname i) (fi_Gname i)
  end.
Definition WriteHeader (fault : bool) (h : BHeader) : Bm unit := λ w,
  if bool_decide (0 < tw_left w) then (inl BMissed, w)
  else if fault then (inl (BWrite (bh_Name h)), w)
  else (inr tt, mkTarWriter ((h, []) :: tw_done w) (bh_Size h)).
(** io.Copy of a file into the entry begun last. *)
Definition tar_copy (fault : bool) (name : string) (data : list N) : Bm unit := λ w,
  match tw_done w with
  | (h, _) :: l =>
      let kept := take (Z.to_nat (tw_left w)) data in
      ((if fault || bool_decide (tw_left w < Z.of_nat (length data)) then inl (BCopy name) else inr tt),
       mkTarWriter ((h, kept) :: l) (tw_left w - Z.of_nat (length kept)))
  | [] => (inl (BCopy name), w)
  end.
Definition tar_Close : Bm unit := λ w, if bool_decide (0 < tw_left w) then (inl BMissed, w) else (inr tt, w).

(** ** Bundle *)

Definition is_dir (e : Entry) : bool := match e with Directory _ _ => true | _ => false end.

Section bundle.
Context (io : BundleIO).

(** What the callback does with an entry that is a file, a directory or a link. *)
Definition set_header (path : list string) (e : Entry) (link : string) : BHeader :=
  let h := FileInfoHeader e link in
  mkBHeader (Join path "/" +:+ (if is_dir e then "/" else "")) (bh_Typeflag h) (bh_Linkname h) (bh_Size h) (bh_Mode h) (bh_ModTime h) 0 0 "" "".
Definition add_entry (path : list string) (e : Entry) (link : string) : Bm unit :=
  WriteHeader (bi_write io path) (set_header path e link);;
  match e with
  | Regular _ _ data =>
      if bi_open io path then bfail (BOpen path) else tar_copy (bi_read io path) (Join path "/") data
  | _ => mret tt
  end.
(** The callback of WalkDir: true is filepath.SkipDir. *)
Definition visit (path : list string) (e : Entry) : Bm bool :=
  if bool_decide (path = []) then mret false
  else if bool_decide (last path = Some ".git") then mret (is_dir e)
  else if bi_info io path then bfail (BInfo path)
  else match e with
       | Symlink _ target =>
           if bi_readlink io path then bfail (BReadlink path) else add_entry path e target;; mret false
       | Special _ => mret false
       | _ => add_entry path e "";; mret false
       end.

Fixpoint each (l : list (Bm unit)) : Bm unit := match l with [] => mret tt | m :: l' => m;; each l' end.

(** filepath.WalkDir below a path; os.ReadDir sorts the names. *)
Definition by_name {A} (a b : string * A) : bool := String.leb a.1 b.1.
Fixpoint walkDir (path : list string) (e : Entry) {struct e} : Bm unit :=
  visit path e ≫= λ skip : bool,
  match e with
  | Directory _ cs =>
      if skip then mret tt
      else if bi_readdir io path then bfail (BReadDir path)
      else each (order_by by_name ((λ c : string * Entry, (c.1, walkDir (path ++ [c.1]) c.2)) <$> cs)).*2
  | _ => mret tt
  end.

(** [root] is what Lstat finds at [dir]. *)
Definition bundle_walk (root : option Entry) : Bm unit :=
  match root with
  | None => bfail BLstat
  | Some e => walkDir [] e;; tar_Close
  end.
Definition Bundle (root : option Entry) : BErr + list (BHeader * list N) :=
  match bundle_walk root (mkTarWriter [] 0) with
  | (inl e, _) => inl e
  | (inr _, w) => inr (rev (tw_done w))
  end.
End bundle.

(** ** quarry run *)

(** What the command sees of the disk: the tree below a directory, with the calls on it
    that fail, and temporary files. *)
Class Workspace (V : Type) := {
  lstat_tree : string → V → option Entry;
  tree_io : string → V → BundleIO;
  create_temp : V → option string * V;
  write_temp : string → list (BHeader * list N) → V → bool * V;     (* written and closed *)
  remove_temp : string → V → V
}.

Section run.
Context {C V : Type} `{CliEnv C V} `{Workspace V} (wire : CliWire) (fuel : nat) (c : CClient).

Definition write_bundle (dir tmp : string) : Km (V:=V) unit := λ v,
  match Bundle (tree_io dir v) (lstat_tree dir v) with
  | inl e => Some (inl (KWrap ("bundle " +:+ dir) (KFile dir)), v)
  | inr entries => let '(ok, v') := write_temp tmp entries v in Some (if ok then inr tt else inl (KWrap ("bundle " +:+ dir) (KFile tmp)), v')
  end.
(** A deferred call. *)
Definition kdefer {A} (m : Km (V:=V) A) (last : V → V) : Km (V:=V) A := λ v, match m v with Some (r, v') => Some (r, last v') | None => None end.
Definition runCmd (a : App (C:=C)) (dir file : string) (wait : bool) : Km (V:=V) unit :=
  let file := if bool_decide (file = "") then join_file dir PipelineFile else file in
  pipeline ← (λ v, match open_file file v with None => Some (inl (KFile file), v) | Some (_, b) => Some (inr b, v) end);
  tmp ← klift create_temp;
  match tmp with
  | None => kfail (KFile "bundle")
  | Some bundle =>
      kdefer
        (write_bundle dir bundle;;
         d ← Submit wire fuel c (ap_ctx a) (multipartBody wire pipeline bundle);
         print (cr_ID (rd_Run d) +:+ String newline "");;
         if wait then watch wire fuel c a (cr_ID (rd_Run d)) else mret tt)
        (remove_temp bundle)
  end.
End run.

Definition no_bundle_faults : BundleIO := mkBundleIO (λ _, false) (λ _, false) (λ _, false) (λ _, false) (λ _, false) (λ _, false).
Definition bundle_info : FileInfo := mkFileInfo 420 0 1000 1000 "ci" "ci".
Definition bundle_tree : Entry := Directory bundle_info
  [ ("src", Directory bundle_info [("main.go", Regular bundle_info 2 [1; 2]%N); (".git", Regular bundle_info 1 [9]%N); ("a", Symlink bundle_info "/etc/passwd")]);
    (".git", Directory bundle_info [("HEAD", Regular bundle_info 1 [9]%N)]);
    (".quarry.yml", Regular bundle_info 1 [7]%N); ("sock", Special bundle_info) ].
Example bundle_example :
  match Bundle no_bundle_faults (Some bundle_tree) with inr l => (λ x, (bh_Name x.1, bh_Linkname x.1, x.2)) <$> l | inl _ => [] end =
  [(".quarry.yml", "", [7]%N); ("src/", "", []); ("src/a", "/etc/passwd", []); ("src/main.go", "", [1; 2]%N)].
Proof. vm_compute. reflexivity. Qed.

(** ** What is in a workspace *)

Section entry_ind.
Context (P : Entry → Prop) (HR : ∀ i n d, P (Regular i n d)) (HD : ∀ i cs, Forall (λ c, P c.2) cs → P (Directory i cs))
  (HL : ∀ i t, P (Symlink i t)) (HS : ∀ i, P (Special i)).
Fixpoint Entry_nested_ind (e : Entry) : P e :=
  match e with
  | Regular i n d => HR i n d
  | Directory i cs => HD i cs ((fix go l : Forall (λ c, P c.2) l := match l with [] => Forall_nil_2 _ | c :: l' => Forall_cons_2 _ c l' (Entry_nested_ind c.2) (go l') end) cs)
  | Symlink i t => HL i t
  | Special i => HS i
  end.
End entry_ind.

(** [at_path e p x]: from [e] the names [p] lead to [x]. *)
Inductive at_path : Entry → list string → Entry → Prop :=
  | at_here e : at_path e [] e
  | at_child i cs n e p x : (n, e) ∈ cs → at_path e p x → at_path (Directory i cs) (n :: p) x.
(** A directory has no name twice. *)
Inductive unique_names : Entry → Prop :=
  | un_dir i cs : NoDup cs.*1 → Forall (λ c, unique_names c.2) cs → unique_names (Directory i cs)
  | un_leaf e : is_dir e = false → unique_names e.

Definition is_special (e : Entry) : bool := match e with Special _ => true | _ => false end.
Definition link_of (e : Entry) : string := match e with Symlink _ t => t | _ => "" end.
Definition data_of (e : Entry) : list N := match e with Regular _ _ d => d | _ => [] end.
Definition tar_entry (path : list string) (e : Entry) : BHeader * list N := (set_header path e (link_of e), data_of e).

(** The order of a walk: name by name, a directory before what is in it. *)
Fixpoint path_lt (a b : list string) : Prop :=
  match a, b with
  | [], _ :: _ => True
  | x :: a', y :: b' => String.leb x y = true ∧ x ≠ y ∨ x = y ∧ path_lt a' b'
  | _, [] => False
  end.

(** What is bundled of a directory, with the paths from there. *)
Definition child_list (rec : Entry → list (list string * Entry)) (n : string) (e : Entry) : list (list string * Entry) :=
  if bool_decide (n = ".git") then []
  else (if is_special e then [] else [([n], e)]) ++ ((λ q, (n :: q.1, q.2)) <$> rec e).
Fixpoint listing (e : Entry) : list (list string * Entry) :=
  match e with
  | Directory _ cs => mjoin (order_by by_name ((λ c : string * Entry, (c.1, child_list listing c.1 c.2)) <$> cs)).*2
  | _ => []
  end.

Lemma listing_dir i cs : listing (Directory i cs) = mjoin ((λ c, child_list listing c.1 c.2) <$> order_by by_name cs).
Proof. simpl. rewrite (order_by_fmap _ by_name) by done. by rewrite <-list_fmap_compose. Qed.
Lemma elem_of_child n e p x : (p, x) ∈ child_list listing n e ↔
  ∃ q, p = n :: q ∧ n ≠ ".git" ∧ (q = [] ∧ x = e ∧ is_special e = false ∨ (q, x) ∈ listing e).
Proof.
  unfold child_list. case_bool_decide as Hg; [split; [by intros ?%not_elem_of_nil|naive_solver]|].
  rewrite elem_of_app, list_elem_of_fmap. split.
  - intros [Ho|([q y] & [= -> ->] & Hq)]; [|by exists q; split_and!; [..|right]]. destruct (is_special e); [by apply not_elem_of_nil in Ho|].
    apply list_elem_of_singleton in Ho as [= -> ->]. exists []. split_and!; [done|done|by left].
  - intros (q & -> & _ & [(-> & -> & ->)|Hq]); [left; by apply list_elem_of_singleton|right; by exists (q, x)].
Qed.
Lemma elem_of_listing e : ∀ p x, (p, x) ∈ listing e ↔ at_path e p x ∧ p ≠ [] ∧ (".git" ∉ p) ∧ is_special x = false.
Proof.
  assert (Hleaf : ∀ e p x, is_dir e = false → listing e = [] → (p, x) ∈ listing e ↔ at_path e p x ∧ p ≠ [] ∧ (".git" ∉ p) ∧ is_special x = false).
  { intros e' p x He ->. split; [by intros ?%not_elem_of_nil|]. intros (Ha & Hne & _). by destruct Ha. }
  induction e as [i n d|i cs IH|i t|i] using Entry_nested_ind; intros p x; [by apply Hleaf| |by apply Hleaf..].
  rewrite Forall_forall in IH. rewrite listing_dir, list_elem_of_join. setoid_rewrite list_elem_of_fmap. split.
  - intros (l & Hx & [n e] & -> & Hc). simpl in Hx. apply elem_of_order_by in Hc. apply elem_of_child in Hx as (q & -> & Hg & Hq).
    destruct Hq as [(-> & -> & Hs)|Hq].
    + split_and!; [by repeat econstructor|done| |done]. by intros ?%list_elem_of_singleton.
    + apply (IH _ Hc) in Hq as (Ha & _ & Hn & Hs). split_and!; [by econstructor|done| |done]. intros [?|?]%elem_of_cons; naive_solver.
  - intros (Ha & Hne & Hn & Hs). inversion Ha as [|i' cs' n e q x' Hc Hq]; subst; [done|]. apply not_elem_of_cons in Hn as [Hg Hn].
    exists (child_list listing n e). split.
    + apply elem_of_child. exists q. split_and!; [done|done|]. destruct q as [|m q]; [left; by inversion Hq; subst|right].
      apply (IH _ Hc). by split_and!.
    + exists (n, e). split; [done|]. by apply elem_of_order_by.
Qed.

Lemma path_lt_prepend n a b : path_lt a b → path_lt (n :: a) (n :: b).
Proof. intros Hl. by right. Qed.
Lemma listing_sorted e : unique_names e → StronglySorted path_lt (listing e).*1.
Proof.
  induction e as [i n d|i cs IH|i t|i] using Entry_nested_ind; intros Hu; [constructor| |constructor..].
  rewrite listing_dir. inversion Hu as [? ? Hnd Hun|? Hd]; subst; [|done].
  assert (Hch : ∀ c, c ∈ cs → StronglySorted path_lt (child_list listing c.1 c.2).*1).
  { intros c Hc. rewrite Forall_forall in IH, Hun. specialize (IH c Hc (Hun c Hc)). unfold child_list. case_bool_decide; [constructor|].
    assert (Hrest : StronglySorted path_lt ((λ q, (c.1 :: q.1, q.2)) <$> listing c.2).*1).
    { rewrite <-list_fmap_compose. change (StronglySorted path_lt ((λ q : list string * Entry, c.1 :: q.1) <$> listing c.2)). clear -IH. induction (listing c.2) as [|q l IHl]; [constructor|].
      rewrite fmap_cons in IH |- *. apply StronglySorted_inv in IH as [IH1 IH2]. constructor; [by apply IHl|]. rewrite Forall_fmap in IH2 |- *.
      eapply Forall_impl; [exact IH2|]. intros q' Hq. by apply path_lt_prepend. }
    destruct (is_special c.2); [done|]. simpl. constructor; [done|]. rewrite <-list_fmap_compose, Forall_fmap. apply Forall_forall. intros [q y] Hq. simpl.
    right. split; [done|]. destruct q; [|done]. apply elem_of_listing in Hq. naive_solver. }
  assert (Hs : StronglySorted (λ a b, String.leb a.1 b.1 = true ∧ a.1 ≠ b.1) (order_by by_name cs)).
  { assert (H1 : StronglySorted (λ a b, by_name a b = true) (order_by (by_name (A:=Entry)) cs)).
    { apply order_by_sorted; [intros a b; apply String.leb_total|intros a b c; apply string_leb_trans]. }
    assert (H2 : NoDup (order_by (by_name (A:=Entry)) cs).*1) by (by rewrite order_by_perm). clear -H1 H2.
    induction H1 as [|a l H1 IHl Ha]; [constructor|]. rewrite fmap_cons in H2. apply NoDup_cons in H2 as [Hn H2]. constructor; [by apply IHl|].
    rewrite Forall_forall in Ha |- *. intros b Hb. split; [by apply Ha|]. intros E. apply Hn. rewrite E. by apply list_elem_of_fmap_2. }
  assert (Hsub : ∀ c, c ∈ order_by by_name cs → c ∈ cs) by (intros c Hc; by apply elem_of_order_by in Hc).
  revert Hs Hsub. generalize (order_by (by_name (A:=Entry)) cs). intros l. clear -Hch. induction l as [|c l IHl]; intros Hs Hsub; [constructor|].
  apply StronglySorted_inv in Hs as [Hs Hc]. rewrite fmap_cons. simpl mjoin. rewrite fmap_app. apply StronglySorted_app. split_and!.
  - intros p q Hp Hq. apply list_elem_of_fmap in Hp as ([p' x] & -> & Hp), Hq as ([q' y] & -> & Hq).
    apply list_elem_of_join in Hq as (k & Hq & Hk). apply list_elem_of_fmap in Hk as (c' & -> & Hc').
    apply elem_of_child in Hp as (p1 & -> & _), Hq as (q1 & -> & _). rewrite Forall_forall in Hc. simpl. left. by apply Hc.
  - apply Hch, Hsub. left.
  - apply IHl; [done|]. intros c' Hc'. apply Hsub. by right.
Qed.

(** ** What is written *)

(** The entry begun last may lack bytes, those before are whole. *)
Definition tw_ok (w : TarWriter) : Prop :=
  0 ≤ tw_left w ∧
  match tw_done w with
  | [] => tw_left w = 0
  | (h, d) :: l => tw_left w = bh_Size h - Z.of_nat (length d) ∧ Forall (λ x, bh_Size x.1 = Z.of_nat (length x.2)) l
  end.
(** [w'] is [w] and the entries [l] written. *)
Definition wrote (l : list (BHeader * list N)) (w w' : TarWriter) : Prop := tw_ok w' ∧ tw_done w' = rev l ++ tw_done w.

Lemma wrote_nil w : tw_ok w → wrote [] w w.
Proof. by split. Qed.
Lemma wrote_app l k w1 w2 w3 : wrote l w1 w2 → wrote k w2 w3 → wrote (l ++ k) w1 w3.
Proof. intros [_ E1] [Hw E2]. split; [done|]. by rewrite E2, E1, rev_app_distr, app_assoc. Qed.

Section walk.
Context (io : BundleIO).

Lemma add_entry_ok path e w w' : tw_ok w → is_special e = false → add_entry io path e (link_of e) w = (inr tt, w') → wrote [tar_entry path e] w w'.
Proof.
  intros [Hl Hw] Hs. unfold add_entry, mbind, M_bind, WriteHeader. case_bool_decide as Hp; [done|]. destruct (bi_write io path); [done|].
  assert (Hall : Forall (λ x, bh_Size x.1 = Z.of_nat (length x.2)) (tw_done w)).
  { destruct (tw_done w) as [|[h d] l]; [constructor|]. destruct Hw as [Hh Hl']. constructor; [simpl; lia|done]. }
  set (h := set_header path e (link_of e)). destruct e as [i n d|i cs|i t|i]; [|intros [= <-]; by refine (conj (conj _ _) _)..|done].
  destruct (bi_open io path); [done|]. unfold tar_copy. cbn [tw_done tw_left].
  destruct (bi_read io path || _) eqn:Hf; [done|]. intros [= <-]. apply orb_false_iff in Hf as [_ Hf%bool_decide_eq_false]. 
  change (bh_Size h) with (Z.of_N n) in *. rewrite take_ge by lia. split; [|done]. split; [cbn [tw_left]; lia|]. by split.
Qed.

Definition own (path : list string) (e : Entry) : list (BHeader * list N) :=
  if bool_decide (path = []) || bool_decide (last path = Some ".git") || is_special e then [] else [tar_entry path e].
Lemma visit_ok path e w skip w' : tw_ok w → visit io path e w = (inr skip, w') →
  wrote (own path e) w w' ∧ skip = negb (bool_decide (path = [])) && bool_decide (last path = Some ".git") && is_dir e.
Proof.
  intros Hw. unfold visit, own. case_bool_decide as H1; [intros [= <- <-]; split; [by apply wrote_nil|done]|].
  case_bool_decide as H2; [intros [= <- <-]; split; [by apply wrote_nil|done]|]. destruct (bi_info io path); [done|]. simpl.
  assert (Hadd : ∀ link, link = link_of e → is_special e = false → (add_entry io path e link;; mret false) w = (inr skip, w') →
    wrote [tar_entry path e] w w' ∧ skip = false).
  { intros link -> Hs. unfold mbind, M_bind. destruct (add_entry io path e (link_of e) w) as [[x|[]] w1] eqn:E; [done|]. intros [= <- <-].
    split; [by apply add_entry_ok|done]. }
  destruct e as [i n d|i cs|i t|i]; simpl; [by apply Hadd|by apply Hadd|destruct (bi_readlink io path); [done|by apply Hadd]|].
  intros [= <- <-]. split; [by apply wrote_nil|done].
Qed.

Lemma each_ok {A} (f : A → Bm unit) (g : A → list (BHeader * list N)) l : (∀ x w w', x ∈ l → tw_ok w → f x w = (inr tt, w') → wrote (g x) w w') →
  ∀ w w', tw_ok w → each (f <$> l) w = (inr tt, w') → wrote (mjoin (g <$> l)) w w'.
Proof.
  induction l as [|x l IH]; intros Hf w w' Hw; [intros [= <-]; by apply wrote_nil|]. simpl. unfold mbind, M_bind.
  destruct (f x w) as [[e|[]] w1] eqn:E; [done|]. intros E'. pose proof (Hf x w w1 ltac:(left) Hw E) as H1.
  eapply wrote_app; [exact H1|]. apply IH; [|apply H1|done]. intros y w2 w3 Hy. apply Hf. by right.
Qed.

Lemma fmap_mjoin {A B} (f : A → B) (ls : list (list A)) : f <$> mjoin ls = mjoin (fmap f <$> ls).
Proof. induction ls as [|l ls IH]; [done|]. rewrite fmap_cons. simpl mjoin. by rewrite fmap_app, IH. Qed.
Lemma walk_children path cs : order_by by_name ((λ c : string * Entry, (c.1, walkDir io (path ++ [c.1]) c.2)) <$> cs) =
  (λ c : string * Entry, (c.1, walkDir io (path ++ [c.1]) c.2)) <$> order_by by_name cs.
Proof. by apply (order_by_fmap _ by_name). Qed.

Definition entries_at (path : list string) (l : list (list string * Entry)) : list (BHeader * list N) := (λ q, tar_entry (path ++ q.1) q.2) <$> l.

Lemma bundle_walk_ok e : ∀ path n w w', tw_ok w → walkDir io (path ++ [n]) e w = (inr tt, w') → wrote (entries_at path (child_list listing n e)) w w'.
Proof.
  assert (Hne : ∀ path (n : string), bool_decide (path ++ [n] = []) = false) by (intros path n; apply bool_decide_eq_false; by intros [_ ?]%app_eq_nil).
  assert (Hlast : ∀ path (n : string), bool_decide (last (path ++ [n]) = Some ".git") = bool_decide (n = ".git")).
  { intros path n. rewrite last_snoc. apply bool_decide_ext. naive_solver. }
  induction e as [i z d|i cs IH|i t|i] using Entry_nested_ind; intros path n w w' Hw; simpl; unfold mbind, M_bind;
    (destruct (visit io (path ++ [n]) _ w) as [[x|skip] w1] eqn:Ev; [done|]); apply visit_ok in Ev as [Hv ->]; try done; revert Hv;
    unfold own, child_list, entries_at; rewrite Hne, Hlast; case_bool_decide as Hg; simpl; intros Hv.
  all: try (intros [= <-]; exact Hv). intros E.
  destruct (bi_readdir io (path ++ [n])); [done|]. rewrite walk_children, <-list_fmap_compose in E.
  rewrite Forall_forall in IH. change (wrote ([tar_entry (path ++ [n]) (Directory i cs)] ++ ((λ q : list string * Entry, tar_entry (path ++ q.1) q.2) <$> ((λ q, (n :: q.1, q.2)) <$> listing (Directory i cs)))) w w').
  eapply wrote_app; [exact Hv|]. rewrite listing_dir, <-list_fmap_compose, fmap_mjoin, <-list_fmap_compose.
  eapply (each_ok _ _ (order_by by_name cs)) in E; [exact E| |apply Hv]. intros c w2 w3 Hc%elem_of_order_by Hw2 Ec.
  specialize (IH c Hc (path ++ [n]) c.1 w2 w3 Hw2 Ec). simpl. unfold entries_at in IH. erewrite list_fmap_ext; [exact IH|].
  intros _ [q y] _. simpl. by rewrite <-app_assoc.
Qed.

(** Nothing fails: no system call, and every file is as long as its header says. *)
Record steady (e : Entry) : Prop := {
  sd_calls : ∀ p, bi_readdir io p = false ∧ bi_info io p = false ∧ bi_readlink io p = false ∧ bi_open io p = false ∧ bi_read io p = false ∧ bi_write io p = false;
  sd_sizes : ∀ p i n d, at_path e p (Regular i n d) → Z.of_N n = Z.of_nat (length d)
}.
Lemma add_entry_total path e link w : steady e → tw_left w = 0 → ∃ w', add_entry io path e link w = (inr tt, w') ∧ tw_left w' = 0.
Proof.
  intros [Hc Hs] Hw. destruct (Hc path) as (_ & _ & _ & Ho & Hr & Hwr). unfold add_entry, mbind, M_bind, WriteHeader. rewrite Hw, Hwr. simpl.
  destruct e as [i n d|i cs|i t|i]; [|by eexists..]. rewrite Ho. unfold tar_copy. cbn [tw_done tw_left bh_Size set_header FileInfoHeader].
  pose proof (Hs [] i n d (at_here _)) as Hn. rewrite Hr, bool_decide_false by lia. eexists. split; [done|]. cbn [tw_left].
  rewrite take_ge by lia. lia.
Qed.
Lemma walk_total e : steady e → ∀ path w, tw_left w = 0 → ∃ w', walkDir io path e w = (inr tt, w') ∧ tw_left w' = 0.
Proof.
  assert (Hv : ∀ e path w, steady e → tw_left w = 0 → ∃ skip w', visit io path e w = (inr skip, w') ∧ tw_left w' = 0).
  { intros e' path w Hst Hw. unfold visit. do 2 (case_bool_decide; [by eexists _, _|]). destruct (sd_calls _ Hst path) as (_ & Hi & Hl & _). rewrite Hi.
    destruct (add_entry_total path e' (link_of e') w Hst Hw) as (w1 & E & H1).
    destruct e' as [i n d|i cs|i t|i]; rewrite ?Hl; [..|by eexists _, _]; simpl in E; unfold mbind, M_bind; rewrite E; by eexists _, _. }
  induction e as [i z d|i cs IH|i t|i] using Entry_nested_ind; intros Hst path w Hw; simpl; unfold mbind, M_bind;
    destruct (Hv _ path w Hst Hw) as (skip & w1 & E & H1); rewrite E; [by eexists|..|by eexists|by eexists].
  destruct skip; [by eexists|]. destruct (sd_calls _ Hst path) as (-> & _). rewrite walk_children, <-list_fmap_compose.
  rewrite Forall_forall in IH.
  assert (Hsub : ∀ c, c ∈ order_by by_name cs → c ∈ cs) by (intros c Hc; by apply elem_of_order_by in Hc).
  clear E. revert Hsub w1 H1. generalize (order_by (by_name (A:=Entry)) cs). intros l. induction l as [|c l IHl]; intros Hsub w1 H1; [by exists w1|]. simpl. unfold mbind, M_bind.
  assert (Hin : (c.1, c.2) ∈ cs) by (rewrite <-surjective_pairing; apply Hsub; left).
  destruct (IH c ltac:(apply Hsub; left)) with (path := path ++ [c.1]) (w := w1) as (w2 & -> & H2); [|done|].
  - split; [apply Hst|]. intros p i' n d Ha. apply (sd_sizes _ Hst (c.1 :: p) i' n d). by econstructor.
  - apply (IHl ltac:(intros c' Hc'; apply Hsub; by right) w2 H2).
Qed.
End walk.

(** C36: The bundle is the workspace: when Bundle succeeds, its entries are the regular files,
    the directories and the symbolic links of the tree, each once, in the order of a walk,
    under their paths and with their contents, except what is named .git or lies below
    such a name; links are recorded with their target and not followed; every file is as
    long as its header says, and no owner is recorded.  The result does not depend on the
    order in which the system lists a directory.  Bundle succeeds when no system call fails
    and no file changes its length meanwhile. *)
Theorem bundle_is_the_workspace io i cs :
  unique_names (Directory i cs) →
  (∀ l, Bundle io (Some (Directory i cs)) = inr l →
     ∃ ps, l = entries_at [] ps ∧ StronglySorted path_lt ps.*1 ∧
       (∀ p x, (p, x) ∈ ps ↔ at_path (Directory i cs) p x ∧ p ≠ [] ∧ (".git" ∉ p) ∧ is_special x = false) ∧
       Forall (λ x, bh_Size x.1 = Z.of_nat (length x.2)) l) ∧
  (steady io (Directory i cs) → ∃ l, Bundle io (Some (Directory i cs)) = inr l).
Proof.
  intros Hu. unfold Bundle, bundle_walk, mbind, M_bind. split.
  - destruct (walkDir io [] (Directory i cs) (mkTarWriter [] 0)) as [[e|[]] w] eqn:E; [done|]. simpl in E. unfold mbind, M_bind, visit in E.
    rewrite bool_decide_true in E by done. simpl in E. destruct (bi_readdir io []); [done|]. rewrite (walk_children io []), <-list_fmap_compose in E.
    eapply (each_ok _ _ (order_by by_name cs)) in E; [| |by split].
    2:{ intros c w2 w3 _ Hw2 Ec. exact (bundle_walk_ok io c.2 [] c.1 w2 w3 Hw2 Ec). }
    destruct E as [[Hl Hw] Ed]. unfold tar_Close. case_bool_decide as Hp; [done|]. intros l [= <-]. exists (listing (Directory i cs)).
    rewrite Ed in Hw |- *. cbn [tw_done] in Hw |- *. rewrite app_nil_r in Hw |- *. rewrite rev_involutive. split_and!.
    + unfold entries_at. rewrite listing_dir, fmap_mjoin, <-list_fmap_compose. done.
    + by apply listing_sorted.
    + intros p x. apply elem_of_listing.
    + set (k := mjoin _) in *. assert (Hk : Forall (λ x, bh_Size x.1 = Z.of_nat (length x.2)) (rev k)).
      { destruct (rev k) as [|[h d] l]; [constructor|]. destruct Hw as [H1 H2]. constructor; [simpl; lia|done]. }
      rewrite <-(rev_involutive k). by apply Forall_rev.
  - intros Hst. destruct (walk_total io _ Hst [] (mkTarWriter [] 0) eq_refl) as (w & -> & H0). unfold tar_Close. rewrite H0. by eexists.
Qed.

Lemma bundle_is_the_workspace_witness :
  match bundle_tree with Directory i cs => ∃ l, Bundle no_bundle_faults (Some (Directory i cs)) = inr l ∧
    ∃ ps, l = entries_at [] ps ∧ ∀ p x, (p, x) ∈ ps ↔ at_path (Directory i cs) p x ∧ p ≠ [] ∧ (".git" ∉ p) ∧ is_special x = false | _ => False end.
Proof.
  unfold bundle_tree. eexists. split; [vm_compute; reflexivity|].
  match goal with |- ∃ ps, _ ∧ ∀ p x, _ ↔ at_path (Directory ?i ?cs) p x ∧ _ =>
    destruct (bundle_is_the_workspace no_bundle_faults i cs) as [Hs _] end.
  - repeat first [apply un_leaf; reflexivity|apply un_dir; [vm_compute; repeat (constructor; [intros Hx; repeat (apply elem_of_cons in Hx as [Hx|Hx]; [discriminate|]); by apply not_elem_of_nil in Hx|]); constructor|]|constructor].
  - destruct (Hs _ eq_refl) as (ps & E & _ & Hp & _). exists ps. exact (conj E Hp).
Defined.
