(* ===== verification/Env.v ===== *)
(** * The environment of the commands

    os.Getenv with a default, and time.ParseDuration as cmd/server and cmd/runner use it:
    the unsigned 64-bit sums with their overflow checks, and the fractions in IEEE
    binary64 (SpecFloat), truncated. *)

From S2P Require Import Prelude GoLib Router.
From Stdlib Require Import Ascii SpecFloat.
From stdpp Require Import pretty.

Local Open Scope Z_scope.

Definition Env : Type := gmap string string.
Definition Getenv (env : Env) (key : string) : string := default "" (env !! key).
Definition envOr (env : Env) (key def : string) : string :=
  let v := Getenv env key in if bool_decide (v = "") then def else v.

(** ** What a command starts and ends *)

(** What has happened, and the deferred calls, the last one first. *)
Record Progress (Ev : Type) := mkProgress { pg_done : list Ev; pg_defers : list (list Ev) }.
Arguments mkProgress {Ev}.
Arguments pg_done {Ev}.
Arguments pg_defers {Ev}.
Definition happen {Ev Er} (e : Ev) : M (Progress Ev) Er unit := λ p, (inr tt, mkProgress (pg_done p ++ [e]) (pg_defers p)).
Definition defer {Ev Er} (es : list Ev) : M (Progress Ev) Er unit := λ p, (inr tt, mkProgress (pg_done p) (es :: pg_defers p)).
Definition run_stops {Ev Er} (b : bool) (e : Er) : M (Progress Ev) Er unit := λ p, (if b then inl e else inr tt, p).
(** All of it: the deferred calls run when the function returns. *)
Definition with_defers {Ev Er A} (m : M (Progress Ev) Er A) : (Er + A) * list Ev :=
  let '(r, p) := m (mkProgress [] []) in (r, pg_done p ++ mjoin (pg_defers p)).

(** ** time.ParseDuration *)

Definition top63 : Z := 2 ^ 63.
(** [leadingInt]: None is errLeadingInt. *)
Fixpoint leadingInt (x : Z) (s : string) : option (Z * string) :=
  match s with
  | EmptyString => Some (x, EmptyString)
  | String c s' =>
      match digit_of c with
      | None => Some (x, s)
      | Some d =>
          if bool_decide (x > top63 / 10) then None
          else if bool_decide (x * 10 + d > top63) then None else leadingInt (x * 10 + d) s'
      end
  end.

Definition float_of (z : Z) : spec_float := binary_normalize 53 1024 z 0 false.
(** [uint64] of a float that is not negative. *)
Definition truncate (f : spec_float) : Z :=
  match f with S754_finite false m e => Z.shiftl (Zpos m) e | _ => 0 end.

(** [leadingFraction]: the digits, the scale and the rest. *)
Fixpoint leadingFraction (x : Z) (scale : spec_float) (overflow : bool) (s : string) : Z * spec_float * string :=
  match s with
  | EmptyString => (x, scale, EmptyString)
  | String c s' =>
      match digit_of c with
      | None => (x, scale, s)
      | Some d =>
          if overflow then leadingFraction x scale true s'
          else if bool_decide (x > (top63 - 1) / 10) then leadingFraction x scale true s'
          else if bool_decide (x * 10 + d > top63) then leadingFraction x scale true s'
          else leadingFraction (x * 10 + d) (SFmul 53 1024 scale (float_of 10)) false s'
      end
  end.

Definition unit_of (u : string) : option Z :=
  if bool_decide (u = "ns") then Some 1
  else if bool_decide (u = "us" ∨ u = String (chr 194) (String (chr 181) "s") ∨ u = String (chr 206) (String (chr 188) "s")) then Some 1000
  else if bool_decide (u = "ms") then Some 1000000
  else if bool_decide (u = "s") then Some 1000000000
  else if bool_decide (u = "m") then Some 60000000000
  else if bool_decide (u = "h") then Some 3600000000000
  else None.

(** The characters up to the next digit or period. *)
Definition number_start (c : ascii) : bool := bool_decide (c = "."%char) || bool_decide (is_Some (digit_of c)).
Fixpoint unit_text (s : string) : string * string :=
  match s with
  | EmptyString => (EmptyString, EmptyString)
  | String c s' => if number_start c then (EmptyString, s) else let '(u, r) := unit_text s' in (String c u, r)
  end.

Definition uint64 (z : Z) : Z := z mod 2 ^ 64.
(** What follows a period, and whether there were digits. *)
Definition fraction (s : string) : Z * spec_float * string * bool :=
  match s with
  | String c s' =>
      if bool_decide (c = "."%char) then
        let '(f, scale, r) := leadingFraction 0 (float_of 1) false s' in (f, scale, r, negb (bool_decide (String.length r = String.length s')))
      else (0, float_of 1, s, false)
  | EmptyString => (0, float_of 1, s, false)
  end.
(** One number with its unit, added to [d]. *)
Definition duration_part (d : Z) (s : string) : option (Z * string) :=
  match s with
  | EmptyString => None
  | String c _ =>
      if negb (number_start c) then None
      else match leadingInt 0 s with
           | None => None
           | Some (v, s1) =>
               let pre := negb (bool_decide (String.length s1 = String.length s)) in
               let '(f, scale, s2, post) := fraction s1 in
               if negb pre && negb post then None
               else let '(u, s3) := unit_text s2 in
                    if bool_decide (u = "") then None
                    else match unit_of u with
                         | None => None
                         | Some unit =>
                             if bool_decide (v > top63 / unit) then None
                             else
                               let v := v * unit in
                               let v' := if bool_decide (f > 0)
                                         then uint64 (v + truncate (SFmul 53 1024 (float_of f) (SFdiv 53 1024 (float_of unit) scale)))
                                         else v in
                               if bool_decide (f > 0) && bool_decide (v' > top63) then None
                               else let d' := uint64 (d + v') in
                                    if bool_decide (d' > top63) then None else Some (d', s3)
                         end
           end
  end.
Fixpoint duration_parts (fuel : nat) (d : Z) (s : string) : option Z :=
  match s, fuel with
  | EmptyString, _ => Some d
  | _, O => None
  | _, S fuel' => match duration_part d s with Some (d', s') => duration_parts fuel' d' s' | None => None end
  end.
Definition ParseDuration (s : string) : option Z :=
  let '(neg, s) :=
    match s with
    | String c r =>
        if bool_decide (c = "-"%char) then (true, r) else if bool_decide (c = "+"%char) then (false, r) else (false, s)
    | EmptyString => (false, s)
    end in
  if bool_decide (s = "0") then Some 0
  else if bool_decide (s = "") then None
  else match duration_parts (String.length s) 0 s with
       | None => None
       | Some d => if neg : bool then Some (- d) else if bool_decide (d > top63 - 1) then None else Some d
       end.

Example ParseDuration_examples :
  ParseDuration <$> ["30s"; "1h2m3.25s"; ".5m"; "-1.5h"; "0"; ""; "5"; "1d"; "500us"; "9223372036854775807ns"; "9223372036854775808ns"; "0.100000000000000000000h"; "1e3s"] =
  [Some (30 * Second); Some 3723250000000; Some (30 * Second); Some (-5400000000000); Some 0; None; None; None; Some 500000; Some int64_max; None; Some 360000000000; None].
Proof. vm_compute. reflexivity. Qed.

(** ** The fuel is enough *)

Lemma leadingInt_shrinks x s y r : leadingInt x s = Some (y, r) → (String.length r ≤ String.length s)%nat.
Proof.
  revert x. induction s as [|c s IH]; intros x; simpl; [by intros [= <- <-]|]. destruct (digit_of c); [|by intros [= <- <-]].
  do 2 (case_bool_decide; [done|]). intros E%IH. lia.
Qed.
Lemma leadingFraction_shrinks x sc o s y sc' r : leadingFraction x sc o s = (y, sc', r) → (String.length r ≤ String.length s)%nat.
Proof.
  revert x sc o. induction s as [|c s IH]; intros x sc o; simpl; [by intros [= <- <- <-]|]. destruct (digit_of c); [|by intros [= <- <- <-]].
  destruct o; [intros E%IH; lia|]. do 2 (case_bool_decide; [intros E%IH; lia|]). intros E%IH. lia.
Qed.
Lemma unit_text_shrinks s u r : unit_text s = (u, r) → (String.length u + String.length r = String.length s)%nat.
Proof.
  revert u. induction s as [|c s IH]; intros u; simpl; [by intros [= <- <-]|]. destruct (number_start c); [by intros [= <- <-]|].
  destruct (unit_text s) as [u' r'] eqn:E. intros [= <- <-]. specialize (IH _ eq_refl). simpl. lia.
Qed.
Lemma duration_part_shrinks d s d' r : duration_part d s = Some (d', r) → (String.length r < String.length s)%nat.
Proof.
  unfold duration_part. destruct s as [|c s]; [done|]. destruct (negb _); [done|].
  destruct (leadingInt 0 (String c s)) as [[v s1]|] eqn:E1; [|done]. apply leadingInt_shrinks in E1.
  destruct (fraction s1) as [[[f scale] s2] post] eqn:E2.
  assert (Hle : (String.length s2 ≤ String.length s1)%nat).
  { unfold fraction in E2. destruct s1 as [|c1 s1]; [by injection E2 as _ _ <- _|]. case_bool_decide; [|by injection E2 as _ _ <- _].
    destruct (leadingFraction _ _ _ s1) as [[f' sc'] r'] eqn:E3. apply leadingFraction_shrinks in E3. injection E2 as _ _ <- _. simpl. lia. }
  destruct (_ && _); [done|]. destruct (unit_text s2) as [u s3] eqn:E4. apply unit_text_shrinks in E4.
  case_bool_decide as Hu; [done|]. assert (0 < String.length u)%nat by (destruct u; [done|simpl; lia]).
  destruct (unit_of u); [|done]. case_bool_decide; [done|]. destruct (_ && _); [done|]. case_bool_decide; [done|]. intros [= _ <-]. lia.
Qed.
Lemma duration_parts_fuel k : ∀ d s, (String.length s ≤ k)%nat → duration_parts k d s = duration_parts (String.length s) d s.
Proof.
  induction (lt_wf k) as [k _ IH]. intros d s Hs. destruct s as [|c s]; [by destruct k|]. destruct k as [|k]; [simpl in Hs; lia|]. cbn [duration_parts String.length].
  destruct (duration_part d (String c s)) as [[d' r]|] eqn:E; [|done]. apply duration_part_shrinks in E. cbn [String.length] in *.
  rewrite (IH k ltac:(lia) d' r ltac:(lia)). symmetry. apply (IH (String.length s)); lia.
Qed.

(** ** Whole numbers of a unit *)

Lemma string_length_app a b : String.length (a +:+ b) = (String.length a + String.length b)%nat.
Proof. induction a as [|c a IH]; [done|]. rewrite append_cons. cbn [String.length]. by rewrite IH. Qed.

Lemma leadingInt_pretty n : ∀ s, leadingInt 0 (pretty_N_go n s) = if bool_decide (Z.of_N n > top63) then None else leadingInt (Z.of_N n) s.
Proof.
  induction (N.lt_wf_0 n) as [n _ IH]; intros s. destruct (decide (0 < n)%N) as [Hn|Hn].
  - rewrite pretty_N_go_step by done. rewrite IH by (by apply N.div_lt). cbn [leadingInt].
    destruct (pretty_char_spec (n mod 10)) as [-> _]; [by apply N.mod_lt|].
    pose proof (N.div_mod n 10 ltac:(done)) as Hdm. pose proof (N.mod_lt n 10 ltac:(done)) as Hm.
    assert (E : Z.of_N (n / 10) * 10 + Z.of_N (n mod 10) = Z.of_N n) by lia. rewrite E.
    assert (Hq : top63 / 10 = 922337203685477580) by done. rewrite Hq. assert (Ht : top63 = 9223372036854775808) by done. rewrite Ht.
    clear Hdm Hq Ht IH. revert E Hm. generalize (n mod 10)%N. generalize (n / 10)%N. intros x d E Hm.
    repeat case_bool_decide; try done; exfalso; lia.
  - assert (n = 0)%N as -> by lia. rewrite pretty_N_go_0. by rewrite bool_decide_false.
Qed.

Definition units : list (string * Z) := [("ns", 1); ("us", 1000); ("ms", 1000000); ("s", 1000000000); ("m", 60000000000); ("h", 3600000000000)].
(** A positive number and a unit: that many units, or refused when they do not fit. *)
Lemma ParseDuration_whole n u k : (u, k) ∈ units → 0 < n →
  ParseDuration (Itoa n +:+ u) = if bool_decide (n * k ≤ int64_max) then Some (n * k) else None.
Proof.
  intros Hu Hn. assert (Hgo : ∀ m t s, pretty_N_go m (t +:+ s) = pretty_N_go m t +:+ s).
  { intros m. induction (N.lt_wf_0 m) as [m _ IH]; intros t s. destruct (decide (0 < m)%N) as [Hm|Hm].
    - rewrite !(pretty_N_go_step m) by done. rewrite <-IH by (by apply N.div_lt). done.
    - assert (m = 0)%N as -> by lia. by rewrite !pretty_N_go_0. }
  rewrite Itoa_pos by done. rewrite <-Hgo. change ("" +:+ u) with u.
  pose proof (leadingInt_pretty (Z.to_N n) u) as Hlead. rewrite Z2N.id in Hlead by lia.
  assert (Hlong : (String.length u < String.length (pretty_N_go (Z.to_N n) u))%nat).
  { destruct (pretty_go_head (Z.to_N n) u) as (d & s' & Hd & E); [by apply to_N_pos|]. change u with ("" +:+ u) at 2. rewrite Hgo.
    pose proof (Hgo (Z.to_N n) "" u) as E2. destruct (pretty_go_head (Z.to_N n) "") as (d2 & s2 & _ & E3); [by apply to_N_pos|]. rewrite E3.
    rewrite append_cons. cbn [String.length]. rewrite string_length_app. lia. }
  destruct (pretty_go_head (Z.to_N n) u) as (d & s' & Hd & E); [by apply to_N_pos|]. rewrite E in *.
  destruct (pretty_char_spec d Hd) as (Hdig & _ & H1 & H2 & H3). unfold ParseDuration.
  rewrite (bool_decide_false (_ = "-"%char)), (bool_decide_false (_ = "+"%char)) by done.
  assert (Hu0 : u ≠ "" ∧ unit_text u = (u, "") ∧ unit_of u = Some k ∧ fraction u = (0, float_of 1, u, false) ∧ (∀ x, leadingInt x u = Some (x, u)) ∧ 1 ≤ k).
  { unfold units in Hu. repeat (apply elem_of_cons in Hu as [[= -> ->]|Hu]; [by split_and!; try (vm_compute; reflexivity)|]). by apply not_elem_of_nil in Hu. }
  destruct Hu0 as (Hune & Hut & Hof & Hfr & Hli & Hk). rewrite Hli in Hlead.
  rewrite (bool_decide_false (_ = "0")); [|intros E0; injection E0 as _ ->; simpl in Hlong; destruct u; [done|simpl in Hlong; lia]].
  rewrite (bool_decide_false (_ = "")) by done. cbn [String.length duration_parts]. unfold duration_part.
  assert (Hns : number_start (pretty_N_char d) = true) by (unfold number_start; rewrite Hdig; by rewrite (bool_decide_true (is_Some _)), orb_true_r). rewrite Hns, Hlead. cbn [negb].
  assert (Htop : top63 = int64_max + 1) by done.
  destruct (decide (n > top63)) as [Hbig|Hbig].
  { rewrite bool_decide_true by done. rewrite bool_decide_false; [done|]. intros Hle. assert (n ≤ n * k) by nia. lia. }
  rewrite (bool_decide_false (n > top63)) by done. rewrite Hfr, Hut, Hof.
  rewrite (bool_decide_false (String.length u = _)) by lia. cbn [negb andb]. rewrite (bool_decide_false (u = "")) by done.
  rewrite (bool_decide_false (0 > 0)) by done. cbn [andb].
  assert (Hdiv : n > top63 / k ↔ top63 < n * k).
  { split; intros Hx.
    - apply Z.nle_gt. intros Hle. pose proof (Z.div_le_lower_bound top63 k n ltac:(lia) ltac:(lia)). lia.
    - apply Z.lt_gt, Z.div_lt_upper_bound; lia. }
  destruct (decide (top63 < n * k)) as [Hov|Hfit].
  { rewrite (bool_decide_true (n > _)) by tauto. rewrite bool_decide_false by lia. done. }
  rewrite (bool_decide_false (n > _)) by tauto. unfold uint64. rewrite Z.add_0_l, Z.mod_small by (unfold top63 in Hfit; nia).
  rewrite (bool_decide_false (n * k > top63)) by lia. cbn [duration_parts].
  destruct (String.length s') eqn:El; cbn [duration_parts]; repeat case_bool_decide; done || lia.
Qed.
