(* ===== verification/ServerCmd.v ===== *)
(** * cmd/server

    loadConfig, and [run] with [serve] as the sequence of what it starts and ends: the
    calls that fail and how serving ends are parameters, deferred calls run in reverse. *)

From S2P Require Import Prelude GoLib Remote Router Types Store Scheduler Demo Env.

Local Open Scope Z_scope.

(** ** loadConfig *)

Record config := mkconfig {
  c_listen : string; c_dbPath : string; c_apiToken : string; c_leaseTTL : Z; c_maxAtt : Z; c_logCap : Z;
  c_backend : string; c_blobDir : string; c_remote : Remote.Config }.
Inductive ConfigErr := NoToken | NoRemoteURL | BadBackend (v : string) | BadLease (v : string) | BadAttempts (v : string) | BadLogCap (v : string).

Definition base_config (env : Env) : config :=
  mkconfig (envOr env "QUARRY_LISTEN" ":8080") (envOr env "QUARRY_DB" "quarry.db") (Getenv env "QUARRY_API_TOKEN")
    DefaultLeaseTTL DefaultMaxAttempts DefaultLogCapBytes (envOr env "QUARRY_ARTIFACT_BACKEND" "local")
    (envOr env "QUARRY_ARTIFACT_DIR" "quarry-artifacts")
    (Remote.mkConfig (Getenv env "QUARRY_ARTIFACT_REMOTE_URL") (envOr env "QUARRY_ARTIFACT_REMOTE_BUCKET" "quarry-artifacts")
       (Getenv env "QUARRY_ARTIFACT_REMOTE_TOKEN") "" 0 0 0 0 0).

(** A variable that is set must parse to something positive. *)
Definition positive_env (parse : string → option Z) (err : string → ConfigErr) (v : string) (def : Z) : ConfigErr + Z :=
  if bool_decide (v = "") then inr def
  else match parse v with
       | Some n => if bool_decide (n <= 0) then inl (err v) else inr n
       | None => inl (err v)
       end.
Definition check_backend (c : config) : option ConfigErr :=
  if bool_decide (c_backend c = "local") then None
  else if bool_decide (c_backend c = "remote") then (if bool_decide (rc_BaseURL (c_remote c) = "") then Some NoRemoteURL else None)
  else Some (BadBackend (c_backend c)).

Definition loadConfig (env : Env) : ConfigErr + config :=
  let c := base_config env in
  if bool_decide (c_apiToken c = "") then inl NoToken
  else match check_backend c with
       | Some e => inl e
       | None =>
           match positive_env ParseDuration BadLease (Getenv env "QUARRY_LEASE_TTL") (c_leaseTTL c) with
           | inl e => inl e
           | inr ttl =>
               match positive_env ParseInt BadAttempts (Getenv env "QUARRY_MAX_ATTEMPTS") (c_maxAtt c) with
               | inl e => inl e
               | inr att =>
                   match positive_env ParseInt BadLogCap (Getenv env "QUARRY_LOG_CAP") (c_logCap c) with
                   | inl e => inl e
                   | inr cap =>
                       inr (mkconfig (c_listen c) (c_dbPath c) (c_apiToken c) ttl att cap (c_backend c) (c_blobDir c) (c_remote c))
                   end
               end
           end
       end.

(** What [run] hands to the scheduler. *)
Definition scheduler_config (c : config) : Scheduler.Config := Scheduler.mkConfig (c_leaseTTL c) (c_logCap c) (c_maxAtt c) 0 0 0.

(** ** run and serve *)

Inductive Ev :=
  | SignalsOn | SignalsOff | StoreOpen | StoreClose | StateCounts | ArtifactsOpen | ListenerOpen | ListenerClose
  | MonitorStart | MonitorEnd | ServeStart | ShutdownBegin | RequestsDrained | ConnectionsClosed | ServeEnd.
#[export] Instance Ev_eq_dec : EqDecision Ev.
Proof. solve_decision. Defined.
Inductive RunErr := EConfig (e : ConfigErr) | EStore | ECounts | EArtifacts | EListen | EServe | EShutdown.
(** How serving ends: the listener fails, or a signal comes and the requests end in time,
    or do not. *)
Inductive Ending := ServeFails | Drained | TimedOut.
Record RunFaults := mkRunFaults { rf_store : bool; rf_counts : bool; rf_artifacts : bool; rf_listen : bool; rf_ending : Ending }.

Abbreviation Pm := (M (Progress Ev) RunErr).

Definition serve (f : RunFaults) : Pm unit :=
  happen ServeStart;;
  match rf_ending f with
  | ServeFails => happen ServeEnd;; run_stops true EServe
  | Drained => happen ShutdownBegin;; happen RequestsDrained;; happen ServeEnd
  | TimedOut => happen ShutdownBegin;; happen ConnectionsClosed;; happen ServeEnd;; run_stops true EShutdown
  end.
(** After the configuration has loaded. *)
Definition run_started (f : RunFaults) : Pm unit :=
  happen SignalsOn;; defer [SignalsOff];;
  run_stops (rf_store f) EStore;; happen StoreOpen;; defer [StoreClose];;
  run_stops (rf_counts f) ECounts;; happen StateCounts;;
  run_stops (rf_artifacts f) EArtifacts;; happen ArtifactsOpen;;
  run_stops (rf_listen f) EListen;; happen ListenerOpen;; defer [ListenerClose];;
  happen MonitorStart;; defer [SignalsOff; MonitorEnd];;
  serve f.
Definition run_body (f : RunFaults) (env : Env) : Pm unit :=
  match loadConfig env with inl e => run_stops true (EConfig e) | inr _ => run_started f end.
Definition run (f : RunFaults) (env : Env) : (RunErr + unit) * list Ev :=
  with_defers (run_body f env).

(** ** What it comes to *)

Lemma positive_env_ok parse err v def n : positive_env parse err v def = inr n →
  (v = "" ∧ n = def ∨ v ≠ "" ∧ parse v = Some n ∧ 0 < n).
Proof.
  unfold positive_env. case_bool_decide as Hv; [intros [= <-]; by left|]. destruct (parse v) as [m|]; [|done]. case_bool_decide; [done|].
  intros [= <-]. right. split_and!; [done|done|lia].
Qed.

Lemma New_config c w : 0 < c_leaseTTL c → 0 < c_logCap c → 0 < c_maxAtt c →
  ∃ s w', New (scheduler_config c) w = (inr s, w') ∧ s_ttl s = Milliseconds (c_leaseTTL c) ∧ s_logCap s = c_logCap c ∧ s_maxAttempts s = c_maxAtt c.
Proof.
  intros H1 H2 H3. unfold New, scheduler_config, or_default. cbn [cfg_LeaseTTL cfg_LogCapBytes cfg_MaxAttempts]. rewrite !bool_decide_false by lia.
  unfold mbind, M_bind. simpl. eexists _, _. split; [reflexivity|]. by split_and!.
Qed.

Lemma whole_milliseconds d : 0 < d →
  (0 < Milliseconds d ↔ Millisecond ≤ d) ∧ Milliseconds d * Millisecond ≤ d < (Milliseconds d + 1) * Millisecond.
Proof.
  intros Hd. unfold Milliseconds, Millisecond. rewrite Z.quot_div_nonneg by lia. pose proof (Z.div_mod d 1000000). pose proof (Z.mod_pos_bound d 1000000). lia.
Qed.

(** C40: What the operator sets is what the scheduler runs with.  When the configuration
    loads, the token is the one given and not empty, and the backend is local, or remote
    with an address.  Of the lease time, the attempt limit and the log cap: a variable that
    is not set (or empty) gives the default (30 s, 3 and 10 MiB); any other text is
    one that Go's parser reads as a positive value, and that value is what is configured.
    In particular a lease time of a whole number of units is that many times the unit, and
    decimal numerals of an attempt limit and a log cap are those numbers.  The scheduler
    gets the attempt limit and the log cap as they are, and the lease time cut down to whole
    milliseconds: never more than what was configured, less than a millisecond below it, and
    so zero when what was configured is under a millisecond. *)
Theorem configuration_reaches_the_scheduler env c w :
  loadConfig env = inr c →
  c_apiToken c = Getenv env "QUARRY_API_TOKEN" ∧ c_apiToken c ≠ "" ∧
  (c_backend c = "local" ∨ c_backend c = "remote" ∧ rc_BaseURL (c_remote c) ≠ "") ∧
  (Getenv env "QUARRY_LEASE_TTL" = "" → c_leaseTTL c = 30 * Second) ∧
  (Getenv env "QUARRY_MAX_ATTEMPTS" = "" → c_maxAtt c = 3) ∧
  (Getenv env "QUARRY_LOG_CAP" = "" → c_logCap c = 10 * 1024 * 1024) ∧
  (Getenv env "QUARRY_LEASE_TTL" ≠ "" → ParseDuration (Getenv env "QUARRY_LEASE_TTL") = Some (c_leaseTTL c)) ∧
  (Getenv env "QUARRY_MAX_ATTEMPTS" ≠ "" → ParseInt (Getenv env "QUARRY_MAX_ATTEMPTS") = Some (c_maxAtt c)) ∧
  (Getenv env "QUARRY_LOG_CAP" ≠ "" → ParseInt (Getenv env "QUARRY_LOG_CAP") = Some (c_logCap c)) ∧
  (∀ n u k, (u, k) ∈ units → 0 < n → Getenv env "QUARRY_LEASE_TTL" = Itoa n +:+ u → c_leaseTTL c = n * k ∧ n * k ≤ int64_max) ∧
  (∀ n, 0 < n ≤ int64_max → Getenv env "QUARRY_MAX_ATTEMPTS" = Itoa n → c_maxAtt c = n) ∧
  (∀ n, 0 < n ≤ int64_max → Getenv env "QUARRY_LOG_CAP" = Itoa n → c_logCap c = n) ∧
  ∃ s w', New (scheduler_config c) w = (inr s, w') ∧ s_logCap s = c_logCap c ∧ s_maxAttempts s = c_maxAtt c ∧
    0 < s_logCap s ∧ 0 < s_maxAttempts s ∧ s_ttl s = Milliseconds (c_leaseTTL c) ∧ (0 < s_ttl s ↔ Millisecond ≤ c_leaseTTL c) ∧
    0 < c_leaseTTL c ∧ s_ttl s * Millisecond ≤ c_leaseTTL c < (s_ttl s + 1) * Millisecond.
Proof.
  unfold loadConfig. case_bool_decide as Ht; [done|]. destruct (check_backend (base_config env)) as [e|] eqn:Eb; [done|].
  destruct (positive_env ParseDuration _ _ _) as [e|ttl] eqn:E1; [done|]. destruct (positive_env ParseInt BadAttempts _ _) as [e|att] eqn:E2; [done|].
  destruct (positive_env ParseInt BadLogCap _ _) as [e|cap] eqn:E3; [done|]. intros [= <-]. set (c := mkconfig _ _ _ _ _ _ _ _ _).
  apply positive_env_ok in E1, E2, E3. cbn [base_config c_leaseTTL c_maxAtt c_logCap] in E1, E2, E3.
  assert (Hpos : 0 < ttl ∧ 0 < att ∧ 0 < cap).
  { split_and!; [destruct E1 as [[_ ->]|(_ & _ & ?)]|destruct E2 as [[_ ->]|(_ & _ & ?)]|destruct E3 as [[_ ->]|(_ & _ & ?)]]; done. }
  assert (Hnum : ∀ v n (def m : Z), 0 < n ≤ int64_max → v = Itoa n → (v = "" ∧ m = def ∨ v ≠ "" ∧ ParseInt v = Some m ∧ 0 < m) → m = n).
  { intros v n def m Hn ->. rewrite ParseInt_Itoa by (unfold int64_max in Hn; lia). intros [[E _]|(_ & [= <-] & _)]; [|done].
    destruct (url_safe_Itoa n) as [_ [He _]]; [lia|]. done. }
  destruct Hpos as (Hp1 & Hp2 & Hp3). destruct (New_config c w Hp1 Hp3 Hp2) as (s & w' & E & Hs1 & Hs2 & Hs3).
  assert (Hdef : ∀ (P : Z → Prop) v (def m : Z), (v = "" ∧ m = def ∨ v ≠ "" ∧ P m ∧ 0 < m) → (v = "" → m = def) ∧ (v ≠ "" → P m)).
  { intros P v def m [[? ?]|(? & ? & _)]; by split. }
  destruct (Hdef (λ m, ParseDuration _ = Some m) _ _ _ E1) as [Hd1 Hv1].
  destruct (Hdef (λ m, ParseInt _ = Some m) _ _ _ E2) as [Hd2 Hv2]. destruct (Hdef (λ m, ParseInt _ = Some m) _ _ _ E3) as [Hd3 Hv3].
  split_and!; [done|done| |exact Hd1|exact Hd2|exact Hd3|exact Hv1|exact Hv2|exact Hv3| |by intros n Hn Hv; eapply Hnum|by intros n Hn Hv; eapply Hnum|].
  - unfold check_backend in Eb. unfold c. cbn [c_backend c_remote]. case_bool_decide; [by left|]. case_bool_decide; [|done]. case_bool_decide; [done|by right].
  - intros n u k Hu Hn Hv. destruct E1 as [[He _]|(_ & Hpd & _)].
    + rewrite Hv in He. rewrite Itoa_pos in He by done. destruct (pretty_go_head (Z.to_N n) "") as (d & s' & _ & Ed); [by apply to_N_pos|].
      rewrite Ed, append_cons in He. done.
    + rewrite Hv, (ParseDuration_whole n u k Hu Hn) in Hpd. case_bool_decide as Hle; [|done]. by injection Hpd as <-.
  - exists s, w'. rewrite Hs1, Hs2, Hs3. change (c_leaseTTL c) with ttl. pose proof (whole_milliseconds ttl Hp1) as (Hm1 & Hm2 & Hm3).
    split_and!; first [done|apply Hm1].
Qed.

Definition demo_env : Env := <["QUARRY_API_TOKEN" := "s3cret"]> (<["QUARRY_LEASE_TTL" := "500us"]> {["QUARRY_MAX_ATTEMPTS" := "5"]}).
(** A lease of half a millisecond is accepted, and is no lease at all; the log cap is not
    set. *)
Lemma configuration_reaches_the_scheduler_witness : ∃ c s w', loadConfig demo_env = inr c ∧ New (scheduler_config c) demo_w = (inr s, w') ∧
  c_leaseTTL c = 500000 ∧ s_ttl s = 0 ∧ s_maxAttempts s = 5 ∧ s_logCap s = 10485760.
Proof.
  destruct (loadConfig demo_env) as [e|c] eqn:E; [vm_compute in E; discriminate|].
  destruct (configuration_reaches_the_scheduler demo_env c demo_w E) as (_ & _ & _ & _ & _ & Hl & _ & _ & _ & Ht & Ha & _ & s & w' & En & Hc' & Hm & _ & _ & Hs & _).
  destruct (Ht 500 "us" 1000) as [Hc _]; [right; left|lia|vm_compute; reflexivity|].
  exists c, s, w'. rewrite Hs, Hm, Hc, Hc'. split; [reflexivity|]. split; [exact En|]. split; [reflexivity|]. split; [reflexivity|].
  split; [apply Ha; [unfold int64_max; lia|vm_compute; reflexivity]|apply Hl; vm_compute; reflexivity].
Defined.

(** The cases are finitely many. *)
Definition has (e : Ev) (tr : list Ev) : bool := bool_decide (e ∈ tr).
Definition orderly (f : RunFaults) : bool :=
  let '(r, tr) := with_defers (run_started f) in
  let pre := take (length tr - 2) tr in
  let good := match r with inr _ => true | inl _ => false end in
  let clean := negb (rf_store f || rf_counts f || rf_artifacts f || rf_listen f) && match rf_ending f with Drained => true | _ => false end in
  (if has StoreOpen tr then bool_decide (tr = pre ++ [StoreClose; SignalsOff]) && negb (has StoreClose pre) &&
     implb (has MonitorStart pre) (has MonitorEnd pre && has ListenerClose pre && has ServeEnd pre) else true) &&
  bool_decide (last tr = Some SignalsOff) && eqb good clean && eqb (has RequestsDrained tr) good.
Lemma always_orderly f : orderly f = true.
Proof. destruct f as [[] [] [] [] []]; vm_compute; reflexivity. Qed.

(** The store is closed last: whatever fails, a server that has opened its store closes it
    after the monitor has ended, the listener is closed and serving is over; nothing is
    started when the configuration does not load; run succeeds exactly when a signal ends
    it and the requests end in time, and only then have they ended before the store. *)
Theorem server_closes_the_store_last f env :
  let '(r, tr) := run f env in
  (∀ e, loadConfig env = inl e → r = inl (EConfig e) ∧ tr = []) ∧
  (StoreOpen ∈ tr → ∃ pre, tr = pre ++ [StoreClose; SignalsOff] ∧ (StoreClose ∉ pre) ∧
     (MonitorStart ∈ pre → MonitorEnd ∈ pre ∧ ListenerClose ∈ pre ∧ ServeEnd ∈ pre)) ∧
  (SignalsOn ∈ tr → last tr = Some SignalsOff) ∧
  (r = inr tt ↔ (∃ c, loadConfig env = inr c) ∧ f = mkRunFaults false false false false Drained) ∧
  (RequestsDrained ∈ tr ↔ r = inr tt).
Proof.
  unfold run, run_body. destruct (loadConfig env) as [e|c].
  { simpl. split_and!; [by intros e' [= <-]|by intros ?%not_elem_of_nil|by intros ?%not_elem_of_nil|naive_solver|].
    split; [by intros ?%not_elem_of_nil|done]. }
  pose proof (always_orderly f) as Ho. unfold orderly in Ho. destruct (with_defers (run_started f)) as [r tr].
  rewrite !andb_true_iff, !eqb_true_iff in Ho. destruct Ho as (((H1 & H2%bool_decide_eq_true) & H3) & H4). unfold has in *. split; [done|]. split; [|split; [done|]].
  - intros Hs. rewrite bool_decide_true in H1 by done. rewrite !andb_true_iff, negb_true_iff, implb_true_iff, !andb_true_iff, !bool_decide_eq_true, bool_decide_eq_false in H1.
    destruct H1 as [[H1 H5] H6]. eexists. split_and!; [exact H1|done|]. intros Hm. destruct (H6 Hm) as [[? ?] ?]. done.
  - destruct r as [e|[]]; (split; [|split; [intros Hd; rewrite bool_decide_true in H4; done|intros Hr; try done; by apply bool_decide_eq_true in H4]]).
    + split; [done|]. intros [_ ->]. done.
    + split; [intros _|done]. split; [by exists c|]. destruct f as [[] [] [] [] []]; done.
Qed.
