(* ===== verification/RunnerCmd.v ===== *)
(** * cmd/runner

    loadConfig with parseLabels and envDuration, newExecutor, and [run] as the sequence of
    what it starts and ends. *)

From S2P Require Import Prelude GoLib Pipeline Artifact Remote Router Client DockerHelpers Docker Agent Cli CliSpec Env.
From Stdlib Require Import Ascii.

Local Open Scope Z_scope.

(** ** loadConfig *)

Inductive RConfigErr := NoServerOrToken | NoHostname | BadLabel (kv : string) | BadCapacity (v : string) | BadInterval (key v : string).

(** parseLabels, one piece after the other. *)
Fixpoint add_labels (out : gmap string string) (parts : list string) : RConfigErr + gmap string string :=
  match parts with
  | [] => inr out
  | part :: l =>
      let kv := TrimSpace part in
      if bool_decide (kv = "") then add_labels out l
      else let '(k, v, ok) := Cut kv "=" in
           if negb ok || bool_decide (TrimSpace k = "") then inl (BadLabel kv)
           else add_labels (<[TrimSpace k := TrimSpace v]> out) l
  end.
Definition parseLabels (s : string) : RConfigErr + gmap string string := add_labels ∅ (Split s ",").

(** 0 when unset, so that the agent applies its default. *)
Definition envDuration (env : Env) (key : string) : RConfigErr + Z :=
  let v := Getenv env key in
  if bool_decide (v = "") then inr 0
  else match ParseDuration v with
       | Some d => if bool_decide (d <= 0) then inl (BadInterval key v) else inr d
       | None => inl (BadInterval key v)
       end.

Record rconfig := mkrconfig { rg_agent : AgentConfig; rg_executor : string; rg_keepFailed : bool; rg_metrics : string }.

Definition runner_name (env : Env) (hostname : option string) : RConfigErr + string :=
  let name := Getenv env "QUARRY_RUNNER_NAME" in
  if bool_decide (name = "") then (match hostname with Some host => inr host | None => inl NoHostname end) else inr name.
Definition runner_labels (env : Env) : RConfigErr + gmap string string :=
  let v := Getenv env "QUARRY_LABELS" in if bool_decide (v = "") then inr ∅ else parseLabels v.
Definition runner_capacity (env : Env) : RConfigErr + Z :=
  let v := Getenv env "QUARRY_CAPACITY" in
  if bool_decide (v = "") then inr DefaultCapacity
  else match ParseInt v with
       | Some n => if bool_decide (n <= 0) then inl (BadCapacity v) else inr n
       | None => inl (BadCapacity v)
       end.

(** [version] is the build's, [hostname] what os.Hostname returns. *)
Definition loadConfig (version : string) (hostname : option string) (env : Env) : RConfigErr + rconfig :=
  let server := trim_slashes (Getenv env "QUARRY_SERVER") in
  let token := Getenv env "QUARRY_API_TOKEN" in
  if bool_decide (server = "") || bool_decide (token = "") then inl NoServerOrToken
  else match runner_name env hostname with
       | inl e => inl e
       | inr name =>
           match runner_labels env with
           | inl e => inl e
           | inr labels =>
               match runner_capacity env with
               | inl e => inl e
               | inr capacity =>
                   match envDuration env "QUARRY_POLL_INTERVAL" with
                   | inl e => inl e
                   | inr poll =>
                       match envDuration env "QUARRY_HEARTBEAT_INTERVAL" with
                       | inl e => inl e
                       | inr beat =>
                           inr (mkrconfig (mkAgentConfig server token name labels capacity version poll beat 0 0 0 0 0)
                                  (envOr env "QUARRY_EXECUTOR" "fake") (bool_decide (Getenv env "QUARRY_KEEP_FAILED" = "1"))
                                  (Getenv env "QUARRY_METRICS_LISTEN"))
                       end
                   end
               end
           end
       end.

(** ** newExecutor and run *)

Inductive Exec := FakeExec | DockerExec (cfg : Docker.Config).
Inductive RRunErr := RConfig (e : RConfigErr) | RUnknownExecutor (v : string) | RDockerClient | RAgent | RReap | RMetrics | RAgentRun.
Record RRunFaults := mkRRunFaults { rr_docker : bool; rr_reap : bool; rr_metrics : bool; rr_agent : bool }.

Definition newExecutor (f : RRunFaults) (cfg : rconfig) : RRunErr + Exec :=
  if bool_decide (rg_executor cfg = "fake") then inr FakeExec
  else if bool_decide (rg_executor cfg = "docker") then
    (if rr_docker f then inl RDockerClient
     else inr (DockerExec (Docker.New (Docker.mkConfig (ac_Name (rg_agent cfg)) true (rg_keepFailed cfg)))))
  else inl (RUnknownExecutor (rg_executor cfg)).

Inductive REv := RSignalsOn | RSignalsOff | Reaped (cfg : Docker.Config) | MetricsOn | MetricsOff | AgentRuns (cfg : AgentConfig).
Abbreviation Rp := (M (Progress REv) RRunErr).

Definition runner_started (f : RRunFaults) (cfg : rconfig) (exec : Exec) (agent : AgentConfig) : Rp unit :=
  happen RSignalsOn;; defer [RSignalsOff];;
  match exec with DockerExec d => run_stops (rr_reap f) RReap;; happen (Reaped d) | FakeExec => mret tt end;;
  (if bool_decide (rg_metrics cfg = "") then mret tt
   else run_stops (rr_metrics f) RMetrics;; happen MetricsOn;; defer [MetricsOff]);;
  happen (AgentRuns agent);; run_stops (rr_agent f) RAgentRun.
Definition runner_body (f : RRunFaults) (version : string) (hostname : option string) (env : Env) : Rp unit :=
  match loadConfig version hostname env with
  | inl e => run_stops true (RConfig e)
  | inr cfg =>
      match newExecutor f cfg with
      | inl e => run_stops true e
      | inr exec =>
          match NewAgent (rg_agent cfg) with
          | None => run_stops true RAgent
          | Some agent => runner_started f cfg exec agent
          end
      end
  end.
Definition run (f : RRunFaults) (version : string) (hostname : option string) (env : Env) : (RRunErr + unit) * list REv :=
  with_defers (runner_body f version hostname env).

(** ** Labels *)

Record label_ok (k v : string) : Prop := {
  lo_key : all_chars graphic k; lo_value : all_chars graphic v; lo_ne : k ≠ "";
  lo_comma : ContainsByte k "," = false ∧ ContainsByte v "," = false; lo_eq : ContainsByte k "=" = false }.
Definition pair_text (kv : string * string) : string := kv.1 +:+ "=" +:+ kv.2.

Lemma Split_Join l c : l ≠ [] → Forall (λ s, ContainsByte s c = false) l → Split (Join l (String c "")) c = l.
Proof.
  induction l as [|x l IH]; [done|]. intros _ [Hx Hl]%Forall_cons. destruct l as [|y l]; [by apply Split_none|].
  change (Join (x :: y :: l) (String c "")) with (x +:+ String c "" +:+ Join (y :: l) (String c "")). rewrite append_cons.
  rewrite Split_at by done. f_equal. by apply IH.
Qed.
Lemma add_labels_pairs l : ∀ out, NoDup l.*1 → (∀ kv, kv ∈ l → label_ok kv.1 kv.2 ∧ out !! kv.1 = None) →
  add_labels out (pair_text <$> l) = inr (list_to_map l ∪ out).
Proof.
  induction l as [|[k v] l IH]; intros out Hnd Hok; [simpl; by rewrite (left_id_L ∅ (∪))|].
  rewrite fmap_cons in Hnd. apply NoDup_cons in Hnd as [Hk Hnd]. destruct (Hok (k, v) ltac:(left)) as [[H1 H2 H3 _ H5] Hout]. simpl in *.
  assert (Hg : all_chars graphic (pair_text (k, v))) by (apply all_chars_app; split; [done|]; apply all_chars_app; by split).
  rewrite (TrimSpace_graphic _ Hg). rewrite bool_decide_false by (unfold pair_text; simpl; destruct k; [done|by rewrite append_cons]).
  unfold pair_text at 1. cbn [fst snd]. change ("=" +:+ v) with (String "=" v). rewrite Cut_at by done. cbn [negb orb].
  rewrite !TrimSpace_graphic by done. rewrite bool_decide_false by done. rewrite IH; [|done|].
  - rewrite <-insert_union_r by (by apply not_elem_of_list_to_map_1). by rewrite insert_union_l.
  - intros kv Hkv. split; [apply Hok; by right|]. rewrite lookup_insert_ne; [apply Hok; by right|]. intros E. apply Hk. rewrite E. by apply list_elem_of_fmap_2.
Qed.

(** What quarry runners prints of a runner's labels is a value of QUARRY_LABELS that gives
    these labels. *)
Theorem labels_round_trip m :
  m ≠ ∅ → map_Forall label_ok m → parseLabels (labels m) = inr m.
Proof.
  intros Hne Hm. unfold labels. rewrite bool_decide_false by done. set (l := order_by (λ a b : string * string, String.leb a.1 b.1) (map_to_list m)).
  assert (Hp : l ≡ₚ map_to_list m) by apply order_by_perm.
  assert (Hok : ∀ kv, kv ∈ l → label_ok kv.1 kv.2) by (intros [k v] Hkv; rewrite Hp in Hkv; apply elem_of_map_to_list in Hkv; by apply (Hm k v)).
  assert (E : (λ '(k, v), k +:+ "=" +:+ v) <$> l = pair_text <$> l) by (apply list_fmap_ext; by intros _ [k v] _).
  unfold parseLabels. rewrite E, Split_Join.
  - rewrite add_labels_pairs.
    + rewrite (right_id_L ∅ (∪)). f_equal. rewrite <-(list_to_map_to_list m). apply list_to_map_proper; [|done]. rewrite Hp. apply NoDup_fst_map_to_list.
    + rewrite Hp. apply NoDup_fst_map_to_list.
    + intros kv Hkv. split; [by apply Hok|apply lookup_empty].
  - intros Hl. destruct l as [|x l']; [|done]. symmetry in Hp. apply Permutation_nil_r in Hp. by apply map_to_list_empty_iff in Hp.
  - apply Forall_fmap, Forall_forall. intros kv Hkv. destruct (Hok kv Hkv) as [_ _ _ [Hc1 Hc2] _]. unfold pair_text. simpl.
    rewrite !ContainsByte_app, Hc1, Hc2. done.
Qed.

Lemma labels_round_trip_witness : parseLabels (labels {["os" := "linux"; "arch" := "arm=64"]}) = inr {["os" := "linux"; "arch" := "arm=64"]}.
Proof.
  apply (labels_round_trip {["os" := "linux"; "arch" := "arm=64"]}).
  - intros E. assert (Hx : ({["os" := "linux"; "arch" := "arm=64"]} : gmap string string) !! "os" = None) by (rewrite E; reflexivity). vm_compute in Hx. discriminate.
  - intros k v Hkv. assert (Hin : (k, v) ∈ map_to_list ({["os" := "linux"; "arch" := "arm=64"]} : gmap string string)) by (by apply elem_of_map_to_list).
    vm_compute in Hin. repeat (apply elem_of_cons in Hin as [[= -> ->]|Hin]; [split; vm_compute; repeat split; discriminate|]). by apply not_elem_of_nil in Hin.
Defined.

(** ** What it comes to *)

Lemma envDuration_ok env key d : envDuration env key = inr d → 0 ≤ d.
Proof.
  unfold envDuration. case_bool_decide; [intros [= <-]; done|]. destruct (ParseDuration _) as [n|]; [|done]. case_bool_decide; [done|]. intros [= <-]. lia.
Qed.
Lemma loadConfig_agent version hostname env cfg : loadConfig version hostname env = inr cfg →
  ac_ServerURL (rg_agent cfg) = trim_slashes (Getenv env "QUARRY_SERVER") ∧ ac_ServerURL (rg_agent cfg) ≠ "" ∧ ac_Token (rg_agent cfg) ≠ "" ∧
  0 < ac_Capacity (rg_agent cfg) ∧ 0 ≤ ac_PollInterval (rg_agent cfg) ∧ 0 ≤ ac_HeartbeatInterval (rg_agent cfg).
Proof.
  unfold loadConfig. do 2 case_bool_decide; cbn [orb]; try done. destruct (runner_name env hostname) as [|name]; [done|].
  destruct (runner_labels env) as [|ls]; [done|]. destruct (runner_capacity env) as [|cap] eqn:Ec; [done|].
  destruct (envDuration env "QUARRY_POLL_INTERVAL") as [|p] eqn:Ep; [done|]. destruct (envDuration env "QUARRY_HEARTBEAT_INTERVAL") as [|b] eqn:Eb; [done|].
  intros [= <-]. apply envDuration_ok in Ep, Eb. cbn. split_and!; try done.
  unfold runner_capacity in Ec. revert Ec. case_bool_decide; [by intros [= <-]|]. destruct (ParseInt _) as [n|]; [|done]. case_bool_decide; [done|].
  intros [= <-]. lia.
Qed.

(** Everything that happens around the agent, in its order. *)
Definition whole_run (cfg : rconfig) (exec : Exec) (agent : AgentConfig) : list REv :=
  let metrics e := if bool_decide (rg_metrics cfg = "") then [] else [e] in
  [RSignalsOn] ++ (match exec with DockerExec d => [Reaped d] | FakeExec => [] end) ++ metrics MetricsOn ++ [AgentRuns agent] ++ metrics MetricsOff ++ [RSignalsOff].
Lemma runner_started_trace f cfg exec agent r tr : with_defers (runner_started f cfg exec agent) = (r, tr) →
  (tr = whole_run cfg exec agent ∧ (r = inr tt ↔ rr_agent f = false)) ∨ (∀ a, AgentRuns a ∉ tr) ∧ r ≠ inr tt ∧ last tr = Some RSignalsOff.
Proof.
  unfold whole_run, runner_started, with_defers, mbind, M_bind, happen, defer, run_stops.
  assert (Hshort : ∀ (l : list REv) (e : RRunErr), forallb (λ x, match x with AgentRuns _ => false | _ => true end) l = true → last l = Some RSignalsOff →
    (∀ a, AgentRuns a ∉ l) ∧ (inl e : RRunErr + unit) ≠ inr tt ∧ last l = Some RSignalsOff).
  { intros l e Hl Hlast. split_and!; [|done|done]. intros a Ha%list_elem_of_In. rewrite forallb_forall in Hl. by specialize (Hl _ Ha). }
  destruct exec as [|d]; [|destruct (rr_reap f); [intros [= <- <-]; right; by apply Hshort|]];
    (case_bool_decide; [|destruct (rr_metrics f); [intros [= <- <-]; right; by apply Hshort|]]); destruct (rr_agent f); intros [= <- <-]; left; done.
Qed.

(** A runner that starts to claim is set up for it: its configuration has a server, a token
    and a positive capacity, its intervals are positive, and with the docker executor what a
    dead process of the same name has left was removed before.  Whatever comes of it, the
    metrics listener that was started is stopped and the signal watcher ends last; nothing
    is started when the configuration does not load or names no executor. *)
Theorem runner_is_ready_when_it_claims f version hostname env :
  let '(r, tr) := run f version hostname env in
  (∀ a, AgentRuns a ∈ tr → ∃ cfg exec, loadConfig version hostname env = inr cfg ∧ newExecutor f cfg = inr exec ∧ NewAgent (rg_agent cfg) = Some a ∧
     tr = whole_run cfg exec a ∧
     (rg_executor cfg = "docker" → exec = DockerExec (Docker.mkConfig (ac_Name a) true (rg_keepFailed cfg))) ∧
     ac_ServerURL a = trim_slashes (Getenv env "QUARRY_SERVER") ∧ ac_ServerURL a ≠ "" ∧ ac_Token a ≠ "" ∧ 0 < ac_Capacity a ∧
     0 < ac_PollInterval a ∧ 0 < ac_HeartbeatInterval a) ∧
  (r = inr tt → ∃ a, AgentRuns a ∈ tr) ∧ (tr ≠ [] → last tr = Some RSignalsOff).
Proof.
  unfold run, runner_body. destruct (loadConfig version hostname env) as [e|cfg] eqn:El.
  { simpl. split_and!; [by intros a ?%not_elem_of_nil|done|done]. }
  destruct (newExecutor f cfg) as [e|exec] eqn:Ex; [simpl; split_and!; [by intros a ?%not_elem_of_nil|done|done]|].
  destruct (NewAgent (rg_agent cfg)) as [agent|] eqn:Ea; [|simpl; split_and!; [by intros a ?%not_elem_of_nil|done|done]].
  destruct (with_defers (runner_started f cfg exec agent)) as [r tr] eqn:Ew. apply runner_started_trace in Ew as [[-> Hr]|(Hno & Hr & Hl)].
  2:{ split_and!; [intros a Ha; by destruct (Hno a)|done|done]. }
  assert (Hin : AgentRuns agent ∈ whole_run cfg exec agent) by (unfold whole_run; rewrite !elem_of_app; right; right; right; left; left).
  split_and!; [|by exists agent|intros _; unfold whole_run; by rewrite !last_app].
  intros a Ha. assert (a = agent) as ->.
  { unfold whole_run in Ha. destruct exec; case_bool_decide; simpl in Ha; rewrite !elem_of_cons, elem_of_nil in Ha; naive_solver. }
  destruct (loadConfig_agent _ _ _ _ El) as (H1 & H2 & H3 & H4 & H5 & H6).
  unfold NewAgent in Ea. destruct (_ || _) eqn:Hn; [done|]. injection Ea as <-. apply orb_false_iff in Hn as [_ Hn%bool_decide_eq_false].
  exists cfg, exec. split_and!; [done|done| |done| |done|done|done|..].
  - unfold NewAgent. by rewrite !bool_decide_false.
  - intros Hd. unfold newExecutor in Ex. rewrite Hd in Ex. simpl in Ex. destruct (rr_docker f); [done|]. injection Ex as <-.
    unfold Docker.New. cbn. by rewrite bool_decide_false.
  - cbn. case_bool_decide; [done|lia].
  - cbn. case_bool_decide; [done|lia].
  - cbn. case_bool_decide; [done|lia].
Qed.
