(* ===== verification/Boot.v ===== *)
(** * The processes

    internal/version, the entry points of cmd/server and cmd/runner, and what the server
    opens on the way: store.Open, the startup counts and openArtifacts.  ServerCmd.v has
    [run] with the calls that may fail as flags; here the flags are the outcomes of the
    modelled calls on a machine. *)

From S2P Require Import Prelude GoLib Pipeline Types Artifact LocalStore Remote Router Store Scheduler Migrate OpenStore Env ServerCmd RunnerCmd.
From Stdlib Require Import Ascii.

Local Open Scope Z_scope.

(** ** internal/version *)

(** The link-time identifier is [Version]. *)
Definition String_ (Version binary : string) : string := binary +:+ " " +:+ Version.

(** ** openArtifacts *)

Inductive Backend := BLocal (s : LocalStore.Store) | BRemote (s : Remote.Store).
Inductive ArtifactsErr := ELocalNew (e : BlobError) | ERemoteNew (e : RErr).

Section machine.
Context {C V : Type} `{RemoteEnv C V} {S : Type}.
Context (dec_error : Body → option (string * string)) (exec : string → S → option S) (read : Clock → Z) (fs : EmbedFS) (parse_url : string → option (string * string)).

(** The machine a server is started on: its disks, its database and its network. *)
Record Machine := mkMachine {
  mc_open : OpenFaults; mc_db : MDB (S := S);
  mc_cwd : list string; mc_disk : Faults; mc_files : FS;
  mc_ctx : C; mc_net : V;
  mc_world : World;
  mc_listens : string → bool; mc_ending : Ending
}.

(** Joined with slashes, as the log line has it; [None] when the fuel is used up. *)
Definition root_text (s : LocalStore.Store) : string := "/" +:+ Join (st_root s) "/".
Definition openArtifacts (m : Machine) (cfg : config) : option ((ArtifactsErr + (Backend * string)) * V) :=
  if bool_decide (c_backend cfg = "remote") then
    match Remote.New dec_error parse_url (mc_ctx m) (c_remote cfg) (mc_net m) with
    | None => None
    | Some (inl e, v) => Some (inl (ERemoteNew e), v)
    | Some (inr s, v) => Some (inr (BRemote s, Remote.Describe s), v)
    end
  else match LocalStore.New (mc_disk m) (mc_cwd m) (c_blobDir cfg) (mc_files m) with
       | inl e => Some (inl (ELocalNew e), mc_net m)
       | inr s => Some (inr (BLocal s, root_text s), mc_net m)
       end.

(** The line of logStateCounts. *)
Definition logStateCounts (w : World) : (Err + list (string * gmap string Z)) * World :=
  match Store.StateCounts w with
  | (inl e, w') => (inl e, w')
  | (inr counts, w') => (inr ((λ k, (k, default ∅ (counts !! k))) <$> ["runs"; "jobs"; "runners"]), w')
  end.

(** What fails on a machine: the flags of [run]. *)
Definition run_faults (m : Machine) (cfg : config) : option RunFaults :=
  a ← openArtifacts m cfg;
  Some (mkRunFaults
    (match (Open exec read fs (mc_open m) (c_dbPath cfg) [] (mc_db m)).1.1 with inl _ => true | inr _ => false end)
    (match (logStateCounts (mc_world m)).1 with inl _ => true | inr _ => false end)
    (match a.1 with inl _ => true | inr _ => false end)
    (negb (mc_listens m (c_listen cfg))) (mc_ending m)).

(** ** main *)

(** The exit code, what is printed, and what was started and ended. *)
Definition server_main (Version : string) (args : list string) (m : Machine) (env : Env) : option (Z * list string * list ServerCmd.Ev) :=
  if bool_decide (args !! 1%nat = Some "version") then Some (0, [String_ Version "server"], [])
  else match ServerCmd.loadConfig env with
       | inl e => let '(r, tr) := ServerCmd.run (mkRunFaults false false false false (mc_ending m)) env in
                  Some (match r with inl _ => 1 | inr _ => 0 end, [], tr)
       | inr cfg =>
           f ← run_faults m cfg;
           let '(r, tr) := ServerCmd.run f env in Some (match r with inl _ => 1 | inr _ => 0 end, [], tr)
       end.
Definition runner_main (Version : string) (args : list string) (f : RRunFaults) (hostname : option string) (env : Env) : Z * list string * list REv :=
  if bool_decide (args !! 1%nat = Some "version") then (0, [String_ Version "runner"], [])
  else let '(r, tr) := RunnerCmd.run f Version hostname env in (match r with inl _ => 1 | inr _ => 0 end, [], tr).
End machine.

(** serveMetrics: the address must bind before it returns; what is returned ends the
    listener and waits for its goroutine. *)
Inductive MetricsEv := MetricsListen (addr : string) | MetricsServe | MetricsSrvClose | MetricsServeDone.
Definition serveMetrics (bind : string → option string) (addr : string) : option (string * list MetricsEv) * list MetricsEv :=
  match bind addr with
  | None => (None, [])
  | Some bound => (Some (bound, [MetricsSrvClose; MetricsServeDone]), [MetricsListen bound; MetricsServe])
  end.

(** ** What it comes to *)

(** The flags say what a run gets to. *)
Lemma serve_needs f : ServeStart ∈ (with_defers (run_started f)).2 →
  rf_store f = false ∧ rf_counts f = false ∧ rf_artifacts f = false ∧ rf_listen f = false.
Proof.
  intros Hs. assert (Hb : bool_decide (ServeStart ∈ (with_defers (run_started f)).2) = true) by (by apply bool_decide_eq_true).
  clear Hs. destruct f as [[] [] [] [] []]; vm_compute in Hb; (discriminate || done).
Qed.

Lemma run_ends f : rf_store f = false ∧ rf_counts f = false ∧ rf_artifacts f = false ∧ rf_listen f = false →
  ((with_defers (run_started f)).1 = inr tt ↔ rf_ending f = Drained).
Proof. destruct f as [[] [] [] [] []]; intros (? & ? & ? & ?); try done; vm_compute; split; (done || discriminate). Qed.

Lemma backend_known env cfg : ServerCmd.loadConfig env = inr cfg →
  c_backend cfg = "local" ∨ c_backend cfg = "remote" ∧ rc_BaseURL (c_remote cfg) ≠ "".
Proof.
  unfold ServerCmd.loadConfig. case_bool_decide; [done|]. destruct (check_backend (base_config env)) as [e|] eqn:Eb; [done|].
  repeat (match goal with |- context [positive_env ?p ?e ?v ?d] => destruct (positive_env p e v d); [done|] end). intros [= <-].
  unfold check_backend in Eb. cbn [c_backend c_remote]. case_bool_decide; [by left|]. case_bool_decide; [|done]. case_bool_decide; [done|by right].
Qed.

Section spec.
Context {C V : Type} `{RemoteEnv C V} {S : Type}.
Context (dec_error : Body → option (string * string)) (exec : string → S → option S) (read : Clock → Z) (fs : EmbedFS) (parse_url : string → option (string * string)).

Lemma artifacts_ready (m : Machine (C:=C) (V:=V) (S:=S)) env cfg b text v :
  ServerCmd.loadConfig env = inr cfg → openArtifacts dec_error parse_url m cfg = Some (inr (b, text), v) →
  match b with
  | BLocal st => c_backend cfg = "local" ∧ st_root st = Clean (if HasPrefix (c_blobDir cfg) "/" then Split (c_blobDir cfg) "/" else mc_cwd m ++ Split (c_blobDir cfg) "/")
  | BRemote st => c_backend cfg = "remote" ∧ rc_BaseURL (c_remote cfg) ≠ ""
  end.
Proof.
  intros Ec Ea. apply backend_known in Ec. unfold openArtifacts in Ea. case_bool_decide as Hb.
  - destruct (Remote.New dec_error parse_url _ _ _) as [[[e|s] v']|]; try done. injection Ea as <- <- <-. split; [done|].
    destruct Ec as [Ec|[_ Ec]]; [congruence|done].
  - unfold LocalStore.New in Ea. destruct (MkdirAll _ _ _) as [[e|u] s]; [done|]. injection Ea as <- <- <-. split; [|done]. by destruct Ec as [?|[? _]].
Qed.

(** A server serves only when it is ready.  If main gets to serve, the configuration has
    loaded, the database has been opened and has every migration, the startup counts were
    read and the configured backend is there: the local directory (made absolute) or a remote
    store under an http or https URL whose bucket was ensured; the address was bound.  And
    main exits with 0 exactly after "version" or a run that ended without an error. *)
Theorem server_serves_only_when_ready Version args (m : Machine (C:=C) (V:=V) (S:=S)) env code out tr :
  server_main dec_error exec read fs parse_url Version args m env = Some (code, out, tr) → ServeStart ∈ tr →
  ∃ cfg s pool d', ServerCmd.loadConfig env = inr cfg ∧
    Open exec read fs (mc_open m) (c_dbPath cfg) [] (mc_db m) = (inr s, pool, d') ∧
    (∃ ms, loadMigrations fs = inr ms ∧ pending ms d' = []) ∧
    (∃ line, (logStateCounts (mc_world m)).1 = inr line) ∧ mc_listens m (c_listen cfg) = true ∧
    (∃ b text v, openArtifacts dec_error parse_url m cfg = Some (inr (b, text), v) ∧
       match b with
       | BLocal st => c_backend cfg = "local" ∧ st_root st = Clean (if HasPrefix (c_blobDir cfg) "/" then Split (c_blobDir cfg) "/" else mc_cwd m ++ Split (c_blobDir cfg) "/")
       | BRemote st => c_backend cfg = "remote" ∧ rc_BaseURL (c_remote cfg) ≠ ""
       end) ∧
    (code = 0 ↔ mc_ending m = Drained).
Proof.
  unfold server_main. case_bool_decide; [intros [= <- <- <-]; by intros ?%not_elem_of_nil|].
  destruct (ServerCmd.loadConfig env) as [e|cfg] eqn:Ec.
  { unfold ServerCmd.run, ServerCmd.run_body. rewrite Ec. intros [= <- <- <-]. by intros ?%not_elem_of_nil. }
  unfold run_faults. destruct (openArtifacts dec_error parse_url m cfg) as [[a v]|] eqn:Ea; [|done]. simpl.
  set (f := mkRunFaults _ _ _ _ _). intros E Hs.
  assert (Er : ServerCmd.run f env = with_defers (run_started f)) by (unfold ServerCmd.run, ServerCmd.run_body; by rewrite Ec).
  rewrite Er in E. destruct (with_defers (run_started f)) as [r tr'] eqn:Ew. injection E as <- <- <-.
  destruct (serve_needs f) as (H1 & H2 & H3 & H4); [by rewrite Ew|].
  unfold f in H1, H2, H3, H4. cbn [rf_store rf_counts rf_artifacts rf_listen] in H1, H2, H3, H4.
  destruct (Open exec read fs (mc_open m) (c_dbPath cfg) [] (mc_db m)) as [[[e|s] pool] d'] eqn:Eo; [done|].
  exists cfg, s, pool, d'. split; [done|]. split; [done|]. refine (conj _ (conj _ (conj _ (conj _ _)))).
  - unfold Open in Eo. destruct (of_open _); [done|]. destruct (of_ping _); [done|]. simpl in Eo.
    destruct (migrate _ _ _ _ _) as [[e|] d1] eqn:Em; [done|]. injection Eo as <- <- <-. by eapply migrate_done.
  - eexists. reflexivity.
  - by apply negb_false_iff.
  - destruct a as [e|[b text]]; [done|]. exists b, text, v. split; [done|]. by eapply artifacts_ready.
  - pose proof (run_ends f (conj H1 (conj H2 (conj H3 H4)))) as Hr. rewrite Ew in Hr. simpl in Hr. destruct r as [e|[]]; naive_solver.
Qed.
End spec.
