(* ===== verification/Harness.v ===== *)
(** * The deployment in one process

    internal/harness, the life cycle: a control plane on a database and an address that
    survive restarts, agents that are killed and restarted, the fake clock, the transport
    that drops heartbeats and the artifact store that fails.  What is opened, started,
    cancelled, joined and closed is recorded in a trace.  A failed assertion (t.Fatalf) or
    a panic ends the test, and the registered cleanup runs. *)

From S2P Require Import Prelude GoLib Pipeline Types Artifact LocalStore DockerFiles Router Store Scheduler Api Client Logship Agent Docker Fake Migrate OpenStore.
From Stdlib Require Import Ascii.

Local Open Scope Z_scope.

Definition Token : string := "harness-token".

(** ** Options *)

Record Opts := mkOpts {
  op_Agents : Z; op_Capacity : Z; op_Labels : option (nat → gmap string string); op_PollInterval : Z; op_HeartbeatInterval : Z;
  op_LeaseTTL : Z; op_CompleteBackoff : Z; op_MaxAttempts : Z; op_MonitorInterval : Z; op_RunnerOfflineAfter : Z }.
Definition opts_defaults (o : Opts) : Opts :=
  let dflt v d := if bool_decide (v = 0) then d else v in
  mkOpts (dflt (op_Agents o) 1) (dflt (op_Capacity o) 2) (op_Labels o) (dflt (op_PollInterval o) (10 * Millisecond))
    (dflt (op_HeartbeatInterval o) (20 * Millisecond)) (dflt (op_LeaseTTL o) (30 * Second)) (dflt (op_CompleteBackoff o) (5 * Millisecond))
    (op_MaxAttempts o) (dflt (op_MonitorInterval o) (10 * Millisecond)) (op_RunnerOfflineAfter o).

(** ** The transport of an agent *)

Record agentTransport := mkTransport { tp_muteHB : bool; tp_dead : bool }.

(** The path of the request URL below the server's. *)
Definition request_path (base : string) (rq : HttpRequest) : string :=
  let '(path, _, _) := Cut (TrimPrefix (hr_url rq) base) "?"%char in pathUnescape path.
Definition RoundTrip {V : Type} (base : string) (default_do : HttpRequest → V → HttpReply * V) (t : agentTransport) (rq : HttpRequest) (v : V) : HttpReply * V :=
  if tp_dead t then (NoReply, v)
  else if tp_muteHB t && HasSuffix (request_path base rq) "/api/runner/heartbeat" then (NoReply, v)
  else default_do rq v.

(** ** The artifact store that fails on demand *)

Section fault.
Context {B F : Type} `{Store : BlobStore B F}.

(** The store and the switch; an injected failure is an I/O error to the handlers. *)
Definition fault_Put (f : F) (key : string) (r : Body) (size : Z) (s : bool * B) : option BlobError * (bool * B) :=
  if s.1 then (Some BlobIO, s) else let '(e, b) := blob_Put f key r size s.2 in (e, (s.1, b)).
#[export] Instance fault_ops : BlobOps (bool * B) F := {|
  calm := calm; blob_reserved := blob_reserved;
  blob_Put := fault_Put;
  blob_Get := λ f key s, blob_Get f key s.2;
  blob_Delete := λ f key s, let '(e, b) := blob_Delete f key s.2 in (e, (s.1, b));
  blob_List := λ f prefix s, blob_List f prefix s.2 |}.

(** It keeps the contract of the store it wraps, whatever the switch says. *)
#[export] Instance fault_store : BlobStore (bool * B) F.
Proof.
  refine {| blob_inv := λ s, blob_inv s.2 |}; unfold blob_at, blob_Put, blob_Get, blob_Delete, fault_ops, fault_Put.
  - intros f key body size [[] b] b' Hi; simpl; [done|]. destruct (Artifact.blob_Put f key body size b) as [e b1] eqn:E. intros [= -> <-]. exact (put_ok f key body size b b1 Hi E).
  - intros f key body size [[] b] e b' Hi; simpl; [intros [= <- <-]; by left|]. destruct (Artifact.blob_Put f key body size b) as [e1 b1] eqn:E.
    intros [= -> <-]. exact (put_err f key body size b e b1 Hi E).
  - intros f key [x b] data Hi; simpl. exact (get_ok f key b data Hi).
  - intros f key [x b] b' Hi; simpl. destruct (Artifact.blob_Delete f key b) as [e b1] eqn:E. intros [= -> <-]. exact (delete_ok f key b b1 Hi E).
  - intros f key [x b] e b' Hi; simpl. destruct (Artifact.blob_Delete f key b) as [e1 b1] eqn:E. intros [= -> <-]. exact (delete_err f key b e b1 Hi E).
  - intros key [x b] Hi Hs; simpl in *. pose proof (delete_calm key b Hi Hs) as E. by destruct (Artifact.blob_Delete calm key b).
  - intros f key body size [[] b] Hi; simpl; [done|]. pose proof (put_inv f key body size b Hi) as E. by destruct (Artifact.blob_Put f key body size b).
  - intros f key [x b] Hi; simpl. pose proof (delete_inv f key b Hi) as E. by destruct (Artifact.blob_Delete f key b).
Qed.
End fault.

(** ** State *)

Inductive HEv :=
  | OpenedStore | ClosedStore
  | StartedServer (asked bound : string) | ClosedServer
  | StartedMonitor | CancelledMonitor | JoinedMonitor
  | StartedAgent (i : nat) | CancelledAgent (i : nat) | JoinedAgent (i : nat).

(** [hn_stop] and [hn_done]: whether the field is non-nil. *)
Record hrunner := mkHRunner {
  hn_name : string; hn_exec : FakeExecutor; hn_net : agentTransport; hn_agent : option AgentConfig; hn_stop : bool; hn_done : bool }.

Inductive Fatal :=
  | FBlobs (e : BlobError) | FAlreadyRunning | FOpen (e : OpenErr) | FListen | FUnhealthy
  | FAgent (i : nat) | FHardKill (i : nat) | FRestart (i : nat) | FUnregistered (i : nat) | FIndex (i : nat).

(** WaitFor: the condition is tried once and then after each of the [ticks] ticks that the
    select takes before the deadline. *)
Fixpoint WaitFor {V : Type} (ticks : nat) (cond : V → bool * V) (v : V) : bool * V :=
  let '(b, v) := cond v in
  if b then (true, v) else match ticks with O => (false, v) | S ticks => WaitFor ticks cond v end.

Section harness.
Context {S : Type} (exec : string → S → option S) (empty : S) (wall : Z) (fs : EmbedFS).

Record Harness := mkHarness {
  h_opts : Opts; h_dbPath : string; h_url : string; h_st : option SStore; h_srv : option (string * Scheduler.Config);
  h_clock : Z; h_failPuts : bool; h_ags : list hrunner; h_stopMon : bool;
  h_db : MDB (S := S); h_errors : list string; h_trace : list HEv }.

Definition set_st st h := mkHarness (h_opts h) (h_dbPath h) (h_url h) st (h_srv h) (h_clock h) (h_failPuts h) (h_ags h) (h_stopMon h) (h_db h) (h_errors h) (h_trace h).
Definition set_srv srv h := mkHarness (h_opts h) (h_dbPath h) (h_url h) (h_st h) srv (h_clock h) (h_failPuts h) (h_ags h) (h_stopMon h) (h_db h) (h_errors h) (h_trace h).
Definition set_url url h := mkHarness (h_opts h) (h_dbPath h) url (h_st h) (h_srv h) (h_clock h) (h_failPuts h) (h_ags h) (h_stopMon h) (h_db h) (h_errors h) (h_trace h).
Definition set_clock c h := mkHarness (h_opts h) (h_dbPath h) (h_url h) (h_st h) (h_srv h) c (h_failPuts h) (h_ags h) (h_stopMon h) (h_db h) (h_errors h) (h_trace h).
Definition set_failPuts b h := mkHarness (h_opts h) (h_dbPath h) (h_url h) (h_st h) (h_srv h) (h_clock h) b (h_ags h) (h_stopMon h) (h_db h) (h_errors h) (h_trace h).
Definition set_ags l h := mkHarness (h_opts h) (h_dbPath h) (h_url h) (h_st h) (h_srv h) (h_clock h) (h_failPuts h) l (h_stopMon h) (h_db h) (h_errors h) (h_trace h).
Definition set_stopMon b h := mkHarness (h_opts h) (h_dbPath h) (h_url h) (h_st h) (h_srv h) (h_clock h) (h_failPuts h) (h_ags h) b (h_db h) (h_errors h) (h_trace h).
Definition set_db d h := mkHarness (h_opts h) (h_dbPath h) (h_url h) (h_st h) (h_srv h) (h_clock h) (h_failPuts h) (h_ags h) (h_stopMon h) d (h_errors h) (h_trace h).
Definition add_error e h := mkHarness (h_opts h) (h_dbPath h) (h_url h) (h_st h) (h_srv h) (h_clock h) (h_failPuts h) (h_ags h) (h_stopMon h) (h_db h) (h_errors h ++ [e]) (h_trace h).
Definition emit ev h := mkHarness (h_opts h) (h_dbPath h) (h_url h) (h_st h) (h_srv h) (h_clock h) (h_failPuts h) (h_ags h) (h_stopMon h) (h_db h) (h_errors h) (h_trace h ++ [ev]).
Definition set_runner (i : nat) (r : hrunner) (h : Harness) : Harness := set_ags (<[i := r]> (h_ags h)) h.

(** The test goroutine: it ends at the first failure. *)
Definition Hm (A : Type) : Type := Harness → (Fatal + A) * Harness.
#[local] Instance Hm_ret : MRet Hm := λ A a h, (inr a, h).
#[local] Instance Hm_bind : MBind Hm := λ A B f m h, match m h with (inl e, h') => (inl e, h') | (inr a, h') => f a h' end.
Definition fatal {A} (e : Fatal) : Hm A := λ h, (inl e, h).
Definition update (f : Harness → Harness) : Hm unit := λ h, (inr tt, f h).
Definition runner_at (i : nat) : Hm hrunner := λ h, match h_ags h !! i with Some r => (inr r, h) | None => (inl (FIndex i), h) end.

(** ** The server *)

(** What the outside does when the server starts: the driver and the disk, the addresses
    that bind, the answers of /healthz, and the ticks before the deadline. *)
Record Outside := mkOutside { os_open : OpenFaults; os_listen : string → option string; os_health : nat → option Z; os_ticks : nat }.

Definition server_config (o : Opts) : string * Scheduler.Config :=
  (Token, Scheduler.mkConfig (op_LeaseTTL o) 0 (op_MaxAttempts o) (op_MonitorInterval o) (op_RunnerOfflineAfter o) 0).
Definition healthy (o : Outside) (k : nat) : bool * nat := (bool_decide (os_health o k = Some 200), Datatypes.S k).
Definition read_clock (h : Harness) (c : Clock) : Z := match c with Injected _ => h_clock h | WallClock => wall end.

Definition open_store (o : Outside) : Hm unit := λ h,
  match Open exec (read_clock h) fs (os_open o) (h_dbPath h) [WithClock (Injected "harness")] (h_db h) with
  | (inl e, _, d) => (inl (FOpen e), set_db d h)
  | (inr st, _, d) => (inr tt, emit OpenedStore (set_st (Some st) (set_db d h)))
  end.
Definition listen (o : Outside) : Hm unit := λ h,
  let addr := if bool_decide (h_url h = "") then "127.0.0.1:0" else TrimPrefix (h_url h) "http://" in
  match os_listen o addr with
  | None => (inl FListen, h)
  | Some bound =>
      let h := emit (StartedServer addr bound) (set_srv (Some (server_config (h_opts h))) h) in
      (inr tt, if bool_decide (h_url h = "") then set_url ("http://" +:+ bound) h else h)
  end.
Definition StartServer (o : Outside) : Hm unit := λ h,
  match h_st h with
  | Some _ => (inl FAlreadyRunning, h)
  | None =>
      (open_store o;; listen o;;
       update (λ h, emit StartedMonitor (set_stopMon true h));;
       if (WaitFor (os_ticks o) (healthy o) 0%nat).1 then mret tt else fatal FUnhealthy) h
  end.

(** [closed] is what closing the store answers. *)
Definition stop_monitor (h : Harness) : Harness :=
  if h_stopMon h then set_stopMon false (emit JoinedMonitor (emit CancelledMonitor h)) else h.
Definition close_server (h : Harness) : Harness := match h_srv h with Some _ => set_srv None (emit ClosedServer h) | None => h end.
Definition close_store (closed : option string) (h : Harness) : Harness :=
  match h_st h with
  | Some _ => let h := emit ClosedStore h in set_st None (match closed with Some e => add_error e h | None => h end)
  | None => h
  end.
Definition StopServer (closed : option string) (h : Harness) : Harness := close_store closed (close_server (stop_monitor h)).

(** ** The agents *)

Definition agent_config (h : Harness) (i : nat) (r : hrunner) : AgentConfig :=
  mkAgentConfig (h_url h) Token (hn_name r) (match op_Labels (h_opts h) with Some f => f i | None => ∅ end) (op_Capacity (h_opts h)) "harness"
    (op_PollInterval (h_opts h)) (op_HeartbeatInterval (h_opts h)) 0 (op_CompleteBackoff (h_opts h)) 0 0 Second.
Definition launch (i : nat) (r : hrunner) : Hm unit := λ h,
  match NewAgent (agent_config h i r) with
  | None => (inl (FAgent i), h)
  | Some a => (inr tt, emit (StartedAgent i) (set_runner i (mkHRunner (hn_name r) (hn_exec r) (hn_net r) (Some a) true true) h))
  end.
Definition startAgent (i : nat) : Hm unit := r ← runner_at i; launch i r.
Definition stopAgent (i : nat) : Hm unit :=
  r ← runner_at i;
  update (λ h,
    let h := if hn_stop r then emit (CancelledAgent i) h else h in
    let h := if hn_done r then emit (JoinedAgent i) h else h in
    set_runner i (mkHRunner (hn_name r) (hn_exec r) (hn_net r) (hn_agent r) false false) h).
Definition Kill (i : nat) : Hm unit := stopAgent i.
Definition HardKill (i : nat) : Hm unit :=
  r ← runner_at i;
  if hn_stop r then
    update (λ h, set_runner i (mkHRunner (hn_name r) (hn_exec r) (mkTransport (tp_muteHB (hn_net r)) true) (hn_agent r) false (hn_done r)) (emit (CancelledAgent i) h))
  else fatal (FHardKill i).
Definition Restart (i : nat) : Hm unit :=
  r ← runner_at i;
  if hn_stop r then fatal (FRestart i)
  else
    update (λ h, set_runner i (mkHRunner (hn_name r) (hn_exec r) (mkTransport (tp_muteHB (hn_net r)) false) (hn_agent r) false false)
                   (if hn_done r then emit (JoinedAgent i) h else h));;
    startAgent i.
Definition MuteHeartbeats (i : nat) (mute : bool) : Hm unit :=
  r ← runner_at i;
  update (set_runner i (mkHRunner (hn_name r) (hn_exec r) (mkTransport mute (tp_dead (hn_net r))) (hn_agent r) (hn_stop r) (hn_done r))).
Definition AgentName (i : nat) : Hm string := r ← runner_at i; mret (hn_name r).
(** [runner_id k]: what RunnerID of the agent, which runs meanwhile, answers to the k-th
    poll. *)
Definition id_cond (runner_id : nat → string) (s : string * nat) : bool * (string * nat) :=
  let id := runner_id s.2 in (negb (bool_decide (id = "")), (id, Datatypes.S s.2)).
Definition AgentID (runner_id : nat → string) (ticks i : nat) : Hm string :=
  _ ← runner_at i;
  let '(ok, (id, _)) := WaitFor ticks (id_cond runner_id) ("", 0%nat) in
  if ok : bool then mret id else fatal (FUnregistered i).

(** ** The clock, the store and the executors *)

Definition Now (h : Harness) : Z := h_clock h.
Definition Advance (d : Z) (h : Harness) : Harness := set_clock (int64 (h_clock h + Milliseconds d)) h.
Definition FailArtifactPuts (fail : bool) : Harness → Harness := set_failPuts fail.
Definition on_exec (f : FakeExecutor → FakeExecutor) (r : hrunner) : hrunner :=
  mkHRunner (hn_name r) (f (hn_exec r)) (hn_net r) (hn_agent r) (hn_stop r) (hn_done r).
Definition Exec (i : nat) : Hm FakeExecutor := r ← runner_at i; mret (hn_exec r).
Definition Script (name : string) (o : Fake.Outcome) (h : Harness) : Harness := set_ags (on_exec (Fake.Script name o) <$> h_ags h) h.
Definition Release (name : string) (h : Harness) : Harness := set_ags (on_exec (Fake.Release name) <$> h_ags h) h.
Definition Executions (h : Harness) : list (nat * Execution) :=
  mjoin (imap (λ i r, pair i <$> Fake.Executions (hn_exec r)) (h_ags h)).

(** ** New and close *)

Definition append_runner (i : nat) : Hm unit :=
  update (λ h, set_ags (h_ags h ++ [mkHRunner ("agent-" +:+ Itoa (Z.of_nat i)) NewFake (mkTransport false false) None false false]) h).
Fixpoint start_agents (l : list nat) : Hm unit :=
  match l with [] => mret tt | i :: l => append_runner i;; startAgent i;; start_agents l end.
Definition new_harness (opts : Opts) (dir : string) : Harness :=
  mkHarness (opts_defaults opts) (dir +:+ "/quarry.db") "" None None 1700000000000 false [] false (mkMDB None empty) [] [].
Definition agents_of : Hm nat := λ h, (inr (Z.to_nat (op_Agents (h_opts h))), h).
(** [blobs] is what local.New answers. *)
Definition New (blobs : BlobError + LocalStore.Store) (o : Outside) : Hm unit :=
  match blobs with
  | inl e => fatal (FBlobs e)
  | inr _ => StartServer o;; n ← agents_of; start_agents (seq 0 n)
  end.

Definition stop_agents (h : Harness) : Harness := foldl (λ h i, (stopAgent i h).2) h (seq 0 (length (h_ags h))).
Definition close (closed : option string) (h : Harness) : Harness := StopServer closed (stop_agents h).

(** ** Tests *)

Inductive TestOp :=
  | TStartServer (o : Outside) | TStopServer (closed : option string)
  | TKill (i : nat) | THardKill (i : nat) | TRestart (i : nat) | TMute (i : nat) (mute : bool)
  | TAdvance (d : Z) | TFailPuts (fail : bool) | TScript (name : string) (o : Fake.Outcome) | TRelease (name : string)
  | TExec (i : nat) (ev : FakeEvent).
Definition run_op (op : TestOp) : Hm unit :=
  match op with
  | TStartServer o => StartServer o
  | TStopServer closed => update (StopServer closed)
  | TKill i => Kill i
  | THardKill i => HardKill i
  | TRestart i => Restart i
  | TMute i mute => MuteHeartbeats i mute
  | TAdvance d => update (Advance d)
  | TFailPuts fail => update (FailArtifactPuts fail)
  | TScript name o => update (Script name o)
  | TRelease name => update (Release name)
  | TExec i ev => r ← runner_at i; update (set_runner i (on_exec (fake_next ev) r))
  end.
Fixpoint body (ops : list TestOp) : Hm unit := match ops with [] => mret tt | op :: ops => run_op op;; body ops end.
(** A test up to its last operation or its first failure; cleanup follows. *)
Definition test (opts : Opts) (dir : string) (blobs : BlobError + LocalStore.Store) (o : Outside) (ops : list TestOp) : Harness :=
  ((New blobs o;; body ops) (new_harness opts dir)).2.

(** ** Life cycles *)

(** What a goroutine of an agent goes through, and the server with its store and its
    monitor: anything else is not accepted. *)
Inductive Phase := Idle | Running | Cancelled.
Definition agent_of (ev : HEv) : option nat :=
  match ev with StartedAgent i | CancelledAgent i | JoinedAgent i => Some i | _ => None end.
Definition agent_step (i : nat) (p : Phase) (ev : HEv) : option Phase :=
  if bool_decide (agent_of ev = Some i) then
    match ev, p with
    | StartedAgent _, Idle => Some Running
    | CancelledAgent _, Running => Some Cancelled
    | JoinedAgent _, Cancelled => Some Idle
    | _, _ => None
    end
  else Some p.
Inductive SPhase := Down | Opened | Serving | Watched | Stopping.
Definition server_step (p : SPhase) (ev : HEv) : option SPhase :=
  match ev, p with
  | OpenedStore, Down => Some Opened
  | StartedServer _ _, Opened => Some Serving
  | StartedMonitor, Serving => Some Watched
  | CancelledMonitor, Watched => Some Stopping
  | JoinedMonitor, Stopping => Some Serving
  | ClosedServer, Serving => Some Opened
  | ClosedStore, Opened => Some Down
  | (StartedAgent _ | CancelledAgent _ | JoinedAgent _), p => Some p
  | _, _ => None
  end.
Definition walk {P : Type} (step : P → HEv → option P) (p : P) (tr : list HEv) : option P :=
  foldl (λ o ev, p ← o; step p ev) (Some p) tr.
Definition started (ev : HEv) : option (string * string) := match ev with StartedServer asked bound => Some (asked, bound) | _ => None end.
Definition agent_event (ev : HEv) : Prop := is_Some (agent_of ev).
Definition server_event (ev : HEv) : Prop := agent_of ev = None.

Lemma walk_none {P} (step : P → HEv → option P) tr : foldl (λ o ev, p ← o; step p ev) None tr = None.
Proof. induction tr as [|ev tr IH]; [done|]. exact IH. Qed.
Lemma walk_app {P} (step : P → HEv → option P) p tr evs q r : walk step p tr = Some q → walk step q evs = r → walk step p (tr ++ evs) = r.
Proof. unfold walk. rewrite foldl_app. by intros -> ->. Qed.
Lemma walk_idle i p evs : Forall (λ ev, agent_of ev ≠ Some i) evs → walk (agent_step i) p evs = Some p.
Proof.
  unfold walk. induction 1 as [|ev evs Hev _ IH]; [done|]. simpl. unfold agent_step at 2. by rewrite bool_decide_false.
Qed.
Lemma walk_server p evs : Forall agent_event evs → walk server_step p evs = Some p.
Proof. unfold walk. induction 1 as [|ev evs [i Hi] _ IH]; [done|]. simpl. by destruct ev. Qed.

(** ** The invariant *)

Definition phase (r : hrunner) : Phase := if hn_stop r then Running else if hn_done r then Cancelled else Idle.
(** A running agent has its network; one that was stopped and not joined has none. *)
Definition runner_ok (r : hrunner) : Prop :=
  (hn_stop r = true → hn_done r = true ∧ tp_dead (hn_net r) = false) ∧ (hn_stop r = false → hn_done r = true → tp_dead (hn_net r) = true).
Definition agents_ok (ags : list hrunner) (tr : list HEv) : Prop :=
  (∀ i, walk (agent_step i) Idle tr = Some (default Idle (phase <$> ags !! i))) ∧ Forall runner_ok ags.
Definition server_phase (h : Harness) : SPhase :=
  if h_stopMon h then Watched else match h_srv h, h_st h with Some _, _ => Serving | None, Some _ => Opened | None, None => Down end.
Definition address_ok (url : string) (starts : list (string * string)) : Prop :=
  match starts with
  | [] => url = ""
  | (asked, bound) :: rest => asked = "127.0.0.1:0" ∧ url = "http://" +:+ bound ∧ Forall (λ s, s.1 = bound) rest
  end.
Record HInv (h : Harness) : Prop := {
  hi_agents : agents_ok (h_ags h) (h_trace h);
  hi_server : walk server_step Down (h_trace h) = Some (server_phase h);
  hi_mon : h_stopMon h = true → is_Some (h_srv h);
  hi_srv : is_Some (h_srv h) → is_Some (h_st h);
  hi_url : address_ok (h_url h) (omap started (h_trace h))
}.

(** Events of one agent, and of none. *)
Lemma agents_events i r r' evs ags tr : agents_ok ags tr → ags !! i = Some r → Forall (λ ev, agent_of ev = Some i) evs →
  walk (agent_step i) (phase r) evs = Some (phase r') → runner_ok r' → agents_ok (<[i := r']> ags) (tr ++ evs).
Proof.
  intros [Hw Ha] Hr Hev Hstep Hok. split; [|by apply Forall_insert]. intros j. destruct (decide (i = j)) as [<-|Hne].
  - rewrite list_lookup_insert_eq by (by eapply lookup_lt_Some). simpl. eapply walk_app; [apply Hw|]. by rewrite Hr.
  - rewrite list_lookup_insert_ne by done. eapply walk_app; [apply Hw|]. apply walk_idle. eapply Forall_impl; [exact Hev|]. simpl. intros ev ->. congruence.
Qed.
Lemma agents_server ev ags tr : server_event ev → agents_ok ags tr → agents_ok ags (tr ++ [ev]).
Proof.
  unfold server_event. intros Hev [Hw Ha]. split; [|done]. intros i. eapply walk_app; [apply Hw|]. apply walk_idle. constructor; [|done]. by rewrite Hev.
Qed.
Lemma agents_fmap f ags tr : (∀ r, phase (f r) = phase r ∧ (runner_ok r → runner_ok (f r))) → agents_ok ags tr → agents_ok (f <$> ags) tr.
Proof.
  intros Hf [Hw Ha]. split.
  - intros i. rewrite Hw, list_lookup_fmap. destruct (ags !! i) as [r|]; [|done]. simpl. by rewrite (proj1 (Hf r)).
  - apply Forall_fmap. eapply Forall_impl; [exact Ha|]. intros r. apply Hf.
Qed.
Lemma omap_agent evs : Forall agent_event evs → omap started evs = [].
Proof. induction 1 as [|ev evs [i Hi] _ IH]; [done|]. by destruct ev. Qed.

(** An operation on runner [i]. *)
Lemma HInv_runner i r r' evs h h' : HInv h → h_ags h !! i = Some r → Forall (λ ev, agent_of ev = Some i) evs →
  walk (agent_step i) (phase r) evs = Some (phase r') → runner_ok r' →
  h_ags h' = <[i := r']> (h_ags h) → h_trace h' = h_trace h ++ evs → h_st h' = h_st h → h_srv h' = h_srv h → h_stopMon h' = h_stopMon h → h_url h' = h_url h →
  HInv h'.
Proof.
  intros [Ha Hs Hm Hv Hu] Hr Hev Hstep Hok Eags Etr Est Esrv Emon Eurl.
  assert (Hag : Forall agent_event evs) by (eapply Forall_impl; [exact Hev|]; unfold agent_event; simpl; intros ev ->; by eexists).
  constructor; rewrite ?Eags, ?Etr, ?Est, ?Esrv, ?Emon, ?Eurl; [by eapply agents_events| |done|done|].
  - eapply walk_app; [exact Hs|]. rewrite walk_server by done. unfold server_phase. by rewrite Est, Esrv, Emon.
  - by rewrite omap_app, (omap_agent evs), app_nil_r.
Qed.

Definition Keeps {A} (m : Hm A) : Prop := ∀ h, HInv h → HInv (m h).2.
Lemma Keeps_ret {A} (a : A) : Keeps (mret a).
Proof. intros h. done. Qed.
Lemma Keeps_fatal {A} e : Keeps (A := A) (fatal e).
Proof. intros h. done. Qed.
Lemma Keeps_bind {A B} (m : Hm A) (k : A → Hm B) : Keeps m → (∀ a, Keeps (k a)) → Keeps (m ≫= k).
Proof.
  intros Hm_ Hk h Hi. unfold mbind, Hm_bind. pose proof (Hm_ h Hi) as H1. destruct (m h) as [[e|a] h1]; [done|]. exact (Hk a h1 H1).
Qed.
(** An operation that looks a runner up. *)
Lemma Keeps_runner {A} i (k : hrunner → Hm A) : (∀ r h, HInv h → h_ags h !! i = Some r → HInv (k r h).2) → Keeps (r ← runner_at i; k r).
Proof. intros Hk h Hi. unfold mbind, Hm_bind, runner_at. destruct (h_ags h !! i) as [r|] eqn:Hr; [by apply Hk|done]. Qed.
Lemma runner_is h i r : HInv h → h_ags h !! i = Some r → runner_ok r.
Proof. intros Hi Hr. destruct (hi_agents h Hi) as [_ Ha]. by eapply Forall_lookup_1. Qed.

(** What the trace of one agent may go on with, from the flags. *)
Ltac one_agent i r evs := eapply (HInv_runner i r _ evs); [eassumption|eassumption|by repeat constructor| | |reflexivity| |reflexivity..];
  unfold phase, walk, agent_step, runner_ok; simpl; rewrite ?bool_decide_true by done; rewrite <-?app_assoc, ?app_nil_r; naive_solver.

Lemma keeps_launch i r h : HInv h → h_ags h !! i = Some r → hn_stop r = false → hn_done r = false → tp_dead (hn_net r) = false → HInv (launch i r h).2.
Proof.
  intros Hi Hr Es Ed En. unfold launch. destruct (NewAgent _) as [a|]; [|done]. destruct r as [nm ex [mu de] ag st dn]; simpl in *; subst.
  one_agent i (mkHRunner nm ex (mkTransport mu false) ag false false) [StartedAgent i].
Qed.
Lemma keeps_stopAgent i : Keeps (stopAgent i).
Proof.
  apply Keeps_runner. intros r h Hi Hr. pose proof (runner_is h i r Hi Hr) as Hok. unfold update.
  destruct r as [nm ex [mu de] ag st dn]; unfold runner_ok in Hok; simpl in *. destruct st; [|destruct dn].
  - destruct Hok as [[-> ->] _]; [done|]. one_agent i (mkHRunner nm ex (mkTransport mu false) ag true true) [CancelledAgent i; JoinedAgent i].
  - one_agent i (mkHRunner nm ex (mkTransport mu de) ag false true) [JoinedAgent i].
  - one_agent i (mkHRunner nm ex (mkTransport mu de) ag false false) (@nil HEv).
Qed.
Lemma keeps_HardKill i : Keeps (HardKill i).
Proof.
  apply Keeps_runner. intros r h Hi Hr. pose proof (runner_is h i r Hi Hr) as Hok. destruct (hn_stop r) eqn:Es; [|done]. unfold update.
  destruct r as [nm ex [mu de] ag st dn]; unfold runner_ok in Hok; simpl in *; subst. destruct Hok as [[-> ->] _]; [done|].
  one_agent i (mkHRunner nm ex (mkTransport mu false) ag true true) [CancelledAgent i].
Qed.
Lemma keeps_Restart i : Keeps (Restart i).
Proof.
  apply Keeps_runner. intros r h Hi Hr. destruct (hn_stop r) eqn:Es; [done|]. unfold mbind, Hm_bind, update.
  set (r1 := mkHRunner (hn_name r) (hn_exec r) (mkTransport (tp_muteHB (hn_net r)) false) (hn_agent r) false false).
  assert (H1 : HInv (set_runner i r1 (if hn_done r then emit (JoinedAgent i) h else h))).
  { destruct r as [nm ex [mu de] ag st dn]; simpl in *; subst. destruct dn.
    - one_agent i (mkHRunner nm ex (mkTransport mu de) ag false true) [JoinedAgent i].
    - one_agent i (mkHRunner nm ex (mkTransport mu de) ag false false) (@nil HEv). }
  unfold startAgent, mbind, Hm_bind, runner_at. simpl h_ags.
  assert (E : h_ags (set_runner i r1 (if hn_done r then emit (JoinedAgent i) h else h)) !! i = Some r1).
  { destruct (hn_done r); simpl; apply list_lookup_insert_eq; by eapply lookup_lt_Some. }
  simpl in E. rewrite E. by apply keeps_launch.
Qed.
Lemma keeps_same i r r' h : HInv h → h_ags h !! i = Some r → hn_stop r' = hn_stop r → hn_done r' = hn_done r → tp_dead (hn_net r') = tp_dead (hn_net r) →
  HInv (set_runner i r' h).
Proof.
  intros Hi Hr E1 E2 E3. pose proof (runner_is h i r Hi Hr) as Hok.
  eapply (HInv_runner i r r' []); [done|done|constructor| | |reflexivity|by rewrite app_nil_r|reflexivity..].
  - unfold phase. by rewrite E1, E2.
  - unfold runner_ok. by rewrite E1, E2, E3.
Qed.
Lemma keeps_all f h : (∀ r, hn_stop (f r) = hn_stop r ∧ hn_done (f r) = hn_done r ∧ hn_net (f r) = hn_net r) → HInv h → HInv (set_ags (f <$> h_ags h) h).
Proof.
  intros Hf [Ha Hs Hm Hv Hu]. constructor; try done. apply agents_fmap; [|done]. intros r. destruct (Hf r) as (E1 & E2 & E3).
  unfold phase, runner_ok. by rewrite E1, E2, E3.
Qed.

(** The server's part. *)
Lemma HInv_server ev h h' : HInv h → server_event ev → server_step (server_phase h) ev = Some (server_phase h') →
  h_ags h' = h_ags h → h_trace h' = h_trace h ++ [ev] → (h_stopMon h' = true → is_Some (h_srv h')) → (is_Some (h_srv h') → is_Some (h_st h')) →
  address_ok (h_url h') (omap started (h_trace h) ++ omap started [ev]) → HInv h'.
Proof.
  intros [Ha Hs _ _ _] Hev Hstep Eags Etr Hm Hv Hu. constructor; rewrite ?Eags, ?Etr; [by apply agents_server| |done|done|by rewrite omap_app].
  eapply walk_app; [exact Hs|]. exact Hstep.
Qed.
Lemma address_other url l : address_ok url l → address_ok url (l ++ []).
Proof. by rewrite app_nil_r. Qed.
Lemma address_more url l asked bound : address_ok url l → (url = "" → asked = "127.0.0.1:0") → (url ≠ "" → asked = TrimPrefix url "http://") →
  address_ok (if bool_decide (url = "") then "http://" +:+ bound else url) (l ++ [(asked, bound)]).
Proof.
  unfold address_ok. destruct l as [|[a b] l]; simpl.
  - intros -> H1 _. by rewrite H1.
  - intros (-> & -> & Hl) _ H2. rewrite bool_decide_false by done. split_and!; [done|done|]. apply Forall_app. split; [done|]. constructor; [|done].
    rewrite H2 by done. by destruct b.
Qed.

Lemma keeps_open o h : HInv h → h_st h = None → HInv (open_store o h).2 ∧ ∀ a, (open_store o h).1 = inr a → server_phase (open_store o h).2 = Opened.
Proof.
  intros Hi Est. unfold open_store. destruct (Open _ _ _ _ _ _ _) as [[[e|st] pool] d]; simpl.
  - split; [|done]. destruct Hi as [? Hs ? ? ?]. by constructor.
  - assert (Esrv : h_srv h = None). { destruct (h_srv h) eqn:E; [|done]. destruct (hi_srv h Hi) as [? ?]; [by rewrite E|congruence]. }
    assert (Emon : h_stopMon h = false). { destruct (h_stopMon h) eqn:E; [|done]. destruct (hi_mon h Hi E) as [? ?]; congruence. }
    unfold server_phase. simpl. rewrite Esrv, Emon. split; [|done].
    apply (HInv_server OpenedStore h); [done|done| |done|done|by simpl; rewrite Emon|by simpl; intros _; eexists|apply address_other, (hi_url h Hi)].
    unfold server_phase. simpl. by rewrite Est, Esrv, Emon.
Qed.
Lemma phase_opened h : server_phase h = Opened → h_stopMon h = false ∧ h_srv h = None ∧ is_Some (h_st h).
Proof. unfold server_phase. by destruct (h_stopMon h), (h_srv h), (h_st h). Qed.
Lemma keeps_listen o h : HInv h → server_phase h = Opened → HInv (listen o h).2 ∧ ∀ a, (listen o h).1 = inr a → server_phase (listen o h).2 = Serving.
Proof.
  intros Hi Hp. destruct (phase_opened h Hp) as (Emon & Esrv & Est). unfold listen. destruct (os_listen o _) as [bound|]; [|done]. simpl.
  assert (Hsame : ∀ url, server_phase (set_url url (emit (StartedServer (if bool_decide (h_url h = "") then "127.0.0.1:0" else TrimPrefix (h_url h) "http://") bound) (set_srv (Some (server_config (h_opts h))) h))) = Serving)
    by (intros url; unfold server_phase; simpl; by rewrite Emon).
  set (asked := if bool_decide (h_url h = "") then "127.0.0.1:0" else TrimPrefix (h_url h) "http://") in *.
  set (url := if bool_decide (h_url h = "") then "http://" +:+ bound else h_url h).
  assert (E : (if bool_decide (h_url h = "") then set_url ("http://" +:+ bound) (emit (StartedServer asked bound) (set_srv (Some (server_config (h_opts h))) h))
               else emit (StartedServer asked bound) (set_srv (Some (server_config (h_opts h))) h)) =
              set_url url (emit (StartedServer asked bound) (set_srv (Some (server_config (h_opts h))) h))) by (unfold url; by case_bool_decide).
  rewrite E. split; [|by intros _ _]. apply (HInv_server (StartedServer asked bound) h); [done|done|by rewrite Hp, Hsame|done|done|by simpl; rewrite Emon|by simpl|].
  simpl. apply address_more; [apply (hi_url h Hi)|intros E0; unfold asked; by rewrite E0|intros Hne; unfold asked; by rewrite bool_decide_false].
Qed.
Lemma keeps_monitor h : HInv h → server_phase h = Serving → HInv (emit StartedMonitor (set_stopMon true h)).
Proof.
  intros Hi Hp. assert (Hsrv : is_Some (h_srv h)) by (revert Hp; unfold server_phase; destruct (h_stopMon h); [done|]; destruct (h_srv h), (h_st h); done).
  apply (HInv_server StartedMonitor h); [done|done|by rewrite Hp|done|done|done|apply (hi_srv h Hi)|apply address_other, (hi_url h Hi)].
Qed.
Lemma keeps_StartServer o : Keeps (StartServer o).
Proof.
  intros h Hi. unfold StartServer. destruct (h_st h) eqn:Est; [done|]. unfold mbind, Hm_bind.
  destruct (keeps_open o h Hi Est) as [Hi1 Hp1]. destruct (open_store o h) as [[e|[]] h1]; [done|]. specialize (Hp1 tt eq_refl). simpl in Hi1, Hp1.
  destruct (keeps_listen o h1 Hi1 Hp1) as [Hi2 Hp2]. destruct (listen o h1) as [[e|[]] h2]; [done|]. specialize (Hp2 tt eq_refl). simpl in Hi2, Hp2.
  unfold update. pose proof (keeps_monitor h2 Hi2 Hp2) as Hi3. by destruct (WaitFor _ _ _).1.
Qed.

Definition server_stop (h : Harness) : list HEv :=
  (if h_stopMon h then [CancelledMonitor; JoinedMonitor] else []) ++ (match h_srv h with Some _ => [ClosedServer] | None => [] end) ++
  (match h_st h with Some _ => [ClosedStore] | None => [] end).
Lemma server_stop_events h : Forall server_event (server_stop h).
Proof. unfold server_stop. destruct (h_stopMon h), (h_srv h), (h_st h); by repeat constructor. Qed.
Lemma StopServer_fields closed h :
  h_st (StopServer closed h) = None ∧ h_srv (StopServer closed h) = None ∧ h_stopMon (StopServer closed h) = false ∧ h_ags (StopServer closed h) = h_ags h ∧
  h_url (StopServer closed h) = h_url h ∧ h_trace (StopServer closed h) = h_trace h ++ server_stop h.
Proof.
  unfold StopServer, close_store, close_server, stop_monitor, server_stop.
  destruct h as [op dbp url st srv ck fp ags mon db errs tr]; destruct mon, srv, st, closed; simpl; rewrite <-?app_assoc, ?app_nil_r; done.
Qed.
Lemma keeps_StopServer closed h : HInv h → HInv (StopServer closed h).
Proof.
  intros [Ha Hs Hm Hv Hu]. destruct (StopServer_fields closed h) as (E1 & E2 & E3 & E4 & E5 & E6).
  pose proof (server_stop_events h) as Hev.
  constructor; rewrite ?E1, ?E2, ?E3, ?E4, ?E5, ?E6; [| |done|by intros []|].
  - clear -Ha Hev. revert Ha. generalize (h_trace h). induction Hev as [|ev l He _ IH]; intros tr Ha; [by rewrite app_nil_r|].
    rewrite cons_middle, app_assoc. apply IH. by apply agents_server.
  - eapply walk_app; [exact Hs|]. unfold server_phase, server_stop. rewrite E1, E2, E3.
    destruct (h_stopMon h), (h_srv h), (h_st h); try done; naive_solver.
  - rewrite omap_app. assert (omap started (server_stop h) = []) as -> by (unfold server_stop; by destruct (h_stopMon h), (h_srv h), (h_st h)). by rewrite app_nil_r.
Qed.

(** New, and the body of a test. *)
Lemma keeps_start_agents n : ∀ k h, HInv h → length (h_ags h) = k → HInv (start_agents (seq k n) h).2.
Proof.
  induction n as [|n IH]; intros k h Hi Hk; [done|]. cbn [seq start_agents]. unfold append_runner, startAgent, runner_at, mbind, Hm_bind, update.
  set (r := mkHRunner _ _ _ _ _ _). set (h1 := set_ags (h_ags h ++ [r]) h).
  assert (Hr : h_ags h1 !! k = Some r) by (simpl; rewrite lookup_app_r by lia; by rewrite Hk, Nat.sub_diag).
  assert (H1 : HInv h1).
  { destruct Hi as [[Hw Ha] Hs Hm Hv Hu]. constructor; try done. split; [|apply Forall_app; split; [done|by repeat constructor]].
    intros i. simpl h_trace. rewrite Hw. f_equal. change (h_ags h1) with (h_ags h ++ [r]). destruct (decide (i < k)%nat).
    - by rewrite lookup_app_l by lia.
    - rewrite (lookup_ge_None_2 (h_ags h)) by lia. destruct (decide (i = k)) as [->|]; [change (h_ags h ++ [r]) with (h_ags h1); by rewrite Hr|]. rewrite lookup_ge_None_2; [done|]. rewrite length_app. simpl. lia. }
  rewrite Hr. pose proof (keeps_launch k r h1 H1 Hr eq_refl eq_refl eq_refl) as H2.
  assert (Hl : length (h_ags (launch k r h1).2) = Datatypes.S k).
  { unfold launch. destruct (NewAgent _); simpl; rewrite ?length_insert, length_app, Hk; simpl; lia. }
  destruct (launch k r h1) as [[e|[]] h2]; [done|]. by apply IH.
Qed.
Lemma StartServer_ags o h : h_ags (StartServer o h).2 = h_ags h.
Proof.
  unfold StartServer. destruct (h_st h); [done|]. unfold mbind, Hm_bind, open_store, listen, update. destruct (Open _ _ _ _ _ _ _) as [[[e|st] pool] d]; [done|].
  destruct (os_listen o _); [|done]. destruct (WaitFor _ _ _) as [[] ?]; simpl; by case_bool_decide.
Qed.
Lemma keeps_New blobs o h : HInv h → h_ags h = [] → HInv (New blobs o h).2.
Proof.
  intros Hi Ha. destruct blobs as [e|s]; [done|]. simpl. unfold mbind, Hm_bind. pose proof (keeps_StartServer o h Hi) as H1.
  pose proof (StartServer_ags o h) as E. destruct (StartServer o h) as [[e|[]] h1]; [done|]. simpl in *. apply keeps_start_agents; [done|]. by rewrite E, Ha.
Qed.
Lemma keeps_op op : Keeps (run_op op).
Proof.
  destruct op as [o|closed|i|i|i|i mute|d|fail|name o|name|i ev]; simpl.
  - apply keeps_StartServer.
  - intros h. apply keeps_StopServer.
  - apply keeps_stopAgent.
  - apply keeps_HardKill.
  - apply keeps_Restart.
  - apply Keeps_runner. intros r h Hi Hr. by apply (keeps_same i r).
  - intros h [Ha Hs Hm Hv Hu]. by constructor.
  - intros h [Ha Hs Hm Hv Hu]. by constructor.
  - intros h. by apply keeps_all.
  - intros h. by apply keeps_all.
  - apply Keeps_runner. intros r h Hi Hr. by apply (keeps_same i r).
Qed.
Lemma keeps_body ops : Keeps (body ops).
Proof. induction ops as [|op ops IH]; [apply Keeps_ret|]. simpl. apply Keeps_bind; [apply keeps_op|done]. Qed.
Lemma test_HInv opts dir blobs o ops : HInv (test opts dir blobs o ops).
Proof.
  unfold test, mbind, Hm_bind. assert (H0 : HInv (new_harness opts dir)) by (constructor; [split; [intros i; done|constructor]|done|done|by intros []|done]).
  pose proof (keeps_New blobs o _ H0 eq_refl) as H1. destruct (New blobs o (new_harness opts dir)) as [[e|[]] h1]; [done|]. by apply keeps_body.
Qed.

(** The cleanup of the agents. *)
Lemma stop_agents_spec l : ∀ h, HInv h → ∃ evs, let h' := foldl (λ h i, (stopAgent i h).2) h l in
  HInv h' ∧ h_trace h' = h_trace h ++ evs ∧ Forall agent_event evs ∧ length (h_ags h') = length (h_ags h) ∧
  (∀ i r', h_ags h' !! i = Some r' → i ∈ l ∨ (∃ r, h_ags h !! i = Some r ∧ phase r = Idle) → phase r' = Idle).
Proof.
  induction l as [|i l IH]; intros h Hi.
  { exists []. simpl. rewrite app_nil_r. split_and!; [done|done|constructor|done|]. intros i r' Hr' [[]%elem_of_nil|(r & Hr & Hp)]. congruence. }
  pose proof (keeps_stopAgent i h Hi) as Hi1. simpl foldl. set (h1 := (stopAgent i h).2) in *.
  assert (H1 : ∃ evs, h_trace h1 = h_trace h ++ evs ∧ Forall agent_event evs ∧ length (h_ags h1) = length (h_ags h) ∧
    ∀ j r1, h_ags h1 !! j = Some r1 → (j = i → phase r1 = Idle) ∧ (j ≠ i → h_ags h !! j = Some r1)).
  { unfold h1, stopAgent, mbind, Hm_bind, runner_at, update. destruct (h_ags h !! i) as [r|] eqn:Hr; simpl.
    - exists ((if hn_stop r then [CancelledAgent i] else []) ++ (if hn_done r then [JoinedAgent i] else [])).
      split_and!; [destruct (hn_stop r), (hn_done r); simpl; rewrite <-?app_assoc, ?app_nil_r; done|destruct (hn_stop r), (hn_done r); repeat constructor; by eexists| |].
      + rewrite length_insert. by destruct (hn_stop r), (hn_done r).
      + intros j r1 Hj. split; intros Hne.
        * subst j. assert (E : h_ags (if hn_done r then emit (JoinedAgent i) (if hn_stop r then emit (CancelledAgent i) h else h) else (if hn_stop r then emit (CancelledAgent i) h else h)) = h_ags h) by (by destruct (hn_done r), (hn_stop r)).
          simpl in Hj. rewrite E in Hj. rewrite list_lookup_insert_eq in Hj by (by eapply lookup_lt_Some). by injection Hj as <-.
        * simpl in Hj. rewrite list_lookup_insert_ne in Hj by done. by destruct (hn_done r), (hn_stop r).
    - exists []. rewrite app_nil_r. split_and!; [done|constructor|done|]. intros j r1 Hj. split; [intros ->; congruence|done]. }
  destruct H1 as (evs & Et & Hev & Hl & Hj). destruct (IH h1 Hi1) as (evs' & Hi2 & Et' & Hev' & Hl' & Hj'). exists (evs ++ evs'). cbv zeta.
  split_and!; [done|by rewrite Et', Et, app_assoc|by apply Forall_app|by rewrite Hl'|].
  intros j r' Hr' Hor. apply (Hj' j r' Hr'). destruct (decide (j ∈ l)) as [|Hnl]; [by left|right].
  assert (is_Some (h_ags h1 !! j)) as [r1 Hr1]. { apply lookup_lt_is_Some. rewrite <-Hl'. by eapply lookup_lt_Some. }
  exists r1. split; [done|]. destruct (decide (j = i)) as [->|Hne]; [by apply (Hj i r1)|]. pose proof (proj2 (Hj j r1 Hr1) Hne) as Hr.
  destruct Hor as [[->|?]%elem_of_cons|(r & Hr2 & Hp)]; [done|done|congruence].
Qed.

(** Whatever a test does, and wherever it fails, the cleanup leaves nothing behind: every
    agent goroutine and every monitor that was started was cancelled before it was joined,
    and joined before the next one was started; no agent ran twice at a time; stores, servers
    and monitors were started and ended in nested order, and at the end all are down.  The
    cleanup ends the agents before the monitor, the server and the store.  All servers of a
    test listen where the first one did.  While an agent runs its transport is up, and one
    that was stopped without being joined has a dead one. *)
Theorem harness_leaves_nothing_behind opts dir blobs o ops closed :
  let h := test opts dir blobs o ops in
  let h' := close closed h in
  (∀ i, walk (agent_step i) Idle (h_trace h') = Some Idle) ∧ walk server_step Down (h_trace h') = Some Down ∧
  h_st h' = None ∧ h_srv h' = None ∧ h_stopMon h' = false ∧
  (∃ stops ends, h_trace h' = h_trace h ++ stops ++ ends ∧ Forall agent_event stops ∧ Forall server_event ends) ∧
  address_ok (h_url h') (omap started (h_trace h')) ∧
  (∀ i r, h_ags h !! i = Some r → runner_ok r).
Proof.
  intros h h'. pose proof (test_HInv opts dir blobs o ops) as Hi. fold h in Hi.
  destruct (stop_agents_spec (seq 0 (length (h_ags h))) h Hi) as (evs & Hi1 & Et & Hev & Hl & Hidle). fold (stop_agents h) in Hi1, Et, Hl, Hidle.
  pose proof (keeps_StopServer closed (stop_agents h) Hi1) as Hi2. destruct (StopServer_fields closed (stop_agents h)) as (E1 & E2 & E3 & E4 & E5 & E6).
  change (StopServer closed (stop_agents h)) with h' in *. destruct Hi2 as [[Hw Ha] Hs Hm Hv Hu]. split_and!; [| |done|done|done| |done|intros i r Hr; exact (runner_is h i r Hi Hr)].
  - intros i. rewrite Hw, E4. destruct (h_ags (stop_agents h) !! i) as [r|] eqn:Hr; [|done]. simpl. f_equal. apply (Hidle i r Hr). left. apply elem_of_seq.
    rewrite <-Hl. pose proof (lookup_lt_Some _ _ _ Hr). lia.
  - rewrite Hs. unfold server_phase. by rewrite E1, E2, E3.
  - exists evs, (server_stop (stop_agents h)). split_and!; [by rewrite E6, Et, app_assoc|done|].
    apply server_stop_events.
Qed.
End harness.

(** One runner is killed hard and restarted over a restart of the server; killing it hard
    twice fails the test, and the cleanup joins it. *)
Definition demo_outside : Outside := mkOutside (mkOpenFaults false false no_mfaults)
  (λ addr, Some (if bool_decide (addr = "127.0.0.1:0") then "127.0.0.1:4711" else addr)) (λ k, if bool_decide (k = 0)%nat then None else Some 200) 3.
Definition demo_ops : list TestOp := [THardKill 0; TStopServer None; TStartServer demo_outside; TRestart 0; TMute 0 true; THardKill 0; THardKill 0; TKill 0].
Example harness_demo :
  let h := close None (test toy_exec [] 0 toy_fs (mkOpts 0 0 None 0 0 0 0 0 0 0) "/tmp/t1" (inr (mkStore [] ∅)) demo_outside demo_ops) in
  h_url h = "http://127.0.0.1:4711" ∧
  h_trace h = [OpenedStore; StartedServer "127.0.0.1:0" "127.0.0.1:4711"; StartedMonitor; StartedAgent 0; CancelledAgent 0;
               CancelledMonitor; JoinedMonitor; ClosedServer; ClosedStore;
               OpenedStore; StartedServer "127.0.0.1:4711" "127.0.0.1:4711"; StartedMonitor; JoinedAgent 0; StartedAgent 0; CancelledAgent 0;
               JoinedAgent 0; CancelledMonitor; JoinedMonitor; ClosedServer; ClosedStore].
Proof. vm_compute. by split. Qed.
