(* ===== verification/HarnessClient.v ===== *)
(** * The tests' client

    internal/harness, the second half: the thin client of the user API, the helpers that
    wait for an outcome, and LogText, which reads a whole log through the cursor and fails
    the test on a gap.  Requests go through [Net] with the background context; documents are
    decoded into the fields that the harness's structs have. *)

From S2P Require Import Prelude GoLib Pipeline Types Store Scheduler Protocol Advance Consistency Refinement Logs Ops LogOrder Demo SchedulerSpec Artifact LocalStore LocalSpec DockerFiles Api ApiSpec ApiExamples Router Client ClientSpec EndToEnd Remote Cli CliSpec CliClient CliClientSpec CliFollow CliServer Harness.
From Stdlib Require Import Ascii.

Local Open Scope Z_scope.

(** ** Wire types *)

Record HRun := mkHRun { hu_ID : string; hu_State : string; hu_CreatedAt : Z; hu_StartedAt : Z; hu_FinishedAt : Z }.
Record HJob := mkHJob {
  hj_ID : string; hj_RunID : string; hj_Name : string; hj_State : string; hj_Attempt : Z; hj_RunnerID : string; hj_FailureKind : string;
  hj_ExitCode : option Z; hj_Error : string }.
Record HEvent := mkHEvent { hv_ID : Z; hv_JobID : string; hv_Type : string; hv_Detail : list N; hv_CreatedAt : Z }.
Record HRunDetail := mkHRunDetail { hd_Run : HRun; hd_Jobs : list HJob }.
Record HLogChunk := mkHLogChunk { hc_Seq : Z; hc_Data : list N }.
Record HLogs := mkHLogs { hl_Attempt : Z; hl_Chunks : list HLogChunk; hl_Next : Z }.
Record HRunner := mkHRunnerRow { ho_ID : string; ho_Name : string; ho_State : string; ho_LastSeenAt : Z }.
Record HArtifact := mkHArtifact { hf_Path : string; hf_SizeBytes : Z; hf_SHA256 : string; hf_ContentType : string }.

Definition h_run (r : CliRun) : HRun := mkHRun (cr_ID r) (cr_State r) (cr_CreatedAt r) (cr_StartedAt r) (cr_FinishedAt r).
Definition h_job (j : CliJob) : HJob :=
  mkHJob (cb_ID j) (cb_RunID j) (cb_Name j) (cb_State j) (cb_Attempt j) (cb_RunnerID j) (cb_FailureKind j) (cb_ExitCode j) (cb_Error j).
Definition h_event (e : CliEvent) : HEvent := mkHEvent (ce_ID e) (ce_JobID e) (ce_Type e) (ce_Detail e) (ce_CreatedAt e).
Definition h_detail (d : RunDetail) : HRunDetail := mkHRunDetail (h_run (rd_Run d)) (h_job <$> rd_Jobs d).
Definition h_logs (l : CliLogs) : HLogs := mkHLogs (cg_Attempt l) ((λ c, mkHLogChunk (ck_Seq c) (ck_Data c)) <$> cg_Chunks l) (cg_Next l).
Definition h_runner (r : CliRunner) : HRunner := mkHRunnerRow (cn_ID r) (cn_Name r) (cn_State r) (cn_LastSeenAt r).
Definition h_artifact (a : CliArtifact) : HArtifact := mkHArtifact (ca_Path a) (ca_SizeBytes a) (ca_SHA256 a) (ca_ContentType a).

(** RunDetail.Job: the first job of that name. *)
Definition detail_Job (d : HRunDetail) (name : string) : option HJob := sql_row (λ j, bool_decide (hj_Name j = name)) (hd_Jobs d).

Inductive HErr := HUrl | HConn | HRead | HStatus (method path : string) (status : Z) (text : string) | HDecode.
Inductive TFatal := TSubmit (e : HErr) | TEvents (e : HErr) | TTimedOut (what : string) | TLogs (e : HErr) | TGap (seq after : Z) | TNext (next want : Z).

Section client.
Context {C V : Type} `{Net C V} (bg : C) (wire : CliWire) (url : string).

(** ** Client *)

Definition send_request (method path : string) (body : list N) (v : V) : (HErr + (Z * list N)) * V :=
  match http_Do bg (mkHttpRequest method (url +:+ path) ("Bearer " +:+ Token) "" (Z.of_nat (length body)) body) v with
  | (BadURL, v) => (inl HUrl, v)
  | (NoReply, v) => (inl HConn, v)
  | (Reply status resp _, v) => (match ReadAll resp with inl _ => inl HRead | inr raw => inr (status, raw) end, v)
  end.
Definition status_error (method path : string) (status : Z) (raw : list N) : HErr := HStatus method path status (TrimSpace (bytes_to_string raw)).
Definition do {T : Type} (method path : string) (body : list N) (dec : list N → option T) (v : V) : (HErr + T) * V :=
  match send_request method path body v with
  | (inl e, v) => (inl e, v)
  | (inr (status, raw), v) =>
      (if bool_decide (status < 200) || bool_decide (status >= 300) then inl (status_error method path status raw)
       else match dec raw with None => inl HDecode | Some t => inr t end, v)
  end.

Definition dec_detail (raw : list N) : option HRunDetail := h_detail <$> dec_run_detail wire raw.
Definition Submit (yaml : string) : V → (HErr + HRunDetail) * V := do "POST" "/api/runs" (bytes_of yaml) dec_detail.
Definition GetRun (id : string) : V → (HErr + HRunDetail) * V := do "GET" ("/api/runs/" +:+ id) [] dec_detail.
Definition Cancel (id : string) : V → (HErr + HRunDetail) * V := do "POST" ("/api/runs/" +:+ id +:+ "/cancel") [] dec_detail.
Definition Logs (id : string) (after : Z) : V → (HErr + HLogs) * V :=
  do "GET" ("/api/jobs/" +:+ id +:+ "/logs?after=" +:+ Itoa after) [] (λ raw, h_logs <$> dec_job_logs wire raw).
Definition Runners : V → (HErr + list HRunner) * V := do "GET" "/api/runners" [] (λ raw, map h_runner <$> dec_runners wire raw).
Definition Events (id : string) : V → (HErr + list HEvent) * V :=
  do "GET" ("/api/runs/" +:+ id +:+ "/events") [] (λ raw, map h_event <$> dec_events wire raw).
Definition Artifacts (id : string) : V → (HErr + list HArtifact) * V :=
  do "GET" ("/api/jobs/" +:+ id +:+ "/artifacts") [] (λ raw, map h_artifact <$> dec_artifacts wire raw).
Definition Download (id path : string) (v : V) : (HErr + list N) * V :=
  match send_request "GET" ("/api/jobs/" +:+ id +:+ "/artifacts/" +:+ path) [] v with
  | (inl e, v) => (inl e, v)
  | (inr (status, raw), v) => (if bool_decide (status = 200) then inr raw else inl (status_error "GET" path status raw), v)
  end.

(** ** Helpers *)

Definition must {T : Type} (f : HErr → TFatal) (call : V → (HErr + T) * V) (v : V) : (TFatal + T) * V :=
  let '(r, v) := call v in (match r with inl e => inl (f e) | inr t => inr t end, v).
Definition h_Submit (yaml : string) : V → (TFatal + HRunDetail) * V := must TSubmit (Submit yaml).
Definition h_Events (id : string) : V → (TFatal + list HEvent) * V := must TEvents (Events id).
Definition EventTypes (id : string) (v : V) : (TFatal + list string) * V :=
  match h_Events id v with (inl e, v) => (inl e, v) | (inr evs, v) => (inr (hv_Type <$> evs), v) end.

(** The conditions assign the variable that is returned. *)
Definition run_cond (id : string) (s : option HRunDetail * V) : bool * (option HRunDetail * V) :=
  match GetRun id s.2 with
  | (inl _, v) => (false, (s.1, v))
  | (inr d, v) => (bool_decide (hu_State (hd_Run d) = "succeeded" ∨ hu_State (hd_Run d) = "failed" ∨ hu_State (hd_Run d) = "cancelled"), (Some d, v))
  end.
Definition WaitRun (ticks : nat) (id : string) (v : V) : (TFatal + option HRunDetail) * V :=
  let '(ok, (last, v)) := WaitFor ticks (run_cond id) (None, v) in
  (if ok then inr last else inl (TTimedOut ("run " +:+ id +:+ " to finish")), v).
Definition job_cond (id name state : string) (s : option HJob * V) : bool * (option HJob * V) :=
  match GetRun id s.2 with
  | (inl _, v) => (false, (s.1, v))
  | (inr d, v) =>
      let last := detail_Job d name in
      (match last with Some j => bool_decide (hj_State j = state) | None => false end, (last, v))
  end.
Definition WaitJob (ticks : nat) (id name state : string) (v : V) : (TFatal + option HJob) * V :=
  let '(ok, (last, v)) := WaitFor ticks (job_cond id name state) (None, v) in
  (if ok then inr last else inl (TTimedOut ("job " +:+ name +:+ " of run " +:+ id +:+ " to be " +:+ state)), v).

(** ** LogText *)

Fixpoint read_chunks (cs : list HLogChunk) (out : list N) (next : Z) : TFatal + (list N * Z) :=
  match cs with
  | [] => inr (out, next)
  | c :: cs => if bool_decide (hc_Seq c = next) then read_chunks cs (out ++ hc_Data c) (int64 (next + 1)) else inl (TGap (hc_Seq c) (int64 (next - 1)))
  end.
(** [None] when the fuel, one for each round trip, is used up. *)
Fixpoint log_loop (fuel : nat) (id : string) (out : list N) (after next : Z) (v : V) : option ((TFatal + list N) * V) :=
  match fuel with
  | O => None
  | S fuel =>
      match Logs id after v with
      | (inl e, v) => Some (inl (TLogs e), v)
      | (inr l, v) =>
          match last (hl_Chunks l) with
          | None => Some (inr out, v)
          | Some c =>
              match read_chunks (hl_Chunks l) out next with
              | inl e => Some (inl e, v)
              | inr (out, next) =>
                  if bool_decide (hl_Next l = hc_Seq c) then log_loop fuel id out (hl_Next l) next v
                  else Some (inl (TNext (hl_Next l) (hc_Seq c)), v)
              end
          end
      end
  end.
Definition LogText (fuel : nat) (id : string) (v : V) : option ((TFatal + list N) * V) := log_loop fuel id [] 0 1 v.
End client.

(** ** Against the server *)

Section text.
Context {B F : Type} `{BlobStore B F} (srv : Server) (url : string) (enc_payload : Payload → list N) (wire : CliWire) (job : string).

(** Requests reach the server, one after the other. *)
#[local] Instance direct_net : Net unit (State B) := {
  ctx_Err := λ _ _, false;
  http_Do := λ _ rq st, serve srv url enc_payload rq st;
  timer := λ _ _ st, (true, st);
  open_file := λ _ _, None;
  local_op := λ _ st, (true, st)
}.
Definition h_client : CClient := mkCClient url Token 0 0.
Context (Haddr : cli_addressed srv url enc_payload wire h_client job 0).

Lemma reads_refl (st : State B) : reads st st.
Proof. by split. Qed.
Lemma reads_trans (a b c : State B) : reads a b → reads b c → reads a c.
Proof. intros [E1 E2] [E3 E4]. split; congruence. Qed.

(** One page. *)
Lemma Logs_answers st row after : 0 ≤ after ≤ int64_max → job_at (w_db (st_w st)) job = Some row →
  ∃ st', Logs tt wire url job after st = (inr (h_logs (cli_logs (logs_answer job 0 (w_db (st_w st)) row after))), st') ∧ reads st st'.
Proof.
  intros Ha Hr. destruct (serve_logs srv url enc_payload wire h_client job 0 Haddr st row after ltac:(lia) Hr) as (resp & n & st' & E & Hrd & Hor).
  exists st'. split; [|done]. unfold Logs, do, send_request. destruct Haddr as [[Hesc _] _ _ _ _ _ Hdec _ _].
  assert (Erq : mkHttpRequest "GET" (url +:+ "/api/jobs/" +:+ job +:+ "/logs?after=" +:+ Itoa after) ("Bearer " +:+ Token) "" (Z.of_nat (length (@nil N))) [] = get_rq h_client (logs_uri job 0 after)).
  { unfold get_rq, logs_uri, logs_query, h_client. simpl. rewrite Hesc, string_app_nil. reflexivity. }
  rewrite Erq. change (http_Do tt (get_rq h_client (logs_uri job 0 after)) st) with (serve srv url enc_payload (get_rq h_client (logs_uri job 0 after)) st).
  rewrite E. destruct Hor as [[_ Hb] | ->]; [destruct Hb; unfold int64_max in *; lia|]. simpl. by rewrite Hdec.
Qed.

(** The chunks of the answer, and the checks on them. *)
Definition numbered (rows : list LogRow) : Prop := lr_seq <$> rows = seqZ 1 (Z.of_nat (length rows)).
#[local] Instance numbered_dec rows : Decision (numbered rows).
Proof. unfold numbered. apply _. Defined.
Definition h_chunk (r : LogRow) : HLogChunk := mkHLogChunk (lr_seq r) (lr_data r).

Lemma read_numbered rows : ∀ out next, 0 < next → next + Z.of_nat (length rows) ≤ int64_max →
  lr_seq <$> rows = seqZ next (Z.of_nat (length rows)) →
  read_chunks (h_chunk <$> rows) out next = inr (out ++ mjoin (lr_data <$> rows), next + Z.of_nat (length rows)).
Proof.
  induction rows as [|r rows IH]; intros out next Hn Hle Hs; [simpl; by rewrite app_nil_r, Z.add_0_r|].
  simpl length in *. rewrite Nat2Z.inj_succ in *. rewrite seqZ_cons in Hs by lia. injection Hs as E Hs. simpl. rewrite bool_decide_true by done.
  assert (Ei : int64 (next + 1) = next + 1) by (apply int64_id; unfold in_int64, int64_min, int64_max in *; lia). rewrite Ei, IH; [|lia|lia|].
  - f_equal. f_equal; [by rewrite <-app_assoc|lia].
  - etrans; [exact Hs|]. by rewrite Z.pred_succ, Z.add_1_r.
Qed.
Lemma read_gap rows : ∀ out next, 0 < next → next + Z.of_nat (length rows) ≤ int64_max →
  lr_seq <$> rows ≠ seqZ next (Z.of_nat (length rows)) → ∃ r i, r ∈ rows ∧ lr_seq r ≠ i + 1 ∧ read_chunks (h_chunk <$> rows) out next = inl (TGap (lr_seq r) i).
Proof.
  induction rows as [|r rows IH]; intros out next Hn Hle Hs; [done|]. simpl length in *. rewrite Nat2Z.inj_succ in *. simpl.
  destruct (decide (lr_seq r = next)) as [E|E].
  - rewrite bool_decide_true by done. assert (Ei : int64 (next + 1) = next + 1) by (apply int64_id; unfold in_int64, int64_min, int64_max in *; lia). rewrite Ei.
    destruct (IH (out ++ lr_data r) (next + 1)) as (x & i & Hx & Hne & Er); [lia|lia| |exists x, i; split_and!; [by right|done|done]].
    intros Hq. apply Hs. rewrite seqZ_cons by lia. by rewrite fmap_cons, Hq, Z.pred_succ, E, Z.add_1_r.
  - rewrite bool_decide_false by done. exists r, (next - 1). assert (Ei : int64 (next - 1) = next - 1) by (apply int64_id; unfold in_int64, int64_min, int64_max in *; lia).
    rewrite Ei. split_and!; [by left|lia|done].
Qed.

Lemma last_numbered rows r : numbered rows → last rows = Some r → lr_seq r = Z.of_nat (length rows).
Proof.
  unfold numbered. intros Hn Hl. rewrite last_lookup in Hl. pose proof (f_equal (λ l, l !! pred (length rows)) Hn) as E. simpl in E.
  rewrite list_lookup_fmap, Hl in E. simpl in E. symmetry in E. apply lookup_seqZ in E as [-> Hlt]. lia.
Qed.
(** Beyond the last chunk there is nothing. *)
Lemma page_beyond d n rows : rows = page d job n 0 → numbered rows → page d job n (Z.of_nat (length rows)) = [].
Proof.
  intros Er Hn. destruct (page d job n (Z.of_nat (length rows))) as [|x l] eqn:E; [done|]. exfalso.
  assert (Hx : x ∈ page d job n (Z.of_nat (length rows))) by (rewrite E; left). unfold page in Hx.
  rewrite elem_of_order_by, elem_of_sql_select, andb_true_iff, bool_decide_eq_true in Hx. destruct Hx as [Hx [Hc Hlt]].
  assert (Hr : x ∈ rows).
  { rewrite Er. unfold page. rewrite elem_of_order_by, elem_of_sql_select, andb_true_iff, bool_decide_eq_true. split_and!; [done|done|lia]. }
  assert (Hz : lr_seq x ∈ seqZ 1 (Z.of_nat (length rows))) by (rewrite <-Hn; by apply list_elem_of_fmap_2). apply elem_of_seqZ in Hz. lia.
Qed.
Lemma answer_chunks d row after : hl_Chunks (h_logs (cli_logs (logs_answer job 0 d row after))) = h_chunk <$> page d job (jr_attempt row) after.
Proof. unfold logs_answer, asked. simpl. by rewrite <-!list_fmap_compose. Qed.

(** LogText needs two round trips and changes nothing.  When the chunks of the job's current
    attempt are numbered from one it returns their bytes, in order; otherwise it fails the
    test with a chunk that does not follow its predecessor.  So a log it returns has no gap. *)
Theorem log_text_is_the_stored_log st row fuel :
  job_at (w_db (st_w st)) job = Some row → let rows := page (w_db (st_w st)) job (jr_attempt row) 0 in
  Z.of_nat (length rows) < int64_max → (2 ≤ fuel)%nat →
  ∃ r st', LogText tt wire url fuel job st = Some (r, st') ∧ reads st st' ∧
    if decide (numbered rows) then r = inr (mjoin (lr_data <$> rows))
    else ∃ x i, x ∈ rows ∧ lr_seq x ≠ i + 1 ∧ r = inl (TGap (lr_seq x) i).
Proof.
  intros Hr rows Hlen Hfuel. destruct fuel as [|[|fuel]]; [lia|lia|]. unfold LogText. cbn [log_loop].
  destruct (Logs_answers st row 0 ltac:(unfold int64_max; lia) Hr) as (st1 & -> & Hrd1). rewrite answer_chunks. fold rows. rewrite fmap_last.
  destruct (last rows) as [x|] eqn:Hl; simpl fmap.
  2:{ apply last_None in Hl. rewrite Hl. exists (inr []), st1. split_and!; [done|done|]. by rewrite decide_True by done. }
  destruct (decide (numbered rows)) as [Hn|Hn].
  - rewrite read_numbered by (done || lia). pose proof (last_numbered rows x Hn Hl) as Ex.
    assert (Enext : hl_Next (h_logs (cli_logs (logs_answer job 0 (w_db (st_w st)) row 0))) = Z.of_nat (length rows)).
    { unfold logs_answer, asked. simpl. fold rows. rewrite Hl. exact Ex. }
    rewrite Enext. simpl hc_Seq. rewrite bool_decide_true by done.
    assert (Hr1 : job_at (w_db (st_w st1)) job = Some row) by (by rewrite (proj1 Hrd1)).
    destruct (Logs_answers st1 row (Z.of_nat (length rows)) ltac:(lia) Hr1) as (st2 & -> & Hrd2). rewrite answer_chunks, (proj1 Hrd1).
    rewrite (page_beyond (w_db (st_w st)) (jr_attempt row) rows eq_refl Hn). simpl. exists (inr (mjoin (lr_data <$> rows))), st2.
    split_and!; [done|by eapply reads_trans|done].
  - destruct (read_gap rows [] 1 ltac:(lia) ltac:(lia) Hn) as (y & i & Hy & Hne & ->). exists (inl (TGap (lr_seq y) i)), st1.
    split_and!; [done|done|]. by exists y, i.
Qed.
End text.

(** The log of the demonstration's job, read through a server with the harness's token. *)
Definition h_demo_srv : Server := mkServer Token demo_s (sv_codecs demo_srv).
Lemma h_demo_addressed : cli_addressed h_demo_srv "http://ci" toy_encode toy_wire (h_client "http://ci") "j1" 0.
Proof. destruct toy_addressed as [H1 H2 H3 H4 H5 H6 H7 H8 H9]. by constructor. Qed.
Lemma log_text_is_the_stored_log_witness :
  ∃ st', LogText (H := direct_net h_demo_srv "http://ci" toy_encode) tt toy_wire "http://ci" 2 "j1" (mkState (run_ops demo_s j1_ops demo_w) demo_store) = Some (inr [104; 105; 33]%N, st').
Proof.
  destruct (job_at (w_db (run_ops demo_s j1_ops demo_w)) "j1") as [row|] eqn:Hr; [|vm_compute in Hr; discriminate].
  destruct (log_text_is_the_stored_log h_demo_srv "http://ci" toy_encode toy_wire "j1" h_demo_addressed (mkState (run_ops demo_s j1_ops demo_w) demo_store) row 2 Hr) as (r & st' & E & _ & Hif).
  - vm_compute in Hr. injection Hr as <-. vm_compute. reflexivity.
  - lia.
  - exists st'. rewrite E. vm_compute in Hr. injection Hr as <-. revert Hif. vm_compute. by intros ->.
Defined.

(** ** Waiting *)

Lemma WaitFor_ok {V : Type} (cond : V → bool * V) ticks : ∀ v v', WaitFor ticks cond v = (true, v') → ∃ v0, cond v0 = (true, v').
Proof.
  induction ticks as [|ticks IH]; intros v v'; simpl; destruct (cond v) as [[] v1] eqn:E; try done; [intros [= <-]; by exists v..|]. apply IH.
Qed.
Section waiting.
Context {C V : Type} `{Net C V} (bg : C) (wire : CliWire) (url : string).

(** What the helpers return is what they waited for: a run that is terminal, and the job of
    that name in that state. *)
Theorem waits_return_what_they_wait_for ticks id name state v v' :
  (∀ last, WaitRun bg wire url ticks id v = (inr last, v') → ∃ d, last = Some d ∧ runTerminal (hu_State (hd_Run d)) = true) ∧
  (∀ last, WaitJob bg wire url ticks id name state v = (inr last, v') → ∃ j, last = Some j ∧ hj_Name j = name ∧ hj_State j = state).
Proof.
  split; intros last; [unfold WaitRun|unfold WaitJob]; destruct (WaitFor _ _ _) as [[] [l v1]] eqn:E; try done; intros [= -> ->]; apply WaitFor_ok in E as [[l0 v0] E];
    [unfold run_cond in E|unfold job_cond in E]; simpl in E; destruct (GetRun bg wire url id v0) as [[e|d] v2]; try done; injection E as E1 E2 _; rewrite <-E2.
  - exists d. by split.
  - destruct (detail_Job d name) as [j|] eqn:Ej; [|done]. exists j. apply sql_row_Some in Ej as [_ Hn]. rewrite bool_decide_eq_true in Hn, E1. by split_and!.
Qed.
End waiting.

(** ** The muted transport *)

Fixpoint LastByte (s : string) : option ascii := match s with EmptyString => None | String c EmptyString => Some c | String _ s => LastByte s end.
Lemma LastByte_app a c s : LastByte (a +:+ String c s) = LastByte (String c s).
Proof. induction a as [|x a IH]; [done|]. rewrite append_cons. destruct a; [done|]. rewrite append_cons in *. exact IH. Qed.
Lemma HasSuffix_last suf s : LastByte s ≠ LastByte suf → suf ≠ "" → HasSuffix s suf = false.
Proof.
  unfold HasSuffix. intros Hl Hne. induction s as [|c s IH]; cbn [CutSuffix]; rewrite bool_decide_false by (by intros <-); [done|].
  destruct s as [|c' s]; [cbn [CutSuffix]; by rewrite bool_decide_false by (by intros <-)|]. specialize (IH Hl).
  by destruct (CutSuffix (String c' s) suf).
Qed.
Lemma unescape_runner_url id tail : url_safe id → PathUnescape tail = Some tail →
  PathUnescape ("/api/runner/jobs/" +:+ id +:+ tail) = Some ("/api/runner/jobs/" +:+ id +:+ tail).
Proof.
  intros [Hid _] Ht. assert (E : PathUnescape (id +:+ tail) = Some (id +:+ tail)) by (rewrite <-Hid at 1; by rewrite PathUnescape_app, Ht).
  repeat (rewrite append_cons; cbn [PathUnescape]). change ("" +:+ id +:+ tail) with (id +:+ tail). rewrite E. reflexivity.
Qed.

Section muted.
Context {V : Type} (base : string) (default_do : HttpRequest → V → HttpReply * V).

Lemma request_path_below method path auth ctype len body p : ContainsByte path "?" = false → PathUnescape path = Some p →
  request_path base (mkHttpRequest method (base +:+ path) auth ctype len body) = p.
Proof.
  intros Hq Hp. unfold request_path, TrimPrefix. simpl. rewrite (proj2 (CutPrefix_app _ base path) eq_refl). simpl. rewrite (Cut_none path "?"%char) by done.
  unfold pathUnescape. by rewrite Hp.
Qed.

(** A runner whose heartbeats are muted still registers, claims, ships its logs and reports:
    of these requests the transport drops the heartbeats and passes everything else on. *)
Theorem muting_drops_the_heartbeats t rq v id method auth ctype len body path :
  tp_dead t = false → tp_muteHB t = true → url_safe id →
  path ∈ ["/api/runner/register"; "/api/runner/claim"; "/api/runner/heartbeat"; completeURL id; logsURL id] →
  rq = mkHttpRequest method (base +:+ path) auth ctype len body →
  RoundTrip base default_do t rq v = if bool_decide (path = "/api/runner/heartbeat") then (NoReply, v) else default_do rq v.
Proof.
  intros Hd Hm Hid Hp ->. unfold RoundTrip. rewrite Hd, Hm. simpl. pose proof (PathEscape_no_query id) as Hno. rewrite (proj1 Hid) in Hno.
  assert (Hpass : ∀ p, PathUnescape p = Some p → ContainsByte p "?" = false → LastByte p ≠ Some "t"%char →
    (if HasSuffix (request_path base (mkHttpRequest method (base +:+ p) auth ctype len body)) "/api/runner/heartbeat" then (NoReply, v)
     else default_do (mkHttpRequest method (base +:+ p) auth ctype len body) v) =
    (if bool_decide (p = "/api/runner/heartbeat") then (NoReply, v) else default_do (mkHttpRequest method (base +:+ p) auth ctype len body) v)).
  { intros p H1 H2 H3. rewrite (request_path_below _ p _ _ _ _ p H2 H1), HasSuffix_last by done. rewrite bool_decide_false; [done|]. by intros ->. }
  assert (Hurl : ∀ tail, PathUnescape tail = Some tail → ContainsByte tail "?" = false → LastByte tail ≠ Some "t"%char → tail ≠ "" →
    PathUnescape ("/api/runner/jobs/" +:+ id +:+ tail) = Some ("/api/runner/jobs/" +:+ id +:+ tail) ∧ ContainsByte ("/api/runner/jobs/" +:+ id +:+ tail) "?" = false ∧
    LastByte ("/api/runner/jobs/" +:+ id +:+ tail) ≠ Some "t"%char).
  { intros [|c tail] H1 H2 H3 H4; [done|]. split_and!; [by apply unescape_runner_url|by rewrite !ContainsByte_app, Hno, H2|].
    by rewrite <-string_app_assoc, LastByte_app. }
  rewrite !elem_of_cons in Hp. destruct Hp as [-> |[-> |[-> |[-> |[-> |[]%elem_of_nil]]]]].
  - by apply Hpass.
  - by apply Hpass.
  - by rewrite (request_path_below _ "/api/runner/heartbeat" _ _ _ _ "/api/runner/heartbeat" eq_refl eq_refl).
  - destruct (Hurl "/complete") as (H1 & H2 & H3); [done..|]. by apply Hpass.
  - destruct (Hurl "/logs") as (H1 & H2 & H3); [done..|]. by apply Hpass.
Qed.
End muted.

Lemma muting_drops_the_heartbeats_witness :
  let do (rq : HttpRequest) (v : nat) := (Reply 200 (mkBody [] None) 0, S v) in
  RoundTrip "http://ci" do (mkTransport true false) (mkHttpRequest "POST" ("http://ci" +:+ completeURL "j1") "" "" 0 []) 7%nat = (Reply 200 (mkBody [] None) 0, 8%nat).
Proof.
  intros do. rewrite (muting_drops_the_heartbeats "http://ci" do (mkTransport true false) _ 7%nat "j1" "POST" "" "" 0 [] (completeURL "j1"));
    [reflexivity|reflexivity|reflexivity|done|set_solver|reflexivity].
Defined.
